(** * pmibot: the pagination cursor and the autonomous Connect driver

    A shallow embedding of [simple_click_connect_attach.py] and of the URL
    helper of [click_connect_helper.py], with the pieces of the Python
    runtime they call ([urllib.parse], [int], [str]) modelled after CPython
    3.11, and the Playwright page as an oracle that answers each command. *)

From Stdlib Require Import List NArith ZArith Lia Bool String Ascii.
Import ListNotations.


(** ** Python values *)

(** A Python [str] is a sequence of code points; [bytes] a sequence of
    numbers below 256. *)
Definition codepoint := N.
Definition str := list codepoint.
Definition bytes := list N.

(** The exceptions the two scripts can meet.  A Playwright exception
    carries its message, which the driver inspects. *)
Inductive exn : Type :=
| ValueError
| UnicodeEncodeError
| IndexError
| PlaywrightError (message : str)
| PlaywrightTimeoutError (message : str).

(** [except ValueError]: [UnicodeEncodeError] is a [ValueError]. *)
Definition is_value_error (e : exn) : bool :=
  match e with
  | ValueError | UnicodeEncodeError => true
  | _ => false
  end.

(** [except PlaywrightError]: Playwright's [TimeoutError] is one. *)
Definition is_playwright_error (e : exn) : bool :=
  match e with
  | PlaywrightError _ | PlaywrightTimeoutError _ => true
  | _ => false
  end.

(** [except PlaywrightTimeoutError] *)
Definition is_playwright_timeout (e : exn) : bool :=
  match e with
  | PlaywrightTimeoutError _ => true
  | _ => false
  end.

Inductive result (A : Type) : Type :=
| Ok (a : A)
| Raise (e : exn).
Arguments Ok {A} a.
Arguments Raise {A} e.

Definition rbind {A B} (r : result A) (k : A -> result B) : result B :=
  match r with
  | Ok a => k a
  | Raise e => Raise e
  end.

Fixpoint rmap {A B} (f : A -> result B) (l : list A) : result (list B) :=
  match l with
  | [] => Ok []
  | x :: r =>
      rbind (f x) (fun y => rbind (rmap f r) (fun ys => Ok (y :: ys)))
  end.

Module PyStr.
Local Open Scope N_scope.

(** A string literal of the source, as code points. *)
Definition lit (s : string) : str := map N_of_ascii (list_ascii_of_string s).

Fixpoint eqb (a b : str) : bool :=
  match a, b with
  | [], [] => true
  | x :: a', y :: b' => (x =? y) && eqb a' b'
  | _, _ => false
  end.

(** [c in s] *)
Definition contains (c : codepoint) (s : str) : bool := existsb (N.eqb c) s.

(** [s.split(c, 1)] when [c] occurs in [s]: the text before the first [c]
    and the text after it; [None] when [c] does not occur. *)
Fixpoint partition (c : codepoint) (s : str) : option (str * str) :=
  match s with
  | [] => None
  | x :: r =>
      if x =? c then Some ([], r)
      else match partition c r with
           | Some (a, b) => Some (x :: a, b)
           | None => None
           end
  end.

(** [s.split(c)] *)
Fixpoint split (c : codepoint) (s : str) : list str :=
  match s with
  | [] => [[]]
  | x :: r =>
      if x =? c then [] :: split c r
      else match split c r with
           | h :: t => (x :: h) :: t
           | [] => [[x]]
           end
  end.

(** [sep.join(l)] for a one-character separator *)
Fixpoint join (sep : codepoint) (l : list str) : str :=
  match l with
  | [] => []
  | [x] => x
  | x :: r => x ++ sep :: join sep r
  end.

(** [s.replace(a, b)] for single characters *)
Definition replace (a b : codepoint) (s : str) : str :=
  map (fun c => if c =? a then b else c) s.

(** [s.replace(a, "")] *)
Definition remove (a : codepoint) (s : str) : str :=
  filter (fun c => negb (c =? a)) s.

(** [s.lstrip(chars)] for the set of characters satisfying [p] *)
Fixpoint lstrip (p : codepoint -> bool) (s : str) : str :=
  match s with
  | [] => []
  | x :: r => if p x then lstrip p r else s
  end.

Definition is_upper (c : codepoint) : bool := (65 <=? c) && (c <=? 90).
Definition is_lower (c : codepoint) : bool := (97 <=? c) && (c <=? 122).
Definition is_digit (c : codepoint) : bool := (48 <=? c) && (c <=? 57).
Definition is_ascii_alpha (c : codepoint) : bool := is_upper c || is_lower c.

Fixpoint starts_with (prefix s : str) : bool :=
  match prefix, s with
  | [], _ => true
  | x :: p', y :: s' => (x =? y) && starts_with p' s'
  | _ :: _, [] => false
  end.

(** [needle in s] for strings *)
Fixpoint has_sub (needle s : str) : bool :=
  starts_with needle s
  || match s with
     | [] => false
     | _ :: r => has_sub needle r
     end.

(** [s.lower()] on ASCII text *)
Definition lower (s : str) : str :=
  map (fun c => if is_upper c then c + 32 else c) s.

End PyStr.

(** Characters the parsers look for. *)
Module Ch.
Local Open Scope N_scope.
Definition TAB : codepoint := 9.
Definition LF : codepoint := 10.
Definition CR : codepoint := 13.
Definition SPACE : codepoint := 32.
Definition HASH : codepoint := 35.
Definition PERCENT : codepoint := 37.
Definition AMP : codepoint := 38.
Definition PLUS : codepoint := 43.
Definition MINUS : codepoint := 45.
Definition DOT : codepoint := 46.
Definition SLASH : codepoint := 47.
Definition COLON : codepoint := 58.
Definition EQUALS : codepoint := 61.
Definition QMARK : codepoint := 63.
Definition UNDERSCORE : codepoint := 95.
Definition TILDE : codepoint := 126.
Definition REPLACEMENT : codepoint := 65533.
End Ch.

(** ** UTF-8, as [str.encode('utf-8')] and [bytes.decode('utf-8', 'replace')] *)
Module Utf8.
Local Open Scope N_scope.

Definition is_scalar (c : codepoint) : bool :=
  (c <? 55296) || ((57344 <=? c) && (c <? 1114112)).

(** Strict encoding of one code point; a surrogate cannot be encoded. *)
Definition encode1 (c : codepoint) : result bytes :=
  if c <? 128 then Ok [c]
  else if c <? 2048 then Ok [192 + c / 64; 128 + c mod 64]
  else if c <? 65536 then
    if (55296 <=? c) && (c <? 57344) then Raise UnicodeEncodeError
    else Ok [224 + c / 4096; 128 + (c / 64) mod 64; 128 + c mod 64]
  else if c <? 1114112 then
    Ok [240 + c / 262144; 128 + (c / 4096) mod 64;
        128 + (c / 64) mod 64; 128 + c mod 64]
  else Raise UnicodeEncodeError.

Fixpoint encode (s : str) : result bytes :=
  match s with
  | [] => Ok []
  | c :: r =>
      rbind (encode1 c) (fun b => rbind (encode r) (fun bs => Ok (b ++ bs)))
  end.

Definition is_cont (b : N) : bool := (128 <=? b) && (b <? 192).

(** Second byte of a three-byte sequence: a continuation byte that is
    neither an overlong form (lead E0) nor a surrogate (lead ED). *)
Definition second_of_3 (b1 b2 : N) : bool :=
  is_cont b2 && negb (if b2 <? 160 then b1 =? 224 else b1 =? 237).

(** Second byte of a four-byte sequence: not overlong (lead F0) and not
    beyond U+10FFFF (lead F4). *)
Definition second_of_4 (b1 b2 : N) : bool :=
  is_cont b2 && negb (if b2 <? 144 then b1 =? 240 else b1 =? 244).

(** Decoding with [errors='replace']: every maximal ill-formed prefix
    becomes one U+FFFD and decoding resumes at the offending byte. *)
Fixpoint decode (bs : bytes) : str :=
  match bs with
  | [] => []
  | b1 :: r1 =>
      if b1 <? 128 then b1 :: decode r1
      else if b1 <? 194 then Ch.REPLACEMENT :: decode r1
      else if b1 <? 224 then
        match r1 with
        | [] => [Ch.REPLACEMENT]
        | b2 :: r2 =>
            if is_cont b2 then ((b1 - 192) * 64 + (b2 - 128)) :: decode r2
            else Ch.REPLACEMENT :: decode r1
        end
      else if b1 <? 240 then
        match r1 with
        | [] => [Ch.REPLACEMENT]
        | b2 :: r2 =>
            if second_of_3 b1 b2 then
              match r2 with
              | [] => [Ch.REPLACEMENT]
              | b3 :: r3 =>
                  if is_cont b3 then
                    ((b1 - 224) * 4096 + (b2 - 128) * 64 + (b3 - 128))
                      :: decode r3
                  else Ch.REPLACEMENT :: decode r2
              end
            else Ch.REPLACEMENT :: decode r1
        end
      else if b1 <? 245 then
        match r1 with
        | [] => [Ch.REPLACEMENT]
        | b2 :: r2 =>
            if second_of_4 b1 b2 then
              match r2 with
              | [] => [Ch.REPLACEMENT]
              | b3 :: r3 =>
                  if is_cont b3 then
                    match r3 with
                    | [] => [Ch.REPLACEMENT]
                    | b4 :: r4 =>
                        if is_cont b4 then
                          ((b1 - 240) * 262144 + (b2 - 128) * 4096
                           + (b3 - 128) * 64 + (b4 - 128)) :: decode r4
                        else Ch.REPLACEMENT :: decode r3
                    end
                  else Ch.REPLACEMENT :: decode r2
              end
            else Ch.REPLACEMENT :: decode r1
        end
      else Ch.REPLACEMENT :: decode r1
  end.

End Utf8.

(** ** [urllib.parse] *)
Module UrlParse.
Local Open Scope N_scope.
Import PyStr.

(** *** Percent-encoding *)

(** [_ALWAYS_SAFE]: letters, digits and [_.-~] *)
Definition always_safe (b : N) : bool :=
  is_upper b || is_lower b || is_digit b
  || (b =? Ch.UNDERSCORE) || (b =? Ch.DOT) || (b =? Ch.MINUS) || (b =? Ch.TILDE).

Definition hex_upper (d : N) : codepoint := if d <? 10 then 48 + d else 55 + d.

(** [_Quoter.__missing__]: the byte itself when safe, else [%XX] *)
Definition quote_byte (safe : N -> bool) (b : N) : str :=
  if safe b then [b] else [Ch.PERCENT; hex_upper (b / 16); hex_upper (b mod 16)].

Definition quote_from_bytes (safe : N -> bool) (bs : bytes) : str :=
  flat_map (quote_byte safe) bs.

(** [quote(string, safe)]: UTF-8 encode strictly, then quote the bytes. *)
Definition quote (extra_safe : N -> bool) (s : str) : result str :=
  rbind (Utf8.encode s)
        (fun bs => Ok (quote_from_bytes (fun b => always_safe b || extra_safe b) bs)).

(** [quote_plus(string)] with [safe=''] *)
Definition quote_plus (s : str) : result str :=
  if negb (contains Ch.SPACE s) then quote (fun _ => false) s
  else rbind (quote (fun b => b =? Ch.SPACE) s)
             (fun q => Ok (replace Ch.SPACE Ch.PLUS q)).

Definition hex_value (c : codepoint) : option N :=
  if is_digit c then Some (c - 48)
  else if (65 <=? c) && (c <=? 70) then Some (c - 55)
  else if (97 <=? c) && (c <=? 102) then Some (c - 87)
  else None.

(** [unquote_to_bytes] on ASCII text: [%XX] with two hex digits becomes the
    byte, any other [%] stays. *)
Fixpoint unquote_to_bytes (s : str) : bytes :=
  match s with
  | [] => []
  | c :: r =>
      if c =? Ch.PERCENT then
        match r with
        | h1 :: h2 :: r2 =>
            match hex_value h1, hex_value h2 with
            | Some a, Some b => (16 * a + b) :: unquote_to_bytes r2
            | _, _ => Ch.PERCENT :: unquote_to_bytes r
            end
        | _ => Ch.PERCENT :: unquote_to_bytes r
        end
      else c :: unquote_to_bytes r
  end.

(** The body of [unquote]: [_asciire.split] cuts the text into maximal ASCII
    runs, each run is unquoted to bytes and decoded with
    [errors='replace'], and the text between the runs is kept.  [run] is
    the ASCII run read so far, reversed. *)
Fixpoint unquote_runs (run : str) (s : str) : str :=
  match s with
  | [] => Utf8.decode (unquote_to_bytes (rev run))
  | c :: r =>
      if c <? 128 then unquote_runs (c :: run) r
      else Utf8.decode (unquote_to_bytes (rev run)) ++ c :: unquote_runs [] r
  end.

(** [unquote(string)] with the defaults [encoding='utf-8'],
    [errors='replace'] *)
Definition unquote (s : str) : str :=
  if negb (contains Ch.PERCENT s) then s else unquote_runs [] s.

(** *** Query strings *)

(** One field of [parse_qsl] with [keep_blank_values=True]: a field without
    [=] has the empty value. *)
Definition parse_field (name_value : str) : str * str :=
  let nv := match partition Ch.EQUALS name_value with
            | Some (n, v) => (n, v)
            | None => (name_value, [])
            end in
  (unquote (replace Ch.PLUS Ch.SPACE (fst nv)),
   unquote (replace Ch.PLUS Ch.SPACE (snd nv))).

(** [parse_qsl(qs, keep_blank_values=True)]: empty fields are skipped. *)
Definition parse_qsl (qs : str) : list (str * str) :=
  match qs with
  | [] => []
  | _ => map parse_field
             (filter (fun f => match f with [] => false | _ => true end)
                     (split Ch.AMP qs))
  end.

(** A [dict] from [str] to lists of [str], in insertion order. *)
Definition dict := list (str * list str).

Fixpoint dict_get (k : str) (d : dict) : option (list str) :=
  match d with
  | [] => None
  | (k', v) :: r => if eqb k' k then Some v else dict_get k r
  end.

(** [d[k] = v]: an existing key keeps its place. *)
Fixpoint dict_set (k : str) (v : list str) (d : dict) : dict :=
  match d with
  | [] => [(k, v)]
  | (k', v') :: r => if eqb k' k then (k', v) :: r else (k', v') :: dict_set k v r
  end.

(** The loop body of [parse_qs]: append to the list of a known name, else
    start a new list. *)
Definition dict_add (d : dict) (nv : str * str) : dict :=
  match dict_get (fst nv) d with
  | Some vs => dict_set (fst nv) (vs ++ [snd nv]) d
  | None => dict_set (fst nv) [snd nv] d
  end.

(** [parse_qs(qs, keep_blank_values=True)] *)
Definition parse_qs (qs : str) : dict := fold_left dict_add (parse_qsl qs) [].

(** The fields [urlencode(query, doseq=True)] writes for one dictionary
    item. *)
Definition encode_item (kv : str * list str) : result (list str) :=
  rbind (quote_plus (fst kv))
        (fun k => rmap (fun elt => rbind (quote_plus elt)
                                         (fun e => Ok (k ++ Ch.EQUALS :: e)))
                       (snd kv)).

(** [urlencode(query, doseq=True)] *)
Definition urlencode (query : dict) : result str :=
  rbind (rmap encode_item query) (fun l => Ok (join Ch.AMP (List.concat l))).

(** *** Splitting and joining URLs *)

Record SplitResult : Type := mkSplit {
  scheme : str;
  netloc : str;
  path : str;
  query : str;
  fragment : str
}.

Definition scheme_char (c : codepoint) : bool :=
  is_lower c || is_upper c || is_digit c
  || (c =? Ch.PLUS) || (c =? Ch.MINUS) || (c =? Ch.DOT).

Definition uses_netloc : list str :=
  map lit [""; "ftp"; "http"; "gopher"; "nntp"; "telnet";
           "imap"; "wais"; "file"; "mms"; "https"; "shttp";
           "snews"; "prospero"; "rtsp"; "rtspu"; "rsync";
           "svn"; "svn+ssh"; "sftp"; "nfs"; "git"; "git+ssh";
           "ws"; "wss"]%string.

(** [_WHATWG_C0_CONTROL_OR_SPACE] *)
Definition c0_control_or_space (c : codepoint) : bool := c <=? 32.

Definition netloc_delim (c : codepoint) : bool :=
  (c =? Ch.SLASH) || (c =? Ch.QMARK) || (c =? Ch.HASH).

(** [_splitnetloc(url, 2)] on the text after the two slashes: the netloc
    runs to the first of [/?#]. *)
Fixpoint splitnetloc (s : str) : str * str :=
  match s with
  | [] => ([], [])
  | c :: r =>
      if netloc_delim c then ([], s)
      else let (n, rest) := splitnetloc r in (c :: n, rest)
  end.

(** The scheme test of [urlsplit]: a colon at a position [i > 0], an ASCII
    letter first and only scheme characters before the colon. *)
Definition split_scheme (url : str) : str * str :=
  match partition Ch.COLON url with
  | Some (c :: pre, rest) =>
      if is_ascii_alpha c && forallb scheme_char (c :: pre)
      then (lower (c :: pre), rest)
      else ([], url)
  | _ => ([], url)
  end.

Section Split.

(** The checks [urlsplit] runs on the netloc ([_check_bracketed_netloc],
    which asks [ipaddress], and [_checknetloc], which asks [unicodedata]):
    a function of the netloc alone, [false] where they raise. *)
Variable netloc_ok : str -> bool.

Definition urlsplit (url0 : str) : result SplitResult :=
  let url := lstrip c0_control_or_space url0 in
  let url := remove Ch.LF (remove Ch.CR (remove Ch.TAB url)) in
  let (sch, url) := split_scheme url in
  let (loc, url) :=
    match url with
    | c1 :: c2 :: r =>
        if (c1 =? Ch.SLASH) && (c2 =? Ch.SLASH) then splitnetloc r else ([], url)
    | _ => ([], url)
    end in
  let (url, frag) :=
    match partition Ch.HASH url with
    | Some (u, f) => (u, f)
    | None => (url, [])
    end in
  let (url, qry) :=
    match partition Ch.QMARK url with
    | Some (u, q) => (u, q)
    | None => (url, [])
    end in
  if netloc_ok loc then Ok (mkSplit sch loc url qry frag)
  else Raise ValueError.

End Split.

Definition starts_with_2slash (s : str) : bool :=
  match s with
  | c1 :: c2 :: _ => (c1 =? Ch.SLASH) && (c2 =? Ch.SLASH)
  | _ => false
  end.

Definition nonempty (s : str) : bool := match s with [] => false | _ => true end.

(** [urlunsplit((scheme, netloc, url, query, fragment))] *)
Definition urlunsplit (p : SplitResult) : str :=
  let url := path p in
  let url :=
    if nonempty (netloc p)
       || (nonempty (scheme p) && existsb (eqb (scheme p)) uses_netloc
           && negb (starts_with_2slash url))
    then
      let url := match url with
                 | c :: _ => if negb (c =? Ch.SLASH) then Ch.SLASH :: url else url
                 | [] => url
                 end in
      Ch.SLASH :: Ch.SLASH :: netloc p ++ url
    else url in
  let url := if nonempty (scheme p) then scheme p ++ Ch.COLON :: url else url in
  let url := if nonempty (query p) then url ++ Ch.QMARK :: query p else url in
  let url := if nonempty (fragment p) then url ++ Ch.HASH :: fragment p else url in
  url.

End UrlParse.

(** ** The builtins [str] and [int] on integers

    A conversion between [int] and [str] in base ten raises [ValueError]
    when more than [sys.get_int_max_str_digits()] digits are involved.
    Neither script changes that limit, so it is the default one. *)
Module PyInt.
Local Open Scope N_scope.
Import PyStr.

(** [sys.int_info.default_max_str_digits] *)
Definition MAX_STR_DIGITS : N := 4300.

Fixpoint digits_fuel (fuel : nat) (n : N) (acc : str) : str :=
  match fuel with
  | O => acc
  | S f =>
      let acc' := (48 + n mod 10) :: acc in
      if n / 10 =? 0 then acc' else digits_fuel f (n / 10) acc'
  end.

(** The decimal numeral of [n]. *)
Definition decimal (n : Z) : str :=
  match n with
  | Z0 => [48]
  | Zpos p => digits_fuel (S (N.to_nat (N.size (Npos p)))) (Npos p) []
  | Zneg p => Ch.MINUS :: digits_fuel (S (N.to_nat (N.size (Npos p)))) (Npos p) []
  end.

(** The number of digits of that numeral; the sign is not one. *)
Definition num_digits (n : Z) : N := N.of_nat (List.length (decimal (Z.abs n))).

(** [str(n)], and [n] in an f-string: the numeral of a number within the
    limit. *)
Definition str_of_int (n : Z) : result str :=
  if MAX_STR_DIGITS <? num_digits n then Raise ValueError else Ok (decimal n).

(** [Py_ISSPACE] *)
Definition is_space (c : codepoint) : bool :=
  ((9 <=? c) && (c <=? 13)) || (c =? 32).

(** Code points above ASCII for which [str.isspace] holds (Unicode 14). *)
Definition unicode_spaces : list codepoint :=
  [133; 160; 5760; 8192; 8193; 8194; 8195; 8196; 8197; 8198; 8199; 8200;
   8201; 8202; 8232; 8233; 8239; 8287; 12288].

(** The zero of every block of decimal digits above ASCII (Unicode 14); the
    nine code points after a zero are the digits one to nine. *)
Definition unicode_zeros : list codepoint :=
  [1632; 1776; 1984; 2406; 2534; 2662; 2790; 2918; 3046; 3174; 3302; 3430;
   3558; 3664; 3792; 3872; 4160; 4240; 6112; 6160; 6470; 6608; 6784; 6800;
   6992; 7088; 7232; 7248; 42528; 43216; 43264; 43472; 43504; 43600; 44016;
   65296; 66720; 68912; 69734; 69872; 69942; 70096; 70384; 70736; 70864;
   71248; 71360; 71472; 71904; 72016; 72784; 73040; 73120; 92768; 92864;
   93008; 120782; 120792; 120802; 120812; 120822; 123200; 123632; 125264;
   130032].

Definition to_decimal (c : codepoint) : option N :=
  match find (fun z => (z <=? c) && (c <? z + 10)) unicode_zeros with
  | Some z => Some (c - z)
  | None => None
  end.

(** [_PyUnicode_TransformDecimalAndSpaceToASCII]: ASCII text is left alone;
    otherwise spaces become a blank, decimal digits their ASCII digit and
    anything else above ASCII a question mark. *)
Definition to_ascii (s : str) : str :=
  if forallb (fun c => c <? 128) s then s
  else map (fun c =>
              if c <? 127 then c
              else if existsb (N.eqb c) unicode_spaces then Ch.SPACE
              else match to_decimal c with
                   | Some d => 48 + d
                   | None => Ch.QMARK
                   end) s.

Inductive prev : Type := PStart | PDigit | PUnderscore.

(** The digit scan of [PyLong_FromString] in base ten: digits, with single
    underscores between digits only.  Returns the value and the rest. *)
Fixpoint scan_digits (s : str) (acc : N) (p : prev) : option (N * str) :=
  match s with
  | [] => match p with PDigit => Some (acc, []) | _ => None end
  | c :: r =>
      if is_digit c then scan_digits r (10 * acc + (c - 48)) PDigit
      else if c =? Ch.UNDERSCORE then
        match p with
        | PDigit => scan_digits r acc PUnderscore
        | _ => None
        end
      else match p with PDigit => Some (acc, s) | _ => None end
  end.

(** The digits the scan counts: those of the leading run of digits and
    underscores, leading zeros included. *)
Fixpoint count_digits (s : str) : N :=
  match s with
  | [] => 0
  | c :: r =>
      if is_digit c then N.succ (count_digits r)
      else if c =? Ch.UNDERSCORE then count_digits r
      else 0
  end.

(** [int(s)] for a [str]: a numeral with more digits than the limit is
    refused like a text that is no numeral. *)
Definition int_of_str (s : str) : result Z :=
  let t := lstrip is_space (to_ascii s) in
  let (neg, t) :=
    match t with
    | c :: r => if c =? Ch.PLUS then (false, r)
                else if c =? Ch.MINUS then (true, r)
                else (false, t)
    | [] => (false, t)
    end in
  match scan_digits t 0 PStart with
  | Some (v, rest) =>
      if MAX_STR_DIGITS <? count_digits t then Raise ValueError
      else match lstrip is_space rest with
           | [] => Ok (if neg then (- Z.of_N v)%Z else Z.of_N v)
           | _ => Raise ValueError
           end
  | None => Raise ValueError
  end.

End PyInt.

(** ** The pagination cursor *)
Module Cursor.
Import PyStr UrlParse.

Definition PAGE : str := lit "page".

Section Cursor.
Variable netloc_ok : str -> bool.

(** [get_page_number_from_url] of simple_click_connect_attach.py *)
Definition get_page_number_from_url (url : str) : result (option Z) :=
  rbind (urlsplit netloc_ok url) (fun parts =>
  let query := parse_qs (query parts) in
  match dict_get PAGE query with
  | None => Ok None
  | Some [] => Raise IndexError
  | Some (current_raw :: _) =>
      match PyInt.int_of_str current_raw with
      | Ok n => Ok (Some n)
      | Raise e => if is_value_error e then Ok None else Raise e
      end
  end).

(** [with_page_number] of simple_click_connect_attach.py *)
Definition with_page_number (url : str) (page_number : Z) : result str :=
  rbind (urlsplit netloc_ok url) (fun parts =>
  let query := parse_qs (query parts) in
  rbind (PyInt.str_of_int page_number) (fun page_text =>
  let query := dict_set PAGE [page_text] query in
  rbind (urlencode query) (fun next_query =>
  Ok (urlunsplit (mkSplit (scheme parts) (netloc parts) (path parts)
                          next_query (fragment parts)))))).

(** [increment_page_query] of click_connect_helper.py *)
Definition increment_page_query (url : str) : result (str * Z) :=
  rbind (urlsplit netloc_ok url) (fun parts =>
  let query := parse_qs (query parts) in
  let current_page_str := match dict_get PAGE query with
                          | None => Ok (lit "1")
                          | Some [] => Raise IndexError
                          | Some (v :: _) => Ok v
                          end in
  rbind current_page_str (fun current_page_str =>
  let current_page :=
    match PyInt.int_of_str current_page_str with
    | Ok n => Ok n
    | Raise e => if is_value_error e then Ok 1%Z else Raise e
    end in
  rbind current_page (fun current_page =>
  let next_page := (current_page + 1)%Z in
  rbind (PyInt.str_of_int next_page) (fun next_text =>
  let query := dict_set PAGE [next_text] query in
  rbind (urlencode query) (fun next_query =>
  let next_url := urlunsplit (mkSplit (scheme parts) (netloc parts) (path parts)
                                      next_query (fragment parts)) in
  Ok (next_url, next_page)))))).

End Cursor.
End Cursor.

(** ** The Playwright page

    The page is an oracle: it answers every command from a hidden state of
    type [World] and moves to a new state.  Nothing is assumed about the
    answers, so what is proved holds for every page. *)
Module Browser.
Import PyStr.

(** Locators are descriptions; only a command looks at the page. *)
Inductive Locator : Type :=
| PageRole (role : str) (name : option str)
    (* page.get_by_role(role) / page.get_by_role(role, name=..., exact=True) *)
| PageCss (selector : str)                           (* page.locator(selector) *)
| SubRole (parent : Locator) (role : str) (name : option str)
    (* parent.get_by_role(role, name=..., exact=True) *)
| SubText (parent : Locator) (text : str)  (* parent.get_by_text(text, exact=False) *)
| First (l : Locator)                                               (* l.first *)
| Nth (l : Locator) (idx : nat).                                  (* l.nth(idx) *)

(** The calls that reach the browser and may raise. *)
Inductive Cmd : Type -> Type :=
| Count (l : Locator) : Cmd nat                                   (* l.count() *)
| Click (l : Locator) (timeout : Z) : Cmd unit           (* l.click(timeout=..) *)
| WaitForVisible (l : Locator) (timeout : Z) : Cmd unit
    (* l.wait_for(state="visible", timeout=..) *)
| GetAttribute (l : Locator) (name : str) : Cmd (option str)
| SetAttribute (l : Locator) (name value : str) : Cmd unit
    (* l.evaluate("(el, value) => el.setAttribute(name, value)", value) *)
| ScrollIntoView (l : Locator) (timeout : Z) : Cmd unit
| Goto (url : str) (timeout : Z) : Cmd unit
    (* page.goto(url, wait_until="domcontentloaded", timeout=..) *)
| WaitForLoadState (timeout : Z) : Cmd unit
    (* page.wait_for_load_state("domcontentloaded", timeout=..) *)
| WaitForTimeout (ms : Z) : Cmd unit                (* page.wait_for_timeout(ms) *)
| MouseWheel (dx dy : Z) : Cmd unit.                 (* page.mouse.wheel(dx, dy) *)

(** The terminal words of the modal workflow and of the resolver. *)
Inductive Status : Type :=
| NoModal            (* "no_modal" *)
| Blocked            (* "blocked" *)
| SendTimeout        (* "send_timeout" *)
| SendError          (* "send_error" *)
| Sent               (* "sent" *)
| StalledModal       (* "stalled_modal" *)
| Clear              (* "clear" *)
| ClosedWithoutSend  (* "closed_without_send" *)
| StillOpen.         (* "still_open" *)

(** What [main] prints, by the data each line shows. *)
Inductive Message : Type :=
| MsgPageClosed
| MsgRollback (current recovery : Z)
| MsgRecoveryTimedOut (url : str)
| MsgRecoveryFailed (url : str)
| MsgProcessing (loop_no : Z) (page_label : option Z) (url : str)
| MsgModalStillOpen
| MsgResolvedPrevious (status : Status)
| MsgClosedLingering
| MsgNoMoreButtons
| MsgAllSkipped
| MsgClickBlockedByModal
| MsgClickTimedOut
| MsgClickFailedModalState
| MsgClickFailed
| MsgModalError
| MsgModalFailed (status : Status)
| MsgClickedSubmit
| MsgClicked (total page_clicks : Z) (remaining : nat)
| MsgReachedMaxClicks (n : Z)
| MsgReachedMaxPages (n : Z)
| MsgAutoNextDisabled
| MsgCouldNotMove (expected landed : option Z) (url : str)
| MsgMoved (url : str) (landed : option Z)
| MsgDone (clicks pages skipped : Z).

(** What a run does, in order. *)
Inductive Event : Type :=
| EvCmd (X : Type) (c : Cmd X)
| EvSleep (ms : Z)
| EvPrint (m : Message).
Arguments EvCmd {X} c.

Inductive outcome (A : Type) : Type :=
| Return (a : A)
| Throw (e : exn)
| OutOfFuel.
Arguments Return {A} a.
Arguments Throw {A} e.
Arguments OutOfFuel {A}.

(** The page as the driver holds it: [page.url], [page.is_closed()] and the
    clock are read without asking the browser (the clock in whole
    milliseconds), [time.sleep] moves the world on, and every command gets
    an answer or an exception. *)
Record Page (World : Type) : Type := mkPage {
  page_url : World -> str;
  page_is_closed : World -> bool;
  time_ms : World -> Z;
  sleep : Z -> World -> World;
  perform : forall X : Type, Cmd X -> World -> result X * World
}.
Arguments page_url {World} p w.
Arguments page_is_closed {World} p w.
Arguments time_ms {World} p w.
Arguments sleep {World} p ms w.
Arguments perform {World} p {X} c w.
Arguments mkPage {World}.

End Browser.

(** ** The driver's computations *)
Module Run.
Import Browser.

Section Monad.
Variable World : Type.
Variable page : Page World.

(** A computation returns a result, the world after it, and the events in
    between. *)
Definition M (A : Type) : Type := World -> outcome A * World * list Event.

Definition ret {A} (a : A) : M A := fun w => (Return a, w, []).

Definition throw {A} (e : exn) : M A := fun w => (Throw e, w, []).

Definition out_of_fuel {A} : M A := fun w => (OutOfFuel, w, []).

Definition bind {A B} (m : M A) (k : A -> M B) : M B :=
  fun w =>
    match m w with
    | (Return a, w1, t1) => let '(r, w2, t2) := k a w1 in (r, w2, t1 ++ t2)
    | (Throw e, w1, t1) => (Throw e, w1, t1)
    | (OutOfFuel, w1, t1) => (OutOfFuel, w1, t1)
    end.

(** [try: m  except <handles>: h] *)
Definition try_except {A} (m : M A) (handles : exn -> bool) (h : exn -> M A) : M A :=
  fun w =>
    match m w with
    | (Throw e, w1, t1) =>
        if handles e then let '(r, w2, t2) := h e w1 in (r, w2, t1 ++ t2)
        else (Throw e, w1, t1)
    | other => other
    end.

Definition cmd {X} (c : Cmd X) : M X :=
  fun w =>
    match perform page c w with
    | (Ok x, w1) => (Return x, w1, [EvCmd c])
    | (Raise e, w1) => (Throw e, w1, [EvCmd c])
    end.

Definition print (m : Message) : M unit := fun w => (Return tt, w, [EvPrint m]).
Definition get_url : M str := fun w => (Return (page_url page w), w, []).
Definition is_closed : M bool := fun w => (Return (page_is_closed page w), w, []).
Definition time_time : M Z := fun w => (Return (time_ms page w), w, []).
Definition time_sleep (ms : Z) : M unit :=
  fun w => (Return tt, sleep page ms w, [EvSleep ms]).

Definition lift {A} (r : result A) : M A :=
  match r with
  | Ok a => ret a
  | Raise e => throw e
  end.

End Monad.

Arguments ret {World A} a w.
Arguments throw {World A} e w.
Arguments out_of_fuel {World A} w.
Arguments bind {World A B} m k w.
Arguments try_except {World A} m handles h w.
Arguments cmd {World} page {X} c w.
Arguments print {World} m w.
Arguments get_url {World} page w.
Arguments is_closed {World} page w.
Arguments time_time {World} page w.
Arguments time_sleep {World} page ms w.
Arguments lift {World A} r w.

End Run.

Declare Scope run_scope.
Delimit Scope run_scope with run.
Notation "x <- m ;; k" := (Run.bind m (fun x => k))
  (at level 61, m at next level, right associativity) : run_scope.
Notation "m ;;; k" := (Run.bind m (fun _ => k))
  (at level 61, right associativity) : run_scope.

(** ** simple_click_connect_attach.py *)
Module Driver.
Import PyStr Browser Run.
Local Open Scope run_scope.
Local Open Scope Z_scope.

(** The command-line values [main] reads in its loop.  Durations, which
    the script holds as float seconds, are kept in milliseconds
    ([int(args.x * 1000)]). *)
Record Args : Type := mkArgs {
  button_label : str;
  delay_ms : Z;
  max_clicks : Z;
  max_pages : Z;
  send_request_label : str;
  modal_timeout_ms : Z;
  navigation_timeout_ms : Z;
  navigation_retries : Z;
  page_settle_ms : Z;
  no_auto_next_page : bool
}.

Definition DIALOG : str := lit "dialog".
Definition BUTTON : str := lit "button".
Definition HELPER_ID : str := lit "data-pmi-helper-id".

Definition error_patterns : list str :=
  map lit ["Cannot read properties of undefined"; "Something went wrong"; "error"]%string.

Definition close_selector : str :=
  lit ("[role='dialog'] button[aria-label*='close' i], "
       ++ "[role='dialog'] button[title*='close' i], "
       ++ "[role='dialog'] button[class*='close' i]")%string.

Definition next_selector : str :=
  lit "a[aria-label*='next' i],button[aria-label*='next' i],a[rel='next']".

(** [skipped_button_ids]: a set of identifiers; only membership is asked. *)
Definition id_in (x : str) (ids : list str) : bool := existsb (eqb x) ids.

Definition failure_status (s : Status) : bool :=
  match s with
  | Blocked | SendTimeout | SendError | StalledModal => true
  | _ => false
  end.

Section Driver.
Variable World : Type.
Variable page : Page World.
Variable netloc_ok : str -> bool.

Local Notation "'M'" := (Run.M World) (only parsing).

(** [get_or_assign_button_id] *)
Definition get_or_assign_button_id (button : Locator) (id_seq : Z) : M (str * Z) :=
  existing <- cmd page (GetAttribute button HELPER_ID) ;;
  match existing with
  | Some (c :: s) => ret (c :: s, id_seq)
  | _ =>
      now <- time_time page ;;
      now_text <- lift (PyInt.str_of_int now) ;;
      seq_text <- lift (PyInt.str_of_int id_seq) ;;
      let button_id := (lit "pmi-helper-" ++ now_text ++ lit "-" ++ seq_text)%list in
      cmd page (SetAttribute button HELPER_ID button_id) ;;;
      ret (button_id, id_seq + 1)
  end.

Fixpoint scan_error_patterns (dialog : Locator) (patterns : list str) : M bool :=
  match patterns with
  | [] => ret false
  | pattern :: rest =>
      found <- try_except
                 (n <- cmd page (Count (SubText dialog pattern)) ;; ret (0 <? n)%nat)
                 is_playwright_error (fun _ => ret false) ;;
      if found then ret true else scan_error_patterns dialog rest
  end.

(** [has_modal_error] *)
Definition has_modal_error : M bool :=
  let dialog := First (PageRole DIALOG None) in
  n <- cmd page (Count dialog) ;;
  if (n =? 0)%nat then ret false else scan_error_patterns dialog error_patterns.

(** [is_dialog_open] *)
Definition is_dialog_open : M bool :=
  try_except (n <- cmd page (Count (PageRole DIALOG None)) ;; ret (0 <? n)%nat)
             is_playwright_error (fun _ => ret false).

(** [close_modal_if_open] *)
Definition close_modal_if_open : M bool :=
  let dialog := First (PageRole DIALOG None) in
  n <- cmd page (Count dialog) ;;
  if (n =? 0)%nat then ret false
  else
    let cancel_btn := SubRole dialog BUTTON (Some (lit "Cancel")) in
    n <- cmd page (Count cancel_btn) ;;
    if (0 <? n)%nat then cmd page (Click (First cancel_btn) 5000) ;;; ret true
    else
      let close_btn := PageCss close_selector in
      n <- cmd page (Count close_btn) ;;
      if (0 <? n)%nat then cmd page (Click (First close_btn) 5000) ;;; ret true
      else ret false.

(** The polling loop of [process_invite_modal]: [Some] status when the
    loop returns, [None] when the deadline passes. *)
Fixpoint poll_invite_modal (fuel : nat) (deadline : Z) : M (option Status) :=
  match fuel with
  | O => out_of_fuel
  | S fuel' =>
      now <- time_time page ;;
      if now <? deadline then
        err <- has_modal_error ;;
        if err then close_modal_if_open ;;; ret (Some Blocked)
        else
          open <- is_dialog_open ;;
          if negb open then ret (Some Sent)
          else cmd page (WaitForTimeout 300) ;;; poll_invite_modal fuel' deadline
      else ret None
  end.

(** [process_invite_modal] *)
Definition process_invite_modal (fuel : nat) (send_request_label : str)
    (timeout_ms : Z) : M Status :=
  let button := First (PageRole BUTTON (Some send_request_label)) in
  visible <- try_except (cmd page (WaitForVisible button timeout_ms) ;;; ret true)
                        is_playwright_error (fun _ => ret false) ;;
  if negb visible then ret NoModal
  else
    err <- has_modal_error ;;
    if err then close_modal_if_open ;;; ret Blocked
    else
      failed <- try_except
                  (cmd page (Click button 10000) ;;; ret None)
                  is_playwright_error
                  (fun e =>
                     err <- has_modal_error ;;
                     if err then close_modal_if_open ;;; ret (Some Blocked)
                     else ret (Some (if is_playwright_timeout e
                                     then SendTimeout else SendError))) ;;
      match failed with
      | Some status => ret status
      | None =>
          now <- time_time page ;;
          let deadline := now + timeout_ms in
          polled <- poll_invite_modal fuel deadline ;;
          match polled with
          | Some status => ret status
          | None =>
              err <- has_modal_error ;;
              if err then close_modal_if_open ;;; ret Blocked
              else close_modal_if_open ;;; ret StalledModal
          end
      end.

(** [resolve_any_open_modal] *)
Definition resolve_any_open_modal (fuel : nat) (send_request_label : str)
    (timeout_ms : Z) : M Status :=
  open <- is_dialog_open ;;
  if negb open then ret Clear
  else
    status <- process_invite_modal fuel send_request_label timeout_ms ;;
    match status with
    | NoModal =>
        closed <- close_modal_if_open ;;
        if closed then ret ClosedWithoutSend else ret StillOpen
    | _ => ret status
    end.

Fixpoint poll_connect_change (fuel : nat) (button_label : str)
    (previous_count : nat) (deadline : Z) : M bool :=
  match fuel with
  | O => out_of_fuel
  | S fuel' =>
      now <- time_time page ;;
      if now <? deadline then
        current <- cmd page (Count (PageRole BUTTON (Some button_label))) ;;
        if (current <? previous_count)%nat then ret true
        else cmd page (WaitForTimeout 400) ;;;
             poll_connect_change fuel' button_label previous_count deadline
      else ret false
  end.

(** [wait_for_connect_change] *)
Definition wait_for_connect_change (fuel : nat) (button_label : str)
    (previous_count : nat) (timeout_ms : Z) : M bool :=
  now <- time_time page ;;
  poll_connect_change fuel button_label previous_count (now + timeout_ms).

Fixpoint probe_connect_buttons (fuel : nat) (button_label : str)
    (deadline : Z) (max_count : nat) : M nat :=
  match fuel with
  | O => out_of_fuel
  | S fuel' =>
      now <- time_time page ;;
      if now <? deadline then
        count <- try_except (cmd page (Count (PageRole BUTTON (Some button_label))))
                            is_playwright_error (fun _ => ret O) ;;
        let max_count := if (max_count <? count)%nat then count else max_count in
        if (0 <? max_count)%nat then ret max_count
        else
          try_except
            (cmd page (MouseWheel 0 900) ;;;
             cmd page (WaitForTimeout 250) ;;;
             cmd page (MouseWheel 0 (-900)))
            is_playwright_error (fun _ => ret tt) ;;;
          cmd page (WaitForTimeout 400) ;;;
          probe_connect_buttons fuel' button_label deadline max_count
      else ret max_count
  end.

(** [discover_connect_buttons] *)
Definition discover_connect_buttons (fuel : nat) (button_label : str)
    (settle_timeout_ms : Z) : M nat :=
  now <- time_time page ;;
  probe_connect_buttons fuel button_label (now + settle_timeout_ms) O.

(** The attempts [attempt, attempt+1, ...] of [goto_with_retries], [n] of
    them left. *)
Fixpoint goto_attempts (n : nat) (attempt : Z) (url : str) (timeout_ms retries : Z)
    : M bool :=
  match n with
  | O => ret false
  | S n' =>
      try_except
        (cmd page (Goto url timeout_ms) ;;; ret true)
        is_playwright_error
        (fun _ =>
           if attempt <? retries then
             cmd page (WaitForTimeout (800 * attempt)) ;;;
             goto_attempts n' (attempt + 1) url timeout_ms retries
           else ret false)
  end.

(** [goto_with_retries] *)
Definition goto_with_retries (url : str) (timeout_ms retries : Z) : M bool :=
  goto_attempts (Z.to_nat retries) 1 url timeout_ms retries.

Definition page_number : M (option Z) :=
  url <- get_url page ;; lift (Cursor.get_page_number_from_url netloc_ok url).

(** The [for _ in range(max_attempts)] loop of [go_to_next_page]. *)
Fixpoint next_page_attempts (n : nat) (old_url : str) (expected : Z)
    (timeout_ms retries : Z) (landed_page : option Z) : M (bool * option Z) :=
  match n with
  | O => ret (false, landed_page)
  | S n' =>
      next_url <- lift (Cursor.with_page_number netloc_ok old_url expected) ;;
      ok <- goto_with_retries next_url timeout_ms retries ;;
      if negb ok then next_page_attempts n' old_url expected timeout_ms retries landed_page
      else
        try_except (cmd page (WaitForLoadState timeout_ms))
                   is_playwright_timeout (fun _ => ret tt) ;;;
        landed_page <- page_number ;;
        match landed_page with
        | Some l =>
            if l =? expected then ret (true, landed_page)
            else next_page_attempts n' old_url expected timeout_ms retries landed_page
        | None => next_page_attempts n' old_url expected timeout_ms retries landed_page
        end
  end.

(** [go_to_next_page] *)
Definition go_to_next_page (timeout_ms : Z) (expected_next_page : option Z)
    (max_attempts : nat) (navigation_retries : Z) : M (bool * option Z) :=
  old_url <- get_url page ;;
  old_page <- lift (Cursor.get_page_number_from_url netloc_ok old_url) ;;
  let expected_next_page :=
    match expected_next_page, old_page with
    | None, Some o => Some (o + 1)
    | _, _ => expected_next_page
    end in
  match expected_next_page with
  | Some expected =>
      next_page_attempts max_attempts old_url expected timeout_ms navigation_retries None
  | None =>
      let next_arrow := First (PageCss next_selector) in
      n <- cmd page (Count next_arrow) ;;
      if (n =? 0)%nat then landed <- page_number ;; ret (false, landed)
      else
        clicked <- try_except (cmd page (Click next_arrow 10000) ;;; ret true)
                              is_playwright_error (fun _ => ret false) ;;
        if negb clicked then landed <- page_number ;; ret (false, landed)
        else
          try_except (cmd page (WaitForLoadState timeout_ms))
                     is_playwright_timeout (fun _ => ret tt) ;;;
          new_url <- get_url page ;;
          let moved := negb (eqb new_url old_url) in
          landed <- lift (Cursor.get_page_number_from_url netloc_ok new_url) ;;
          ret (moved, landed)
  end.

(** *** [main]: the loop and its variables *)

Record State : Type := mkState {
  total_clicked : Z;
  pages_processed : Z;
  stop : bool;
  id_seq : Z;
  skipped_button_ids : list str;
  total_skipped : Z;
  last_completed_page : option Z;
  current_page_num : option Z;
  page_clicks : Z;
  skipped_this_page : Z
}.

(** The variables as [main] sets them before its loop. *)
Definition initial_state : State :=
  mkState 0 0 false 1 [] 0 None None 0 0.

Definition set_stop (st : State) : State :=
  mkState (total_clicked st) (pages_processed st) true (id_seq st)
          (skipped_button_ids st) (total_skipped st) (last_completed_page st)
          (current_page_num st) (page_clicks st) (skipped_this_page st).

Definition set_id_seq (st : State) (n : Z) : State :=
  mkState (total_clicked st) (pages_processed st) (stop st) n
          (skipped_button_ids st) (total_skipped st) (last_completed_page st)
          (current_page_num st) (page_clicks st) (skipped_this_page st).

Definition set_skipped_button_ids (st : State) (ids : list str) : State :=
  mkState (total_clicked st) (pages_processed st) (stop st) (id_seq st)
          ids (total_skipped st) (last_completed_page st)
          (current_page_num st) (page_clicks st) (skipped_this_page st).

Definition set_current_page_num (st : State) (n : option Z) : State :=
  mkState (total_clicked st) (pages_processed st) (stop st) (id_seq st)
          (skipped_button_ids st) (total_skipped st) (last_completed_page st)
          n (page_clicks st) (skipped_this_page st).

Definition set_last_completed_page (st : State) (n : option Z) : State :=
  mkState (total_clicked st) (pages_processed st) (stop st) (id_seq st)
          (skipped_button_ids st) (total_skipped st) n
          (current_page_num st) (page_clicks st) (skipped_this_page st).

(** [skipped_this_page += 1; total_skipped += 1] *)
Definition count_skip (st : State) : State :=
  mkState (total_clicked st) (pages_processed st) (stop st) (id_seq st)
          (skipped_button_ids st) (total_skipped st + 1) (last_completed_page st)
          (current_page_num st) (page_clicks st) (skipped_this_page st + 1).

(** [skipped_button_ids.add(selected_id)] and the two counters *)
Definition skip_button (st : State) (selected_id : str) : State :=
  count_skip (set_skipped_button_ids st (selected_id :: skipped_button_ids st)).

(** [total_clicked += 1; page_clicks += 1] *)
Definition count_click (st : State) : State :=
  mkState (total_clicked st + 1) (pages_processed st) (stop st) (id_seq st)
          (skipped_button_ids st) (total_skipped st) (last_completed_page st)
          (current_page_num st) (page_clicks st + 1) (skipped_this_page st).

(** [pages_processed += 1; page_clicks = 0; skipped_this_page = 0;
    skipped_button_ids.clear()] *)
Definition start_page (st : State) : State :=
  mkState (total_clicked st) (pages_processed st + 1) (stop st) (id_seq st)
          [] (total_skipped st) (last_completed_page st)
          (current_page_num st) 0 0.

(** How a pass through a loop body ends: [continue] (or the end of the
    body) and [break]. *)
Inductive Step : Type :=
| Continue (st : State)
| Break (st : State).

Variable args : Args.

(** [if args.delay_seconds > 0: time.sleep(args.delay_seconds)] *)
Definition delay : M unit :=
  if 0 <? delay_ms args then time_sleep page (delay_ms args) else ret tt.

(** The [for idx in range(count)] scan for a button that is not skipped;
    [n] indices are left, from [idx]. *)
Fixpoint select_button (n : nat) (idx : nat) (buttons : Locator) (id_seq : Z)
    (skipped : list str) : M (option (Locator * str) * Z) :=
  match n with
  | O => ret (None, id_seq)
  | S n' =>
      let candidate := Nth buttons idx in
      r <- get_or_assign_button_id candidate id_seq ;;
      let (button_id, id_seq) := r in
      if id_in button_id skipped then select_button n' (S idx) buttons id_seq skipped
      else ret (Some (candidate, button_id), id_seq)
  end.

(** From the answer of [process_invite_modal] to the end of the inner loop
    body. *)
Definition record_modal_status (fuel : nat) (st : State) (selected_id : str)
    (count : nat) (modal_status : Status) : M Step :=
  if failure_status modal_status then
    let st := skip_button st selected_id in
    print (match modal_status with
           | Blocked => MsgModalError
           | _ => MsgModalFailed modal_status
           end) ;;;
    delay ;;;
    ret (Continue st)
  else
    (match modal_status with
     | Sent => print MsgClickedSubmit
     | _ => ret tt
     end) ;;;
    wait_for_connect_change fuel (button_label args) count 6000 ;;;
    let st := count_click st in
    print (MsgClicked (total_clicked st) (page_clicks st) count) ;;;
    if negb (max_clicks args =? 0) && (max_clicks args <=? total_clicked st) then
      print (MsgReachedMaxClicks (max_clicks args)) ;;;
      ret (Break (set_stop st))
    else
      delay ;;;
      ret (Continue st).

(** The handler of a click that raised: with a modal closed the button is
    tried again, otherwise it is skipped. *)
Definition click_raised (st : State) (selected_id : str) (e : exn) : M Step :=
  if is_playwright_timeout e then
    let msg := match e with
               | PlaywrightTimeoutError m | PlaywrightError m => m
               | _ => []
               end in
    blocked <- (if has_sub (lit "intercepts pointer events") msg then ret true
                else is_dialog_open) ;;
    closed <- (if blocked then close_modal_if_open else ret false) ;;
    if closed then
      print MsgClickBlockedByModal ;;; delay ;;; ret (Continue st)
    else
      print MsgClickTimedOut ;;; delay ;;; ret (Continue (skip_button st selected_id))
  else
    closed <- close_modal_if_open ;;
    if closed then
      print MsgClickFailedModalState ;;; delay ;;; ret (Continue st)
    else
      print MsgClickFailed ;;; delay ;;; ret (Continue (skip_button st selected_id)).

(** One pass through the body of the inner [while True]. *)
Definition inner_body (fuel : nat) (st : State) : M Step :=
  lingering_status <- resolve_any_open_modal fuel (send_request_label args)
                                             (modal_timeout_ms args) ;;
  match lingering_status with
  | StillOpen => print MsgModalStillOpen ;;; ret (Break (set_stop st))
  | Clear =>
      let buttons := PageRole BUTTON (Some (button_label args)) in
      count <- cmd page (Count buttons) ;;
      found <- (if (count =? 0)%nat then
                  discovered <- discover_connect_buttons fuel (button_label args)
                                                         (page_settle_ms args) ;;
                  if (discovered =? 0)%nat then ret None
                  else count <- cmd page (Count buttons) ;; ret (Some count)
                else ret (Some count)) ;;
      match found with
      | None => print MsgNoMoreButtons ;;; ret (Break st)
      | Some count =>
          r <- select_button count O buttons (id_seq st) (skipped_button_ids st) ;;
          let (selected, seq) := r in
          let st := set_id_seq st seq in
          match selected with
          | None => print MsgAllSkipped ;;; ret (Break st)
          | Some (selected, selected_id) =>
              cmd page (ScrollIntoView selected 5000) ;;;
              clicked <- try_except (cmd page (Click selected 10000) ;;; ret None)
                                    is_playwright_error (fun e => ret (Some e)) ;;
              match clicked with
              | Some e => click_raised st selected_id e
              | None =>
                  modal_status <- process_invite_modal fuel (send_request_label args)
                                                       (modal_timeout_ms args) ;;
                  record_modal_status fuel st selected_id count modal_status
              end
          end
      end
  | _ =>
      let st' := if failure_status lingering_status then count_skip st else st in
      (if failure_status lingering_status then print (MsgResolvedPrevious lingering_status)
       else match lingering_status with
            | ClosedWithoutSend => print MsgClosedLingering
            | _ => ret tt
            end) ;;;
      delay ;;;
      ret (Continue st')
  end.

(** The inner [while True]: the state when it is left. *)
Fixpoint inner_loop (fuel : nat) (st : State) : M State :=
  match fuel with
  | O => out_of_fuel
  | S fuel' =>
      step <- inner_body fuel' st ;;
      match step with
      | Continue st' => inner_loop fuel' st'
      | Break st' => ret st'
      end
  end.

(** The head of the outer loop body: the cursor of the page and the
    rollback check.  Returns whether the script breaks here, and
    [current_page_num]. *)
Definition check_rollback (last_completed_page : option Z) : M (bool * option Z) :=
  current_page_num <- page_number ;;
  match last_completed_page, current_page_num with
  | Some last, Some current =>
      if current <? last then
        let recovery_page := last + 1 in
        url <- get_url page ;;
        recovery_url <- lift (Cursor.with_page_number netloc_ok url recovery_page) ;;
        print (MsgRollback current recovery_page) ;;;
        recovered <- goto_with_retries recovery_url (navigation_timeout_ms args)
                                       (navigation_retries args) ;;
        if negb recovered then
          print (MsgRecoveryTimedOut recovery_url) ;;; ret (true, current_page_num)
        else
          current_page_num <- page_number ;;
          match current_page_num with
          | Some current =>
              if current <? last then
                url <- get_url page ;;
                print (MsgRecoveryFailed url) ;;; ret (true, current_page_num)
              else ret (false, current_page_num)
          | None =>
              url <- get_url page ;;
              print (MsgRecoveryFailed url) ;;; ret (true, current_page_num)
          end
      else ret (false, current_page_num)
  | _, _ => ret (false, current_page_num)
  end.

(** The page cycle: the counters are reset, the skip registry is emptied,
    and the inner loop runs. *)
Definition process_page (fuel : nat) (st : State) : M State :=
  let st := start_page st in
  url <- get_url page ;;
  print (MsgProcessing (pages_processed st) (current_page_num st) url) ;;;
  inner_loop fuel st.

(** The tail of the outer loop body, after the inner loop. *)
Definition advance (st : State) : M Step :=
  if stop st then ret (Break st)
  else
    let st := match current_page_num st with
              | Some _ => set_last_completed_page st (current_page_num st)
              | None => st
              end in
    if negb (max_pages args =? 0) && (max_pages args <=? pages_processed st) then
      print (MsgReachedMaxPages (max_pages args)) ;;; ret (Break st)
    else if no_auto_next_page args then
      print MsgAutoNextDisabled ;;; ret (Break st)
    else
      let expected_next_page :=
        match current_page_num st with
        | Some c => Some (c + 1)
        | None => None
        end in
      r <- go_to_next_page (navigation_timeout_ms args) expected_next_page 3
                           (navigation_retries args) ;;
      let (moved, landed_page) := r in
      url <- get_url page ;;
      if negb moved then
        print (MsgCouldNotMove expected_next_page landed_page url) ;;; ret (Break st)
      else
        print (MsgMoved url landed_page) ;;; delay ;;; ret (Continue st).

(** One pass through the body of the outer [while True]. *)
Definition outer_body (fuel : nat) (st : State) : M Step :=
  closed <- is_closed page ;;
  if closed then print MsgPageClosed ;;; ret (Break st)
  else
    r <- check_rollback (last_completed_page st) ;;
    let (break, current_page_num) := r in
    let st := set_current_page_num st current_page_num in
    if break then ret (Break st)
    else
      st <- process_page fuel st ;;
      advance st.

Fixpoint outer_loop (fuel : nat) (st : State) : M State :=
  match fuel with
  | O => out_of_fuel
  | S fuel' =>
      step <- outer_body fuel' st ;;
      match step with
      | Continue st' => outer_loop fuel' st'
      | Break st' => ret st'
      end
  end.

(** [main], from the first counter on: the loop and the closing line. *)
Definition main (fuel : nat) : M State :=
  st <- outer_loop fuel initial_state ;;
  print (MsgDone (total_clicked st) (pages_processed st) (total_skipped st)) ;;;
  ret st.

End Driver.

Arguments get_or_assign_button_id {World}.
Arguments scan_error_patterns {World}.
Arguments has_modal_error {World}.
Arguments is_dialog_open {World}.
Arguments close_modal_if_open {World}.
Arguments poll_invite_modal {World}.
Arguments process_invite_modal {World}.
Arguments resolve_any_open_modal {World}.
Arguments poll_connect_change {World}.
Arguments wait_for_connect_change {World}.
Arguments probe_connect_buttons {World}.
Arguments discover_connect_buttons {World}.
Arguments goto_attempts {World}.
Arguments goto_with_retries {World}.
Arguments page_number {World}.
Arguments next_page_attempts {World}.
Arguments go_to_next_page {World}.
Arguments delay {World}.
Arguments select_button {World}.
Arguments record_modal_status {World}.
Arguments click_raised {World}.
Arguments inner_body {World}.
Arguments inner_loop {World}.
Arguments check_rollback {World}.
Arguments process_page {World}.
Arguments advance {World}.
Arguments outer_body {World}.
Arguments outer_loop {World}.
Arguments main {World}.

End Driver.

(** * A page that answers from a script *)

Module Scripted.
Local Open Scope Z_scope.
Import PyStr Browser.

Inductive Answer : Type :=
| ACount (n : nat)
| ADone
| AAttr (a : option str)
| ARaise (e : exn)
| ANavigate (url : str)
| ARaiseNavigate (e : exn) (url : str).

Record World : Type := mkWorld {
  url : str;
  closed : bool;
  clock : Z;
  answers : list Answer
}.

(** Every command takes a second and consumes one answer; an answer of the
    wrong kind, or none, reads as the command's plain success. *)
Definition answer (X : Type) (c : Cmd X) (w : World) : result X * World :=
  let next := mkWorld (url w) (closed w) (clock w + 1000) (tl (answers w)) in
  let moved u := mkWorld u (closed w) (clock w + 1000) (tl (answers w)) in
  let a := hd ADone (answers w) in
  match c in Cmd T return result T * World with
  | Count _ =>
      match a with
      | ACount n => (Ok n, next)
      | ARaise e => (Raise e, next)
      | _ => (Ok O, next)
      end
  | GetAttribute _ _ =>
      match a with
      | AAttr v => (Ok v, next)
      | ARaise e => (Raise e, next)
      | _ => (Ok None, next)
      end
  | _ =>
      match a with
      | ARaise e => (Raise e, next)
      | ANavigate u => (Ok tt, moved u)
      | ARaiseNavigate e u => (Raise e, moved u)
      | _ => (Ok tt, next)
      end
  end.

Definition page : Page World :=
  mkPage url closed clock
         (fun ms w => mkWorld (url w) (closed w) (clock w + ms) (answers w))
         answer.
End Scripted.

(** Concrete runs on the scripted page. *)
Module Scenario.
Local Open Scope Z_scope.
Import PyStr Browser Driver Scripted.

(** The command line's defaults, with the click limit left open. *)
Definition defaults (max_clicks : Z) : Args :=
  mkArgs (lit "Connect") 2000 max_clicks 0 (lit "Send Request") 8000 15000 3 6000 false.

Definition people : str := lit "https://example.com/people?page=2".
Definition people6 : str := lit "https://example.com/people?page=6".
Definition plain : str := lit "https://example.com/people".
Definition plain2 : str := lit "https://example.com/people/2".
Definition timed_out : exn := PlaywrightTimeoutError (lit "Timeout exceeded").

(** One Connect button; no dialog follows the click; the button is gone at
    the first poll. *)
Definition one_click_world : World :=
  mkWorld people false 0
    [ACount 0; ACount 1; AAttr (Some (lit "b1")); ADone; ADone;
     ARaise timed_out; ACount 0].

(** The button count never drops. *)
Definition stale_world : World :=
  mkWorld people false 0 (repeat (ACount 1) 12).

(** The next arrow is there and the click lands on another URL. *)
Definition arrow_world : World :=
  mkWorld plain false 0 [ACount 1; ANavigate plain2; ADone].

(** The next arrow is there; the click navigates, then times out. *)
Definition slow_arrow_world : World :=
  mkWorld plain false 0 [ACount 1; ARaiseNavigate timed_out plain2].

(** The page fell back to cursor 2 and every navigation times out. *)
Definition rolled_world : World :=
  mkWorld people false 0 [ARaise timed_out; ADone; ARaise timed_out; ADone; ARaise timed_out].

End Scenario.

(** * Properties of URLs and queries *)

Module UrlProps.
Local Open Scope N_scope.
Import PyStr Utf8 UrlParse Cursor.

(** ** Quoted fields *)

(** What [quote_plus] writes for one byte. *)
Definition plus_byte (b : N) : str :=
  if always_safe b then [b]
  else if b =? Ch.SPACE then [Ch.PLUS]
  else [Ch.PERCENT; hex_upper (b / 16); hex_upper (b mod 16)].

(** The same with the blank kept: [quote_plus] output after
    [replace('+', ' ')]. *)
Definition blank_safe (b : N) : bool := always_safe b || (b =? Ch.SPACE).

(** The alphabet of a quoted field. *)
Definition field_char (c : codepoint) : bool :=
  always_safe c || (c =? Ch.PLUS) || (c =? Ch.PERCENT).

(** ** Queries as lists of pairs *)

(** The (name, value) pairs a dictionary stands for, in order. *)
Definition flatten (d : dict) : list (str * str) :=
  flat_map (fun kv => map (pair (fst kv)) (snd kv)) d.

Definition field_of (f : str) (kv : str * str) : Prop :=
  exists kq vq, quote_plus (fst kv) = Ok kq /\ quote_plus (snd kv) = Ok vq
                /\ f = kq ++ Ch.EQUALS :: vq.

(** ** Dictionaries *)

Definition keys (d : dict) : list str := map fst d.

(** The values a pair list gives to a name. *)
Definition named (k : str) (l : list (str * str)) : list (str * str) :=
  filter (fun kv => eqb (fst kv) k) l.

Definition sc (s : str) : Prop := Forall (fun c => is_scalar c = true) s.

Definition dict_sc (d : dict) : Prop :=
  Forall (fun kv => sc (fst kv) /\ Forall sc (snd kv)) d.

(** ** The stages of [urlsplit] *)

(** The stages of [urlsplit]. *)
Definition clean (u : str) : str :=
  remove Ch.LF (remove Ch.CR (remove Ch.TAB (lstrip c0_control_or_space u))).

Definition netstage (url : str) : str * str :=
  match url with
  | c1 :: c2 :: r =>
      if (c1 =? Ch.SLASH) && (c2 =? Ch.SLASH) then splitnetloc r else ([], url)
  | _ => ([], url)
  end.

Definition bodystage (url : str) : str * str * str :=
  let (url, frag) :=
    match partition Ch.HASH url with
    | Some (u, f) => (u, f)
    | None => (url, [])
    end in
  let (url, qry) :=
    match partition Ch.QMARK url with
    | Some (u, q) => (u, q)
    | None => (url, [])
    end in
  (url, qry, frag).

Definition ws_free (s : str) : Prop :=
  Forall (fun c => c <> Ch.TAB /\ c <> Ch.CR /\ c <> Ch.LF) s.

Definition head_ok (s : str) : Prop :=
  match s with [] => True | c :: _ => c0_control_or_space c = false end.

Fixpoint first_nonscheme (x : str) : option codepoint :=
  match x with
  | [] => None
  | c :: r => if scheme_char c then first_nonscheme r else Some c
  end.

Definition alpha_head (x : str) : bool :=
  match x with [] => false | c :: _ => is_ascii_alpha c end.

Definition has_scheme (x : str) : bool :=
  alpha_head x && match first_nonscheme x with Some c => c =? Ch.COLON | None => false end.

Definition tail_ok (t : str) : Prop :=
  match t with [] => True | c :: _ => c = Ch.QMARK \/ c = Ch.HASH end.

Definition fragment_part (frag : str) : str :=
  match frag with [] => [] | _ => Ch.HASH :: frag end.

(** ** Split URLs that are written back unchanged *)

Definition rooted (s : str) : bool :=
  match s with [] => true | c :: _ => c =? Ch.SLASH end.

(** A split URL that [urlunsplit] writes back unchanged: it has an
    authority, or its path does not begin with two slashes and, under a
    scheme that takes an authority, is empty or absolute (RFC 3986,
    section 3.3). *)
Definition authority_form (p : SplitResult) : bool :=
  nonempty (netloc p)
  || (negb (starts_with_2slash (path p))
      && (negb (nonempty (scheme p) && existsb (eqb (scheme p)) uses_netloc)
          || rooted (path p))).

Definition valid_scheme (s : str) : Prop :=
  alpha_head s = true /\ forallb scheme_char s = true /\ lower s = s.

Record wf_split (ok : str -> bool) (p : SplitResult) : Prop := {
  wf_scheme : scheme p = [] \/ valid_scheme (scheme p);
  wf_netloc : Forall (fun c => netloc_delim c = false) (netloc p);
  wf_ok : ok (netloc p) = true;
  wf_path_hash : ~ In Ch.HASH (path p);
  wf_path_qmark : ~ In Ch.QMARK (path p);
  wf_rooted : netloc p <> [] -> rooted (path p) = true;
  wf_ws : ws_free (scheme p) /\ ws_free (netloc p) /\ ws_free (path p)
          /\ ws_free (fragment p);
  wf_head : scheme p = [] -> netloc p = [] -> head_ok (path p);
  wf_noscheme : scheme p = [] -> netloc p = [] ->
                forall t, tail_ok t -> has_scheme (path p ++ t) = false
}.

(** ** The page cursor *)

Definition no_lone_surrogate (s : str) : bool := forallb Utf8.is_scalar s.


Definition page_not_numeric (q : str) : Prop :=
  exists v vs, dict_get PAGE (parse_qs q) = Some (v :: vs)
               /\ PyInt.int_of_str v = Raise ValueError.

Definition with_query (p : SplitResult) (q : str) : SplitResult :=
  mkSplit (scheme p) (netloc p) (path p) q (fragment p).

(** The cursor [increment_page_query] starts from: what [int] makes of the
    first value of [page], or of [1] without one, and 1 when [int] raises
    [ValueError]. *)
Definition current_page (p : SplitResult) : result Z :=
  rbind (match dict_get PAGE (parse_qs (query p)) with
         | None => Ok (lit "1")
         | Some [] => Raise IndexError
         | Some (v :: _) => Ok v
         end)
        (fun text => match PyInt.int_of_str text with
                     | Ok n => Ok n
                     | Raise e => if is_value_error e then Ok 1%Z else Raise e
                     end).

Definition any_netloc (_ : str) : bool := true.

(** The first of the checks [urlsplit] runs on the netloc: it is refused
    when it holds one of the brackets of an IPv6 host without the other. *)
Definition brackets_paired (loc : str) : bool :=
  Bool.eqb (contains 91 loc) (contains 93 loc).

End UrlProps.

(** * Properties of runs *)

Module RunProps.
Local Open Scope Z_scope.
Import PyStr Browser Run Driver Cursor.

Definition state_of (s : Step) : State :=
  match s with Continue st | Break st => st end.

Definition is_break (s : Step) : bool :=
  match s with Break _ => true | Continue _ => false end.

Definition next_arrow : Locator := First (PageCss next_selector).


Definition map_outcome {A B} (f : A -> B) (r : outcome A) : outcome B :=
  match r with
  | Return a => Return (f a)
  | Throw e => Throw e
  | OutOfFuel => OutOfFuel
  end.

Definition map_step (f : State -> State) (s : Step) : Step :=
  match s with
  | Continue st => Continue (f st)
  | Break st => Break (f st)
  end.

(** The state with the skip registry left out. *)
Definition forget_registry (st : State) : State := set_skipped_button_ids st [].


Definition same_but_registry (r1 r2 : outcome State) : Prop :=
  map_outcome forget_registry r1 = map_outcome forget_registry r2.

(** An event other than the line that reports a counted click. *)
Definition not_clicked (e : Event) : Prop :=
  match e with
  | EvPrint (MsgClicked _ _ _) => False
  | _ => True
  end.

(** A reported click count, if any, is below [N]. *)
Definition below (N : Z) (e : Event) : Prop :=
  match e with
  | EvPrint (MsgClicked k _ _) => k < N
  | _ => True
  end.

Definition Quiet {World A} (m : M World A) : Prop :=
  forall w r w' tr, m w = (r, w', tr) -> Forall not_clicked tr.

(** Where a piece of a run with click limit [N] stands: either no report
    has shown [N] clicks and the counter is below [N], or the trace ends
    with the report of the [N]th click and the limit line, and the piece
    has returned with [stop] set. *)
Definition Inv (N : Z) {A} (state : A -> State) (final : A -> Prop)
    (r : outcome A) (tr : list Event) : Prop :=
  (Forall (below N) tr /\ forall a, r = Return a -> total_clicked (state a) < N)
  \/ (exists tr0 pc cnt a,
        tr = tr0 ++ [EvPrint (MsgClicked N pc cnt); EvPrint (MsgReachedMaxClicks N)]
        /\ Forall (below N) tr0 /\ r = Return a /\ final a
        /\ stop (state a) = true /\ total_clicked (state a) = N).

Definition Sat (World : Type) (N : Z) {A} (state : A -> State) (final : A -> Prop)
    (m : M World A) : Prop :=
  forall w r w' tr, m w = (r, w', tr) -> Inv N state final r tr.

Definition breaks (s : Step) : Prop := is_break s = true.

End RunProps.

(** ** simple_click_connect_attach.py: the choice of the tab *)
Module Tabs.
Import PyStr.

(** A tab of the attached browser, by what [pick_page] reads of it: its
    URL and whether it is closed.  The handle tells tabs with the same URL
    apart. *)
Record Tab : Type := mkTab {
  tab_handle : nat;
  tab_url : str;
  tab_closed : bool
}.

(** [browser.contexts], each with its [context.pages]. *)
Definition Browser : Type := list (list Tab).

Section PickPage.
(** [str.lower], on all of Unicode. *)
Variable py_lower : str -> str.

(** The pages [pick_page] collects: the tabs that are not closed, context
    by context. *)
Definition open_pages (browser : Browser) : list Tab :=
  flat_map (filter (fun p => negb (tab_closed p))) browser.

(** [url_contains.lower() in (page.url or "").lower()] *)
Definition url_matches (url_contains : str) (p : Tab) : bool :=
  has_sub (py_lower url_contains) (py_lower (tab_url p)).

(** [page.url and page.url != "about:blank"] *)
Definition has_real_url (p : Tab) : bool :=
  match tab_url p with
  | [] => false
  | _ => negb (eqb (tab_url p) (lit "about:blank"))
  end.

(** [pick_page] *)
Definition pick_page (browser : Browser) (url_contains : str) : option Tab :=
  let pages := open_pages browser in
  match pages with
  | [] => None
  | first :: _ =>
      let by_filter :=
        match url_contains with
        | [] => None
        | _ => find (url_matches url_contains) pages
        end in
      match by_filter with
      | Some p => Some p
      | None =>
          match find has_real_url pages with
          | Some p => Some p
          | None => Some first
          end
      end
  end.

End PickPage.
End Tabs.

(** * Properties of traces, clocks and totals *)

Module MoreProps.
Local Open Scope Z_scope.
Import PyStr Utf8 UrlParse Cursor Browser Run Driver.
Import UrlProps RunProps.

(** A dictionary as [parse_qs] builds them: every name once, and at least
    one value under each name. *)
Definition dict_wf (d : dict) : Prop :=
  NoDup (keys d) /\ Forall (fun kv => snd kv <> []) d.

(** Every event of every run of [m] satisfies [P]. *)
Definition Traced {World A} (P : Event -> Prop) (m : M World A) : Prop :=
  forall w r w' tr, m w = (r, w', tr) -> Forall P tr.

(** The locators the modal workflow may click. *)
Definition submit_button (label : str) : Locator := First (PageRole BUTTON (Some label)).

Definition cancel_button : Locator :=
  First (SubRole (First (PageRole DIALOG None)) BUTTON (Some (lit "Cancel"))).

Definition close_button : Locator := First (PageCss close_selector).

(** A click, on anything. *)
Definition is_click (e : Event) : Prop :=
  match e with
  | EvCmd c => match c with Click _ _ => True | _ => False end
  | _ => False
  end.

(** A click on the submit button of the invite modal. *)
Definition submit_click (label : str) (e : Event) : bool :=
  match e with
  | EvCmd c =>
      match c with
      | Click (First (PageRole role (Some name))) _ => eqb role BUTTON && eqb name label
      | _ => false
      end
  | _ => false
  end.

(** How often a run clicked the submit button. *)
Definition submit_clicks (label : str) (tr : list Event) : nat :=
  List.length (filter (submit_click label) tr).

(** A query that leaves the page as it is: a count, or a pause. *)
Definition is_query (e : Event) : Prop :=
  match e with
  | EvCmd c => match c with Count _ | WaitForTimeout _ => True | _ => False end
  | _ => False
  end.

(** What the modal workflow may do to the page: count, wait, and click the
    submit button or the dialog's Cancel or close button. *)
Definition modal_event (label : str) (e : Event) : Prop :=
  match e with
  | EvCmd c =>
      match c with
      | Count _ | WaitForTimeout _ | WaitForVisible _ _ => True
      | Click l _ => l = submit_button label \/ l = cancel_button \/ l = close_button
      | _ => False
      end
  | _ => False
  end.

(** A [page.goto]. *)
Definition goto_event (e : Event) : bool :=
  match e with
  | EvCmd c => match c with Goto _ _ => true | _ => false end
  | _ => false
  end.

(** How many times a run called [page.goto]. *)
Definition gotos (tr : list Event) : nat := List.length (filter goto_event tr).

(** The cursor [go_to_next_page] aims at: the expected one if given, else
    the one after the cursor of the old URL. *)
Definition target_cursor (expected cursor : option Z) : option Z :=
  match expected, cursor with
  | Some x, _ => Some x
  | None, Some k => Some (k + 1)
  | None, None => None
  end.

(** The clock of the page never runs backwards, whatever is asked. *)
Definition clock_monotone {World} (page : Page World) : Prop :=
  forall (X : Type) (c : Cmd X) w,
    time_ms page w <= time_ms page (snd (perform page c w)).

(** [page.wait_for_timeout(ms)] takes at least [ms] milliseconds. *)
Definition pause_takes {World} (page : Page World) (ms : Z) : Prop :=
  forall w, time_ms page w + ms <= time_ms page (snd (perform page (WaitForTimeout ms) w)).

(** The clock does not run backwards during [m]. *)
Definition Advancing {World A} (page : Page World) (m : M World A) : Prop :=
  forall w r w' tr, m w = (r, w', tr) -> time_ms page w <= time_ms page w'.

(** [m] ends: it returns or raises, the fuel is not what stops it. *)
Definition Ends {World A} (m : M World A) : Prop :=
  forall w, fst (fst (m w)) <> OutOfFuel.

(** Polls of [step] milliseconds that fit before a deadline [span] away,
    and two more: fuel enough for a polling loop. *)
Definition rounds (span step : Z) : nat := Z.to_nat (span / step) + 2.

(** A reported click total, if any, is at most [N]. *)
Definition at_most (N : Z) (e : Event) : Prop :=
  match e with
  | EvPrint (MsgClicked k _ _) => k <= N
  | _ => True
  end.

(** The three totals of the closing line. *)
Inductive Counter : Type := Clicks | Skips | Pages.

Definition count_of (c : Counter) (st : State) : Z :=
  match c with
  | Clicks => total_clicked st
  | Skips => total_skipped st
  | Pages => pages_processed st
  end.

(** The lines [main] prints when it raises a total: the click report, the
    five skip reports, the page header. *)
Definition reported (c : Counter) (m : Message) : bool :=
  match c, m with
  | Clicks, MsgClicked _ _ _ => true
  | Skips, (MsgResolvedPrevious _ | MsgClickTimedOut | MsgClickFailed
            | MsgModalError | MsgModalFailed _) => true
  | Pages, MsgProcessing _ _ _ => true
  | _, _ => false
  end.

Definition reports (c : Counter) (tr : list Event) : Z :=
  Z.of_nat (List.length (filter (fun e => match e with
                                          | EvPrint m => reported c m
                                          | _ => false
                                          end) tr)).

(** Nothing is printed. *)
Definition silent_event (e : Event) : Prop :=
  match e with EvPrint _ => False | _ => True end.

(** Whenever [m] returns [a], the total [f a] is [base] plus the reports of
    the run. *)
Definition Tallies {World A} (c : Counter) (f : A -> Z) (base : Z) (m : M World A) : Prop :=
  forall w a w' tr, m w = (Return a, w', tr) -> f a = base + reports c tr.

(** Whenever [m] returns, what it returns satisfies [Q]. *)
Definition Post {World A} (Q : A -> Prop) (m : M World A) : Prop :=
  forall w a w' tr, m w = (Return a, w', tr) -> Q a.

(** The buttons [main] clicks through. *)
Definition connect_buttons (args : Args) : Locator :=
  PageRole BUTTON (Some (button_label args)).

(** What the click loop may ask of the page: counts, waits, the mouse
    wheel, the identifier attribute of a Connect button, a scroll to and a
    click on a Connect button, and a click on the submit button or on the
    dialog's Cancel or close button.  It may sleep and print. *)
Definition loop_event (args : Args) (e : Event) : Prop :=
  match e with
  | EvCmd c =>
      match c with
      | Count _ | WaitForTimeout _ | WaitForVisible _ _ | MouseWheel _ _ => True
      | GetAttribute l name | SetAttribute l name _ =>
          name = HELPER_ID /\ exists i, l = Nth (connect_buttons args) i
      | ScrollIntoView l _ => exists i, l = Nth (connect_buttons args) i
      | Click l _ =>
          (exists i, l = Nth (connect_buttons args) i)
          \/ l = submit_button (send_request_label args)
          \/ l = cancel_button \/ l = close_button
      | Goto _ _ | WaitForLoadState _ => False
      end
  | EvSleep _ | EvPrint _ => True
  end.

(** The page bookkeeping of [main], which the click loop leaves alone. *)
Definition same_page (st st' : State) : Prop :=
  pages_processed st' = pages_processed st
  /\ last_completed_page st' = last_completed_page st
  /\ current_page_num st' = current_page_num st.

End MoreProps.

(** More runs on the scripted page. *)
Module Cases.
Local Open Scope Z_scope.
Import PyStr Browser Driver Scripted Scenario Tabs.

Definition search : str := lit "https://example.com/people?q=a+b&page=3&sort=asc#top".
Definition search7 : str := lit "https://example.com/people?q=a+b&page=7&sort=asc#top".
Definition people3 : str := lit "https://example.com/people?page=3".
Definition send : str := lit "Send Request".

Definition world (answers : list Answer) : World := mkWorld people false 0 answers.

(** The invite is sent: the submit button shows, the dialog has no error
    text, the click goes through and the dialog is gone at the first
    poll. *)
Definition sent_world : World :=
  world [ADone; ACount 1; ACount 0; ACount 0; ACount 0; ADone; ACount 0; ACount 0].

(** A dialog with a Cancel button. *)
Definition cancel_world : World := world [ACount 1; ACount 1; ADone].

(** A dialog is open, no submit button shows, and Cancel closes it. *)
Definition lingering_world : World :=
  world [ACount 1; ARaise timed_out; ACount 1; ACount 1; ADone].

(** The navigation to page 3 lands there. *)
Definition forward_world : World := world [ANavigate people3; ADone].

(** A button without an identifier. *)
Definition untagged_world : World := world [AAttr None; ADone].

(** Two buttons; the first carries a skipped identifier. *)
Definition two_buttons_world : World :=
  world [AAttr (Some (lit "b1")); AAttr (Some (lit "b2"))].

(** Two Connect buttons are there at the first count. *)
Definition found_world : World := world [ACount 2].

(** The defaults with a limit of one page, and with pagination off. *)
Definition one_page : Args :=
  mkArgs (lit "Connect") 2000 0 1 send 8000 15000 3 6000 false.

Definition manual_args : Args :=
  mkArgs (lit "Connect") 2000 0 0 send 8000 15000 3 6000 true.

(** A page without Connect buttons: no dialog, a count of zero for as long
    as the discovery looks. *)
Definition empty_world : World := world [].

(** Three tabs in two contexts: a closed one, a blank one, a search. *)
Definition tabs : Tabs.Browser :=
  [[mkTab 1 (lit "https://example.com/closed") true; mkTab 2 (lit "about:blank") false];
   [mkTab 3 (lit "https://Example.com/People?page=2") false]].

End Cases.

(** ** click_connect_helper.py: the desk of the helper

    The helper works at a desk: a browser it launches, a terminal where it
    asks, a file system and a clock.  As for the page of the driver, nothing
    is assumed about what the desk answers. *)
Module Console.
Import PyStr.
Local Open Scope Z_scope.

(** The exceptions of the helper: those of the driver, the [RuntimeError]
    the helper raises itself, any other [Exception], and
    [KeyboardInterrupt], which is no [Exception]. *)
Inductive Exc : Type :=
| Py (e : exn)
| RuntimeError (message : str)
| OtherException
| KeyboardInterrupt.

(** [except Exception] *)
Definition is_exception (e : Exc) : bool :=
  match e with
  | KeyboardInterrupt => false
  | _ => true
  end.

(** [except KeyboardInterrupt] *)
Definition is_keyboard_interrupt (e : Exc) : bool :=
  match e with
  | KeyboardInterrupt => true
  | _ => false
  end.

(** [except PlaywrightError] *)
Definition is_playwright (e : Exc) : bool :=
  match e with
  | Py e' => is_playwright_error e'
  | _ => false
  end.

(** [except PlaywrightTimeoutError] *)
Definition is_timeout (e : Exc) : bool :=
  match e with
  | Py e' => is_playwright_timeout e'
  | _ => false
  end.

(** [str(exc)] *)
Definition exc_message (e : Exc) : str :=
  match e with
  | Py (PlaywrightError m) | Py (PlaywrightTimeoutError m) => m
  | RuntimeError m => m
  | _ => []
  end.

Inductive reply (A : Type) : Type :=
| Fine (a : A)
| Fails (e : Exc).
Arguments Fine {A} a.
Arguments Fails {A} e.

(** What is taken from the Python runtime as given: [pathlib], the one
    computation on floats, and the Unicode tables behind three methods of
    [str]. *)
Record Runtime : Type := mkRuntime {
  Path : Type;
  Float : Type;
  path_str : Path -> str;                                       (* str(p) *)
  path_eqb : Path -> Path -> bool;                               (* p == q *)
  path_parent : Path -> Path;                                  (* p.parent *)
  path_name : Path -> str;                                       (* p.name *)
  path_join : Path -> str -> Path;                               (* p / name *)
  float_ms : Float -> reply Z;                             (* int(x * 1000) *)
  py_strip : str -> str;                                       (* s.strip() *)
  py_lower : str -> str;                                       (* s.lower() *)
  py_isdigit : str -> bool                                   (* s.isdigit() *)
}.

(** Pages and browser contexts are objects; the model names them. *)
Definition Tab : Type := nat.
Definition Context : Type := nat.

Inductive Target : Type :=
| ByRole (role name : str)     (* page.get_by_role(role, name=name, exact=True) *)
| ByCss (selector : str)                             (* page.locator(selector) *)
| ByText (text : str)                    (* page.get_by_text(text, exact=False) *)
| ByPattern (pattern : str)    (* page.get_by_text(re.compile(pattern, re.I)) *)
| FirstOf (t : Target).                                             (* t.first *)

(** The questions [ask_user] puts. *)
Inductive Prompt : Type :=
| PromptSelectTab
| PromptNoTabs
| PromptVerification
| PromptSiteError
| PromptClick (label : str)
| PromptRetry
| PromptNextPage.

Section Acts.
Variable rt : Runtime.

(** The calls that leave the program and may raise. *)
Inductive Act : Type -> Type :=
| Mkdir (p : Path rt) : Act unit          (* p.mkdir(parents=True, exist_ok=True) *)
| Now : Act str                 (* datetime.now().strftime("%Y%m%d_%H%M%S_%f") *)
| Uniform (a b : Float rt) : Act (Float rt)              (* random.uniform(a, b) *)
| Input (prompt : Prompt) : Act str                              (* input(prompt) *)
| PwStart : Act unit                          (* sync_playwright().__enter__() *)
| PwStop : Act unit                                           (* its __exit__ *)
| Launch (user_data_dir : str) (channel : option str) : Act Context
    (* pw.chromium.launch_persistent_context(user_data_dir=.., headless=False
       [, channel=..]) *)
| NewPage (c : Context) : Act Tab                          (* context.new_page() *)
| Close (c : Context) : Act unit                              (* context.close() *)
| Count (p : Tab) (t : Target) : Act nat                             (* t.count() *)
| ScrollIntoView (p : Tab) (t : Target) (timeout : Z) : Act unit
| Click (p : Tab) (t : Target) (timeout : Z) : Act unit
| Screenshot (p : Tab) (path : str) : Act unit
    (* page.screenshot(path=.., full_page=True) *)
| Goto (p : Tab) (url : option str) : Act unit
    (* page.goto(url, wait_until="domcontentloaded") *)
| WaitForTimeout (p : Tab) (ms : Z) : Act unit.

(** What the helper prints. *)
Inductive Line : Type :=
| LineOpenTabs
| LineTab (idx : nat) (url : str)
| LineInvalidSelection
| LineFound (count : nat) (label : str).

Inductive Level : Type := INFO | WARNING | ERROR.

(** What the helper logs, by the data each record shows. *)
Inductive Note : Type :=
| NoteOneDrive (dir : str)
| NoteFallbackProfile (dir : str)
| NoteFallbackChannel (wanted used : str)
| NoteLaunchFailed (channel dir : str) (e : Exc)
| NoteUsingOpenPage (url : str)
| NoteOpeningStartUrl (url : option str)
| NotePageClosed
| NoteFound (count : nat) (label : str)
| NoteUserQuit
| NotePageClosedByUser
| NoteClickTimeout (e : Exc)
| NoteNoneRemain (label : str)
| NoteRemaining (label : str) (count : nat)
| NoteUserEnded
| NoteNavigating (page_number : Z) (url : str)
| NoteQuitBeforeLoop
| NoteClosing
| NoteAlreadyClosed
| NoteCaptcha
| NoteQuitVerification
| NoteSiteError
| NoteQuitRecovery
| NoteClicked (label : str) (screenshot : str)
| NoteChanged
| NoteUnchanged (timeout_seconds : Z)
| NoteSleeping (delay : Float rt).

(** What a run does, in order; a call is recorded with its answer. *)
Inductive Ev : Type :=
| EvAct (X : Type) (a : Act X) (r : reply X)
| EvPrint (l : Line)
| EvLog (level : Level) (n : Note).

Inductive Outcome (A : Type) : Type :=
| Done (a : A)
| Raised (e : Exc)
| Cut.

(** The desk: the clock, the tabs of a context, whether a tab is closed and
    its URL are read without a call; every call gets an answer. *)
Record Desk (World : Type) : Type := mkDesk {
  clock_ms : World -> Z;
  context_pages : World -> Context -> list Tab;
  tab_closed : World -> Tab -> bool;
  tab_url : World -> Tab -> str;
  answer : forall X : Type, Act X -> World -> reply X * World
}.

Section Monad.
Variable World : Type.
Variable desk : Desk World.

Definition H (A : Type) : Type := World -> Outcome A * World * list Ev.

Definition ret {A} (a : A) : H A := fun w => (Done A a, w, []).

Definition raise {A} (e : Exc) : H A := fun w => (Raised A e, w, []).

Definition cut {A} : H A := fun w => (Cut A, w, []).

Definition bind {A B} (m : H A) (k : A -> H B) : H B :=
  fun w =>
    match m w with
    | (Done _ a, w1, t1) => let '(r, w2, t2) := k a w1 in (r, w2, t1 ++ t2)
    | (Raised _ e, w1, t1) => (Raised B e, w1, t1)
    | (Cut _, w1, t1) => (Cut B, w1, t1)
    end.

(** [try: m  except <handles>: h] *)
Definition try_except {A} (m : H A) (handles : Exc -> bool) (h : Exc -> H A) : H A :=
  fun w =>
    match m w with
    | (Raised _ e, w1, t1) =>
        if handles e then let '(r, w2, t2) := h e w1 in (r, w2, t1 ++ t2)
        else (Raised A e, w1, t1)
    | other => other
    end.

(** [try: m  finally: cleanup], and a [with] block: the cleanup runs
    however [m] ends, and an exception of the cleanup replaces the outcome
    of [m]. *)
Definition finally {A} (m : H A) (cleanup : H unit) : H A :=
  fun w =>
    match m w with
    | (Cut _, w1, t1) => (Cut A, w1, t1)
    | (r, w1, t1) =>
        match cleanup w1 with
        | (Done _ _, w2, t2) => (r, w2, t1 ++ t2)
        | (Raised _ e, w2, t2) => (Raised A e, w2, t1 ++ t2)
        | (Cut _, w2, t2) => (Cut A, w2, t1 ++ t2)
        end
    end.

Definition act {X} (a : Act X) : H X :=
  fun w =>
    match answer World desk X a w with
    | (Fine x, w1) => (Done X x, w1, [EvAct X a (Fine x)])
    | (Fails e, w1) => (Raised X e, w1, [EvAct X a (Fails e)])
    end.

Definition print (l : Line) : H unit := fun w => (Done unit tt, w, [EvPrint l]).

Definition log (level : Level) (n : Note) : H unit :=
  fun w => (Done unit tt, w, [EvLog level n]).

(** Reading the desk without a call. *)
Definition gets {A} (f : World -> A) : H A := fun w => (Done A (f w), w, []).

Definition lift {A} (r : result A) : H A :=
  match r with
  | Ok a => ret a
  | Raise e => raise (Py e)
  end.

Definition lift_reply {A} (r : reply A) : H A :=
  match r with
  | Fine a => ret a
  | Fails e => raise e
  end.

End Monad.
End Acts.

Arguments Mkdir {rt} p.
Arguments Now {rt}.
Arguments Uniform {rt} a b.
Arguments Input {rt} prompt.
Arguments PwStart {rt}.
Arguments PwStop {rt}.
Arguments Launch {rt} user_data_dir channel.
Arguments NewPage {rt} c.
Arguments Close {rt} c.
Arguments Count {rt} p t.
Arguments ScrollIntoView {rt} p t timeout.
Arguments Click {rt} p t timeout.
Arguments Screenshot {rt} p path.
Arguments Goto {rt} p url.
Arguments WaitForTimeout {rt} p ms.
Arguments EvAct {rt X} a r.
Arguments EvPrint {rt} l.
Arguments EvLog {rt} level n.
Arguments Done {A} a.
Arguments Raised {A} e.
Arguments Cut {A}.
Arguments mkDesk {rt World}.
Arguments clock_ms {rt World} d w.
Arguments context_pages {rt World} d w c.
Arguments tab_closed {rt World} d w p.
Arguments tab_url {rt World} d w p.
Arguments answer {rt World} d {X} a w.
Arguments ret {rt World A} a w.
Arguments raise {rt World A} e w.
Arguments cut {rt World A} w.
Arguments bind {rt World A B} m k w.
Arguments try_except {rt World A} m handles h w.
Arguments finally {rt World A} m cleanup w.
Arguments act {rt World} desk {X} a w.
Arguments print {rt World} l w.
Arguments log {rt World} level n w.
Arguments gets {rt World A} f w.
Arguments lift {rt World A} r w.
Arguments lift_reply {rt World A} r w.

End Console.

Declare Scope desk_scope.
Delimit Scope desk_scope with desk.
Notation "x <- m ;; k" := (Console.bind m (fun x => k))
  (at level 61, m at next level, right associativity) : desk_scope.
Notation "m ;;; k" := (Console.bind m (fun _ => k))
  (at level 61, right associativity) : desk_scope.

(** ** click_connect_helper.py *)
Module Helper.
Import PyStr Console.
Local Open Scope desk_scope.
Local Open Scope Z_scope.

Section Functions.
Variable rt : Runtime.

Record Config : Type := mkConfig {
  start_url : option str;
  button_label : str;
  timeout_seconds : Z;
  user_data_dir : Path rt;
  screenshot_dir : Path rt;
  min_delay_seconds : Float rt;
  max_delay_seconds : Float rt;
  use_open_page : bool;
  browser_channel : str
}.

Definition BUTTON : str := lit "button".
Definition CHROMIUM : str := lit "chromium".
Definition KEY_Q : str := lit "q".
Definition KEY_Y : str := lit "y".

(** [sep.join(l)] *)
Fixpoint join_str (sep : str) (l : list str) : str :=
  match l with
  | [] => []
  | [x] => x
  | x :: r => x ++ sep ++ join_str sep r
  end.

(** [l[i]] for [i >= 0] *)
Definition item {A} (l : list A) (i : nat) : result A :=
  match nth_error l i with
  | Some x => Ok x
  | None => Raise IndexError
  end.

(** [url or "(blank)"] *)
Definition or_blank (url : str) : str :=
  match url with
  | [] => lit "(blank)"
  | _ => url
  end.

Definition is_onedrive_path (path : Path rt) : bool :=
  has_sub (lit "onedrive") (py_lower rt (path_str rt path)).

Definition launch_failure (attempted : list str) : Exc :=
  RuntimeError
    (lit "Failed to launch browser in persistent mode. "
     ++ lit "Attempted: " ++ join_str (lit "; ") attempted ++ lit ". "
     ++ lit "Close all Chrome/Edge windows and try again, or choose a different --user-data-dir.").

Section Desk.
Variable World : Type.
Variable desk : Desk rt World.
Variable netloc_ok : str -> bool.

Local Abbreviation M := (H rt World).

Definition ask_user (prompt : Prompt) : M str :=
  raw <- act desk (Input prompt) ;;
  ret (py_lower rt (py_strip rt raw)).

(** One pass of the [for channel in channels] loop of
    [launch_context_with_fallback]: the [try] statement.  [None] when the
    launch failed with a Playwright error. *)
Definition launch_once (cfg : Config) (profile_dir : Path rt) (channel : str)
    (attempted : list str) : M (option Context * list str) :=
  let kw_channel := if negb (eqb channel CHROMIUM) then Some channel else None in
  try_except
    (context <- act desk (Launch (path_str rt profile_dir) kw_channel) ;;
     (if negb (path_eqb rt profile_dir (user_data_dir cfg))
      then log WARNING (NoteFallbackProfile rt (path_str rt profile_dir))
      else ret tt) ;;;
     (if negb (eqb channel (browser_channel cfg))
      then log WARNING (NoteFallbackChannel rt (browser_channel cfg) channel)
      else ret tt) ;;;
     ret (Some context, attempted))
    is_playwright
    (fun exc =>
       let attempted :=
         attempted ++ [lit "channel=" ++ channel ++ lit ", profile="
                       ++ path_str rt profile_dir] in
       log WARNING (NoteLaunchFailed rt channel (path_str rt profile_dir) exc) ;;;
       ret (None, attempted)).

(** The [for channel in channels] loop; [None] when every channel failed. *)
Fixpoint launch_channels (cfg : Config) (profile_dir : Path rt) (channels : list str)
    (attempted : list str) : M (option Context * list str) :=
  match channels with
  | [] => ret (None, attempted)
  | channel :: rest =>
      r <- launch_once cfg profile_dir channel attempted ;;
      match r with
      | (Some context, _) => ret r
      | (None, attempted) => launch_channels cfg profile_dir rest attempted
      end
  end.

(** The [for profile_dir in profile_dirs] loop. *)
Fixpoint launch_profiles (cfg : Config) (profile_dirs : list (Path rt)) (channels : list str)
    (attempted : list str) : M Context :=
  match profile_dirs with
  | [] => raise (launch_failure attempted)
  | profile_dir :: rest =>
      act desk (Mkdir profile_dir) ;;;
      r <- launch_channels cfg profile_dir channels attempted ;;
      match r with
      | (Some context, _) => ret context
      | (None, attempted) => launch_profiles cfg rest channels attempted
      end
  end.

Definition launch_context_with_fallback (cfg : Config) : M Context :=
  let channels :=
    browser_channel cfg
    :: (if negb (eqb (browser_channel cfg) CHROMIUM) then [CHROMIUM] else []) in
  let fresh_dir :=
    path_join rt (path_parent rt (user_data_dir cfg))
              (path_name rt (user_data_dir cfg) ++ lit "_fresh") in
  launch_profiles cfg [user_data_dir cfg; fresh_dir] channels [].

(** [for idx, p in enumerate(open_pages, start=1): print(...)] *)
Fixpoint print_tabs (idx : nat) (open_pages : list Tab) : M unit :=
  match open_pages with
  | [] => ret tt
  | p :: rest =>
      current_url <- gets (fun w => or_blank (tab_url desk w p)) ;;
      print (LineTab idx current_url) ;;;
      print_tabs (S idx) rest
  end.

(** The [while True] loop of [select_initial_page]. *)
Fixpoint choose_tab (fuel : nat) (open_pages : list Tab) : M Tab :=
  match fuel with
  | O => cut
  | S fuel' =>
      choice <- ask_user PromptSelectTab ;;
      if eqb choice KEY_Q then raise KeyboardInterrupt
      else if eqb choice [] then lift (item open_pages 0)
      else
        let again := print LineInvalidSelection ;;; choose_tab fuel' open_pages in
        if py_isdigit rt choice then
          selected_index <- lift (PyInt.int_of_str choice) ;;
          if (1 <=? selected_index) && (selected_index <=? Z.of_nat (List.length open_pages))
          then lift (item open_pages (Z.to_nat (selected_index - 1)))
          else again
        else again
  end.

Definition select_initial_page (fuel : nat) (context : Context) (cfg : Config) : M Tab :=
  open_pages <- gets (fun w => filter (fun p => negb (tab_closed desk w p))
                                     (context_pages desk w context)) ;;
  if use_open_page cfg then
    match open_pages with
    | _ :: _ =>
        print LineOpenTabs ;;;
        print_tabs 1 open_pages ;;;
        choose_tab fuel open_pages
    | [] =>
        page <- act desk (NewPage context) ;;
        answer <- ask_user PromptNoTabs ;;
        if eqb answer KEY_Q then raise KeyboardInterrupt else ret page
    end
  else
    match open_pages with
    | p :: _ => ret p
    | [] => act desk (NewPage context)
    end.

Definition captcha_selectors : list str :=
  [lit "iframe[title*='captcha' i]"; lit "iframe[src*='captcha' i]";
   lit "[id*='captcha' i]"; lit "[class*='captcha' i]"].

(** The [for selector in captcha_selectors] loop. *)
Fixpoint scan_captcha (page : Tab) (selectors : list str) : M bool :=
  match selectors with
  | [] => ret false
  | selector :: rest =>
      found <- try_except
                 (n <- act desk (Count page (ByCss selector)) ;; ret (0 <? n)%nat)
                 is_exception
                 (fun _ => ret false) ;;
      if found then ret true else scan_captcha page rest
  end.

Definition wait_for_manual_verification_if_needed (page : Tab) : M bool :=
  verification_detected <- scan_captcha page captcha_selectors ;;
  verification_detected <-
    (if negb verification_detected then
       try_except
         (n <- act desk (Count page (ByPattern (lit "verify|verification|captcha"))) ;;
          ret (0 <? n)%nat)
         is_exception
         (fun _ => ret false)
     else ret verification_detected) ;;
  if negb verification_detected then ret true
  else
    log WARNING (NoteCaptcha rt) ;;;
    answer <- ask_user PromptVerification ;;
    if eqb answer KEY_Q then log INFO (NoteQuitVerification rt) ;;; ret false
    else ret true.

Definition wait_for_manual_recovery_if_site_error (page : Tab) : M bool :=
  has_error_text <-
    try_except
      (n <- act desk (Count page (ByText (lit "Something unexpected happened"))) ;;
       ret (0 <? n)%nat)
      is_exception
      (fun _ => ret false) ;;
  if negb has_error_text then ret true
  else
    log WARNING (NoteSiteError rt) ;;;
    answer <- ask_user PromptSiteError ;;
    if eqb answer KEY_Q then log INFO (NoteQuitRecovery rt) ;;; ret false
    else ret true.

Definition get_connect_button_count (page : Tab) (button_label : str) : M nat :=
  act desk (Count page (ByRole BUTTON button_label)).

Definition save_screenshot (page : Tab) (screenshot_dir : Path rt) : M (Path rt) :=
  act desk (Mkdir screenshot_dir) ;;;
  timestamp <- act desk Now ;;
  let path := path_join rt screenshot_dir (lit "click_" ++ timestamp ++ lit ".png") in
  act desk (Screenshot page (path_str rt path)) ;;;
  ret path.

(** The [while time.time() < deadline] loop of [wait_for_ui_change]. *)
Fixpoint poll_ui_change (fuel : nat) (page : Tab) (button_label : str) (deadline : Z)
    (previous_connect_count previous_connected_count : nat) : M bool :=
  match fuel with
  | O => cut
  | S fuel' =>
      now <- gets (clock_ms desk) ;;
      if now <? deadline then
        current_count <- get_connect_button_count page button_label ;;
        connected_now <- act desk (Count page (ByRole BUTTON (lit "Connected"))) ;;
        if (current_count <? previous_connect_count)%nat
           || (previous_connected_count <? connected_now)%nat
        then ret true
        else
          act desk (WaitForTimeout page 500) ;;;
          poll_ui_change fuel' page button_label deadline
                         previous_connect_count previous_connected_count
      else ret false
  end.

Definition wait_for_ui_change (fuel : nat) (page : Tab) (button_label : str)
    (timeout_seconds : Z) (previous_connect_count previous_connected_count : nat) : M bool :=
  now <- gets (clock_ms desk) ;;
  let deadline := now + timeout_seconds * 1000 in
  poll_ui_change fuel page button_label deadline
                 previous_connect_count previous_connected_count.

Definition click_one_connect (fuel : nat) (page : Tab) (cfg : Config) : M bool :=
  let buttons := ByRole BUTTON (button_label cfg) in
  count_before <- act desk (Count page buttons) ;;
  if (count_before =? 0)%nat then ret false
  else
    connected_before <- act desk (Count page (ByRole BUTTON (lit "Connected"))) ;;
    act desk (ScrollIntoView page (FirstOf buttons) 5000) ;;;
    act desk (Click page (FirstOf buttons) 10000) ;;;
    screenshot_path <- save_screenshot page (screenshot_dir cfg) ;;
    log INFO (NoteClicked rt (button_label cfg) (path_str rt screenshot_path)) ;;;
    changed <- wait_for_ui_change fuel page (button_label cfg) (timeout_seconds cfg)
                                  count_before connected_before ;;
    (if changed then log INFO (NoteChanged rt)
     else log WARNING (NoteUnchanged rt (timeout_seconds cfg))) ;;;
    delay <- act desk (Uniform (min_delay_seconds cfg) (max_delay_seconds cfg)) ;;
    log INFO (NoteSleeping rt delay) ;;;
    ms <- lift_reply (float_ms rt delay) ;;
    act desk (WaitForTimeout page ms) ;;;
    ret true.

(** How a loop of [run] is left: by [return], or by its end or a [break]. *)
Inductive Flow : Type := Returned | Left.

(** What the [try] around [click_one_connect] comes to. *)
Inductive Tried : Type :=
| Clicked (clicked : bool)
| Requery (connect_count : nat)
| GaveUp.

(** The [while connect_count > 0] loop of [run]. *)
Fixpoint click_loop (fuel : nat) (page : Tab) (cfg : Config) (connect_count : nat) : M Flow :=
  match fuel with
  | O => cut
  | S fuel' =>
      if (0 <? connect_count)%nat then
        answer <- ask_user (PromptClick (button_label cfg)) ;;
        if eqb answer KEY_Q then log INFO (NoteUserQuit rt) ;;; ret Returned
        else
          closed <- gets (fun w => tab_closed desk w page) ;;
          if closed then log WARNING (NotePageClosedByUser rt) ;;; ret Returned
          else
            ok <- wait_for_manual_recovery_if_site_error page ;;
            if negb ok then ret Returned
            else
              ok <- wait_for_manual_verification_if_needed page ;;
              if negb ok then ret Returned
              else
                tried <- try_except
                           (clicked <- click_one_connect fuel page cfg ;;
                            ret (Clicked clicked))
                           is_timeout
                           (fun exc =>
                              log ERROR (NoteClickTimeout rt exc) ;;;
                              retry_answer <- ask_user PromptRetry ;;
                              if eqb retry_answer KEY_Q then ret GaveUp
                              else
                                connect_count <-
                                  get_connect_button_count page (button_label cfg) ;;
                                ret (Requery connect_count)) ;;
                match tried with
                | GaveUp => ret Returned
                | Requery connect_count => click_loop fuel' page cfg connect_count
                | Clicked false =>
                    log INFO (NoteNoneRemain rt (button_label cfg)) ;;; ret Left
                | Clicked true =>
                    connect_count <- get_connect_button_count page (button_label cfg) ;;
                    log INFO (NoteRemaining rt (button_label cfg) connect_count) ;;;
                    click_loop fuel' page cfg connect_count
                end
      else ret Left
  end.

(** The [while True] loop of [run]. *)
Fixpoint session (fuel : nat) (page : Tab) (cfg : Config) : M unit :=
  match fuel with
  | O => cut
  | S fuel' =>
      closed <- gets (fun w => tab_closed desk w page) ;;
      if closed then log WARNING (NotePageClosed rt)
      else
        ok <- wait_for_manual_recovery_if_site_error page ;;
        if negb ok then ret tt
        else
          ok <- wait_for_manual_verification_if_needed page ;;
          if negb ok then ret tt
          else
            connect_count <- get_connect_button_count page (button_label cfg) ;;
            log INFO (NoteFound rt connect_count (button_label cfg)) ;;;
            print (LineFound connect_count (button_label cfg)) ;;;
            flow <- click_loop fuel page cfg connect_count ;;
            match flow with
            | Returned => ret tt
            | Left =>
                next_page_answer <- ask_user PromptNextPage ;;
                if negb (eqb next_page_answer KEY_Y) then log INFO (NoteUserEnded rt)
                else
                  url <- gets (fun w => tab_url desk w page) ;;
                  next <- lift (Cursor.increment_page_query netloc_ok url) ;;
                  let '(next_url, next_page_number) := next in
                  log INFO (NoteNavigating rt next_page_number next_url) ;;;
                  act desk (Goto page (Some next_url)) ;;;
                  act desk (WaitForTimeout page 1500) ;;;
                  session fuel' page cfg
            end
  end.

(** The [try] block of [run]. *)
Definition attended (fuel : nat) (context : Context) (cfg : Config) : M unit :=
  page <- select_initial_page fuel context cfg ;;
  (if use_open_page cfg then
     url <- gets (fun w => tab_url desk w page) ;;
     log INFO (NoteUsingOpenPage rt url)
   else
     log INFO (NoteOpeningStartUrl rt (start_url cfg)) ;;;
     act desk (Goto page (start_url cfg)) ;;;
     act desk (WaitForTimeout page 1500)) ;;;
  session fuel page cfg.

(** The [finally] block of [run]. *)
Definition close_context (context : Context) : M unit :=
  log INFO (NoteClosing rt) ;;;
  try_except
    (act desk (Close context))
    is_playwright
    (fun exc =>
       if has_sub (lit "Target page, context or browser has been closed") (exc_message exc)
       then log INFO (NoteAlreadyClosed rt)
       else raise exc).

Definition run (fuel : nat) (cfg : Config) : M unit :=
  act desk (Mkdir (user_data_dir cfg)) ;;;
  act desk (Mkdir (screenshot_dir cfg)) ;;;
  (if is_onedrive_path (user_data_dir cfg)
   then log WARNING (NoteOneDrive rt (path_str rt (user_data_dir cfg)))
   else ret tt) ;;;
  act desk PwStart ;;;
  finally
    (context <- launch_context_with_fallback cfg ;;
     finally
       (try_except (attended fuel context cfg)
                   is_keyboard_interrupt
                   (fun _ => log INFO (NoteQuitBeforeLoop rt)))
       (close_context context))
    (act desk PwStop).

End Desk.
End Functions.

Arguments mkConfig {rt}.
Arguments start_url {rt} c.
Arguments button_label {rt} c.
Arguments timeout_seconds {rt} c.
Arguments user_data_dir {rt} c.
Arguments screenshot_dir {rt} c.
Arguments min_delay_seconds {rt} c.
Arguments max_delay_seconds {rt} c.
Arguments use_open_page {rt} c.
Arguments browser_channel {rt} c.
Arguments ask_user {rt World} desk.
Arguments launch_once {rt World} desk.
Arguments launch_channels {rt World} desk.
Arguments launch_profiles {rt World} desk.
Arguments launch_context_with_fallback {rt World} desk.
Arguments print_tabs {rt World} desk.
Arguments choose_tab {rt World} desk.
Arguments select_initial_page {rt World} desk.
Arguments scan_captcha {rt World} desk.
Arguments wait_for_manual_verification_if_needed {rt World} desk.
Arguments wait_for_manual_recovery_if_site_error {rt World} desk.
Arguments get_connect_button_count {rt World} desk.
Arguments save_screenshot {rt World} desk.
Arguments poll_ui_change {rt World} desk.
Arguments wait_for_ui_change {rt World} desk.
Arguments click_one_connect {rt World} desk.
Arguments click_loop {rt World} desk.
Arguments session {rt World} desk.
Arguments attended {rt World} desk.
Arguments close_context {rt World} desk.
Arguments run {rt World} desk.

End Helper.

(** * Properties of the helper's runs *)
Module HelperProps.
Import PyStr Console Helper.
Local Open Scope Z_scope.

(** The kinds of events, an input by its question. *)
Inductive Kind : Type :=
| KMkdir | KNow | KUniform | KInput (prompt : Prompt) | KPwStart | KPwStop
| KLaunch | KNewPage | KClose | KCount | KScrollIntoView | KClick
| KScreenshot | KGoto | KWaitForTimeout | KPrint | KLog.

(** The kinds of events of the parts of [run]. *)
Definition after_click_kinds : list Kind :=
  [KMkdir; KNow; KScreenshot; KLog; KCount; KWaitForTimeout; KUniform].

Definition click_kinds : list Kind := KScrollIntoView :: KClick :: after_click_kinds.

Definition loop_kinds (label : str) : list Kind :=
  KInput (PromptClick label) :: KInput PromptRetry
  :: KInput PromptSiteError :: KInput PromptVerification :: click_kinds.

Definition select_kinds : list Kind :=
  [KPrint; KInput PromptSelectTab; KInput PromptNoTabs; KNewPage].

Definition body_kinds (label : str) : list Kind :=
  KPrint :: KInput PromptSelectTab :: KInput PromptNoTabs :: KNewPage
  :: KInput PromptNextPage :: KGoto :: loop_kinds label.

Definition launch_kinds : list Kind := [KMkdir; KLaunch; KLog].

Section Props.
Variable rt : Runtime.

Definition act_kind {X} (a : Act rt X) : Kind :=
  match a with
  | Mkdir _ => KMkdir
  | Now => KNow
  | Uniform _ _ => KUniform
  | Input prompt => KInput prompt
  | PwStart => KPwStart
  | PwStop => KPwStop
  | Launch _ _ => KLaunch
  | NewPage _ => KNewPage
  | Close _ => KClose
  | Count _ _ => KCount
  | ScrollIntoView _ _ _ => KScrollIntoView
  | Click _ _ _ => KClick
  | Screenshot _ _ => KScreenshot
  | Goto _ _ => KGoto
  | WaitForTimeout _ _ => KWaitForTimeout
  end.

Definition kind (e : Ev rt) : Kind :=
  match e with
  | EvAct a _ => act_kind a
  | EvPrint _ => KPrint
  | EvLog _ _ => KLog
  end.

(** Every event of every run of [m] satisfies [P]. *)
Definition Within {World A} (P : Ev rt -> Prop) (m : H rt World A) : Prop :=
  forall w r w' tr, m w = (r, w', tr) -> Forall P tr.

Definition of_kinds (ks : list Kind) (e : Ev rt) : Prop := In (kind e) ks.

(** What [ask_user] makes of the line the user typed. *)
Definition typed (raw : str) : str := py_lower rt (py_strip rt raw).

(** An answer to one of the questions [asks], read as a yes or a no by
    [accept]; a question that fails is a no. *)
Definition answered (asks : Prompt -> bool) (accept : str -> bool) (e : Ev rt)
    : option bool :=
  match e with
  | EvAct a r =>
      match a in Act _ T return reply T -> option bool with
      | Input prompt =>
          fun r => if asks prompt
                   then match r with
                        | Fine raw => Some (accept (typed raw))
                        | Fails _ => Some false
                        end
                   else None
      | _ => fun _ => None
      end r
  | _ => None
  end.

Definition is_click (e : Ev rt) : bool :=
  match e with
  | EvAct a _ => match a with Click _ _ _ => true | _ => false end
  | _ => false
  end.

Definition is_goto (e : Ev rt) : bool :=
  match e with
  | EvAct a _ => match a with Goto _ _ => true | _ => false end
  | _ => false
  end.

Definition is_launch (e : Ev rt) : bool :=
  match e with
  | EvAct a _ => match a with Launch _ _ => true | _ => false end
  | _ => false
  end.

Definition is_click_prompt (p : Prompt) : bool :=
  match p with
  | PromptClick _ => true
  | _ => false
  end.

Definition is_next_prompt (p : Prompt) : bool :=
  match p with
  | PromptNextPage => true
  | _ => false
  end.

(** The click question is answered with a yes by anything but [q]. *)
Definition click_answer : Ev rt -> option bool :=
  answered is_click_prompt (fun a => negb (eqb a KEY_Q)).

(** The next-page question is answered with a yes by [y] only. *)
Definition next_answer : Ev rt -> option bool :=
  answered is_next_prompt (fun a => eqb a KEY_Y).

(** How many clicks, and how many launches, a run made. *)
Definition clicks (tr : list (Ev rt)) : nat := List.length (filter is_click tr).

Definition launches (tr : list (Ev rt)) : nat := List.length (filter is_launch tr).

(** A click is a click on the first button with the label, with the
    timeout of [click_one_connect]. *)
Definition connect_click (label : str) (e : Ev rt) : Prop :=
  match e with
  | EvAct a _ =>
      match a with
      | Click _ t timeout => t = FirstOf (ByRole BUTTON label) /\ timeout = 10000
      | _ => True
      end
  | _ => True
  end.

(** The launch of the context [c] that succeeded. *)
Definition launched (c : Context) (e : Ev rt) : Prop :=
  exists d ch, e = EvAct (Launch d ch) (Fine c).

(** Neither a launch that succeeded nor a [context.close()]. *)
Definition no_context (e : Ev rt) : Prop :=
  kind e <> KClose /\ forall c, ~ launched c e.

(** The life of the browser context in a run: no context is launched and
    none is closed; or one launch succeeds, the context it gives is closed
    once, later, and after that the run only logs and leaves Playwright. *)
Definition Lifecycle (tr : list (Ev rt)) : Prop :=
  Forall no_context tr
  \/ exists pre d ch c mid x post,
       tr = pre ++ EvAct (Launch d ch) (Fine c) :: mid ++ EvAct (Close c) x :: post
       /\ Forall no_context pre /\ Forall no_context mid
       /\ Forall (of_kinds [KLog; KPwStop]) post.

(** A launch that failed with a Playwright error. *)
Definition failed_launch (e : Ev rt) : Prop :=
  match e with
  | EvAct a r =>
      match a in Act _ T return reply T -> Prop with
      | Launch _ _ => fun r => match r with
                               | Fails x => is_playwright x = true
                               | Fine _ => False
                               end
      | _ => fun _ => True
      end r
  | _ => True
  end.

Section Latch.
(** A latch: some events answer a question with a yes or a no ([arms]), some
    events need a yes ([fires]) and use it up. *)
Variable arms : Ev rt -> option bool.
Variable fires : Ev rt -> bool.

Definition latch (armed : bool) (e : Ev rt) : option bool :=
  if fires e then (if armed then Some false else None)
  else match arms e with
       | Some b => Some b
       | None => Some armed
       end.

(** The state of the latch after the events, if they all pass. *)
Fixpoint through (armed : bool) (tr : list (Ev rt)) : option bool :=
  match tr with
  | [] => Some armed
  | e :: rest =>
      match latch armed e with
      | Some armed' => through armed' rest
      | None => None
      end
  end.

(** An event the latch does not look at. *)
Definition idle (e : Ev rt) : Prop := fires e = false /\ arms e = None.

(** Every event that needs a yes comes after its own yes: the last
    answer before it is a yes and nothing since has used it.  With [free],
    the first such event may come with no answer before it. *)
Definition Latched (free : bool) (tr : list (Ev rt)) : Prop :=
  forall pre e post,
    tr = pre ++ e :: post -> fires e = true ->
    (exists pre1 a pre2,
       pre = pre1 ++ a :: pre2 /\ arms a = Some true /\ Forall idle pre2)
    \/ (free = true /\ Forall idle pre).

(** From a latch state in [P], the events of [m] pass, however [m] ends,
    and leave the latch in a state in [Q a] when [m] returns [a]. *)
Definition Obeys {World A} (P : bool -> Prop) (Q : A -> bool -> Prop)
    (m : H rt World A) : Prop :=
  forall w r w' tr s,
    m w = (r, w', tr) -> P s ->
    exists s', through s tr = Some s' /\ forall a, r = Done a -> Q a s'.

End Latch.
End Props.

Arguments kind {rt} e.
Arguments act_kind {rt X} a.
Arguments Within {rt World A} P m.
Arguments of_kinds {rt} ks e.
Arguments is_click {rt} e.
Arguments is_goto {rt} e.
Arguments is_launch {rt} e.
Arguments clicks {rt} tr.
Arguments launches {rt} tr.
Arguments connect_click {rt} label e.
Arguments launched {rt} c e.
Arguments no_context {rt} e.
Arguments Lifecycle {rt} tr.
Arguments failed_launch {rt} e.
Arguments latch {rt} arms fires armed e.
Arguments through {rt} arms fires armed tr.
Arguments idle {rt} arms fires e.
Arguments Latched {rt} arms fires free tr.
Arguments Obeys {rt} arms fires {World A} P Q m.

End HelperProps.

(** * A desk that answers from a script *)
Module HelperCases.
Import PyStr Console Helper.
Local Open Scope Z_scope.

(** A runtime for the examples: a path is the list of its parts, a float a
    number of thousandths, and text is ASCII. *)
Definition ascii_strip (s : str) : str :=
  rev (lstrip PyInt.is_space (rev (lstrip PyInt.is_space s))).

Definition ascii_isdigit (s : str) : bool :=
  match s with
  | [] => false
  | _ => forallb is_digit s
  end.

Fixpoint parts_eqb (p q : list str) : bool :=
  match p, q with
  | [], [] => true
  | a :: p', b :: q' => eqb a b && parts_eqb p' q'
  | _, _ => false
  end.

Definition plain_runtime : Runtime :=
  mkRuntime (list str) Z
            (join Ch.SLASH) parts_eqb (@removelast str) (fun p => last p [])
            (fun p name => p ++ [name])
            (fun x => Fine x)
            ascii_strip lower ascii_isdigit.

(** The desk: every call takes a second; the lines the user types, the
    counts of buttons found by role and the answers to the launches are
    taken from three queues; every other call succeeds, a count of
    anything else finds nothing. *)
Record World : Type := mkWorld {
  now : Z;
  tabs : list Tab;
  url : str;
  lines : list str;
  counts : list nat;
  launch_answers : list (reply Context)
}.

Definition tick (w : World) : World :=
  mkWorld (now w + 1000) (tabs w) (url w) (lines w) (counts w) (launch_answers w).

Definition answer (X : Type) (a : Act plain_runtime X) (w : World) : reply X * World :=
  let w := tick w in
  match a in Act _ T return reply T * World with
  | Mkdir _ => (Fine tt, w)
  | Now => (Fine (lit "20240101_120000_000000"), w)
  | Uniform lo _ => (Fine lo, w)
  | Input _ =>
      (Fine (hd [] (lines w)),
       mkWorld (now w) (tabs w) (url w) (tl (lines w)) (counts w) (launch_answers w))
  | PwStart => (Fine tt, w)
  | PwStop => (Fine tt, w)
  | Launch _ _ =>
      (hd (Fine 1%nat) (launch_answers w),
       mkWorld (now w) (tabs w) (url w) (lines w) (counts w) (tl (launch_answers w)))
  | NewPage _ => (Fine 9%nat, w)
  | Close _ => (Fine tt, w)
  | Count _ (ByRole _ _) =>
      (Fine (hd O (counts w)),
       mkWorld (now w) (tabs w) (url w) (lines w) (tl (counts w)) (launch_answers w))
  | Count _ _ => (Fine O, w)
  | ScrollIntoView _ _ _ => (Fine tt, w)
  | Click _ _ _ => (Fine tt, w)
  | Screenshot _ _ => (Fine tt, w)
  | Goto _ (Some u) =>
      (Fine tt, mkWorld (now w) (tabs w) u (lines w) (counts w) (launch_answers w))
  | Goto _ None => (Fails OtherException, w)
  | WaitForTimeout _ ms =>
      (Fine tt,
       mkWorld (now w + ms) (tabs w) (url w) (lines w) (counts w) (launch_answers w))
  end.

Definition desk : Desk plain_runtime World :=
  mkDesk now (fun w _ => tabs w) (fun _ _ => false) (fun w _ => url w) answer.

Definition people : str := lit "https://example.com/people?page=2".

(** The command line's defaults, starting from [people], with Chrome. *)
Definition settings (use_open_page : bool) : Config plain_runtime :=
  @mkConfig plain_runtime (Some people) (lit "Connect") 15
            [lit "."; lit "user_data"] [lit "."; lit "screenshots"]
            2000 4000 use_open_page (lit "chrome").

Definition not_installed : Exc := Py (PlaywrightError (lit "Executable does not exist")).

(** One tab is open.  Chrome is not installed, Chromium launches.  The page
    shows one Connect button; the user presses Enter, the button turns
    into Connected, and the user declines the next page. *)
Definition one_click : World :=
  mkWorld 0 [7%nat] (lit "about:blank") [[]; lit "n"] [1; 1; 0; 0; 1; 0]%nat
          [Fails not_installed; Fine 3%nat].

(** Two tabs are open and the user picks the second. *)
Definition two_tabs : World :=
  mkWorld 0 [7%nat; 8%nat] people [lit " 2 "] [] [].

(** The page shows no Connect button; the user answers Y to the next-page
    question, and n on the page after. *)
Definition next_page : World :=
  mkWorld 0 [7%nat] people [lit "Y"; lit "n"] [] [].

(** One Connect button, which turns into Connected at the first poll. *)
Definition one_button : World :=
  mkWorld 0 [7%nat] people [] [1; 0; 0; 1]%nat [].

End HelperCases.

(** * UTF-8: decoding what was encoded *)

Module Utf8Facts.
Local Open Scope N_scope.
Import Utf8.
Import UrlProps.

Ltac Zify.zify_post_hook ::= Z.to_euclidean_division_equations.

Ltac ltb_true := symmetry; apply N.ltb_lt; lia.

Ltac ltb_false := symmetry; apply N.ltb_ge; lia.

Lemma decode_cons b1 r1 :
  decode (b1 :: r1) =
      if b1 <? 128 then b1 :: decode r1
      else if b1 <? 194 then Ch.REPLACEMENT :: decode r1
      else if b1 <? 224 then
        match r1 with
        | [] => [Ch.REPLACEMENT]
        | b2 :: r2 =>
            if is_cont b2 then ((b1 - 192) * 64 + (b2 - 128)) :: decode r2
            else Ch.REPLACEMENT :: decode r1
        end
      else if b1 <? 240 then
        match r1 with
        | [] => [Ch.REPLACEMENT]
        | b2 :: r2 =>
            if second_of_3 b1 b2 then
              match r2 with
              | [] => [Ch.REPLACEMENT]
              | b3 :: r3 =>
                  if is_cont b3 then
                    ((b1 - 224) * 4096 + (b2 - 128) * 64 + (b3 - 128))
                      :: decode r3
                  else Ch.REPLACEMENT :: decode r2
              end
            else Ch.REPLACEMENT :: decode r1
        end
      else if b1 <? 245 then
        match r1 with
        | [] => [Ch.REPLACEMENT]
        | b2 :: r2 =>
            if second_of_4 b1 b2 then
              match r2 with
              | [] => [Ch.REPLACEMENT]
              | b3 :: r3 =>
                  if is_cont b3 then
                    match r3 with
                    | [] => [Ch.REPLACEMENT]
                    | b4 :: r4 =>
                        if is_cont b4 then
                          ((b1 - 240) * 262144 + (b2 - 128) * 4096
                           + (b3 - 128) * 64 + (b4 - 128)) :: decode r4
                        else Ch.REPLACEMENT :: decode r3
                    end
                  else Ch.REPLACEMENT :: decode r2
              end
            else Ch.REPLACEMENT :: decode r1
        end
      else Ch.REPLACEMENT :: decode r1.
Proof. destruct r1 as [|b2 [|b3 [|b4 r4]]]; reflexivity. Qed.

Lemma is_cont_true b : 128 <= b < 192 -> is_cont b = true.
Proof. intros; unfold is_cont; apply andb_true_iff; split; [apply N.leb_le|apply N.ltb_lt]; lia. Qed.

Lemma decode_1 b r : b < 128 -> decode (b :: r) = b :: decode r.
Proof. intros; rewrite decode_cons; replace (b <? 128) with true by ltb_true; reflexivity. Qed.

Lemma decode_2 b1 b2 r :
  194 <= b1 < 224 -> 128 <= b2 < 192 ->
  decode (b1 :: b2 :: r) = ((b1 - 192) * 64 + (b2 - 128)) :: decode r.
Proof.
  intros; rewrite decode_cons.
  replace (b1 <? 128) with false by ltb_false.
  replace (b1 <? 194) with false by ltb_false.
  replace (b1 <? 224) with true by ltb_true.
  rewrite is_cont_true by lia. reflexivity.
Qed.

Lemma decode_3 b1 b2 b3 r :
  224 <= b1 < 240 -> 128 <= b2 < 192 -> 128 <= b3 < 192 ->
  (b1 = 224 -> 160 <= b2) -> (b1 = 237 -> b2 < 160) ->
  decode (b1 :: b2 :: b3 :: r)
  = ((b1 - 224) * 4096 + (b2 - 128) * 64 + (b3 - 128)) :: decode r.
Proof.
  intros; rewrite decode_cons.
  replace (b1 <? 128) with false by ltb_false.
  replace (b1 <? 194) with false by ltb_false.
  replace (b1 <? 224) with false by ltb_false.
  replace (b1 <? 240) with true by ltb_true.
  unfold second_of_3. rewrite !is_cont_true by lia. cbn [andb].
  destruct (N.ltb_spec b2 160); destruct (N.eqb_spec b1 224);
    destruct (N.eqb_spec b1 237); try lia; reflexivity.
Qed.

Lemma decode_4 b1 b2 b3 b4 r :
  240 <= b1 < 245 -> 128 <= b2 < 192 -> 128 <= b3 < 192 -> 128 <= b4 < 192 ->
  (b1 = 240 -> 144 <= b2) -> (b1 = 244 -> b2 < 144) ->
  decode (b1 :: b2 :: b3 :: b4 :: r)
  = ((b1 - 240) * 262144 + (b2 - 128) * 4096 + (b3 - 128) * 64 + (b4 - 128))
      :: decode r.
Proof.
  intros; rewrite decode_cons.
  replace (b1 <? 128) with false by ltb_false.
  replace (b1 <? 194) with false by ltb_false.
  replace (b1 <? 224) with false by ltb_false.
  replace (b1 <? 240) with false by ltb_false.
  replace (b1 <? 245) with true by ltb_true.
  unfold second_of_4. rewrite !is_cont_true by lia. cbn [andb].
  destruct (N.ltb_spec b2 144); destruct (N.eqb_spec b1 240);
    destruct (N.eqb_spec b1 244); try lia; reflexivity.
Qed.

Lemma Ok_inj {A} (a b : A) : Ok a = Ok b -> a = b.
Proof. congruence. Qed.

Ltac inj_ok := let E := fresh in intros E; apply Ok_inj in E; subst.

Lemma decode_encode1 c b r :
  encode1 c = Ok b -> decode (b ++ r) = c :: decode r.
Proof.
  unfold encode1.
  destruct (N.ltb_spec c 128).
  { inj_ok. apply decode_1; lia. }
  destruct (N.ltb_spec c 2048).
  { inj_ok. cbn [app]. rewrite decode_2 by lia. f_equal; lia. }
  destruct (N.ltb_spec c 65536).
  { destruct (N.leb_spec 55296 c); destruct (N.ltb_spec c 57344); cbn [andb];
      try discriminate; inj_ok; cbn [app];
      rewrite decode_3 by lia; f_equal; lia. }
  destruct (N.ltb_spec c 1114112); try discriminate.
  inj_ok; cbn [app]; rewrite decode_4 by lia; f_equal; lia.
Qed.

Lemma encode1_bytes c b :
  encode1 c = Ok b -> Forall (fun x => x < 256) b.
Proof.
  unfold encode1.
  destruct (N.ltb_spec c 128).
  { inj_ok. repeat constructor; lia. }
  destruct (N.ltb_spec c 2048).
  { inj_ok. repeat constructor; lia. }
  destruct (N.ltb_spec c 65536).
  { destruct (N.leb_spec 55296 c); destruct (N.ltb_spec c 57344); cbn [andb];
      try discriminate; inj_ok; repeat constructor; lia. }
  destruct (N.ltb_spec c 1114112); try discriminate.
  inj_ok; repeat constructor; lia.
Qed.

Lemma encode1_scalar c : is_scalar c = true -> exists b, encode1 c = Ok b.
Proof.
  unfold is_scalar, encode1. intros H.
  destruct (N.ltb_spec c 128); [eauto|].
  destruct (N.ltb_spec c 2048); [eauto|].
  destruct (N.ltb_spec c 55296), (N.leb_spec 57344 c), (N.ltb_spec c 1114112);
    cbn in H; try discriminate; try lia.
  all: destruct (N.ltb_spec c 65536), (N.leb_spec 55296 c), (N.ltb_spec c 57344);
    cbn [andb]; eauto; lia.
Qed.

Lemma decode_scalar bs : Forall (fun c => is_scalar c = true) (decode bs).
Proof.
  assert (R : is_scalar Ch.REPLACEMENT = true) by reflexivity.
  assert (G : forall n bs, (List.length bs <= n)%nat -> Forall (fun c => is_scalar c = true) (decode bs)).
  { induction n as [|n IH]; intros l Hl.
    - destruct l; [constructor | simpl in Hl; lia].
    - destruct l as [|b1 r1]; [constructor|]. simpl in Hl.
      rewrite decode_cons.
      assert (IH1 : Forall (fun c => is_scalar c = true) (decode r1)) by (apply IH; lia).
      destruct (N.ltb_spec b1 128).
      { constructor; auto. unfold is_scalar. replace (b1 <? 55296) with true by ltb_true. reflexivity. }
      destruct (N.ltb_spec b1 194); [constructor; auto|].
      destruct (N.ltb_spec b1 224).
      { destruct r1 as [|b2 r2]; [repeat constructor; auto|].
        unfold is_cont. destruct (N.leb_spec 128 b2); destruct (N.ltb_spec b2 192); cbn [andb];
          try (constructor; auto; fail).
        constructor; [|apply IH; simpl in Hl; lia].
        unfold is_scalar. replace (_ <? 55296) with true by ltb_true. reflexivity. }
      destruct (N.ltb_spec b1 240).
      { destruct r1 as [|b2 r2]; [repeat constructor; auto|].
        unfold second_of_3, is_cont.
        destruct (N.leb_spec 128 b2); destruct (N.ltb_spec b2 192); cbn [andb];
          try (constructor; auto; fail).
        destruct (N.ltb_spec b2 160); [destruct (N.eqb_spec b1 224)|destruct (N.eqb_spec b1 237)];
          cbn [negb]; try (constructor; auto; fail).
        all: destruct r2 as [|b3 r3]; [repeat constructor; auto|].
        all: destruct (N.leb_spec 128 b3); destruct (N.ltb_spec b3 192); cbn [andb];
          try (constructor; auto; apply IH; simpl in *; lia).
        all: constructor; [|apply IH; simpl in *; lia].
        all: unfold is_scalar.
        all: destruct (N.ltb_spec b1 237);
          [replace (_ <? 55296) with true by ltb_true; reflexivity|].
        all: destruct (N.eqb_spec b1 237);
          [replace (_ <? 55296) with true by ltb_true; reflexivity|].
        all: replace (_ <? 55296) with false by ltb_false.
        all: replace (_ <? 1114112) with true by ltb_true.
        all: replace (57344 <=? _) with true by (symmetry; apply N.leb_le; lia); reflexivity. }
      destruct (N.ltb_spec b1 245); [|constructor; auto].
      destruct r1 as [|b2 r2]; [repeat constructor; auto|].
      unfold second_of_4, is_cont.
      destruct (N.leb_spec 128 b2); destruct (N.ltb_spec b2 192); cbn [andb];
        try (constructor; auto; fail).
      destruct (N.ltb_spec b2 144); [destruct (N.eqb_spec b1 240)|destruct (N.eqb_spec b1 244)];
        cbn [negb]; try (constructor; auto; fail).
      all: destruct r2 as [|b3 r3]; [repeat constructor; auto|].
      all: destruct (N.leb_spec 128 b3); destruct (N.ltb_spec b3 192); cbn [andb];
        try (constructor; auto; apply IH; simpl in *; lia).
      all: destruct r3 as [|b4 r4]; [repeat constructor; auto|].
      all: destruct (N.leb_spec 128 b4); destruct (N.ltb_spec b4 192); cbn [andb];
        try (constructor; auto; apply IH; simpl in *; lia).
      all: constructor; [|apply IH; simpl in *; lia].
      all: unfold is_scalar.
      all: replace (_ <? 55296) with false by ltb_false.
      all: replace (_ <? 1114112) with true by ltb_true.
      all: replace (57344 <=? _) with true by (symmetry; apply N.leb_le; lia); reflexivity. }
  apply (G (List.length bs)); lia.
Qed.

End Utf8Facts.

(** * Quoting: [unquote] undoes [quote_plus] *)

Module QuoteFacts.
Local Open Scope N_scope.
Import PyStr Utf8 UrlParse Utf8Facts.
Import UrlProps.

Ltac Zify.zify_post_hook ::= Z.to_euclidean_division_equations.

Lemma flat_map_step {A B} (f : A -> list B) x l :
  flat_map f (x :: l) = f x ++ flat_map f l.
Proof. reflexivity. Qed.

Lemma hex_value_upper d : d < 16 -> hex_value (hex_upper d) = Some d.
Proof.
  intros H. unfold hex_value, hex_upper, is_digit.
  destruct (N.ltb_spec d 10).
  - replace (48 <=? 48 + d) with true by (symmetry; apply N.leb_le; lia).
    replace (48 + d <=? 57) with true by (symmetry; apply N.leb_le; lia).
    cbn [andb]. f_equal; lia.
  - replace (55 + d <=? 57) with false by (symmetry; apply N.leb_gt; lia).
    rewrite andb_false_r.
    replace (65 <=? 55 + d) with true by (symmetry; apply N.leb_le; lia).
    replace (55 + d <=? 70) with true by (symmetry; apply N.leb_le; lia).
    cbn [andb]. f_equal; lia.
Qed.

Lemma unquote_to_bytes_cons c r :
  unquote_to_bytes (c :: r) =
      if c =? Ch.PERCENT then
        match r with
        | h1 :: h2 :: r2 =>
            match hex_value h1, hex_value h2 with
            | Some a, Some b => (16 * a + b) :: unquote_to_bytes r2
            | _, _ => Ch.PERCENT :: unquote_to_bytes r
            end
        | _ => Ch.PERCENT :: unquote_to_bytes r
        end
      else c :: unquote_to_bytes r.
Proof. destruct r as [|h1 [|h2 r2]]; reflexivity. Qed.

Lemma unquote_quote_byte safe b r :
  b < 256 -> (safe b = true -> b <> Ch.PERCENT) ->
  unquote_to_bytes (quote_byte safe b ++ r) = b :: unquote_to_bytes r.
Proof.
  intros Hb Hs. unfold quote_byte. destruct (safe b) eqn:E.
  - cbn [app]. rewrite unquote_to_bytes_cons.
    destruct (N.eqb_spec b Ch.PERCENT) as [e|e]; [exfalso; exact (Hs eq_refl e)|reflexivity].
  - cbn [app]. rewrite unquote_to_bytes_cons.
    rewrite N.eqb_refl, !hex_value_upper by lia. f_equal. lia.
Qed.

Lemma unquote_quote_bytes safe bs r :
  Forall (fun b => b < 256) bs -> (forall b, safe b = true -> b <> Ch.PERCENT) ->
  unquote_to_bytes (quote_from_bytes safe bs ++ r) = bs ++ unquote_to_bytes r.
Proof.
  intros Hb Hs. unfold quote_from_bytes.
  induction Hb as [|b bs Hb _ IH]; [reflexivity|].
  rewrite flat_map_step, <- app_assoc, unquote_quote_byte by auto.
  rewrite IH. reflexivity.
Qed.

Lemma encode_bytes s bs : encode s = Ok bs -> Forall (fun b => b < 256) bs.
Proof.
  revert bs. induction s as [|c s IH]; intros bs.
  - intros E; apply Ok_inj in E; subst; constructor.
  - cbn [encode]. destruct (encode1 c) as [b|] eqn:E1; [|discriminate].
    destruct (encode s) as [bs'|] eqn:E2; [|discriminate].
    cbn [rbind]. intros E; apply Ok_inj in E; subst.
    apply Forall_app; split; [eapply encode1_bytes; eauto | auto].
Qed.

Lemma decode_encode s bs : encode s = Ok bs -> decode bs = s.
Proof.
  revert bs. induction s as [|c s IH]; intros bs.
  - intros E; apply Ok_inj in E; subst; reflexivity.
  - cbn [encode]. destruct (encode1 c) as [b|] eqn:E1; [|discriminate].
    destruct (encode s) as [bs'|] eqn:E2; [|discriminate].
    cbn [rbind]. intros E; apply Ok_inj in E; subst.
    erewrite decode_encode1 by eauto. f_equal; auto.
Qed.

Lemma encode_scalar s :
  Forall (fun c => is_scalar c = true) s -> exists bs, encode s = Ok bs.
Proof.
  induction 1 as [|c s Hc _ [bs IH]]; [exists []; reflexivity|].
  destruct (encode1_scalar _ Hc) as [b Hb].
  exists (b ++ bs). cbn [encode]. rewrite Hb, IH. reflexivity.
Qed.

Ltac b2p H :=
  repeat first
    [ rewrite orb_true_iff in H | rewrite andb_true_iff in H
    | rewrite orb_false_iff in H | rewrite andb_false_iff in H
    | rewrite negb_true_iff in H | rewrite negb_false_iff in H
    | rewrite N.leb_le in H | rewrite N.ltb_lt in H | rewrite N.eqb_eq in H
    | rewrite N.leb_gt in H | rewrite N.ltb_ge in H | rewrite N.eqb_neq in H ].

Ltac unfold_chars :=
  unfold Ch.UNDERSCORE, Ch.DOT, Ch.MINUS, Ch.TILDE, Ch.SPACE, Ch.PLUS, Ch.PERCENT,
    Ch.AMP, Ch.EQUALS, Ch.HASH, Ch.QMARK, Ch.COLON, Ch.SLASH, Ch.TAB, Ch.LF, Ch.CR in *.

Lemma always_safe_range b :
  always_safe b = true ->
  (65 <= b <= 90) \/ (97 <= b <= 122) \/ (48 <= b <= 57)
  \/ b = 95 \/ b = 46 \/ b = 45 \/ b = 126.
Proof.
  unfold always_safe, is_upper, is_lower, is_digit. unfold_chars.
  intros H. b2p H. lia.
Qed.

Lemma hex_upper_safe d : d < 16 -> always_safe (hex_upper d) = true.
Proof.
  intros H. unfold hex_upper, always_safe, is_upper, is_lower, is_digit.
  destruct (N.ltb_spec d 10).
  - replace (48 <=? 48 + d) with true by (symmetry; apply N.leb_le; lia).
    replace (48 + d <=? 57) with true by (symmetry; apply N.leb_le; lia).
    cbn [andb]. rewrite !orb_true_r. reflexivity.
  - replace (65 <=? 55 + d) with true by (symmetry; apply N.leb_le; lia).
    replace (55 + d <=? 90) with true by (symmetry; apply N.leb_le; lia).
    reflexivity.
Qed.

Lemma plus_byte_chars b : b < 256 -> Forall (fun c => field_char c = true) (plus_byte b).
Proof.
  intros Hb. unfold plus_byte, field_char.
  destruct (always_safe b) eqn:E.
  - repeat constructor. rewrite E. reflexivity.
  - destruct (b =? Ch.SPACE).
    + repeat constructor.
    + repeat constructor; rewrite ?hex_upper_safe by lia; reflexivity.
Qed.

Lemma encode_no_space s bs :
  encode s = Ok bs -> contains Ch.SPACE s = false -> Forall (fun b => b <> Ch.SPACE) bs.
Proof.
  revert bs. induction s as [|c s IH]; intros bs.
  - intros E _; apply Ok_inj in E; subst; constructor.
  - cbn [encode]. destruct (encode1 c) as [b|] eqn:E1; [|discriminate].
    destruct (encode s) as [bs'|] eqn:E2; [|discriminate].
    cbn [rbind]. intros E; apply Ok_inj in E; subst.
    unfold contains. cbn [existsb]. intros H. apply orb_false_iff in H. destruct H as [H1 H2].
    apply Forall_app; split; [|apply IH; auto].
    revert E1. unfold encode1. unfold_chars. apply N.eqb_neq in H1.
    destruct (N.ltb_spec c 128).
    { intros E; apply Ok_inj in E; subst. repeat constructor. congruence. }
    destruct (N.ltb_spec c 2048).
    { intros E; apply Ok_inj in E; subst. repeat constructor; lia. }
    destruct (N.ltb_spec c 65536).
    { destruct ((55296 <=? c) && (c <? 57344)); [discriminate|].
      intros E; apply Ok_inj in E; subst. repeat constructor; lia. }
    destruct (N.ltb_spec c 1114112); [|discriminate].
    intros E; apply Ok_inj in E; subst. repeat constructor; lia.
Qed.

Lemma quote_plus_spec s q :
  quote_plus s = Ok q <-> exists bs, encode s = Ok bs /\ q = flat_map plus_byte bs.
Proof.
  unfold quote_plus, quote.
  destruct (encode s) as [bs|e] eqn:E.
  2:{ destruct (negb (contains Ch.SPACE s)); cbn [rbind];
      (split; [discriminate | intros (bs & Hd & _); discriminate]). }
  destruct (contains Ch.SPACE s) eqn:Hsp; cbn [negb rbind].
  - (* a blank occurs: it is safe, then replaced by a plus *)
    assert (Q : replace Ch.SPACE Ch.PLUS
                  (quote_from_bytes (fun b => always_safe b || (b =? Ch.SPACE)) bs)
                = flat_map plus_byte bs).
    { clear. unfold quote_from_bytes, replace.
      induction bs as [|b bs IH]; [reflexivity|].
      rewrite !flat_map_step, map_app. f_equal; [|exact IH].
      unfold quote_byte, plus_byte.
      destruct (always_safe b) eqn:Es; cbn [orb].
      - cbn [map]. apply always_safe_range in Es.
        replace (b =? Ch.SPACE) with false by (symmetry; apply N.eqb_neq; unfold_chars; lia).
        reflexivity.
      - destruct (N.eqb_spec b Ch.SPACE) as [->|]; [reflexivity|].
        cbn [map]. f_equal.
        assert (F : forall d, (hex_upper d =? Ch.SPACE) = false).
        { intros d. apply N.eqb_neq. unfold hex_upper, Ch.SPACE.
          destruct (d <? 10); lia. }
        rewrite !F. reflexivity. }
    rewrite Q. split.
    + intros H; apply Ok_inj in H; subst. eauto.
    + intros (bs0 & H & ->). apply Ok_inj in H; subst. reflexivity.
  - assert (Q : quote_from_bytes (fun b => always_safe b || false) bs
                = flat_map plus_byte bs).
    { pose proof (encode_no_space _ _ E Hsp) as F. clear E. unfold quote_from_bytes.
      induction F as [|b bs' Hb _ IH]; [reflexivity|].
      rewrite !flat_map_step. f_equal; [|exact IH].
      unfold quote_byte, plus_byte. rewrite orb_false_r.
      destruct (always_safe b); [reflexivity|].
      destruct (N.eqb_spec b Ch.SPACE); [contradiction|reflexivity]. }
    rewrite Q. split.
    + intros H; apply Ok_inj in H; subst. eauto.
    + intros (bs0 & H & ->). apply Ok_inj in H; subst. reflexivity.
Qed.

End QuoteFacts.

(** * Quoted fields in a query *)

Module QueryFacts.
Local Open Scope N_scope.
Import PyStr Utf8 UrlParse Utf8Facts QuoteFacts.
Import UrlProps.

Lemma decode_ascii q : Forall (fun c => c < 128) q -> decode q = q.
Proof.
  induction 1 as [|c q Hc _ IH]; [reflexivity|].
  rewrite decode_1 by assumption. f_equal; exact IH.
Qed.

Lemma unquote_to_bytes_plain q :
  contains Ch.PERCENT q = false -> unquote_to_bytes q = q.
Proof.
  unfold contains. induction q as [|c q IH]; [reflexivity|].
  cbn [existsb]. intros H. apply orb_false_iff in H. destruct H as [H1 H2].
  rewrite unquote_to_bytes_cons. rewrite N.eqb_sym in H1. rewrite H1.
  f_equal; auto.
Qed.

Lemma unquote_runs_ascii q : forall run,
  Forall (fun c => c < 128) q ->
  unquote_runs run q = decode (unquote_to_bytes (rev run ++ q)).
Proof.
  induction q as [|c q IH]; intros run H.
  - cbn [unquote_runs]. rewrite app_nil_r. reflexivity.
  - inversion H as [|? ? Hc Hq]; subst. cbn [unquote_runs].
    replace (c <? 128) with true by (symmetry; apply N.ltb_lt; assumption).
    rewrite IH by assumption. cbn [rev]. rewrite <- app_assoc. reflexivity.
Qed.

Lemma unquote_ascii q :
  Forall (fun c => c < 128) q -> unquote q = decode (unquote_to_bytes q).
Proof.
  intros H. unfold unquote.
  destruct (contains Ch.PERCENT q) eqn:E; cbn [negb].
  - apply (unquote_runs_ascii q [] H).
  - rewrite unquote_to_bytes_plain, decode_ascii by assumption. reflexivity.
Qed.

Lemma blank_safe_not_percent b : blank_safe b = true -> b <> Ch.PERCENT.
Proof.
  unfold blank_safe. intros H. apply orb_true_iff in H. destruct H as [H|H].
  - apply always_safe_range in H. unfold_chars. lia.
  - apply N.eqb_eq in H. subst. discriminate.
Qed.

Lemma replace_plus_byte b :
  replace Ch.PLUS Ch.SPACE (plus_byte b) = quote_byte blank_safe b.
Proof.
  unfold plus_byte, quote_byte, blank_safe, replace.
  destruct (always_safe b) eqn:Es; cbn [orb map].
  - apply always_safe_range in Es.
    replace (b =? Ch.PLUS) with false by (symmetry; apply N.eqb_neq; unfold_chars; lia).
    reflexivity.
  - destruct (N.eqb_spec b Ch.SPACE) as [->|]; [reflexivity|].
    cbn [map].
    assert (F : forall d, (hex_upper d =? Ch.PLUS) = false).
    { intros d. apply N.eqb_neq. unfold hex_upper, Ch.PLUS. destruct (d <? 10); lia. }
    rewrite !F. reflexivity.
Qed.

Lemma quote_byte_ascii b : b < 256 -> Forall (fun c => c < 128) (quote_byte blank_safe b).
Proof.
  intros Hb. unfold quote_byte. destruct (blank_safe b) eqn:E.
  - repeat constructor. unfold blank_safe in E. apply orb_true_iff in E. destruct E as [E|E].
    + apply always_safe_range in E. lia.
    + apply N.eqb_eq in E. subst. reflexivity.
  - repeat constructor; try reflexivity; unfold hex_upper; destruct (_ <? 10) eqn:D; try lia.
    all: apply N.ltb_ge in D || apply N.ltb_lt in D.
    all: pose proof (N.mod_lt b 16); pose proof (N.Div0.div_lt_upper_bound b 16 16); lia.
Qed.

Lemma unquote_quote_plus s q :
  quote_plus s = Ok q -> unquote (replace Ch.PLUS Ch.SPACE q) = s.
Proof.
  intros H. apply quote_plus_spec in H. destruct H as (bs & E & ->).
  pose proof (encode_bytes _ _ E) as Hb.
  assert (R : replace Ch.PLUS Ch.SPACE (flat_map plus_byte bs)
              = quote_from_bytes blank_safe bs).
  { clear. unfold quote_from_bytes. induction bs as [|b bs IH]; [reflexivity|].
    rewrite !flat_map_step. unfold replace in *. rewrite map_app.
    f_equal; [apply replace_plus_byte | exact IH]. }
  rewrite R.
  assert (A : Forall (fun c => c < 128) (quote_from_bytes blank_safe bs)).
  { unfold quote_from_bytes. clear -Hb. induction Hb as [|b bs Hb _ IH]; [constructor|].
    rewrite flat_map_step. apply Forall_app; split; [apply quote_byte_ascii; assumption|exact IH]. }
  rewrite unquote_ascii by assumption.
  pose proof (unquote_quote_bytes blank_safe bs [] Hb blank_safe_not_percent) as U.
  rewrite app_nil_r in U. cbn [unquote_to_bytes] in U. rewrite app_nil_r in U.
  rewrite U. apply decode_encode; assumption.
Qed.

Lemma quote_plus_chars s q :
  quote_plus s = Ok q -> Forall (fun c => field_char c = true) q.
Proof.
  intros H. apply quote_plus_spec in H. destruct H as (bs & E & ->).
  pose proof (encode_bytes _ _ E) as Hb. clear E.
  induction Hb as [|b bs Hb _ IH]; [constructor|].
  rewrite flat_map_step. apply Forall_app; split; [apply plus_byte_chars; assumption|exact IH].
Qed.

Lemma quote_plus_scalar s :
  Forall (fun c => is_scalar c = true) s -> exists q, quote_plus s = Ok q.
Proof.
  intros H. destruct (encode_scalar _ H) as [bs E].
  exists (flat_map plus_byte bs). apply quote_plus_spec. eauto.
Qed.

End QueryFacts.

(** * Queries: splitting what was joined *)

Module DictFacts.
Local Open Scope N_scope.
Import PyStr Utf8 UrlParse Utf8Facts QuoteFacts QueryFacts.
Import UrlProps.

Lemma eqb_eq a b : eqb a b = true <-> a = b.
Proof.
  revert b. induction a as [|x a IH]; intros [|y b]; cbn [eqb]; split;
    try discriminate; try reflexivity.
  - intros H. apply andb_true_iff in H. destruct H as [H1 H2].
    apply N.eqb_eq in H1. apply IH in H2. congruence.
  - intros H. injection H as -> ->. rewrite N.eqb_refl. apply IH. reflexivity.
Qed.

Lemma eqb_refl a : eqb a a = true.
Proof. apply eqb_eq; reflexivity. Qed.

Lemma eqb_neq a b : eqb a b = false <-> a <> b.
Proof.
  split.
  - intros H E. apply eqb_eq in E. congruence.
  - intros H. destruct (eqb a b) eqn:E; [apply eqb_eq in E; contradiction|reflexivity].
Qed.

Lemma partition_app c a b :
  ~ In c a -> partition c (a ++ c :: b) = Some (a, b).
Proof.
  induction a as [|x a IH]; intros H; cbn [app partition].
  - rewrite N.eqb_refl. reflexivity.
  - destruct (N.eqb_spec x c) as [->|_]; [exfalso; apply H; left; reflexivity|].
    rewrite IH; [reflexivity|]. intros F; apply H; right; exact F.
Qed.

Lemma partition_none c s : ~ In c s -> partition c s = None.
Proof.
  induction s as [|x s IH]; intros H; cbn [partition]; [reflexivity|].
  destruct (N.eqb_spec x c) as [->|_]; [exfalso; apply H; left; reflexivity|].
  rewrite IH; [reflexivity|]. intros F; apply H; right; exact F.
Qed.

Lemma partition_some c s a b :
  partition c s = Some (a, b) -> s = a ++ c :: b /\ ~ In c a.
Proof.
  revert a. induction s as [|x s IH]; intros a; cbn [partition]; [discriminate|].
  destruct (N.eqb_spec x c) as [->|Hx].
  - intros E. injection E as <- <-. split; [reflexivity|intros []].
  - destruct (partition c s) as [[a' b']|]; [|discriminate].
    intros E. injection E as <- <-. destruct (IH a' eq_refl) as [-> Hn].
    split; [reflexivity|]. intros [F|F]; [congruence|contradiction].
Qed.

Lemma partition_is_none c s : partition c s = None -> ~ In c s.
Proof.
  induction s as [|x s IH]; cbn [partition]; [intros _ []|].
  destruct (N.eqb_spec x c) as [->|Hx]; [discriminate|].
  destruct (partition c s) as [[a' b']|]; [discriminate|].
  intros _ [F|F]; [congruence|]. apply IH; auto.
Qed.

Lemma split_no_sep c f : ~ In c f -> split c f = [f].
Proof.
  induction f as [|x f IH]; intros H; cbn [split]; [reflexivity|].
  destruct (N.eqb_spec x c) as [->|_]; [exfalso; apply H; left; reflexivity|].
  rewrite IH; [reflexivity|]. intros F; apply H; right; exact F.
Qed.

Lemma split_app c f r :
  ~ In c f -> split c (f ++ c :: r) = f :: split c r.
Proof.
  induction f as [|x f IH]; intros H; cbn [app split].
  - rewrite N.eqb_refl. reflexivity.
  - destruct (N.eqb_spec x c) as [->|_]; [exfalso; apply H; left; reflexivity|].
    rewrite IH; [reflexivity|]. intros F; apply H; right; exact F.
Qed.

Lemma split_join c fs :
  fs <> [] -> Forall (fun f => ~ In c f) fs -> split c (join c fs) = fs.
Proof.
  intros Hne H. induction H as [|f fs Hf Hfs IH]; [contradiction|].
  destruct fs as [|g fs].
  - cbn [join]. apply split_no_sep; assumption.
  - change (join c (f :: g :: fs)) with (f ++ c :: join c (g :: fs)).
    rewrite split_app by assumption. f_equal. apply IH. discriminate.
Qed.

Lemma join_nil c fs : Forall (fun f => f <> []) fs -> join c fs = [] -> fs = [].
Proof.
  destruct 1 as [|f fs Hf _]; [reflexivity|].
  destruct fs; cbn [join]; intros E.
  - contradiction.
  - destruct f; [contradiction|discriminate].
Qed.

Lemma parse_qsl_join fs :
  Forall (fun f => f <> [] /\ ~ In Ch.AMP f) fs ->
  parse_qsl (join Ch.AMP fs) = map parse_field fs.
Proof.
  intros H. unfold parse_qsl.
  destruct (join Ch.AMP fs) as [|c q] eqn:E.
  - apply join_nil in E; [subst; reflexivity|].
    eapply Forall_impl; [|exact H]. intros f [Hf _]; exact Hf.
  - rewrite <- E. destruct fs as [|f fs]; [discriminate|].
    rewrite split_join; [|discriminate|eapply Forall_impl; [|exact H]; intros ? [_ ?]; assumption].
    f_equal. apply forallb_filter_id. apply forallb_forall.
    intros x Hx. rewrite Forall_forall in H. destruct (H x Hx) as [Hne _].
    destruct x; [contradiction|reflexivity].
Qed.

Lemma field_char_not c x :
  field_char c = true ->
  In x [Ch.AMP; Ch.EQUALS; Ch.HASH; Ch.QMARK; Ch.COLON; Ch.SLASH; Ch.TAB; Ch.LF; Ch.CR; Ch.SPACE] ->
  c <> x.
Proof.
  unfold field_char. intros H. b2p H.
  destruct H as [[H|H]|H]; [apply always_safe_range in H| |]; unfold_chars;
    cbn [In]; intros Hx; lia.
Qed.

Lemma field_chars_notin q x :
  Forall (fun c => field_char c = true) q ->
  In x [Ch.AMP; Ch.EQUALS; Ch.HASH; Ch.QMARK; Ch.COLON; Ch.SLASH; Ch.TAB; Ch.LF; Ch.CR; Ch.SPACE] ->
  ~ In x q.
Proof.
  intros H Hx F. rewrite Forall_forall in H.
  exact (field_char_not _ _ (H _ F) Hx eq_refl).
Qed.

Lemma parse_field_of f kv :
  field_of f kv -> parse_field f = kv /\ f <> [] /\ ~ In Ch.AMP f.
Proof.
  intros (kq & vq & Hk & Hv & ->).
  pose proof (quote_plus_chars _ _ Hk) as Ck. pose proof (quote_plus_chars _ _ Hv) as Cv.
  split; [|split].
  - unfold parse_field. rewrite partition_app.
    + cbn [fst snd]. rewrite (unquote_quote_plus _ _ Hk), (unquote_quote_plus _ _ Hv).
      destruct kv; reflexivity.
    + apply field_chars_notin; [assumption|cbn; tauto].
  - destruct kq; discriminate.
  - intros F. apply in_app_or in F. destruct F as [F|[F|F]].
    + revert F. apply field_chars_notin; [assumption|cbn; tauto].
    + discriminate.
    + revert F. apply field_chars_notin; [assumption|cbn; tauto].
Qed.

Lemma rmap_ok {A B} (f : A -> result B) l l' :
  rmap f l = Ok l' -> Forall2 (fun x y => f x = Ok y) l l'.
Proof.
  revert l'. induction l as [|x l IH]; intros l'; cbn [rmap].
  - intros E; apply Ok_inj in E; subst; constructor.
  - destruct (f x) as [y|] eqn:Ex; [|discriminate]. cbn [rbind].
    destruct (rmap f l) as [ys|] eqn:Es; [|discriminate]. cbn [rbind].
    intros E; apply Ok_inj in E; subst. constructor; auto.
Qed.

Lemma encode_item_fields kv fs :
  encode_item kv = Ok fs -> Forall2 field_of fs (map (pair (fst kv)) (snd kv)).
Proof.
  unfold encode_item. destruct (quote_plus (fst kv)) as [kq|] eqn:Ek; [|discriminate].
  cbn [rbind]. intros H. apply rmap_ok in H.
  induction H as [|v f vs fs' Hv _ IH]; [constructor|].
  cbn [map]. constructor; [|exact IH].
  destruct (quote_plus v) as [vq|] eqn:Ev; [|discriminate].
  cbn [rbind] in Hv. apply Ok_inj in Hv. subst f.
  exists kq, vq. cbn [fst snd]. auto.
Qed.

Lemma urlencode_fields d q :
  urlencode d = Ok q ->
  exists fs, q = join Ch.AMP fs /\ Forall2 field_of fs (flatten d).
Proof.
  unfold urlencode. destruct (rmap encode_item d) as [l|] eqn:E; [|discriminate].
  cbn [rbind]. intros H; apply Ok_inj in H; subst q.
  exists (List.concat l). split; [reflexivity|].
  apply rmap_ok in E. unfold flatten.
  induction E as [|kv fs d' l' Hkv _ IH]; [constructor|].
  cbn [List.concat flat_map]. apply Forall2_app; [|exact IH].
  apply encode_item_fields; assumption.
Qed.

Lemma parse_fields fs kvs :
  Forall2 field_of fs kvs ->
  map parse_field fs = kvs /\ Forall (fun f => f <> [] /\ ~ In Ch.AMP f) fs.
Proof.
  induction 1 as [|f kv fs kvs Hf _ [IH1 IH2]]; [split; constructor|].
  destruct (parse_field_of _ _ Hf) as (P1 & P2 & P3).
  split; [cbn [map]; congruence|constructor; auto].
Qed.

Lemma parse_qsl_urlencode d q : urlencode d = Ok q -> parse_qsl q = flatten d.
Proof.
  intros H. destruct (urlencode_fields _ _ H) as (fs & -> & F).
  destruct (parse_fields _ _ F) as [P1 P2].
  rewrite parse_qsl_join; assumption.
Qed.

Lemma urlencode_chars d q :
  urlencode d = Ok q ->
  Forall (fun c => field_char c = true \/ c = Ch.AMP \/ c = Ch.EQUALS) q.
Proof.
  intros H. destruct (urlencode_fields _ _ H) as (fs & -> & F). clear H.
  revert F. generalize (flatten d). intros kvs F.
  assert (G : Forall (Forall (fun c => field_char c = true \/ c = Ch.AMP \/ c = Ch.EQUALS)) fs).
  { induction F as [|f kv fs kvs Hf _ IH]; constructor; [|exact IH].
    destruct Hf as (kq & vq & Hk & Hv & ->).
    apply Forall_app; split; [|constructor; [auto|]].
    - eapply Forall_impl; [|exact (quote_plus_chars _ _ Hk)]. cbn; auto.
    - eapply Forall_impl; [|exact (quote_plus_chars _ _ Hv)]. cbn; auto. }
  clear F. induction G as [|f fs Hf _ IH]; [constructor|].
  destruct fs as [|g fs]; [exact Hf|].
  change (join Ch.AMP (f :: g :: fs)) with (f ++ Ch.AMP :: join Ch.AMP (g :: fs)).
  apply Forall_app; split; [exact Hf|constructor; [auto|exact IH]].
Qed.

End DictFacts.

(** * Dictionaries: [parse_qs] and [urlencode] *)

Module ParseQsFacts.
Local Open Scope N_scope.
Import PyStr Utf8 UrlParse Utf8Facts QuoteFacts QueryFacts DictFacts.
Import UrlProps.

Lemma dict_get_none k d : dict_get k d = None <-> ~ In k (keys d).
Proof.
  induction d as [|[k' v'] d IH]; cbn [dict_get keys map fst In]; [tauto|].
  destruct (eqb k' k) eqn:E.
  - apply eqb_eq in E. split; [discriminate|]. intros H; exfalso; apply H; auto.
  - apply eqb_neq in E. rewrite IH. unfold keys. tauto.
Qed.

Lemma dict_get_set_same k v d : dict_get k (dict_set k v d) = Some v.
Proof.
  induction d as [|[k' v'] d IH]; cbn [dict_set dict_get].
  - rewrite eqb_refl. reflexivity.
  - destruct (eqb k' k) eqn:E; cbn [dict_get]; rewrite E; auto.
Qed.

Lemma dict_get_set_other k k' v d :
  k' <> k -> dict_get k' (dict_set k v d) = dict_get k' d.
Proof.
  intros H. induction d as [|[k0 v0] d IH]; cbn [dict_set dict_get].
  - replace (eqb k k') with false; [reflexivity|].
    symmetry; apply eqb_neq; congruence.
  - destruct (eqb k0 k) eqn:E; cbn [dict_get].
    + apply eqb_eq in E. subst k0.
      replace (eqb k k') with false; [reflexivity|].
      symmetry; apply eqb_neq; congruence.
    + rewrite IH. reflexivity.
Qed.

Lemma keys_dict_set k v d :
  keys (dict_set k v d) = if existsb (fun k' => eqb k' k) (keys d) then keys d else keys d ++ [k].
Proof.
  induction d as [|[k' v'] d IH]; cbn [dict_set keys map fst existsb app]; [reflexivity|].
  destruct (eqb k' k) eqn:E; cbn [orb map fst]; [reflexivity|].
  fold (keys d). fold (keys (dict_set k v d)). rewrite IH.
  destruct (existsb _ (keys d)); reflexivity.
Qed.

Lemma keys_nodup_set k v d : NoDup (keys d) -> NoDup (keys (dict_set k v d)).
Proof.
  intros H. rewrite keys_dict_set.
  destruct (existsb (fun k' => eqb k' k) (keys d)) eqn:E; [exact H|].
  apply NoDup_app; [exact H|repeat constructor; intros []|].
  intros x Hx [F|[]]. subst x.
  assert (F : existsb (fun k' => eqb k' k) (keys d) = true)
    by (apply existsb_exists; exists k; split; [exact Hx|apply eqb_refl]).
  congruence.
Qed.

Lemma keys_nodup_add d nv : NoDup (keys d) -> NoDup (keys (dict_add d nv)).
Proof. intros H. unfold dict_add. destruct (dict_get _ d); apply keys_nodup_set; exact H. Qed.

Lemma keys_nodup_fold l : forall d, NoDup (keys d) -> NoDup (keys (fold_left dict_add l d)).
Proof.
  induction l as [|nv l IH]; intros d H; cbn [fold_left]; [exact H|].
  apply IH, keys_nodup_add, H.
Qed.

Lemma keys_nodup_parse_qs q : NoDup (keys (parse_qs q)).
Proof. apply keys_nodup_fold. constructor. Qed.

Lemma dict_get_fold k l : forall acc,
  dict_get k (fold_left dict_add l acc) =
  match dict_get k acc with
  | Some a => Some (a ++ map snd (named k l))
  | None => match map snd (named k l) with [] => None | vs => Some vs end
  end.
Proof.
  induction l as [|[n v] l IH]; intros acc; cbn [fold_left named filter map].
  - destruct (dict_get k acc); [rewrite app_nil_r|]; reflexivity.
  - rewrite IH. cbn [fst].
    assert (D : dict_get k (dict_add acc (n, v)) =
                if eqb n k then
                  match dict_get k acc with Some a => Some (a ++ [v]) | None => Some [v] end
                else dict_get k acc).
    { unfold dict_add. cbn [fst snd]. destruct (eqb n k) eqn:E.
      - apply eqb_eq in E. subst n.
        destruct (dict_get k acc); apply dict_get_set_same.
      - apply eqb_neq in E.
        destruct (dict_get n acc); apply dict_get_set_other; congruence. }
    rewrite D. destruct (eqb n k); [|reflexivity].
    cbn [map snd]. destruct (dict_get k acc); [rewrite <- app_assoc|]; reflexivity.
Qed.

Lemma named_flatten_notin k d : ~ In k (keys d) -> named k (flatten d) = [].
Proof.
  induction d as [|[k' vs] d IH]; intros H; [reflexivity|].
  unfold flatten, named in *. cbn [flat_map fst snd]. rewrite filter_app.
  rewrite IH by (intros F; apply H; right; exact F).
  rewrite app_nil_r.
  assert (E : eqb k' k = false) by (apply eqb_neq; intros ->; apply H; left; reflexivity).
  clear -E. induction vs as [|v vs IHv]; [reflexivity|].
  cbn [map filter fst]. rewrite E. exact IHv.
Qed.

Lemma named_flatten k d vs :
  NoDup (keys d) -> dict_get k d = Some vs -> named k (flatten d) = map (pair k) vs.
Proof.
  induction d as [|[k' v'] d IH]; intros N G; [discriminate|].
  cbn [keys map fst] in N. inversion N as [|? ? Hn Hd]; subst.
  cbn [dict_get] in G. unfold flatten, named. cbn [flat_map fst snd]. rewrite filter_app.
  destruct (eqb k' k) eqn:E.
  - apply eqb_eq in E. subst k'. injection G as ->.
    fold (flatten d). fold (named k (flatten d)).
    rewrite named_flatten_notin by exact Hn. rewrite app_nil_r.
    clear. induction vs as [|v vs IHv]; [reflexivity|].
    cbn [map filter fst]. rewrite eqb_refl. f_equal. exact IHv.
  - fold (flatten d). fold (named k (flatten d)). rewrite (IH Hd G).
    replace (filter _ (map (pair k') v')) with (@nil (str * str)); [reflexivity|].
    clear -E. induction v' as [|v vs IHv]; [reflexivity|].
    cbn [map filter fst]. rewrite E. exact IHv.
Qed.

(** *** Text without lone surrogates stays so *)

Lemma ascii_sc s : Forall (fun c => c < 128) s -> sc s.
Proof.
  apply Forall_impl. intros c H. unfold is_scalar.
  replace (c <? 55296) with true by (symmetry; apply N.ltb_lt; lia). reflexivity.
Qed.

Lemma unquote_runs_sc s : forall run, sc s -> sc (unquote_runs run s).
Proof.
  induction s as [|c s IH]; intros run H; cbn [unquote_runs].
  - apply decode_scalar.
  - inversion H; subst. destruct (c <? 128); [apply IH; assumption|].
    apply Forall_app; split; [apply decode_scalar|constructor; [assumption|apply IH; assumption]].
Qed.

Lemma unquote_sc s : sc s -> sc (unquote s).
Proof.
  intros H. unfold unquote. destruct (negb _); [exact H|apply unquote_runs_sc; exact H].
Qed.

Lemma replace_plus_sc s : sc s -> sc (replace Ch.PLUS Ch.SPACE s).
Proof.
  intros H. unfold replace. induction H as [|c s Hc _ IH]; [constructor|].
  cbn [map]. constructor; [|exact IH]. destruct (c =? Ch.PLUS); [reflexivity|exact Hc].
Qed.

Lemma partition_sc c s a b : partition c s = Some (a, b) -> sc s -> sc a /\ sc b.
Proof.
  intros P H. apply partition_some in P. destruct P as [-> _].
  apply Forall_app in H. destruct H as [Ha Hb]. inversion Hb; subst. split; assumption.
Qed.

Lemma split_sc c s : sc s -> Forall sc (split c s).
Proof.
  induction 1 as [|x s Hx Hs IH]; cbn [split]; [repeat constructor|].
  destruct (x =? c); [constructor; [constructor|exact IH]|].
  destruct (split c s) as [|h t]; [repeat constructor; assumption|].
  inversion IH; subst. constructor; [constructor; assumption|assumption].
Qed.

Lemma parse_field_sc f : sc f -> sc (fst (parse_field f)) /\ sc (snd (parse_field f)).
Proof.
  intros H. unfold parse_field. cbn [fst snd].
  destruct (partition Ch.EQUALS f) as [[n v]|] eqn:P; cbn [fst snd].
  - destruct (partition_sc _ _ _ _ P H). split; apply unquote_sc, replace_plus_sc; assumption.
  - split; apply unquote_sc, replace_plus_sc; [assumption|constructor].
Qed.

Lemma parse_qsl_sc q :
  sc q -> Forall (fun kv => sc (fst kv) /\ sc (snd kv)) (parse_qsl q).
Proof.
  intros H. unfold parse_qsl. destruct q as [|c q]; [constructor|].
  apply Forall_map. pose proof (split_sc Ch.AMP _ H) as S.
  induction S as [|f fs Hf _ IH]; cbn [filter]; [constructor|].
  destruct f; [exact IH|]. constructor; [apply parse_field_sc; exact Hf|exact IH].
Qed.

Lemma dict_get_sc k d vs : dict_sc d -> dict_get k d = Some vs -> Forall sc vs.
Proof.
  induction 1 as [|[k' v'] d [Hk Hv] _ IH]; cbn [dict_get]; [discriminate|].
  destruct (eqb k' k); [intros E; injection E as <-; exact Hv|exact IH].
Qed.

Lemma dict_set_sc k v d : sc k -> Forall sc v -> dict_sc d -> dict_sc (dict_set k v d).
Proof.
  intros Hk Hv. induction 1 as [|[k' v'] d [Hk' Hv'] Hd IH]; cbn [dict_set].
  - repeat constructor; assumption.
  - destruct (eqb k' k); constructor; try assumption; split; assumption.
Qed.

Lemma dict_add_sc d nv : dict_sc d -> sc (fst nv) -> sc (snd nv) -> dict_sc (dict_add d nv).
Proof.
  intros Hd Hn Hv. unfold dict_add. destruct (dict_get (fst nv) d) as [vs|] eqn:G.
  - apply dict_set_sc; try assumption. apply Forall_app; split.
    + eapply dict_get_sc; eassumption.
    + repeat constructor; assumption.
  - apply dict_set_sc; try assumption. repeat constructor; assumption.
Qed.

Lemma parse_qs_sc q : sc q -> dict_sc (parse_qs q).
Proof.
  intros H. unfold parse_qs. pose proof (parse_qsl_sc _ H) as P.
  assert (G : forall l acc, Forall (fun kv => sc (fst kv) /\ sc (snd kv)) l ->
                            dict_sc acc -> dict_sc (fold_left dict_add l acc)).
  { induction l as [|nv l IH]; intros acc Hl Ha; cbn [fold_left]; [exact Ha|].
    inversion Hl as [|? ? [Hn Hv] Hl']; subst. apply IH; [exact Hl'|].
    apply dict_add_sc; assumption. }
  apply G; [exact P|constructor].
Qed.

Lemma rmap_total {A B} (f : A -> result B) l :
  Forall (fun x => exists y, f x = Ok y) l -> exists l', rmap f l = Ok l'.
Proof.
  induction 1 as [|x l [y Hy] _ [l' IH]]; [exists []; reflexivity|].
  exists (y :: l'). cbn [rmap]. rewrite Hy. cbn [rbind]. rewrite IH. reflexivity.
Qed.

Lemma urlencode_total d : dict_sc d -> exists q, urlencode d = Ok q.
Proof.
  intros H. unfold urlencode.
  destruct (rmap_total encode_item d) as [l E].
  - eapply Forall_impl; [|exact H]. intros [k vs] [Hk Hv]. cbn [fst snd] in *.
    unfold encode_item. cbn [fst snd].
    destruct (quote_plus_scalar k Hk) as [kq Ek]. rewrite Ek. cbn [rbind].
    apply rmap_total. eapply Forall_impl; [|exact Hv].
    intros v Hs. destruct (quote_plus_scalar v Hs) as [vq Ev]. rewrite Ev.
    cbn [rbind]. eauto.
  - rewrite E. cbn [rbind]. eauto.
Qed.

End ParseQsFacts.

(** * Numerals: [int] reads what [str] wrote *)

Module IntFacts.
Local Open Scope N_scope.
Import PyStr PyInt QuoteFacts ParseQsFacts.
Import UrlProps.

Ltac Zify.zify_post_hook ::= Z.to_euclidean_division_equations.

Lemma is_digit_mod n : is_digit (48 + n mod 10) = true.
Proof.
  unfold is_digit. apply andb_true_iff; split; apply N.leb_le; lia.
Qed.

Lemma digits_fuel_S f n acc :
  digits_fuel (S f) n acc =
  if n / 10 =? 0 then (48 + n mod 10) :: acc
  else digits_fuel f (n / 10) ((48 + n mod 10) :: acc).
Proof. reflexivity. Qed.

Lemma digits_fuel_digits f : forall n acc,
  Forall (fun c => is_digit c = true) acc ->
  Forall (fun c => is_digit c = true) (digits_fuel f n acc).
Proof.
  induction f as [|f IH]; intros n acc H; [exact H|].
  rewrite digits_fuel_S.
  destruct (n / 10 =? 0); [|apply IH]; constructor; auto using is_digit_mod.
Qed.

Lemma scan_digits_digit c r acc p :
  is_digit c = true ->
  scan_digits (c :: r) acc p = scan_digits r (10 * acc + (c - 48)) PDigit.
Proof. intros H. cbn [scan_digits]. rewrite H. reflexivity. Qed.

Lemma scan_digits_digits f : forall n acc p,
  n < 2 ^ N.of_nat (S f) ->
  scan_digits (digits_fuel (S f) n acc) 0 p = scan_digits acc n PDigit.
Proof.
  induction f as [|f IH]; intros n acc p Hn.
  - change (2 ^ N.of_nat 1) with 2 in Hn. rewrite digits_fuel_S.
    replace (n / 10 =? 0) with true by (symmetry; apply N.eqb_eq; lia).
    rewrite scan_digits_digit by apply is_digit_mod. f_equal. lia.
  - rewrite digits_fuel_S. destruct (N.eqb_spec (n / 10) 0) as [E|E].
    + rewrite scan_digits_digit by apply is_digit_mod. f_equal. lia.
    + rewrite IH by (rewrite Nat2N.inj_succ, N.pow_succ_r' in Hn; lia).
      rewrite scan_digits_digit by apply is_digit_mod. f_equal. lia.
Qed.

Lemma digit_facts c :
  is_digit c = true ->
  c < 128 /\ is_space c = false /\ (c =? Ch.PLUS) = false /\ (c =? Ch.MINUS) = false.
Proof.
  unfold is_digit, is_space, Ch.PLUS, Ch.MINUS. intros H. b2p H.
  repeat split.
  - lia.
  - apply orb_false_iff; split; [apply andb_false_iff; right; apply N.leb_gt; lia
                                |apply N.eqb_neq; lia].
  - apply N.eqb_neq; lia.
  - apply N.eqb_neq; lia.
Qed.

Lemma to_ascii_id s : Forall (fun c => c < 128) s -> to_ascii s = s.
Proof.
  intros H. unfold to_ascii.
  replace (forallb (fun c => c <? 128) s) with true; [reflexivity|].
  symmetry. apply forallb_forall. rewrite Forall_forall in H.
  intros x Hx. apply N.ltb_lt. auto.
Qed.

Lemma count_digits_digits s :
  Forall (fun c => is_digit c = true) s -> count_digits s = N.of_nat (List.length s).
Proof.
  induction 1 as [|c r Hc _ IH]; [reflexivity|].
  cbn [count_digits List.length]. rewrite Hc, IH. lia.
Qed.

Lemma int_of_digits s n :
  Forall (fun c => is_digit c = true) s ->
  N.of_nat (List.length s) <= MAX_STR_DIGITS ->
  scan_digits s 0 PStart = Some (n, []) ->
  int_of_str s = Ok (Z.of_N n) /\ int_of_str (Ch.MINUS :: s) = Ok (- Z.of_N n)%Z.
Proof.
  intros D L S.
  assert (A : Forall (fun c => c < 128) s)
    by (eapply Forall_impl; [|exact D]; intros c Hc; apply digit_facts; exact Hc).
  assert (C : (MAX_STR_DIGITS <? count_digits s) = false)
    by (rewrite count_digits_digits by exact D; apply N.ltb_ge; exact L).
  split; unfold int_of_str.
  - rewrite to_ascii_id by exact A.
    destruct s as [|c r]; [discriminate|]. inversion D as [|? ? Hc _]; subst.
    destruct (digit_facts c Hc) as (_ & Hs & Hp & Hm).
    cbn [lstrip]. rewrite Hs, Hp, Hm, S, C. reflexivity.
  - rewrite to_ascii_id by (constructor; [reflexivity|exact A]).
    cbn [lstrip]. change (is_space Ch.MINUS) with false. cbv iota.
    change (Ch.MINUS =? Ch.PLUS) with false. change (Ch.MINUS =? Ch.MINUS) with true.
    cbv iota. rewrite S, C. reflexivity.
Qed.

Lemma decimal_ascii n : Forall (fun c => c < 128) (decimal n).
Proof.
  assert (G : forall p, Forall (fun c => c < 128)
             (digits_fuel (S (N.to_nat (N.size (N.pos p)))) (N.pos p) [])).
  { intros p. eapply Forall_impl; [|apply digits_fuel_digits; constructor].
    intros c Hc; apply digit_facts; exact Hc. }
  destruct n; cbn [decimal]; [repeat constructor| |constructor]; auto.
  reflexivity.
Qed.

(** [str] answers within the limit and raises beyond it. *)
Lemma str_of_int_within n :
  num_digits n <= MAX_STR_DIGITS -> str_of_int n = Ok (decimal n).
Proof.
  intros H. unfold str_of_int.
  replace (MAX_STR_DIGITS <? num_digits n) with false; [reflexivity|].
  symmetry. apply N.ltb_ge. exact H.
Qed.

Lemma str_of_int_beyond n :
  MAX_STR_DIGITS < num_digits n -> str_of_int n = Raise ValueError.
Proof.
  intros H. unfold str_of_int.
  replace (MAX_STR_DIGITS <? num_digits n) with true; [reflexivity|].
  symmetry. apply N.ltb_lt. exact H.
Qed.

Lemma str_of_int_ok n s :
  str_of_int n = Ok s -> s = decimal n /\ num_digits n <= MAX_STR_DIGITS.
Proof.
  unfold str_of_int. destruct (N.ltb_spec MAX_STR_DIGITS (num_digits n)) as [H|H];
    [discriminate|].
  intros E. injection E as <-. split; [reflexivity|exact H].
Qed.

Lemma digits_fuel_longer f : forall n acc,
  (List.length acc <= List.length (digits_fuel f n acc))%nat.
Proof.
  induction f as [|f IH]; intros n acc; [apply Nat.le_refl|].
  rewrite digits_fuel_S. destruct (n / 10 =? 0); cbn [List.length]; [lia|].
  specialize (IH (n / 10) ((48 + n mod 10) :: acc)). cbn [List.length] in IH. lia.
Qed.

(** The numeral of a positive [n] has at most [k] digits exactly when [n]
    is below the [k]th power of ten. *)
Lemma digits_fuel_length f : forall n acc k,
  0 < n -> n < 2 ^ N.of_nat f ->
  (List.length (digits_fuel f n acc) <= List.length acc + k)%nat
  <-> n < 10 ^ N.of_nat k.
Proof.
  induction f as [|f IH]; intros n acc k Hp Hn.
  - change (2 ^ N.of_nat 0) with 1 in Hn. lia.
  - rewrite Nat2N.inj_succ, N.pow_succ_r' in Hn.
    rewrite digits_fuel_S. destruct (N.eqb_spec (n / 10) 0) as [E|E].
    + cbn [List.length]. destruct k as [|k].
      * change (10 ^ N.of_nat 0) with 1. lia.
      * rewrite Nat2N.inj_succ, N.pow_succ_r'.
        assert (0 < 10 ^ N.of_nat k) by (apply N.neq_0_lt_0, N.pow_nonzero; discriminate).
        lia.
    + destruct k as [|k].
      * change (10 ^ N.of_nat 0) with 1.
        pose proof (digits_fuel_longer f (n / 10) ((48 + n mod 10) :: acc)) as L.
        cbn [List.length] in L. lia.
      * rewrite Nat2N.inj_succ, N.pow_succ_r'.
        specialize (IH (n / 10) ((48 + n mod 10) :: acc) k).
        cbn [List.length] in IH.
        assert (P : 0 < n / 10) by lia. assert (Q : n / 10 < 2 ^ N.of_nat f) by lia.
        specialize (IH P Q). set (pw := 10 ^ N.of_nat k) in *.
        rewrite Nat.add_succ_r. rewrite <- Nat.add_succ_l. rewrite IH. lia.
Qed.

Lemma num_digits_le n k :
  (0 < k)%nat -> num_digits n <= N.of_nat k <-> (Z.abs n < 10 ^ Z.of_nat k)%Z.
Proof.
  intros Hk.
  assert (G : forall p, num_digits (Z.pos p) <= N.of_nat k
                        <-> (Z.pos p < 10 ^ Z.of_nat k)%Z).
  { intros p. unfold num_digits. cbn [Z.abs decimal].
    pose proof (digits_fuel_length (S (N.to_nat (N.size (N.pos p)))) (N.pos p) [] k) as D.
    cbn [List.length Nat.add] in D.
    assert (B : N.pos p < 2 ^ N.of_nat (S (N.to_nat (N.size (N.pos p))))).
    { rewrite Nat2N.inj_succ, N.pow_succ_r', N2Nat.id.
      pose proof (N.size_gt (N.pos p)). lia. }
    specialize (D eq_refl B).
    replace (Z.pos p < 10 ^ Z.of_nat k)%Z with (Z.of_N (N.pos p) < Z.of_N (10 ^ N.of_nat k))%Z
      by (rewrite N2Z.inj_pow, nat_N_Z; reflexivity).
    rewrite <- N2Z.inj_lt, <- D. lia. }
  destruct n as [|p|p]; [|apply G|apply G].
  unfold num_digits. cbn [Z.abs decimal List.length].
  assert (0 < 10 ^ Z.of_nat k)%Z by (apply Z.pow_pos_nonneg; lia). lia.
Qed.

(** The limit on the digits as a bound on the number. *)
Lemma within_limit n : num_digits n <= MAX_STR_DIGITS <-> (Z.abs n < 10 ^ 4300)%Z.
Proof.
  change MAX_STR_DIGITS with (N.of_nat 4300).
  change 4300%Z with (Z.of_nat 4300). apply num_digits_le. lia.
Qed.

Lemma beyond_limit n : MAX_STR_DIGITS < num_digits n <-> (10 ^ 4300 <= Z.abs n)%Z.
Proof.
  pose proof (within_limit n) as W. set (b := (10 ^ 4300)%Z) in *.
  split; intros H.
  - apply Z.le_ngt. intros L. apply W in L. lia.
  - apply N.lt_nge. intros L. apply W in L. lia.
Qed.

(** [int] reads back the numeral of a number within the limit. *)
Lemma int_of_decimal n : num_digits n <= MAX_STR_DIGITS -> int_of_str (decimal n) = Ok n.
Proof.
  assert (G : forall p,
             let s := digits_fuel (S (N.to_nat (N.size (N.pos p)))) (N.pos p) [] in
             N.of_nat (List.length s) <= MAX_STR_DIGITS ->
             int_of_str s = Ok (Z.pos p) /\ int_of_str (Ch.MINUS :: s) = Ok (Z.neg p)).
  { intros p s L. apply (int_of_digits s (N.pos p)).
    - apply digits_fuel_digits. constructor.
    - exact L.
    - unfold s. rewrite scan_digits_digits; [reflexivity|].
      rewrite Nat2N.inj_succ, N.pow_succ_r', N2Nat.id.
      pose proof (N.size_gt (N.pos p)). lia. }
  destruct n as [|p|p]; intros L; [reflexivity|apply G; exact L|apply G; exact L].
Qed.

Lemma int_of_str_of_int n s : str_of_int n = Ok s -> int_of_str s = Ok n.
Proof.
  intros E. destruct (str_of_int_ok _ _ E) as [-> L]. apply int_of_decimal. exact L.
Qed.

End IntFacts.

(** * The stages of [urlsplit] *)

Module SplitFacts.
Local Open Scope N_scope.
Import PyStr UrlParse QuoteFacts DictFacts.
Import UrlProps.

Lemma urlsplit_stages ok u :
  urlsplit ok u =
  let (sch, r1) := split_scheme (clean u) in
  let (loc, r2) := netstage r1 in
  let '(pth, qry, frag) := bodystage r2 in
  if ok loc then Ok (mkSplit sch loc pth qry frag) else Raise ValueError.
Proof.
  unfold urlsplit, clean, netstage, bodystage.
  destruct (split_scheme _) as [sch r1].
  assert (G : forall lr : str * str,
    (let (loc, url) := lr in
     let (url0, frag) :=
       match partition Ch.HASH url with Some (u0, f) => (u0, f) | None => (url, []) end in
     let (url1, qry) :=
       match partition Ch.QMARK url0 with Some (u0, q) => (u0, q) | None => (url0, []) end in
     if ok loc then Ok (mkSplit sch loc url1 qry frag) else Raise ValueError)
    = (let (loc, r2) := lr in
       let '(pth, qry, frag) :=
         let (url, frag) :=
           match partition Ch.HASH r2 with Some (u0, f) => (u0, f) | None => (r2, []) end in
         let (url0, qry) :=
           match partition Ch.QMARK url with Some (u0, q) => (u0, q) | None => (url, []) end in
         (url0, qry, frag) in
       if ok loc then Ok (mkSplit sch loc pth qry frag) else Raise ValueError)).
  { intros [loc r2]. destruct (partition Ch.HASH r2) as [[r3 frag]|];
      [destruct (partition Ch.QMARK r3) as [[pth qry]|]
      |destruct (partition Ch.QMARK r2) as [[pth qry]|]]; reflexivity. }
  apply G.
Qed.

(** *** Cleaning *)

Lemma remove_id a s : ~ In a s -> remove a s = s.
Proof.
  unfold remove. induction s as [|c s IH]; intros H; [reflexivity|].
  cbn [filter]. destruct (N.eqb_spec c a) as [->|_]; [exfalso; apply H; left; reflexivity|].
  cbn [negb]. f_equal. apply IH. intros F; apply H; right; exact F.
Qed.

Lemma clean_id s : ws_free s -> head_ok s -> clean s = s.
Proof.
  intros W H. unfold clean.
  assert (L : lstrip c0_control_or_space s = s).
  { destruct s as [|c s]; [reflexivity|]. cbn [lstrip]. cbn [head_ok] in H. rewrite H. reflexivity. }
  rewrite L. unfold ws_free in W. rewrite Forall_forall in W.
  rewrite (remove_id Ch.TAB s) by (intros F; apply W in F; tauto).
  rewrite (remove_id Ch.CR s) by (intros F; apply W in F; tauto).
  rewrite (remove_id Ch.LF s) by (intros F; apply W in F; tauto).
  reflexivity.
Qed.

Lemma remove_spec a s :
  ~ In a (remove a s) /\ (forall x, In x (remove a s) -> In x s)
  /\ (forall c r, s = c :: r -> c <> a -> exists r', remove a s = c :: r').
Proof.
  unfold remove. split; [|split].
  - intros F. apply filter_In in F. destruct F as [_ F].
    rewrite N.eqb_refl in F. discriminate.
  - intros x F. apply filter_In in F. tauto.
  - intros c r -> Hc. cbn [filter].
    destruct (N.eqb_spec c a); [contradiction|]. cbn [negb]. eauto.
Qed.

Lemma lstrip_head p s : match lstrip p s with [] => True | c :: _ => p c = false end.
Proof.
  induction s as [|c s IH]; cbn [lstrip]; [exact I|].
  destruct (p c) eqn:E; [exact IH|exact E].
Qed.

Lemma clean_spec u : ws_free (clean u) /\ head_ok (clean u).
Proof.
  unfold clean. set (s0 := lstrip c0_control_or_space u).
  pose proof (lstrip_head c0_control_or_space u) as H0. fold s0 in H0.
  destruct (remove_spec Ch.TAB s0) as (A1 & A2 & A3).
  destruct (remove_spec Ch.CR (remove Ch.TAB s0)) as (B1 & B2 & B3).
  destruct (remove_spec Ch.LF (remove Ch.CR (remove Ch.TAB s0))) as (C1 & C2 & C3).
  split.
  - apply Forall_forall. intros x Hx. repeat split; intros ->.
    + apply A1. auto.
    + apply B1. auto.
    + apply C1. auto.
  - destruct s0 as [|c r] eqn:E; [exact I|].
    assert (Hc : c <> Ch.TAB /\ c <> Ch.CR /\ c <> Ch.LF).
    { unfold c0_control_or_space in H0. apply N.leb_gt in H0. unfold_chars. lia. }
    destruct (A3 c r eq_refl) as [r1 E1]; [tauto|].
    rewrite E1 in *. destruct (B3 c r1 eq_refl) as [r2 E2]; [tauto|].
    rewrite E2 in *. destruct (C3 c r2 eq_refl) as [r3 E3]; [tauto|].
    rewrite E3. exact H0.
Qed.

(** *** The scheme stage *)

Lemma scheme_char_colon : scheme_char Ch.COLON = false.
Proof. reflexivity. Qed.

Lemma alpha_scheme_char c : is_ascii_alpha c = true -> scheme_char c = true.
Proof.
  unfold is_ascii_alpha, scheme_char. intros H. apply orb_true_iff in H.
  destruct H as [H|H]; rewrite H; rewrite ?orb_true_r; reflexivity.
Qed.

Lemma first_nonscheme_app a t :
  first_nonscheme (a ++ t) =
  match first_nonscheme a with Some c => Some c | None => first_nonscheme t end.
Proof.
  induction a as [|c a IH]; [reflexivity|].
  cbn [app first_nonscheme]. destruct (scheme_char c); [exact IH|reflexivity].
Qed.

Lemma partition_colon_scheme x pre rest :
  partition Ch.COLON x = Some (pre, rest) ->
  (forallb scheme_char pre = true <-> first_nonscheme x = Some Ch.COLON).
Proof.
  revert pre. induction x as [|c x IH]; intros pre; cbn [partition]; [discriminate|].
  destruct (N.eqb_spec c Ch.COLON) as [->|Hc].
  - intros E. injection E as <- <-. cbn. tauto.
  - destruct (partition Ch.COLON x) as [[a b]|]; [|discriminate].
    intros E. injection E as <- <-. cbn [forallb first_nonscheme].
    destruct (scheme_char c); cbn [andb].
    + apply IH. reflexivity.
    + split; [discriminate|]. intros E. injection E as E. contradiction.
Qed.

Lemma first_nonscheme_colon x :
  first_nonscheme x = Some Ch.COLON -> exists pre rest, partition Ch.COLON x = Some (pre, rest).
Proof.
  induction x as [|c x IH]; cbn [first_nonscheme partition]; [discriminate|].
  destruct (N.eqb_spec c Ch.COLON) as [->|Hc]; [eauto|].
  destruct (scheme_char c).
  - intros H. destruct (IH H) as (pre & rest & ->). eauto.
  - intros E. injection E as E. contradiction.
Qed.

Lemma split_scheme_spec x :
  if has_scheme x
  then exists pre rest, x = pre ++ Ch.COLON :: rest /\ pre <> []
         /\ forallb scheme_char pre = true /\ split_scheme x = (lower pre, rest)
  else split_scheme x = ([], x).
Proof.
  unfold has_scheme, split_scheme.
  destruct (partition Ch.COLON x) as [[pre rest]|] eqn:P.
  - pose proof (partition_colon_scheme _ _ _ P) as F.
    destruct (partition_some _ _ _ _ P) as [-> Hn].
    destruct pre as [|c pre].
    + cbn [app alpha_head]. change (is_ascii_alpha Ch.COLON) with false. reflexivity.
    + cbn [app alpha_head] in *. destruct (is_ascii_alpha c) eqn:A; cbn [andb]; [|reflexivity].
      destruct (forallb scheme_char (c :: pre)) eqn:G.
      * destruct F as [F _]. rewrite (F eq_refl), N.eqb_refl.
        exists (c :: pre), rest. repeat split; [discriminate|exact G].
      * destruct (first_nonscheme _) as [d|] eqn:D; [|reflexivity].
        destruct (N.eqb_spec d Ch.COLON) as [->|]; [|reflexivity].
        destruct F as [_ F]. pose proof (F eq_refl) as F'. cbn [app] in F'. congruence.
  - destruct (first_nonscheme x) as [d|] eqn:D; [|rewrite andb_false_r; reflexivity].
    destruct (N.eqb_spec d Ch.COLON) as [->|]; [|rewrite andb_false_r; reflexivity].
    destruct (first_nonscheme_colon _ D) as (pre & rest & E). congruence.
Qed.

Lemma split_scheme_build pre rest :
  alpha_head pre = true -> forallb scheme_char pre = true ->
  split_scheme (pre ++ Ch.COLON :: rest) = (lower pre, rest).
Proof.
  intros A F. unfold split_scheme. rewrite partition_app.
  - destruct pre as [|c pre]; [discriminate|]. cbn [alpha_head] in A.
    rewrite A, F. reflexivity.
  - intros I. rewrite forallb_forall in F. apply F in I. discriminate.
Qed.

Lemma has_scheme_tail a t t' :
  has_scheme (a ++ t) = false ->
  (a = [] -> alpha_head t' = false) ->
  match first_nonscheme t' with Some c => c <> Ch.COLON | None => True end ->
  has_scheme (a ++ t') = false.
Proof.
  unfold has_scheme. rewrite !first_nonscheme_app. intros H Ha Ht.
  destruct a as [|c a].
  - cbn [app first_nonscheme]. rewrite (Ha eq_refl). reflexivity.
  - cbn [app alpha_head] in *. destruct (is_ascii_alpha c); [|reflexivity].
    cbn [andb] in *. destruct (first_nonscheme (c :: a)) as [d|]; [exact H|].
    destruct (first_nonscheme t') as [d|]; [|reflexivity].
    apply N.eqb_neq. exact Ht.
Qed.

(** *** The netloc stage *)

Lemma splitnetloc_spec s :
  let (n, rest) := splitnetloc s in
  s = n ++ rest /\ Forall (fun c => netloc_delim c = false) n
  /\ match rest with [] => True | c :: _ => netloc_delim c = true end.
Proof.
  induction s as [|c s IH]; cbn [splitnetloc]; [repeat split; constructor|].
  destruct (netloc_delim c) eqn:D.
  - repeat split; [constructor|exact D].
  - destruct (splitnetloc s) as [n rest]. destruct IH as (-> & F & R).
    repeat split; [constructor; assumption|exact R].
Qed.

Lemma splitnetloc_build n rest :
  Forall (fun c => netloc_delim c = false) n ->
  match rest with [] => True | c :: _ => netloc_delim c = true end ->
  splitnetloc (n ++ rest) = (n, rest).
Proof.
  intros F R. induction F as [|c n Hc _ IH]; cbn [app].
  - destruct rest as [|c r]; [reflexivity|]. cbn [splitnetloc]. rewrite R. reflexivity.
  - cbn [splitnetloc]. rewrite Hc, IH. reflexivity.
Qed.

Lemma netstage_spec x :
  let (loc, r2) := netstage x in
  (x = Ch.SLASH :: Ch.SLASH :: loc ++ r2
   /\ Forall (fun c => netloc_delim c = false) loc
   /\ match r2 with [] => True | c :: _ => netloc_delim c = true end)
  \/ (starts_with_2slash x = false /\ loc = [] /\ r2 = x).
Proof.
  unfold netstage, starts_with_2slash.
  destruct x as [|c1 [|c2 r]]; [right; auto|right; auto|].
  destruct (N.eqb_spec c1 Ch.SLASH) as [->|]; [|right; auto].
  destruct (N.eqb_spec c2 Ch.SLASH) as [->|]; [|right; auto].
  cbn [andb]. pose proof (splitnetloc_spec r) as S.
  destruct (splitnetloc r) as [n rest]. destruct S as (-> & F & R). left. auto.
Qed.

Lemma netstage_build loc body :
  Forall (fun c => netloc_delim c = false) loc ->
  match body with [] => True | c :: _ => netloc_delim c = true end ->
  netstage (Ch.SLASH :: Ch.SLASH :: loc ++ body) = (loc, body).
Proof. intros F R. unfold netstage. rewrite !N.eqb_refl. apply splitnetloc_build; assumption. Qed.

Lemma netstage_none x : starts_with_2slash x = false -> netstage x = ([], x).
Proof.
  unfold starts_with_2slash, netstage. destruct x as [|c1 [|c2 r]]; try reflexivity.
  intros ->. reflexivity.
Qed.

(** *** Fragment and query *)

Lemma bodystage_spec x :
  let '(pth, qry, frag) := bodystage x in
  ~ In Ch.HASH pth /\ ~ In Ch.QMARK pth
  /\ (exists t, x = pth ++ t /\ tail_ok t)
  /\ (forall c, In c frag -> In c x).
Proof.
  unfold bodystage.
  destruct (partition Ch.HASH x) as [[r3 frag]|] eqn:P.
  - destruct (partition_some _ _ _ _ P) as [-> Hh].
    destruct (partition Ch.QMARK r3) as [[pth qry]|] eqn:Q.
    + destruct (partition_some _ _ _ _ Q) as [-> Hq]. repeat split.
      * intros F; apply Hh; apply in_or_app; left; exact F.
      * exact Hq.
      * exists (Ch.QMARK :: qry ++ Ch.HASH :: frag). rewrite <- app_assoc.
        split; [reflexivity|left; reflexivity].
      * intros c F. apply in_or_app. right. right. exact F.
    + apply partition_is_none in Q. repeat split; try assumption.
      * exists (Ch.HASH :: frag). split; [reflexivity|right; reflexivity].
      * intros c F. apply in_or_app. right. right. exact F.
  - apply partition_is_none in P.
    destruct (partition Ch.QMARK x) as [[pth qry]|] eqn:Q.
    + destruct (partition_some _ _ _ _ Q) as [-> Hq]. repeat split.
      * intros F; apply P; apply in_or_app; left; exact F.
      * exact Hq.
      * exists (Ch.QMARK :: qry). split; [reflexivity|left; reflexivity].
      * intros c [].
    + apply partition_is_none in Q. repeat split; try assumption.
      * exists []. rewrite app_nil_r. split; [reflexivity|exact I].
      * intros c [].
Qed.

Lemma bodystage_build pth qry frag :
  ~ In Ch.HASH pth -> ~ In Ch.QMARK pth -> ~ In Ch.HASH qry ->
  bodystage (pth ++ Ch.QMARK :: qry ++ fragment_part frag) = (pth, qry, frag).
Proof.
  intros H1 H2 H3. unfold bodystage, fragment_part.
  destruct frag as [|f frag].
  - rewrite app_nil_r. rewrite partition_none.
    + rewrite partition_app by assumption. reflexivity.
    + intros F. apply in_app_or in F. destruct F as [F|[F|F]]; [auto|discriminate|auto].
  - replace (pth ++ Ch.QMARK :: qry ++ Ch.HASH :: f :: frag)
      with ((pth ++ Ch.QMARK :: qry) ++ Ch.HASH :: f :: frag)
      by (rewrite <- app_assoc; reflexivity).
    rewrite partition_app.
    + rewrite partition_app by assumption. reflexivity.
    + intros F. apply in_app_or in F. destruct F as [F|[F|F]]; [auto|discriminate|auto].
Qed.

End SplitFacts.

(** * [urlsplit] reads back what [urlunsplit] wrote *)

Module RoundTrip.
Local Open Scope N_scope.
Import PyStr UrlParse Utf8Facts QuoteFacts DictFacts SplitFacts.
Import UrlProps.

Lemma below_128 (P : N -> bool) :
  forallb P (map N.of_nat (seq 0 128)) = true -> forall c, c < 128 -> P c = true.
Proof.
  intros H c Hc. rewrite forallb_forall in H. apply H.
  rewrite <- (N2Nat.id c). apply in_map. apply in_seq. lia.
Qed.

Lemma scheme_char_lt c : scheme_char c = true -> c < 128.
Proof.
  unfold scheme_char, is_lower, is_upper, is_digit. unfold_chars.
  intros H. b2p H. lia.
Qed.

Lemma lower_scheme_char c :
  scheme_char c = true ->
  let c' := if is_upper c then c + 32 else c in
  scheme_char c' = true /\ is_upper c' = false
  /\ (is_ascii_alpha c = true -> is_ascii_alpha c' = true).
Proof.
  intros H. pose proof (scheme_char_lt c H) as L. revert H.
  pose (P := fun c => let c' := if is_upper c then c + 32 else c in
                      implb (scheme_char c)
                            (scheme_char c' && negb (is_upper c')
                             && implb (is_ascii_alpha c) (is_ascii_alpha c'))).
  assert (G : P c = true) by (apply below_128; [vm_compute; reflexivity|exact L]).
  unfold P in G. cbv zeta in *. intros H. rewrite H in G. cbn [implb] in G.
  apply andb_true_iff in G. destruct G as [G G3].
  apply andb_true_iff in G. destruct G as [G1 G2].
  apply negb_true_iff in G2. repeat split; try assumption.
  intros A. rewrite A in G3. exact G3.
Qed.

Lemma lower_valid pre :
  pre <> [] -> alpha_head pre = true -> forallb scheme_char pre = true ->
  valid_scheme (lower pre).
Proof.
  intros Hne A F. unfold valid_scheme.
  assert (G : Forall (fun c => scheme_char c = true /\ is_upper c = false) (lower pre)).
  { rewrite forallb_forall in F. unfold lower. apply Forall_map. apply Forall_forall.
    intros c Hc. pose proof (lower_scheme_char c (F c Hc)) as L. cbv zeta in L. tauto. }
  repeat split.
  - destruct pre as [|c pre]; [contradiction|]. cbn [alpha_head lower map] in *.
    cbn [forallb] in F. apply andb_true_iff in F. destruct F as [F _].
    pose proof (lower_scheme_char c F) as L. cbv zeta in L. tauto.
  - apply forallb_forall. rewrite Forall_forall in G. intros c Hc. apply G. exact Hc.
  - clear -G. induction G as [|c s [_ Hc] _ IH]; [reflexivity|].
    unfold lower in *. cbn [map]. rewrite Hc. f_equal. exact IH.
Qed.

Lemma scheme_char_ws c :
  scheme_char c = true -> c <> Ch.TAB /\ c <> Ch.CR /\ c <> Ch.LF.
Proof.
  unfold scheme_char, is_lower, is_upper, is_digit. unfold_chars.
  intros H. b2p H. lia.
Qed.

Lemma ws_free_app a b : ws_free (a ++ b) <-> ws_free a /\ ws_free b.
Proof. apply Forall_app. Qed.

Lemma ws_free_incl a b : (forall c, In c a -> In c b) -> ws_free b -> ws_free a.
Proof.
  unfold ws_free. rewrite !Forall_forall. intros I H x Hx. apply H, I, Hx.
Qed.

Lemma tail_ok_facts t :
  tail_ok t ->
  alpha_head t = false
  /\ match first_nonscheme t with Some c => c <> Ch.COLON | None => True end.
Proof.
  destruct t as [|c t]; cbn [tail_ok alpha_head first_nonscheme]; [auto|].
  intros [->| ->]; split; try reflexivity; cbn; discriminate.
Qed.

Lemma delim_not_alpha c : netloc_delim c = true -> is_ascii_alpha c = false.
Proof.
  unfold netloc_delim. intros H. b2p H. unfold_chars.
  destruct H as [[->| ->]| ->]; reflexivity.
Qed.

Lemma urlsplit_wf ok u p : urlsplit ok u = Ok p -> wf_split ok p.
Proof.
  rewrite urlsplit_stages.
  destruct (clean_spec u) as [Wv Hv]. set (v := clean u) in *.
  pose proof (split_scheme_spec v) as S.
  destruct (split_scheme v) as [sch r1] eqn:E1.
  pose proof (netstage_spec r1) as Nn.
  destruct (netstage r1) as [loc r2] eqn:E2.
  pose proof (bodystage_spec r2) as B.
  destruct (bodystage r2) as [[pth qry] frag] eqn:E3.
  destruct B as (Bh & Bq & (t & Bt & Tt) & Bf).
  destruct (ok loc) eqn:Eok; [|discriminate].
  intros E. apply Ok_inj in E. subst p.
  (* what the scheme stage says about [sch] and [r1] *)
  assert (S' : (sch = [] /\ r1 = v /\ has_scheme v = false)
               \/ (valid_scheme sch /\ sch <> [] /\ exists pre, v = pre ++ Ch.COLON :: r1)).
  { destruct (has_scheme v) eqn:Hs.
    - destruct S as (pre & rest & Ev & Hne & F & Es). injection Es as -> ->.
      right. assert (A : alpha_head pre = true).
      { unfold has_scheme in Hs. apply andb_true_iff in Hs. destruct Hs as [Hs _].
        rewrite Ev in Hs. destruct pre; [contradiction|exact Hs]. }
      split; [apply lower_valid; assumption|].
      split; [destruct pre; [contradiction|discriminate]|eauto].
    - injection S as -> ->. left. auto. }
  assert (W1 : ws_free r1).
  { destruct S' as [(_ & -> & _)|(_ & _ & pre & Ev)]; [exact Wv|].
    rewrite Ev in Wv. apply ws_free_app in Wv. destruct Wv as [_ Wv].
    inversion Wv; assumption. }
  assert (W2 : ws_free loc /\ ws_free r2).
  { destruct Nn as [(-> & _ & _)|(_ & -> & ->)].
    - inversion W1 as [|? ? _ W]; subst. inversion W as [|? ? _ W']; subst.
      apply ws_free_app in W'. exact W'.
    - split; [constructor|exact W1]. }
  destruct W2 as [Wl W2].
  assert (Wp : ws_free pth).
  { rewrite Bt in W2. apply ws_free_app in W2. tauto. }
  assert (Wf : ws_free frag) by (eapply ws_free_incl; eassumption).
  assert (Ws : ws_free sch).
  { destruct S' as [(-> & _)|((_ & F & _) & _)]; [constructor|].
    rewrite forallb_forall in F. apply Forall_forall. intros c Hc.
    apply scheme_char_ws, F, Hc. }
  constructor; cbn [scheme netloc path fragment query].
  - destruct S' as [(-> & _)|(V & _)]; auto.
  - destruct Nn as [(_ & F & _)|(_ & -> & _)]; [exact F|constructor].
  - exact Eok.
  - exact Bh.
  - exact Bq.
  - intros Hl. destruct Nn as [(_ & _ & R)|(_ & -> & _)]; [|contradiction].
    rewrite Bt in R. destruct pth as [|c pth]; [reflexivity|].
    cbn [app rooted] in *. unfold netloc_delim in R. b2p R.
    destruct R as [[R|R]|R]; [apply N.eqb_eq; exact R| |]; subst c; exfalso.
    + apply Bq. left. reflexivity.
    + apply Bh. left. reflexivity.
  - auto.
  - intros -> ->. destruct S' as [(_ & -> & _)|(_ & F & _)]; [|contradiction].
    destruct Nn as [(_ & _ & R)|(_ & _ & ->)].
    + rewrite Bt in R. destruct pth as [|c pth]; [exact I|]. cbn [app head_ok] in *.
      unfold netloc_delim in R. b2p R. unfold_chars.
      destruct R as [[->| ->]| ->]; reflexivity.
    + rewrite Bt in Hv. destruct pth as [|c pth]; [exact I|]. exact Hv.
  - intros -> -> t' Ht'. destruct (tail_ok_facts t' Ht') as [T1 T2].
    destruct S' as [(_ & -> & Hs)|(_ & F & _)]; [|contradiction].
    destruct Nn as [(_ & _ & R)|(_ & _ & ->)].
    + rewrite Bt in R. unfold has_scheme. destruct pth as [|c pth].
      * cbn [app]. rewrite T1. reflexivity.
      * cbn [app alpha_head] in *. rewrite (delim_not_alpha c R). reflexivity.
    + rewrite Bt in Hs. apply (has_scheme_tail pth t t' Hs); [intros _; exact T1|exact T2].
Qed.

Lemma urlunsplit_shape p :
  authority_form p = true -> (netloc p <> [] -> rooted (path p) = true) ->
  query p <> [] ->
  let body := path p ++ Ch.QMARK :: query p ++ fragment_part (fragment p) in
  let slashes := nonempty (netloc p)
                 || (nonempty (scheme p) && existsb (eqb (scheme p)) uses_netloc
                     && negb (starts_with_2slash (path p))) in
  let rest := if slashes then Ch.SLASH :: Ch.SLASH :: netloc p ++ body else body in
  urlunsplit p = (if nonempty (scheme p) then scheme p ++ Ch.COLON :: rest else rest)
  /\ (slashes = true -> rooted (path p) = true)
  /\ (slashes = false -> netloc p = [] /\ starts_with_2slash (path p) = false).
Proof.
  intros A R Q. cbv zeta. unfold urlunsplit, authority_form in *.
  destruct p as [sch loc pth qry frag]. cbn [scheme netloc path query fragment] in *.
  set (sl := nonempty loc || _).
  assert (Rt : sl = true -> rooted pth = true).
  { unfold sl. destruct loc as [|l loc]; cbn [nonempty orb] in *.
    - intros H. apply andb_true_iff in H. destruct H as [H1 _].
      rewrite H1 in A. cbn [negb orb] in A. apply andb_true_iff in A. tauto.
    - intros _. apply R. discriminate. }
  assert (Nt : sl = false -> loc = [] /\ starts_with_2slash pth = false).
  { unfold sl. destruct loc as [|l loc]; cbn [nonempty orb] in *; [|discriminate].
    intros H. split; [reflexivity|]. apply andb_true_iff in A. destruct A as [A _].
    apply negb_true_iff in A. exact A. }
  split; [|split; assumption].
  assert (B : forall x, (if nonempty frag
                         then (if nonempty qry then x ++ Ch.QMARK :: qry else x) ++ Ch.HASH :: frag
                         else (if nonempty qry then x ++ Ch.QMARK :: qry else x))
                        = x ++ Ch.QMARK :: qry ++ fragment_part frag).
  { intros x. destruct qry as [|q qry]; [contradiction|]. cbn [nonempty].
    destruct frag; cbn [nonempty fragment_part]; [rewrite app_nil_r; reflexivity|].
    rewrite <- app_assoc. reflexivity. }
  destruct sl.
  - specialize (Rt eq_refl).
    assert (P : match pth with
                | [] => pth
                | c :: _ => if negb (c =? Ch.SLASH) then Ch.SLASH :: pth else pth
                end = pth).
    { destruct pth as [|c pth]; [reflexivity|]. cbn [rooted] in Rt. rewrite Rt. reflexivity. }
    rewrite P. destruct (nonempty sch); rewrite B.
    + rewrite <- !app_assoc. cbn [app]. rewrite <- !app_assoc. reflexivity.
    + cbn [app]. rewrite <- !app_assoc. reflexivity.
  - destruct (nonempty sch); rewrite B.
    + rewrite <- !app_assoc. reflexivity.
    + reflexivity.
Qed.

Lemma ws_free_sep c s :
  c <> Ch.TAB /\ c <> Ch.CR /\ c <> Ch.LF -> ws_free s -> ws_free (c :: s).
Proof. intros; constructor; assumption. Qed.

Lemma urlsplit_unsplit ok p :
  wf_split ok p -> authority_form p = true ->
  query p <> [] -> ~ In Ch.HASH (query p) -> ws_free (query p) ->
  urlsplit ok (urlunsplit p) = Ok p.
Proof.
  intros W A Q Qh Qw.
  destruct (urlunsplit_shape p A (wf_rooted _ _ W) Q) as (E & Rt & Nt).
  destruct W as [Ws Wn Wok Wh Wq Wr (Wws & Wwn & Wwp & Wwf) Whd Wno].
  destruct p as [sch loc pth qry frag]. cbn [scheme netloc path query fragment] in *.
  set (body := pth ++ Ch.QMARK :: qry ++ fragment_part frag) in *.
  set (sl := nonempty loc || _) in *.
  set (rest := if sl then Ch.SLASH :: Ch.SLASH :: loc ++ body else body) in *.
  assert (Wb : ws_free body).
  { unfold body. apply ws_free_app; split; [exact Wwp|].
    apply ws_free_sep; [unfold_chars; lia|]. apply ws_free_app; split; [exact Qw|].
    unfold fragment_part. destruct frag; [constructor|].
    apply ws_free_sep; [unfold_chars; lia|exact Wwf]. }
  assert (Wrest : ws_free rest).
  { unfold rest. destruct sl; [|exact Wb].
    do 2 (apply ws_free_sep; [unfold_chars; lia|]). apply ws_free_app; auto. }
  assert (Bd : match body with [] => True | c :: _ => netloc_delim c = true end
               \/ sl = false).
  { destruct sl eqn:Es; [left|right; reflexivity].
    specialize (Rt eq_refl). unfold body. destruct pth as [|c pth]; cbn [app]; [reflexivity|].
    cbn [rooted] in Rt. apply N.eqb_eq in Rt. subst c. reflexivity. }
  assert (Nst : netstage rest = (loc, body)).
  { unfold rest. destruct sl eqn:Es.
    - destruct Bd as [Bd|]; [|discriminate]. apply netstage_build; assumption.
    - destruct (Nt eq_refl) as [-> N2]. apply netstage_none.
      unfold body. generalize (qry ++ fragment_part frag). intros l.
      destruct pth as [|c1 [|c2 pth]]; cbn [app starts_with_2slash] in *.
      + destruct l; reflexivity.
      + apply andb_false_iff. right. reflexivity.
      + exact N2. }
  assert (Bst : bodystage body = (pth, qry, frag))
    by (apply bodystage_build; assumption).
  rewrite urlsplit_stages, E.
  destruct Ws as [->|(Sa & Sf & Sl)].
  - (* no scheme *)
    cbn [nonempty].
    assert (Hd : head_ok rest).
    { unfold rest. destruct sl eqn:Es; [reflexivity|].
      destruct (Nt eq_refl) as [-> _]. specialize (Whd eq_refl eq_refl).
      unfold body. destruct pth; [reflexivity|exact Whd]. }
    rewrite clean_id by assumption.
    assert (Hs : has_scheme rest = false).
    { unfold rest. destruct sl eqn:Es; [reflexivity|].
      destruct (Nt eq_refl) as [-> _]. apply (Wno eq_refl eq_refl). left. reflexivity. }
    pose proof (split_scheme_spec rest) as S. rewrite Hs in S. rewrite S, Nst, Bst, Wok.
    reflexivity.
  - destruct sch as [|s0 sch]; [discriminate|]. cbn [nonempty].
    rewrite clean_id.
    + rewrite split_scheme_build by assumption. rewrite Sl, Nst, Bst, Wok. reflexivity.
    + apply ws_free_app; split; [exact Wws|].
      apply ws_free_sep; [unfold_chars; lia|exact Wrest].
    + cbn [app head_ok alpha_head] in *. unfold c0_control_or_space.
      apply N.leb_gt. unfold is_ascii_alpha, is_upper, is_lower in Sa. b2p Sa. lia.
Qed.

End RoundTrip.

(** * The page cursor in a URL *)

Module CursorFacts.
Local Open Scope N_scope.
Import PyStr UrlParse Cursor Utf8Facts QuoteFacts QueryFacts DictFacts ParseQsFacts IntFacts SplitFacts RoundTrip.
Import UrlProps.

Section Facts.

Variable ok : str -> bool.

Lemma no_lone_surrogate_sc s : no_lone_surrogate s = true -> sc s.
Proof. intros H. apply Forall_forall. apply forallb_forall. exact H. Qed.

Lemma wf_with_query p q : wf_split ok p -> wf_split ok (with_query p q).
Proof. intros [A B C D E F G H I]. constructor; assumption. Qed.

Lemma parse_qs_values k q vs : dict_get k (parse_qs q) = Some vs -> vs <> [].
Proof.
  unfold parse_qs. rewrite dict_get_fold. cbn [dict_get].
  destruct (map snd (named k (parse_qsl q))); [discriminate|].
  intros E. injection E as <-. discriminate.
Qed.

Lemma int_of_str_raises s e : PyInt.int_of_str s = Raise e -> e = ValueError.
Proof.
  unfold PyInt.int_of_str.
  destruct (match lstrip PyInt.is_space (PyInt.to_ascii s) with
            | [] => (false, lstrip PyInt.is_space (PyInt.to_ascii s))
            | c :: r => _ end) as [neg t].
  destruct (PyInt.scan_digits t 0 PyInt.PStart) as [[v rest]|]; [|congruence].
  destruct (PyInt.MAX_STR_DIGITS <? PyInt.count_digits t); [congruence|].
  destruct (lstrip PyInt.is_space rest); congruence.
Qed.

(** The query [with_page_number] writes for a query [q] and a target [n]. *)
Lemma rewritten_query q n :
  sc q ->
  exists q', urlencode (dict_set PAGE [PyInt.decimal n] (parse_qs q)) = Ok q'
    /\ named PAGE (parse_qsl q') = [(PAGE, PyInt.decimal n)]
    /\ q' <> [] /\ ~ In Ch.HASH q' /\ ws_free q'.
Proof.
  intros Hq. set (d := dict_set PAGE [PyInt.decimal n] (parse_qs q)).
  assert (Ds : dict_sc d).
  { apply dict_set_sc; [apply ascii_sc; repeat constructor|
                        repeat constructor; apply ascii_sc, decimal_ascii|
                        apply parse_qs_sc; exact Hq]. }
  destruct (urlencode_total d Ds) as [q' E]. exists q'.
  pose proof (parse_qsl_urlencode d q' E) as P.
  assert (Nm : named PAGE (parse_qsl q') = [(PAGE, PyInt.decimal n)]).
  { rewrite P. rewrite (named_flatten PAGE d [PyInt.decimal n]); [reflexivity| |].
    - apply keys_nodup_set, keys_nodup_parse_qs.
    - apply dict_get_set_same. }
  pose proof (urlencode_chars d q' E) as C. rewrite Forall_forall in C.
  repeat split; try assumption.
  - intros ->. discriminate.
  - intros F. destruct (C _ F) as [H|[H|H]]; [|discriminate|discriminate].
    revert H. change (field_char Ch.HASH) with false. discriminate.
  - apply Forall_forall. intros c F. destruct (C _ F) as [H|[H|H]].
    + repeat split; apply (field_char_not c _ H); cbn; tauto.
    + subst c. unfold_chars. lia.
    + subst c. unfold_chars. lia.
Qed.

(** [with_page_number] once [urlsplit] and [str] have answered. *)
Lemma with_page_number_within u n p :
  urlsplit ok u = Ok p ->
  PyInt.num_digits n <= PyInt.MAX_STR_DIGITS ->
  with_page_number ok u n
  = rbind (urlencode (dict_set PAGE [PyInt.decimal n] (parse_qs (query p))))
          (fun q' => Ok (urlunsplit (with_query p q'))).
Proof.
  intros Hs Hn. unfold with_page_number. rewrite Hs. cbn [rbind].
  rewrite (str_of_int_within _ Hn). reflexivity.
Qed.

Lemma with_page_number_beyond u n p :
  urlsplit ok u = Ok p ->
  PyInt.MAX_STR_DIGITS < PyInt.num_digits n ->
  with_page_number ok u n = Raise ValueError.
Proof.
  intros Hs Hn. unfold with_page_number. rewrite Hs. cbn [rbind].
  rewrite (str_of_int_beyond _ Hn). reflexivity.
Qed.

Lemma with_page_number_split u n p :
  urlsplit ok u = Ok p ->
  no_lone_surrogate (query p) = true ->
  authority_form p = true ->
  PyInt.num_digits n <= PyInt.MAX_STR_DIGITS ->
  exists out q',
    with_page_number ok u n = Ok out
    /\ urlsplit ok out = Ok (with_query p q')
    /\ named PAGE (parse_qsl q') = [(PAGE, PyInt.decimal n)].
Proof.
  intros Hs Hq Ha Hn.
  destruct (rewritten_query (query p) n (no_lone_surrogate_sc _ Hq))
    as (q' & E & Nm & Ne & Nh & Nw).
  exists (urlunsplit (with_query p q')), q'.
  split; [|split; [|exact Nm]].
  - rewrite (with_page_number_within u n p Hs Hn), E. reflexivity.
  - apply urlsplit_unsplit; try assumption.
    apply wf_with_query. eapply urlsplit_wf; eassumption.
Qed.

Lemma get_page_number_named u p v :
  urlsplit ok u = Ok p ->
  named PAGE (parse_qsl (query p)) = [(PAGE, v)] ->
  get_page_number_from_url ok u =
  match PyInt.int_of_str v with Ok n => Ok (Some n) | Raise _ => Ok None end.
Proof.
  intros Hs Nm. unfold get_page_number_from_url. rewrite Hs. cbn [rbind].
  unfold parse_qs. rewrite dict_get_fold, Nm. cbn [dict_get map snd].
  destruct (PyInt.int_of_str v) as [n|e] eqn:E; [reflexivity|].
  rewrite (int_of_str_raises _ _ E). reflexivity.
Qed.

Lemma increment_unfold u p :
  urlsplit ok u = Ok p ->
  increment_page_query ok u
  = rbind (current_page p) (fun k =>
    rbind (with_page_number ok u (k + 1)) (fun url => Ok (url, (k + 1)%Z))).
Proof.
  intros Hs. unfold increment_page_query, with_page_number, current_page.
  rewrite Hs. cbn [rbind].
  destruct (dict_get PAGE (parse_qs (query p))) as [[|v vs]|]; cbn [rbind];
    try reflexivity.
  - destruct (PyInt.int_of_str v) as [k|e]; [|destruct (is_value_error e)];
      cbn [rbind]; try reflexivity;
      destruct (PyInt.str_of_int _); cbn [rbind]; try reflexivity;
      destruct (urlencode _); reflexivity.
  - destruct (PyInt.int_of_str (lit "1")) as [k|e]; [|destruct (is_value_error e)];
      cbn [rbind]; try reflexivity;
      destruct (PyInt.str_of_int _); cbn [rbind]; try reflexivity;
      destruct (urlencode _); reflexivity.
Qed.

(** It is the cursor [get_page_number_from_url] reads, or 1. *)
Lemma current_page_read u p :
  urlsplit ok u = Ok p ->
  exists k, current_page p = Ok k
            /\ (get_page_number_from_url ok u = Ok (Some k)
                \/ get_page_number_from_url ok u = Ok None /\ k = 1%Z).
Proof.
  intros Hs. unfold current_page, get_page_number_from_url. rewrite Hs. cbn [rbind].
  destruct (dict_get PAGE (parse_qs (query p))) as [[|v vs]|] eqn:G; cbn [rbind].
  - exfalso. exact (parse_qs_values _ _ _ G eq_refl).
  - destruct (PyInt.int_of_str v) as [k|e] eqn:E; [eauto|].
    rewrite (int_of_str_raises _ _ E). cbn [is_value_error]. eauto.
  - exists 1%Z. split; [reflexivity|]. right. split; reflexivity.
Qed.

Lemma increment_is_rewrite u url next :
  increment_page_query ok u = Ok (url, next) -> with_page_number ok u next = Ok url.
Proof.
  destruct (urlsplit ok u) as [p|e] eqn:Hs.
  - rewrite (increment_unfold u p Hs).
    destruct (current_page p) as [k|]; [|discriminate]. cbn [rbind].
    destruct (with_page_number ok u (k + 1)) as [out|] eqn:W; [|discriminate].
    cbn [rbind]. intros H. apply Ok_inj in H. injection H as <- <-. exact W.
  - unfold increment_page_query. rewrite Hs. discriminate.
Qed.

Lemma two_within : PyInt.num_digits 2 <= PyInt.MAX_STR_DIGITS.
Proof. apply N.leb_le. reflexivity. Qed.

(** C1, as the code has it: rewriting a URL to a target cursor keeps its
    scheme, host, path and fragment, and leaves exactly one [page]
    parameter, whose value is the target, under four conditions.
    [urlsplit] reads [u], as [p]; the query of [p] holds no lone surrogate
    (so that it can be quoted); [p] has the authority form: it has a host,
    or a path that [urlunsplit] writes back as it stands; and the target
    has no more digits than [str] writes.  Then [with_page_number u n]
    returns a URL that splits into [p] with a new query, and the pairs of
    that query named [page] are the single pair of [page] and the decimal
    numeral of [n]; a target with more digits makes it raise [ValueError].
    [increment_page_query u] returns such a URL together with the cursor
    [next] it targets, provided that the cursor [k] it reads in [u], if
    any, leaves [k + 1] within the limit. *)
Theorem page_rewrite_preserves_url (u : str) (n : Z) (p : SplitResult) :
  urlsplit ok u = Ok p ->
  no_lone_surrogate (query p) = true ->
  authority_form p = true ->
  (PyInt.num_digits n <= PyInt.MAX_STR_DIGITS ->
   exists out q',
     with_page_number ok u n = Ok out
     /\ urlsplit ok out = Ok (with_query p q')
     /\ named PAGE (parse_qsl q') = [(PAGE, PyInt.decimal n)])
  /\ (PyInt.MAX_STR_DIGITS < PyInt.num_digits n ->
      with_page_number ok u n = Raise ValueError)
  /\ ((forall k, get_page_number_from_url ok u = Ok (Some k) ->
                 PyInt.num_digits (k + 1) <= PyInt.MAX_STR_DIGITS) ->
      exists out next q',
        increment_page_query ok u = Ok (out, next)
        /\ urlsplit ok out = Ok (with_query p q')
        /\ named PAGE (parse_qsl q') = [(PAGE, PyInt.decimal next)]).
Proof.
  intros Hs Hq Ha. split; [|split].
  - apply with_page_number_split; assumption.
  - exact (with_page_number_beyond u n p Hs).
  - intros Hk. destruct (current_page_read u p Hs) as (k & Ec & Hr).
    assert (Hn : PyInt.num_digits (k + 1) <= PyInt.MAX_STR_DIGITS).
    { destruct Hr as [Hr|[_ ->]]; [exact (Hk k Hr)|exact two_within]. }
    destruct (with_page_number_split u (k + 1) p Hs Hq Ha Hn) as (out & q' & W & S & Nm).
    exists out, (k + 1)%Z, q'. split; [|split; assumption].
    rewrite (increment_unfold u p Hs), Ec. cbn [rbind]. rewrite W. reflexivity.
Qed.

(** C9, as the code has it: reading the cursor back from a rewritten URL
    recovers the target when the URL and the target can be rewritten.  For
    a URL [u] that [urlsplit] reads as [p], with no lone surrogate in its
    query and in authority form, and for an integer [n], negative ones
    included, with no more digits than [str] writes, [with_page_number u n]
    returns a URL from which [get_page_number_from_url] reads [n].  For an
    integer with more digits nothing is read back: [with_page_number]
    raises [ValueError]. *)
Theorem cursor_read_after_rewrite (u : str) (n : Z) (p : SplitResult) :
  urlsplit ok u = Ok p ->
  no_lone_surrogate (query p) = true ->
  authority_form p = true ->
  (PyInt.num_digits n <= PyInt.MAX_STR_DIGITS ->
   exists out, with_page_number ok u n = Ok out
               /\ get_page_number_from_url ok out = Ok (Some n))
  /\ (PyInt.MAX_STR_DIGITS < PyInt.num_digits n ->
      with_page_number ok u n = Raise ValueError).
Proof.
  intros Hs Hq Ha. split; [|exact (with_page_number_beyond u n p Hs)].
  intros Hn.
  destruct (with_page_number_split u n p Hs Hq Ha Hn) as (out & q' & W & S & Nm).
  exists out. split; [exact W|].
  rewrite (get_page_number_named out _ _ S Nm), (int_of_decimal _ Hn). reflexivity.
Qed.


End Facts.

(** The rewrite of a search URL with a query, a cursor and a fragment. *)
Lemma page_rewrite_preserves_url_witness :
  let u := lit "https://example.com/people?q=a+b&page=3#top" in
  let p := mkSplit (lit "https") (lit "example.com") (lit "/people")
                   (lit "q=a+b&page=3") (lit "top") in
  (exists out q',
     with_page_number any_netloc u 7 = Ok out
     /\ urlsplit any_netloc out = Ok (with_query p q')
     /\ named PAGE (parse_qsl q') = [(PAGE, lit "7")])
  /\ (exists out next q',
        increment_page_query any_netloc u = Ok (out, next)
        /\ urlsplit any_netloc out = Ok (with_query p q')
        /\ named PAGE (parse_qsl q') = [(PAGE, PyInt.decimal next)]).
Proof.
  intros u p.
  destruct (page_rewrite_preserves_url any_netloc u 7 p eq_refl eq_refl eq_refl)
    as (W & _ & I).
  split.
  - apply W. apply N.leb_le. reflexivity.
  - apply I. intros k Hk. vm_compute in Hk. injection Hk as <-.
    apply N.leb_le. reflexivity.
Defined.

(** Two rewrites that do not keep the URL.  There is no host in
    [http:foo?page=3] and its path is relative; rewritten to cursor 7 it is
    [http:///foo?page=7], whose path is [/foo].  And no URL is written for
    the target [10 ^ 4300], which has 4301 digits: [str] raises
    [ValueError]. *)
Lemma page_rewrite_preserves_url_counterexample :
  let u := lit "http:foo?page=3" in
  let out := lit "http:///foo?page=7" in
  let people := lit "https://example.com/people?page=3" in
  urlsplit any_netloc u = Ok (mkSplit (lit "http") [] (lit "foo") (lit "page=3") [])
  /\ with_page_number any_netloc u 7 = Ok out
  /\ urlsplit any_netloc out = Ok (mkSplit (lit "http") [] (lit "/foo") (lit "page=7") [])
  /\ lit "/foo" <> lit "foo"
  /\ increment_page_query any_netloc u = Ok (lit "http:///foo?page=4", 4%Z)
  /\ PyInt.MAX_STR_DIGITS < PyInt.num_digits (10 ^ 4300)
  /\ with_page_number any_netloc people (10 ^ 4300) = Raise ValueError.
Proof.
  assert (B : PyInt.MAX_STR_DIGITS < PyInt.num_digits (10 ^ 4300)).
  { apply (proj2 (beyond_limit _)).
    rewrite Z.abs_eq by (apply Z.pow_nonneg; discriminate). apply Z.le_refl. }
  cbv zeta. do 3 (split; [vm_compute; reflexivity|]).
  split; [discriminate|]. split; [vm_compute; reflexivity|]. split; [exact B|].
  apply (with_page_number_beyond any_netloc _ _
           (mkSplit (lit "https") (lit "example.com") (lit "/people") (lit "page=3") []));
    [reflexivity|exact B].
Qed.

(** A negative target over a cursor that is not a numeral. *)
Lemma cursor_read_after_rewrite_witness :
  exists out, with_page_number any_netloc (lit "https://example.com/people?page=x") (-4) = Ok out
              /\ get_page_number_from_url any_netloc out = Ok (Some (-4)%Z).
Proof.
  apply (cursor_read_after_rewrite any_netloc _ (-4)
           (mkSplit (lit "https") (lit "example.com") (lit "/people") (lit "page=x") []));
    try reflexivity.
  apply N.leb_le. reflexivity.
Defined.

(** Three rewrites from which the target is not read back.  The target
    [10 ^ 4300], of 4301 digits, is not written: [str] raises [ValueError].
    A query with a lone surrogate is not written either: quoting it raises
    [UnicodeEncodeError].  And [////[x?page=3], which has no host and the
    path [//[x], is written back as [//[x?page=7], where [[x] stands in the
    place of the host: [urlsplit] refuses the lone bracket with
    [ValueError]. *)
Lemma cursor_read_after_rewrite_counterexample :
  let people := lit "https://example.com/people?page=3" in
  let slashes := lit "////[x?page=3" in
  with_page_number any_netloc people (10 ^ 4300) = Raise ValueError
  /\ with_page_number any_netloc (lit "https://example.com/people?q=" ++ [55296]) 7
     = Raise UnicodeEncodeError
  /\ urlsplit brackets_paired slashes = Ok (mkSplit [] [] (lit "//[x") (lit "page=3") [])
  /\ with_page_number brackets_paired slashes 7 = Ok (lit "//[x?page=7")
  /\ get_page_number_from_url brackets_paired (lit "//[x?page=7") = Raise ValueError.
Proof.
  cbv zeta. split; [|repeat match goal with |- _ /\ _ => split end; vm_compute; reflexivity].
  apply (with_page_number_beyond any_netloc _ _
           (mkSplit (lit "https") (lit "example.com") (lit "/people") (lit "page=3") []));
    [reflexivity|].
  apply (proj2 (beyond_limit _)).
  rewrite Z.abs_eq by (apply Z.pow_nonneg; discriminate). apply Z.le_refl.
Qed.



(** A numeral of 4301 digits is not one that [int] accepts: the driver's
    reader answers [None] and the helper starts again from 1.  A cursor of
    4300 nines is read by both, and the helper cannot write the next one. *)
Lemma cursor_at_the_digit_limit :
  let people := lit "https://example.com/people?page=" in
  PyInt.int_of_str (repeat 49 4301) = Raise ValueError
  /\ page_not_numeric (lit "page=" ++ repeat 49 4301)
  /\ get_page_number_from_url any_netloc (people ++ repeat 49 4301) = Ok None
  /\ increment_page_query any_netloc (people ++ repeat 49 4301)
     = Ok (lit "https://example.com/people?page=2", 2%Z)
  /\ get_page_number_from_url any_netloc (people ++ repeat 57 4300)
     = Ok (Some (10 ^ 4300 - 1)%Z)
  /\ increment_page_query any_netloc (people ++ repeat 57 4300) = Raise ValueError.
Proof.
  cbv zeta. split; [vm_compute; reflexivity|].
  split; [exists (repeat 49 4301), []; split; vm_compute; reflexivity|].
  split; [vm_compute; reflexivity|]. split; [vm_compute; reflexivity|].
  split; [vm_compute; reflexivity|].
  set (p := mkSplit (lit "https") (lit "example.com") (lit "/people")
                    (lit "page=" ++ repeat 57 4300) []).
  assert (Hs : urlsplit any_netloc (lit "https://example.com/people?page=" ++ repeat 57 4300)
               = Ok p) by (vm_compute; reflexivity).
  assert (Hc : current_page p = Ok (10 ^ 4300 - 1)%Z) by (vm_compute; reflexivity).
  assert (Hw : with_page_number any_netloc
                 (lit "https://example.com/people?page=" ++ repeat 57 4300)
                 (10 ^ 4300 - 1 + 1) = Raise ValueError).
  { apply (with_page_number_beyond any_netloc _ _ p Hs).
    apply (proj2 (beyond_limit _)). set (b := (10 ^ 4300)%Z).
    assert (0 <= b)%Z by (apply Z.pow_nonneg; discriminate). lia. }
  rewrite (increment_unfold any_netloc _ p Hs), Hc. cbn [rbind].
  rewrite Hw. reflexivity.
Qed.

End CursorFacts.

(** * The modal workflow, the click tally and the next-page control *)

Module DriverFacts.
Local Open Scope Z_scope.
Import PyStr Browser Run Driver Cursor.
Import UrlProps RunProps CursorFacts Scripted.

Section Facts.

Variable World : Type.
Variable page : Page World.
Variable ok : str -> bool.
Variable args : Args.


Lemma bind_throw {A B} (m : M World A) (k : A -> M World B) w e w1 t1 :
  m w = (Throw e, w1, t1) -> bind m k w = (Throw e, w1, t1).
Proof. intros H. unfold bind. rewrite H. reflexivity. Qed.

Lemma bind_silent {A B} (m : M World A) (k : A -> M World B) w a :
  m w = (Return a, w, []) -> bind m k w = k a w.
Proof.
  intros H. unfold bind. rewrite H. destruct (k a w) as [[r w2] t2]. reflexivity.
Qed.

Lemma cmd_ok {X} (c : Cmd X) w x w1 :
  perform page c w = (Ok x, w1) -> cmd page c w = (Return x, w1, [EvCmd c]).
Proof. intros H. unfold cmd. rewrite H. reflexivity. Qed.

Lemma cmd_raise {X} (c : Cmd X) w e w1 :
  perform page c w = (Raise e, w1) -> cmd page c w = (Throw e, w1, [EvCmd c]).
Proof. intros H. unfold cmd. rewrite H. reflexivity. Qed.

(** C6: with no dialog on the page the resolver answers [Clear] at once.
    When the count of elements with the dialog role is zero,
    [resolve_any_open_modal] returns [Clear]; the only thing it asks of the
    page is that count, so nothing is clicked and no attribute is written,
    and the page is left as the count query left it.  The function takes no
    driver state and returns none. *)
Theorem resolver_clear_without_dialog (fuel : nat) (label : str) (timeout : Z)
    (w w' : World) :
  perform page (Count (PageRole DIALOG None)) w = (Ok O, w') ->
  resolve_any_open_modal page fuel label timeout w
  = (Return Clear, w', [EvCmd (Count (PageRole DIALOG None))]).
Proof.
  intros H. unfold resolve_any_open_modal, is_dialog_open, bind, try_except, cmd.
  rewrite H. reflexivity.
Qed.




(** C8, as the code has it: on a URL without a [page] cursor and with no
    expected cursor given, [go_to_next_page] looks for the next-page
    control.  It reports success only if the URL afterwards differs from the
    URL before, and then it has counted the control, clicked it and waited
    for the load state, nothing else.  When the control is there and the
    click returns, it reports success exactly when the URL after the wait
    differs from the URL before.  When no control is found nothing is
    clicked, and when the click raises a Playwright error it reports
    failure, whatever the URL is by then. *)
Theorem next_page_fallback (timeout retries : Z) (w : World) :
  get_page_number_from_url ok (page_url page w) = Ok None ->
  (forall landed w' tr,
     go_to_next_page page ok timeout None 3 retries w = (Return (true, landed), w', tr) ->
     eqb (page_url page w') (page_url page w) = false
     /\ tr = [EvCmd (Count next_arrow); EvCmd (Click next_arrow 10000);
              EvCmd (WaitForLoadState timeout)])
  /\ (forall n w1 w2 r w3 landed,
        perform page (Count next_arrow) w = (Ok (S n), w1) ->
        perform page (Click next_arrow 10000) w1 = (Ok tt, w2) ->
        perform page (WaitForLoadState timeout) w2 = (r, w3) ->
        match r with Ok _ => True | Raise e => is_playwright_timeout e = true end ->
        get_page_number_from_url ok (page_url page w3) = Ok landed ->
        go_to_next_page page ok timeout None 3 retries w
        = (Return (negb (eqb (page_url page w3) (page_url page w)), landed), w3,
           [EvCmd (Count next_arrow); EvCmd (Click next_arrow 10000);
            EvCmd (WaitForLoadState timeout)]))
  /\ (forall w1 landed,
        perform page (Count next_arrow) w = (Ok O, w1) ->
        get_page_number_from_url ok (page_url page w1) = Ok landed ->
        go_to_next_page page ok timeout None 3 retries w
        = (Return (false, landed), w1, [EvCmd (Count next_arrow)]))
  /\ (forall n w1 e w2 landed,
        perform page (Count next_arrow) w = (Ok (S n), w1) ->
        perform page (Click next_arrow 10000) w1 = (Raise e, w2) ->
        is_playwright_error e = true ->
        get_page_number_from_url ok (page_url page w2) = Ok landed ->
        go_to_next_page page ok timeout None 3 retries w
        = (Return (false, landed), w2,
           [EvCmd (Count next_arrow); EvCmd (Click next_arrow 10000)])).
Proof.
  intros Hc.
  assert (U : go_to_next_page page ok timeout None 3 retries w
    = (n <- cmd page (Count next_arrow) ;;
       if (n =? 0)%nat then landed <- page_number page ok ;; ret (false, landed)
       else
         clicked <- try_except (cmd page (Click next_arrow 10000) ;;; ret true)
                               is_playwright_error (fun _ => ret false) ;;
         if negb clicked then landed <- page_number page ok ;; ret (false, landed)
         else
           try_except (cmd page (WaitForLoadState timeout))
                      is_playwright_timeout (fun _ => ret tt) ;;;
           new_url <- get_url page ;;
           let moved := negb (eqb new_url (page_url page w)) in
           landed <- lift (get_page_number_from_url ok new_url) ;;
           ret (moved, landed))%run w).
  { unfold go_to_next_page.
    rewrite (bind_silent _ _ w (page_url page w)) by reflexivity.
    rewrite (bind_silent _ _ w None) by (rewrite Hc; reflexivity).
    reflexivity. }
  split; [|split; [|split]].
  - intros landed w' tr. rewrite U. clear U.
    unfold bind, cmd, try_except, page_number, get_url, lift, ret, throw.
    destruct (perform page (Count next_arrow) w) as [[[|n]|e] w1]; cbn.
    + destruct (get_page_number_from_url ok (page_url page w1)); intros H; inversion H.
    + destruct (perform page (Click next_arrow 10000) w1) as [[[]|e] w2]; cbn.
      * destruct (perform page (WaitForLoadState timeout) w2) as [[[]|e] w3]; cbn.
        -- destruct (get_page_number_from_url ok (page_url page w3)); cbn; intros H; inversion H.
           subst. split; [apply negb_true_iff; assumption|reflexivity].
        -- destruct (is_playwright_timeout e); cbn; [|intros H; inversion H].
           destruct (get_page_number_from_url ok (page_url page w3)); cbn; intros H; inversion H.
           subst. split; [apply negb_true_iff; assumption|reflexivity].
      * destruct (is_playwright_error e); cbn; [|intros H; inversion H].
        destruct (get_page_number_from_url ok (page_url page w2)); intros H; inversion H.
    + intros H; inversion H.
  - intros n w1 w2 r w3 landed H1 H2 H3 Hr Hl. rewrite U.
    unfold bind, cmd, try_except, page_number, get_url, lift, ret, throw.
    rewrite H1. cbn. rewrite H2. cbn. rewrite H3.
    destruct r as [[]|e]; cbn; [|rewrite Hr; cbn]; rewrite Hl; reflexivity.
  - intros w1 landed H1 Hl. rewrite U.
    unfold bind, cmd, try_except, page_number, get_url, lift, ret, throw.
    rewrite H1. cbn. rewrite Hl. reflexivity.
  - intros n w1 e w2 landed H1 H2 He Hl. rewrite U.
    unfold bind, cmd, try_except, page_number, get_url, lift, ret, throw.
    rewrite H1. cbn. rewrite H2. cbn. rewrite He. cbn. rewrite Hl. reflexivity.
Qed.

End Facts.

(** A page whose dialog count is zero. *)
Lemma resolver_clear_without_dialog_witness :
  let w := mkWorld (lit "https://example.com/people") false 0 [ACount 0] in
  resolve_any_open_modal Scripted.page 5 (lit "Send Request") 8000 w
  = (Return Clear, mkWorld (lit "https://example.com/people") false 1000 [],
     [EvCmd (Count (PageRole DIALOG None))]).
Proof.
  intros w.
  apply (resolver_clear_without_dialog _ Scripted.page 5 (lit "Send Request") 8000 w).
  reflexivity.
Defined.

End DriverFacts.

(** * The main loop: rollback and the skip registry *)

Module LoopFacts.
Local Open Scope Z_scope.
Import PyStr Browser Run Driver Cursor.
Import UrlProps RunProps CursorFacts DriverFacts.

Section Facts.

Variable World : Type.
Variable page : Page World.
Variable ok : str -> bool.
Variable args : Args.





Lemma outer_body_registry fuel st ids w :
  let '(r1, w1, t1) := outer_body page ok args fuel (set_skipped_button_ids st ids) w in
  let '(r2, w2, t2) := outer_body page ok args fuel st w in
  w1 = w2 /\ t1 = t2
  /\ (r1 = r2 \/ exists s, r1 = Return (Break (set_skipped_button_ids s ids))
                            /\ r2 = Return (Break s)).
Proof.
  unfold outer_body.
  rewrite !(bind_silent _ _ _ w (page_is_closed page w)) by reflexivity.
  destruct (page_is_closed page w).
  - cbn. repeat split. right. exists st. split; reflexivity.
  - cbn [last_completed_page set_skipped_button_ids]. unfold bind at 1 3.
    destruct (check_rollback page ok args (last_completed_page st) w)
      as [[[[[|] cur]|e|] w1] t1].
    + cbn. repeat split. right. exists (set_current_page_num st cur).
      split; reflexivity.
    + change (process_page page args fuel
                (set_current_page_num (set_skipped_button_ids st ids) cur))
        with (process_page page args fuel (set_current_page_num st cur)).
      destruct (bind (process_page page args fuel (set_current_page_num st cur)) _ w1)
        as [[r2 w2] t2]. repeat split. left. reflexivity.
    + repeat split. left. reflexivity.
    + repeat split. left. reflexivity.
Qed.

(** C3: the skip registry is per page.  [process_page] empties the
    registry before it looks at any control, so its result, the page it
    leaves and its trace do not depend on the identifiers the registry held
    on entry; and two runs of the main loop that differ only in the
    registry they start from end in the same outcome up to the registry,
    leave the same page and show the same trace.  An identifier skipped on
    one page therefore never keeps a control of a later page from being
    clicked. *)
Theorem skip_registry_is_per_page (fuel : nat) (st : State) (ids : list str)
    (w : World) :
  process_page page args fuel (set_skipped_button_ids st ids) w
  = process_page page args fuel st w
  /\ (let '(r1, w1, t1) := outer_loop page ok args fuel (set_skipped_button_ids st ids) w in
      let '(r2, w2, t2) := outer_loop page ok args fuel st w in
      same_but_registry r1 r2 /\ w1 = w2 /\ t1 = t2).
Proof.
  split; [reflexivity|].
  destruct fuel as [|fuel]; [cbn; repeat split|].
  cbn [outer_loop]. pose proof (outer_body_registry fuel st ids w) as L.
  unfold bind.
  destruct (outer_body page ok args fuel (set_skipped_button_ids st ids) w)
    as [[r1 w1] t1].
  destruct (outer_body page ok args fuel st w) as [[r2 w2] t2].
  destruct L as (-> & -> & [->|(s & -> & ->)]).
  - destruct r2 as [[s|s]|e|]; cbn [ret];
      try (destruct (outer_loop page ok args fuel s w2) as [[r3 w3] t3]);
      repeat split.
  - cbn [ret]. repeat split.
Qed.

End Facts.

End LoopFacts.

(** * The click limit *)

Module MaxClicks.
Local Open Scope Z_scope.
Import PyStr Browser Run Driver Cursor.
Import UrlProps RunProps CursorFacts DriverFacts LoopFacts.

Section Quiet.

Variable World : Type.
Variable page : Page World.
Variable ok : str -> bool.
Variable args : Args.

Lemma Quiet_ret {A} (a : A) : Quiet (@ret World A a).
Proof. intros w r w' tr H. inversion H. constructor. Qed.

Lemma Quiet_throw {A} e : Quiet (@throw World A e).
Proof. intros w r w' tr H. inversion H. constructor. Qed.

Lemma Quiet_out_of_fuel {A} : Quiet (@out_of_fuel World A).
Proof. intros w r w' tr H. inversion H. constructor. Qed.

Lemma Quiet_bind {A B} (m : M World A) (k : A -> M World B) :
  Quiet m -> (forall a, Quiet (k a)) -> Quiet (bind m k).
Proof.
  intros Hm Hk w r w' tr. unfold bind.
  destruct (m w) as [[[a|e|] w1] t1] eqn:E; pose proof (Hm _ _ _ _ E) as Q1.
  - destruct (k a w1) as [[r2 w2] t2] eqn:E2. pose proof (Hk _ _ _ _ _ E2) as Q2.
    intros H. inversion H. subst. apply Forall_app; auto.
  - intros H. inversion H. subst. exact Q1.
  - intros H. inversion H. subst. exact Q1.
Qed.

Lemma Quiet_try {A} (m : M World A) handles (h : exn -> M World A) :
  Quiet m -> (forall e, Quiet (h e)) -> Quiet (try_except m handles h).
Proof.
  intros Hm Hh w r w' tr. unfold try_except.
  destruct (m w) as [[[a|e|] w1] t1] eqn:E; pose proof (Hm _ _ _ _ E) as Q1.
  - intros H. inversion H. subst. exact Q1.
  - destruct (handles e).
    + destruct (h e w1) as [[r2 w2] t2] eqn:E2. pose proof (Hh _ _ _ _ _ E2) as Q2.
      intros H. inversion H. subst. apply Forall_app; auto.
    + intros H. inversion H. subst. exact Q1.
  - intros H. inversion H. subst. exact Q1.
Qed.

Lemma Quiet_cmd {X} (c : Cmd X) : Quiet (cmd page c).
Proof.
  intros w r w' tr. unfold cmd. destruct (perform page c w) as [[x|e] w1];
    intros H; inversion H; repeat constructor.
Qed.

Lemma Quiet_print m : not_clicked (EvPrint m) -> Quiet (@print World m).
Proof. intros Hm w r w' tr H. inversion H. repeat constructor. exact Hm. Qed.

Lemma Quiet_get_url : Quiet (get_url page).
Proof. intros w r w' tr H. inversion H. constructor. Qed.

Lemma Quiet_is_closed : Quiet (is_closed page).
Proof. intros w r w' tr H. inversion H. constructor. Qed.

Lemma Quiet_time_time : Quiet (time_time page).
Proof. intros w r w' tr H. inversion H. constructor. Qed.

Lemma Quiet_time_sleep ms : Quiet (time_sleep page ms).
Proof. intros w r w' tr H. inversion H. repeat constructor. Qed.

Lemma Quiet_lift {A} (r : result A) : Quiet (@lift World A r).
Proof. destruct r; [apply Quiet_ret|apply Quiet_throw]. Qed.

End Quiet.

Create HintDb quiet.

#[export] Hint Resolve Quiet_ret Quiet_throw Quiet_out_of_fuel Quiet_cmd Quiet_get_url
  Quiet_is_closed Quiet_time_time Quiet_time_sleep Quiet_lift : quiet.

Ltac quiet_step :=
  first
    [ assumption
    | apply Quiet_bind; [|intros ?]
    | apply Quiet_try; [|intros ?]
    | apply Quiet_print; exact I
    | apply Quiet_print;
      match goal with
      | |- not_clicked (EvPrint (match ?x with _ => _ end)) => destruct x; exact I
      end
    | solve [auto with quiet]
    | progress cbv zeta
    | match goal with
      | |- Quiet (match ?x with _ => _ end) => destruct x
      end ].

Ltac quiet := repeat quiet_step.

Section Driver.

Variable World : Type.
Variable page : Page World.
Variable ok : str -> bool.
Variable args : Args.

Lemma Quiet_get_or_assign_button_id b n : Quiet (get_or_assign_button_id page b n).
Proof. unfold get_or_assign_button_id. quiet. Qed.

Lemma Quiet_scan_error_patterns d ps : Quiet (scan_error_patterns page d ps).
Proof. induction ps as [|p ps IH]; cbn [scan_error_patterns]; quiet. Qed.

Lemma Quiet_has_modal_error : Quiet (has_modal_error page).
Proof. unfold has_modal_error. quiet; apply Quiet_scan_error_patterns. Qed.

Lemma Quiet_is_dialog_open : Quiet (is_dialog_open page).
Proof. unfold is_dialog_open. quiet. Qed.

Lemma Quiet_close_modal_if_open : Quiet (close_modal_if_open page).
Proof. unfold close_modal_if_open. quiet. Qed.

Hint Resolve Quiet_get_or_assign_button_id Quiet_scan_error_patterns Quiet_has_modal_error
  Quiet_is_dialog_open Quiet_close_modal_if_open : quiet.

Lemma Quiet_poll_invite_modal fuel d : Quiet (poll_invite_modal page fuel d).
Proof. induction fuel as [|fuel IH]; cbn [poll_invite_modal]; quiet. Qed.

Hint Resolve Quiet_poll_invite_modal : quiet.

Lemma Quiet_process_invite_modal fuel l t : Quiet (process_invite_modal page fuel l t).
Proof. unfold process_invite_modal. quiet. Qed.

Hint Resolve Quiet_process_invite_modal : quiet.

Lemma Quiet_resolve_any_open_modal fuel l t : Quiet (resolve_any_open_modal page fuel l t).
Proof. unfold resolve_any_open_modal. quiet. Qed.

Lemma Quiet_poll_connect_change fuel l c d : Quiet (poll_connect_change page fuel l c d).
Proof. induction fuel as [|fuel IH]; cbn [poll_connect_change]; quiet. Qed.

Hint Resolve Quiet_poll_connect_change : quiet.

Lemma Quiet_wait_for_connect_change fuel l c t :
  Quiet (wait_for_connect_change page fuel l c t).
Proof. unfold wait_for_connect_change. quiet. Qed.

Lemma Quiet_probe_connect_buttons fuel l d : forall m,
  Quiet (probe_connect_buttons page fuel l d m).
Proof. induction fuel as [|fuel IH]; intros m; cbn [probe_connect_buttons]; quiet. Qed.

Hint Resolve Quiet_probe_connect_buttons : quiet.

Lemma Quiet_discover_connect_buttons fuel l t :
  Quiet (discover_connect_buttons page fuel l t).
Proof. unfold discover_connect_buttons. quiet. Qed.

Lemma Quiet_goto_attempts n : forall a u t r, Quiet (goto_attempts page n a u t r).
Proof. induction n as [|n IH]; intros a u t r; cbn [goto_attempts]; quiet. Qed.

Hint Resolve Quiet_goto_attempts : quiet.

Lemma Quiet_goto_with_retries u t r : Quiet (goto_with_retries page u t r).
Proof. unfold goto_with_retries. quiet. Qed.

Lemma Quiet_page_number : Quiet (page_number page ok).
Proof. unfold page_number. quiet. Qed.

Hint Resolve Quiet_goto_with_retries Quiet_page_number : quiet.

Lemma Quiet_next_page_attempts n : forall o e t r l,
  Quiet (next_page_attempts page ok n o e t r l).
Proof. induction n as [|n IH]; intros o e t r l; cbn [next_page_attempts]; quiet. Qed.

Hint Resolve Quiet_next_page_attempts : quiet.

Lemma Quiet_go_to_next_page t e n r : Quiet (go_to_next_page page ok t e n r).
Proof. unfold go_to_next_page. quiet. Qed.

Lemma Quiet_delay : Quiet (delay page args).
Proof. unfold delay. quiet. Qed.

Lemma Quiet_select_button n : forall i b s ids, Quiet (select_button page n i b s ids).
Proof. induction n as [|n IH]; intros i b s ids; cbn [select_button]; quiet. Qed.

Hint Resolve Quiet_resolve_any_open_modal Quiet_wait_for_connect_change
  Quiet_discover_connect_buttons Quiet_go_to_next_page Quiet_delay Quiet_select_button
  : quiet.

Lemma Quiet_click_raised st id e : Quiet (click_raised page args st id e).
Proof. unfold click_raised. quiet. Qed.

Lemma Quiet_check_rollback last : Quiet (check_rollback page ok args last).
Proof. unfold check_rollback. quiet. Qed.

Lemma Quiet_advance st : Quiet (advance page ok args st).
Proof. unfold advance. quiet. Qed.

Hint Resolve Quiet_click_raised Quiet_check_rollback Quiet_advance : quiet.

(** *** The invariant of a run under a click limit *)

Local Notation "'limit'" := (max_clicks args) (only parsing).

Hypothesis limit_positive : 0 < max_clicks args.

Local Notation "'SatStep'" := (Sat World limit state_of breaks) (only parsing).

Local Notation "'SatState'" := (Sat World limit (fun st : State => st) (fun _ => True)) (only parsing).

Lemma quiet_below tr : Forall not_clicked tr -> Forall (below limit) tr.
Proof.
  apply Forall_impl. intros [X c|ms|m]; cbn; auto. destruct m; cbn; tauto.
Qed.

Lemma Inv_prefix {A} (state : A -> State) final t1 r t2 :
  Forall (below limit) t1 -> Inv limit state final r t2 -> Inv limit state final r (t1 ++ t2).
Proof.
  intros H1 [[H2 H3]|(tr0 & pc & cnt & a & -> & H2 & H3)].
  - left. split; [apply Forall_app; auto|exact H3].
  - right. exists (t1 ++ tr0), pc, cnt, a. rewrite app_assoc.
    split; [reflexivity|]. split; [apply Forall_app; auto|exact H3].
Qed.

Lemma Inv_failed {A} (state : A -> State) final (r : outcome A) tr :
  Forall (below limit) tr -> (forall a, r <> Return a) -> Inv limit state final r tr.
Proof. intros H Hr. left. split; [exact H|]. intros a E. destruct (Hr a E). Qed.

Lemma Sat_bind_quiet {A B} (state : B -> State) final (m : M World A) (k : A -> M World B) :
  Quiet m -> (forall a, Sat World limit state final (k a)) -> Sat World limit state final (bind m k).
Proof.
  intros Hm Hk w r w' tr. unfold bind.
  destruct (m w) as [[[a|e|] w1] t1] eqn:E; pose proof (quiet_below _ (Hm _ _ _ _ E)) as Q1.
  - destruct (k a w1) as [[r2 w2] t2] eqn:E2. pose proof (Hk _ _ _ _ _ E2) as Q2.
    intros H. inversion H. subst. apply Inv_prefix; assumption.
  - intros H. inversion H. subst. apply Inv_failed; [exact Q1|discriminate].
  - intros H. inversion H. subst. apply Inv_failed; [exact Q1|discriminate].
Qed.

Lemma Sat_ret {A} (state : A -> State) final (a : A) :
  total_clicked (state a) < limit -> Sat World limit state final (ret a).
Proof.
  intros H w r w' tr E. inversion E. subst. left. split; [constructor|].
  intros a' E'. inversion E'. subst. exact H.
Qed.

Ltac sat_step :=
  first
    [ apply Sat_ret; cbn; assumption
    | apply Sat_bind_quiet; [quiet|intros ?]
    | progress cbv zeta
    | match goal with
      | |- Sat _ _ _ _ (match ?x with _ => _ end) => destruct x
      end ].

Ltac sat := repeat sat_step.

Lemma Sat_click_raised st id e :
  total_clicked st < limit -> SatStep (click_raised page args st id e).
Proof. intros H. unfold click_raised. sat. Qed.

Lemma Sat_advance st :
  total_clicked st < limit -> SatStep (advance page ok args st).
Proof.
  intros H. unfold advance. destruct (stop st); [sat|].
  destruct (current_page_num st); cbv zeta; sat.
Qed.

Lemma Sat_count_and_report st count :
  total_clicked st < limit ->
  SatStep
    (let st := count_click st in
     print (MsgClicked (total_clicked st) (page_clicks st) count) ;;;
     if negb (max_clicks args =? 0) && (max_clicks args <=? total_clicked st) then
       print (MsgReachedMaxClicks (max_clicks args)) ;;;
       ret (Break (set_stop st))
     else
       delay page args ;;;
       ret (Continue st))%run.
Proof.
  intros H w r w' tr. cbv zeta.
  replace (negb (limit =? 0)) with true
    by (symmetry; apply negb_true_iff; apply Z.eqb_neq; lia).
  cbn [andb total_clicked count_click page_clicks].
  destruct (Z.leb_spec limit (total_clicked st + 1)) as [L|L].
  - cbn [bind print ret app]. intros E. inversion E. subst.
    right. exists [], (page_clicks st + 1), count, (Break (set_stop (count_click st))).
    assert (total_clicked st + 1 = limit) as -> by lia.
    cbn. repeat split; try reflexivity; try constructor. lia.
  - unfold bind at 1. cbn [print].
    destruct (bind (delay page args) _ w) as [[r2 w2] t2] eqn:E2.
    intros E. inversion E. subst.
    assert (Q : Quiet (delay page args ;;; ret (Continue (count_click st)))%run) by quiet.
    pose proof (quiet_below _ (Q _ _ _ _ E2)) as B2.
    left. split; [constructor; [exact L|exact B2]|].
    intros a Ea. subst r.
    revert E2. unfold delay, bind, time_sleep, ret.
    destruct (0 <? delay_ms args); intros E2; inversion E2; cbn; lia.
Qed.

Lemma Sat_record_modal_status fuel st id count status :
  total_clicked st < limit ->
  SatStep (record_modal_status page args fuel st id count status).
Proof.
  intros H. unfold record_modal_status.
  destruct (failure_status status).
  - sat.
  - apply Sat_bind_quiet; [quiet|intros _].
    apply Sat_bind_quiet; [quiet|intros _].
    apply (Sat_count_and_report st count H).
Qed.

Lemma Sat_inner_body fuel st :
  total_clicked st < limit -> SatStep (inner_body page args fuel st).
Proof.
  intros H. unfold inner_body.
  apply Sat_bind_quiet; [quiet|intros status].
  destruct status; try (sat; fail).
  apply Sat_bind_quiet; [quiet|intros count].
  apply Sat_bind_quiet; [quiet|intros found].
  destruct found as [count'|]; [|sat].
  apply Sat_bind_quiet; [quiet|intros [selected seq]]. cbv zeta.
  destruct selected as [[selected selected_id]|]; [|sat].
  apply Sat_bind_quiet; [quiet|intros _].
  apply Sat_bind_quiet; [quiet|intros clicked].
  destruct clicked as [e|].
  - apply Sat_click_raised. exact H.
  - apply Sat_bind_quiet; [quiet|intros modal_status].
    apply Sat_record_modal_status. exact H.
Qed.

Lemma Sat_inner_loop fuel : forall st,
  total_clicked st < limit -> SatState (inner_loop page args fuel st).
Proof.
  induction fuel as [|fuel IH]; intros st H w r w' tr; cbn [inner_loop].
  - intros E. inversion E. left. split; [constructor|discriminate].
  - unfold bind.
    destruct (inner_body page args fuel st w) as [[r1 w1] t1] eqn:E1.
    destruct (Sat_inner_body fuel st H _ _ _ _ E1)
      as [[B1 S1]|(tr0 & pc & cnt & a & -> & B0 & -> & Fa & St & Tc)].
    + destruct r1 as [[st'|st']|e|].
      * destruct (inner_loop page args fuel st' w1) as [[r2 w2] t2] eqn:E2.
        intros E. inversion E. subst. apply Inv_prefix; [exact B1|].
        apply (IH st' (S1 _ eq_refl) _ _ _ _ E2).
      * cbn [ret]. intros E. inversion E. subst. rewrite app_nil_r.
        left. split; [exact B1|]. intros a Ea. inversion Ea. subst.
        apply (S1 _ eq_refl).
      * intros E. inversion E. subst. apply Inv_failed; [exact B1|discriminate].
      * intros E. inversion E. subst. apply Inv_failed; [exact B1|discriminate].
    + destruct a as [st'|st']; [discriminate Fa|].
      cbn [ret]. intros E. inversion E. subst. rewrite app_nil_r.
      right. exists tr0, pc, cnt, st'. repeat split; assumption.
Qed.

Lemma Sat_process_page fuel st :
  total_clicked st < limit -> SatState (process_page page args fuel st).
Proof.
  intros H. unfold process_page. cbv zeta.
  apply Sat_bind_quiet; [quiet|intros url].
  apply Sat_bind_quiet; [quiet|intros _].
  apply Sat_inner_loop. exact H.
Qed.

Lemma advance_stopped st w :
  stop st = true -> advance page ok args st w = (Return (Break st), w, []).
Proof. intros H. unfold advance. rewrite H. reflexivity. Qed.

Lemma Sat_outer_body fuel st :
  total_clicked st < limit -> SatStep (outer_body page ok args fuel st).
Proof.
  intros H. unfold outer_body.
  apply Sat_bind_quiet; [quiet|intros closed].
  destruct closed; [sat|].
  apply Sat_bind_quiet; [quiet|intros [break cur]]. cbv zeta.
  destruct break; [sat|].
  intros w r w' tr. unfold bind.
  destruct (process_page page args fuel (set_current_page_num st cur) w)
    as [[r1 w1] t1] eqn:E1.
  destruct (Sat_process_page fuel (set_current_page_num st cur) H _ _ _ _ E1)
    as [[B1 S1]|(tr0 & pc & cnt & a & -> & B0 & -> & Fa & St & Tc)].
  - destruct r1 as [st'|e|].
    + destruct (advance page ok args st' w1) as [[r2 w2] t2] eqn:E2.
      intros E. inversion E. subst. apply Inv_prefix; [exact B1|].
      apply (Sat_advance st' (S1 _ eq_refl) _ _ _ _ E2).
    + intros E. inversion E. subst. apply Inv_failed; [exact B1|discriminate].
    + intros E. inversion E. subst. apply Inv_failed; [exact B1|discriminate].
  - rewrite (advance_stopped a w1 St). intros E. inversion E. subst.
    rewrite app_nil_r. right. exists tr0, pc, cnt, (Break a).
    repeat split; assumption.
Qed.

Lemma Sat_outer_loop fuel : forall st,
  total_clicked st < limit -> SatState (outer_loop page ok args fuel st).
Proof.
  induction fuel as [|fuel IH]; intros st H w r w' tr; cbn [outer_loop].
  - intros E. inversion E. left. split; [constructor|discriminate].
  - unfold bind.
    destruct (outer_body page ok args fuel st w) as [[r1 w1] t1] eqn:E1.
    destruct (Sat_outer_body fuel st H _ _ _ _ E1)
      as [[B1 S1]|(tr0 & pc & cnt & a & -> & B0 & -> & Fa & St & Tc)].
    + destruct r1 as [[st'|st']|e|].
      * destruct (outer_loop page ok args fuel st' w1) as [[r2 w2] t2] eqn:E2.
        intros E. inversion E. subst. apply Inv_prefix; [exact B1|].
        apply (IH st' (S1 _ eq_refl) _ _ _ _ E2).
      * cbn [ret]. intros E. inversion E. subst. rewrite app_nil_r.
        left. split; [exact B1|]. intros a Ea. inversion Ea. subst.
        apply (S1 _ eq_refl).
      * intros E. inversion E. subst. apply Inv_failed; [exact B1|discriminate].
      * intros E. inversion E. subst. apply Inv_failed; [exact B1|discriminate].
    + destruct a as [st'|st']; [discriminate Fa|].
      cbn [ret]. intros E. inversion E. subst. rewrite app_nil_r.
      right. exists tr0, pc, cnt, st'. repeat split; assumption.
Qed.

Lemma split_at_report tr0 : forall pre x y rest post,
  Forall (below limit) tr0 -> Forall (below limit) rest -> ~ below limit x ->
  tr0 ++ y :: rest = pre ++ x :: post ->
  pre = tr0 /\ x = y /\ post = rest.
Proof.
  induction tr0 as [|a tr0 IH]; intros pre x y rest post B0 Br Hx E.
  - destruct pre as [|p pre]; cbn [app] in E; inversion E; subst; [auto|].
    exfalso. apply Hx. rewrite Forall_forall in Br. apply Br.
    apply in_or_app. right. left. reflexivity.
  - inversion B0 as [|? ? Ba B0']; subst.
    destruct pre as [|p pre]; cbn [app] in E; inversion E; subst; [contradiction|].
    destruct (IH pre x y rest post B0' Br Hx H1) as (-> & -> & ->). auto.
Qed.

(** C7: the run stops right after the click that reaches the limit.  Let
    [max_clicks] be positive.  In the trace of any run of [main], a report
    of a counted click whose total is at least the limit shows exactly the
    limit, and all that follows it is the line that says the limit was
    reached and the closing summary: no further button is looked for or
    clicked and no navigation to a next page is made.  The run returns with
    [stop] set and [total_clicked] equal to the limit. *)
Theorem max_clicks_stops_run (fuel : nat) (w w' : World) (r : outcome State)
    (tr pre post : list Event) (k pc : Z) (cnt : nat) :
  main page ok args fuel w = (r, w', tr) ->
  tr = pre ++ EvPrint (MsgClicked k pc cnt) :: post ->
  limit <= k ->
  k = limit
  /\ exists st, r = Return st /\ stop st = true /\ total_clicked st = limit
     /\ post = [EvPrint (MsgReachedMaxClicks limit);
                EvPrint (MsgDone (total_clicked st) (pages_processed st)
                                 (total_skipped st))].
Proof.
  intros Hm Ht Hk. unfold main, bind in Hm.
  destruct (outer_loop page ok args fuel initial_state w) as [[r1 w1] t1] eqn:E1.
  assert (H0 : total_clicked initial_state < limit) by (cbn; lia).
  assert (Hx : ~ below limit (EvPrint (MsgClicked k pc cnt))) by (cbn; lia).
  destruct (Sat_outer_loop fuel initial_state H0 _ _ _ _ E1)
    as [[B1 S1]|(tr0 & pc' & cnt' & st & -> & B0 & -> & _ & St & Tc)].
  - exfalso. apply Hx.
    assert (B : Forall (below limit) tr).
    { destruct r1 as [st|e|]; cbn [print ret] in Hm; inversion Hm; subst;
        rewrite ?app_nil_r; try assumption.
      apply Forall_app; split; [exact B1|repeat constructor]. }
    rewrite Forall_forall in B. apply B. rewrite Ht.
    apply in_or_app. right. left. reflexivity.
  - cbn [print ret] in Hm. inversion Hm as [[Hr Hw Htr]]. clear Hm.
    rewrite Ht in Htr. rewrite <- !app_assoc in Htr. cbn [app] in Htr.
    assert (Br : Forall (below limit)
                   [EvPrint (MsgReachedMaxClicks limit);
                    EvPrint (MsgDone (total_clicked st) (pages_processed st)
                                     (total_skipped st))])
      by (repeat constructor).
    destruct (split_at_report tr0 pre _ _ _ post B0 Br Hx Htr) as (_ & Ex & ->).
    inversion Ex. split; [reflexivity|].
    exists st. repeat split; assumption.
Qed.

End Driver.

End MaxClicks.

(** * Runs on the scripted page *)

Module Examples.
Local Open Scope Z_scope.
Import PyStr Browser Run Driver Cursor.
Import UrlProps RunProps CursorFacts DriverFacts LoopFacts MaxClicks Scripted Scenario.




(** The arrow is clicked and the page lands on another URL. *)
Lemma next_page_fallback_witness :
  go_to_next_page Scripted.page any_netloc 15000 None 3 3 arrow_world
  = (Return (true, None), mkWorld plain2 false 3000 [],
     [EvCmd (Count next_arrow); EvCmd (Click next_arrow 10000);
      EvCmd (WaitForLoadState 15000)]).
Proof.
  apply (proj1 (proj2 (next_page_fallback World Scripted.page any_netloc 15000 3 arrow_world
                         eq_refl))
           0%nat (mkWorld plain false 1000 [ANavigate plain2; ADone])
           (mkWorld plain2 false 2000 [ADone]) (Ok tt)
           (mkWorld plain2 false 3000 []) None);
    solve [reflexivity | exact I].
Defined.

(** The click on the arrow starts the navigation and then times out: the
    URL has changed, and the navigator reports failure. *)
Lemma next_page_fallback_counterexample :
  get_page_number_from_url any_netloc (url slow_arrow_world) = Ok None
  /\ exists w tr,
       go_to_next_page Scripted.page any_netloc 15000 None 3 3 slow_arrow_world
       = (Return (false, None), w, tr)
       /\ In (EvCmd (Click next_arrow 10000)) tr
       /\ eqb (url w) (url slow_arrow_world) = false.
Proof.
  split; [vm_compute; reflexivity|].
  do 2 eexists. split; [vm_compute; reflexivity|].
  split; [right; left; reflexivity|vm_compute; reflexivity].
Qed.


(** A run with a limit of one click on a page with one button. *)
Lemma max_clicks_stops_run_witness :
  let run := main Scripted.page any_netloc (defaults 1) 6 one_click_world in
  1 = max_clicks (defaults 1)
  /\ exists st,
       fst (fst run) = Return st /\ stop st = true
       /\ total_clicked st = max_clicks (defaults 1)
       /\ skipn 9 (snd run)
          = [EvPrint (MsgReachedMaxClicks (max_clicks (defaults 1)));
             EvPrint (MsgDone (total_clicked st) (pages_processed st) (total_skipped st))].
Proof.
  intros run.
  apply (max_clicks_stops_run World Scripted.page any_netloc (defaults 1) eq_refl
           6%nat one_click_world (snd (fst run)) (fst (fst run)) (snd run)
           (firstn 8 (snd run)) (skipn 9 (snd run)) 1 1 1%nat).
  - vm_compute. reflexivity.
  - vm_compute. reflexivity.
  - cbn. lia.
Defined.
End Examples.

(** * The page cursor: what a rewrite keeps *)

Module CursorMore.
Local Open Scope N_scope.
Import PyStr UrlParse Cursor Utf8Facts QuoteFacts QueryFacts DictFacts ParseQsFacts IntFacts SplitFacts RoundTrip CursorFacts.
Import UrlProps MoreProps.

Lemma dict_set_absent k v d : ~ In k (keys d) -> dict_set k v d = d ++ [(k, v)].
Proof.
  induction d as [|[k' v'] d IH]; cbn [dict_set keys map fst In app]; [reflexivity|].
  intros H. destruct (eqb k' k) eqn:E.
  - apply eqb_eq in E. tauto.
  - rewrite IH by tauto. reflexivity.
Qed.

Lemma dict_get_app_last k v d : ~ In k (keys d) -> dict_get k (d ++ [(k, v)]) = Some v.
Proof.
  induction d as [|[k' v'] d IH]; cbn [dict_get keys map fst In app]; intros H.
  - rewrite eqb_refl. reflexivity.
  - destruct (eqb k' k) eqn:E; [apply eqb_eq in E; tauto|]. apply IH. tauto.
Qed.

Lemma dict_set_app_last k v v' d :
  ~ In k (keys d) -> dict_set k v' (d ++ [(k, v)]) = d ++ [(k, v')].
Proof.
  induction d as [|[k1 v1] d IH]; cbn [dict_set keys map fst In app]; intros H.
  - rewrite eqb_refl. reflexivity.
  - destruct (eqb k1 k) eqn:E; [apply eqb_eq in E; tauto|]. rewrite IH by tauto. reflexivity.
Qed.

Lemma fold_add_values k vs : forall d v,
  ~ In k (keys d) ->
  fold_left dict_add (map (pair k) vs) (d ++ [(k, v)]) = d ++ [(k, v ++ vs)].
Proof.
  induction vs as [|x vs IH]; intros d v H; cbn [map fold_left].
  - rewrite app_nil_r. reflexivity.
  - replace (dict_add (d ++ [(k, v)]) (k, x)) with (d ++ [(k, v ++ [x])])%list.
    2:{ unfold dict_add. cbn [fst snd]. rewrite dict_get_app_last by exact H.
        rewrite dict_set_app_last by exact H. reflexivity. }
    rewrite IH by exact H.
    rewrite <- app_assoc. reflexivity.
Qed.

Lemma dict_add_absent k v d : ~ In k (keys d) -> dict_add d (k, v) = d ++ [(k, [v])].
Proof.
  intros H. unfold dict_add. cbn [fst snd].
  replace (dict_get k d) with (@None (list str)) by (symmetry; apply dict_get_none; exact H).
  apply dict_set_absent. exact H.
Qed.

Lemma keys_app (a b : dict) : keys (a ++ b) = (keys a ++ keys b)%list.
Proof. unfold keys. apply map_app. Qed.

(** [parse_qs] reads back the dictionary [urlencode] wrote. *)
Lemma fold_add_flatten d : forall acc,
  NoDup (keys acc ++ keys d) -> Forall (fun kv => snd kv <> []) d ->
  fold_left dict_add (flatten d) acc = (acc ++ d)%list.
Proof.
  induction d as [|[k vs] d IH]; intros acc N F.
  - cbn. rewrite app_nil_r. reflexivity.
  - inversion F as [|? ? Hv F']. subst. cbn [snd] in Hv.
    destruct vs as [|v vs]; [congruence|].
    assert (Hk : ~ In k (keys acc)).
    { intros I. cbn [keys map fst] in N. apply NoDup_remove_2 in N. apply N.
      apply in_or_app. left. exact I. }
    unfold flatten. cbn [flat_map fst snd map app fold_left]. rewrite fold_left_app.
    rewrite dict_add_absent by exact Hk.
    rewrite fold_add_values by exact Hk. cbn [app].
    change (flat_map (fun kv => map (pair (fst kv)) (snd kv)) d) with (flatten d).
    rewrite IH; [rewrite <- app_assoc; reflexivity| |exact F'].
    rewrite keys_app. cbn [keys map fst]. rewrite <- app_assoc. exact N.
Qed.

Lemma parse_qs_urlencode d q : dict_wf d -> urlencode d = Ok q -> parse_qs q = d.
Proof.
  intros [N F] E. unfold parse_qs. rewrite (parse_qsl_urlencode d q E).
  apply (fold_add_flatten d []); assumption.
Qed.

Lemma dict_get_in k vs d : NoDup (keys d) -> In (k, vs) d -> dict_get k d = Some vs.
Proof.
  induction d as [|[k' v'] d IH]; cbn [dict_get keys map fst In]; [tauto|].
  intros N [E|I].
  - injection E as -> ->. rewrite eqb_refl. reflexivity.
  - inversion N as [|? ? Hn N']. subst. destruct (eqb k' k) eqn:E.
    + apply eqb_eq in E. subst k'. exfalso. apply Hn.
      change k with (fst (k, vs)). apply in_map. exact I.
    + apply IH; assumption.
Qed.

Lemma parse_qs_wf q : dict_wf (parse_qs q).
Proof.
  split; [apply keys_nodup_parse_qs|].
  apply Forall_forall. intros [k vs] I. cbn [snd].
  apply (parse_qs_values k q). apply dict_get_in; [apply keys_nodup_parse_qs|exact I].
Qed.

Lemma dict_set_values k v d :
  v <> [] -> Forall (fun kv : str * list str => snd kv <> []) d ->
  Forall (fun kv : str * list str => snd kv <> []) (dict_set k v d).
Proof.
  intros Hv. induction 1 as [|[k' v'] d H F IH]; cbn [dict_set].
  - repeat constructor. exact Hv.
  - destruct (eqb k' k); constructor; assumption.
Qed.

Lemma dict_set_wf k v d : v <> [] -> dict_wf d -> dict_wf (dict_set k v d).
Proof.
  intros Hv [N F]. split; [apply keys_nodup_set; exact N|apply dict_set_values; assumption].
Qed.

Lemma dict_set_set k v v' d : dict_set k v' (dict_set k v d) = dict_set k v' d.
Proof.
  induction d as [|[k1 v1] d IH]; cbn [dict_set].
  - rewrite eqb_refl. reflexivity.
  - destruct (eqb k1 k) eqn:E; cbn [dict_set]; rewrite E; [reflexivity|].
    rewrite IH. reflexivity.
Qed.

Section Facts.
Variable ok : str -> bool.

(** What [with_page_number] computes on a URL in authority form. *)
Lemma with_page_number_spec u n p :
  urlsplit ok u = Ok p ->
  no_lone_surrogate (query p) = true ->
  authority_form p = true ->
  PyInt.num_digits n <= PyInt.MAX_STR_DIGITS ->
  exists q',
    urlencode (dict_set PAGE [PyInt.decimal n] (parse_qs (query p))) = Ok q'
    /\ with_page_number ok u n = Ok (urlunsplit (with_query p q'))
    /\ urlsplit ok (urlunsplit (with_query p q')) = Ok (with_query p q')
    /\ parse_qs q' = dict_set PAGE [PyInt.decimal n] (parse_qs (query p)).
Proof.
  intros Hs Hq Ha Hn.
  destruct (rewritten_query ok (query p) n (no_lone_surrogate_sc _ Hq))
    as (q' & E & Nm & Ne & Nh & Nw).
  exists q'. split; [exact E|]. split; [|split].
  - rewrite (with_page_number_within ok u n p Hs Hn), E. reflexivity.
  - apply urlsplit_unsplit; try assumption.
    apply wf_with_query. eapply urlsplit_wf; eassumption.
  - apply parse_qs_urlencode; [|exact E].
    apply dict_set_wf; [discriminate|apply parse_qs_wf].
Qed.

(** A target that [with_page_number] wrote is within the limit of [str]. *)
Lemma with_page_number_written u n out :
  with_page_number ok u n = Ok out -> PyInt.num_digits n <= PyInt.MAX_STR_DIGITS.
Proof.
  unfold with_page_number. destruct (urlsplit ok u) as [p|]; [|discriminate].
  cbn [rbind]. destruct (PyInt.str_of_int n) as [text|] eqn:T; [|discriminate].
  intros _. exact (proj2 (str_of_int_ok _ _ T)).
Qed.

(** X1: [with_page_number] changes the page cursor and nothing else: on a URL
    that [urlsplit] accepts, written in the form [urlunsplit] writes
    back and with a query free of lone surrogates, and for a target [n]
    with no more digits than [str] writes, it returns a URL that splits
    into the same scheme, host, path and fragment; its query, read by
    [parse_qs], is the old dictionary with [page] set to the one value
    [str(n)], the decimal numeral of [n], so every other parameter keeps
    all its values. *)
Theorem rewrite_keeps_other_parameters (u : str) (n : Z) (p : SplitResult) :
  urlsplit ok u = Ok p ->
  no_lone_surrogate (query p) = true ->
  authority_form p = true ->
  PyInt.num_digits n <= PyInt.MAX_STR_DIGITS ->
  exists out q',
    with_page_number ok u n = Ok out
    /\ urlsplit ok out = Ok (with_query p q')
    /\ parse_qs q' = dict_set PAGE [PyInt.decimal n] (parse_qs (query p))
    /\ forall k, k <> PAGE -> dict_get k (parse_qs q') = dict_get k (parse_qs (query p)).
Proof.
  intros Hs Hq Ha Hn.
  destruct (with_page_number_spec u n p Hs Hq Ha Hn) as (q' & E & W & S & P).
  exists (urlunsplit (with_query p q')), q'. repeat split; try assumption.
  intros k Hk. rewrite P. apply dict_get_set_other. exact Hk.
Qed.

(** X2: Rewriting twice is rewriting once, to the last number: under the
    same conditions on [u], if [with_page_number u n] is [out] then
    [with_page_number out m] is exactly [with_page_number u m], for every
    [m]; that call succeeds when [m] has no more digits than [str] writes,
    and raises [ValueError] when it has more. *)
Theorem rewrite_overwrites (u : str) (n m : Z) (p : SplitResult) (out : str) :
  urlsplit ok u = Ok p ->
  no_lone_surrogate (query p) = true ->
  authority_form p = true ->
  with_page_number ok u n = Ok out ->
  with_page_number ok out m = with_page_number ok u m
  /\ (PyInt.num_digits m <= PyInt.MAX_STR_DIGITS ->
      exists out', with_page_number ok u m = Ok out')
  /\ (PyInt.MAX_STR_DIGITS < PyInt.num_digits m ->
      with_page_number ok u m = Raise ValueError).
Proof.
  intros Hs Hq Ha Hw.
  pose proof (with_page_number_written u n out Hw) as Hn.
  destruct (with_page_number_spec u n p Hs Hq Ha Hn) as (q' & E & W & S & P).
  rewrite W in Hw. apply Ok_inj in Hw. subst out.
  split; [|split].
  - unfold with_page_number. rewrite S, Hs. cbn [rbind].
    cbn [with_query query scheme netloc path fragment].
    destruct (PyInt.str_of_int m) as [text|]; [|reflexivity]. cbn [rbind].
    rewrite P, dict_set_set. reflexivity.
  - intros Hm. destruct (with_page_number_spec u m p Hs Hq Ha Hm) as (q2 & _ & W2 & _).
    eexists. exact W2.
  - exact (with_page_number_beyond ok u m p Hs).
Qed.

Lemma get_page_number_some u k :
  get_page_number_from_url ok u = Ok (Some k) ->
  exists p v vs, urlsplit ok u = Ok p
                 /\ dict_get PAGE (parse_qs (query p)) = Some (v :: vs)
                 /\ PyInt.int_of_str v = Ok k.
Proof.
  unfold get_page_number_from_url.
  destruct (urlsplit ok u) as [p|e]; [|discriminate]. cbn [rbind].
  destruct (dict_get PAGE (parse_qs (query p))) as [[|v vs]|] eqn:G; try discriminate.
  destruct (PyInt.int_of_str v) as [k'|e] eqn:E.
  - intros H. apply Ok_inj in H. injection H as ->.
    exists p, v, vs. repeat split; [exact G|exact E].
  - destruct (is_value_error e); discriminate.
Qed.

(** X3: [increment_page_query] of click_connect_helper.py steps by one: when
    [get_page_number_from_url] reads the cursor [k] in [u] (and [u] is
    as in X1) and [k + 1] has no more digits than [str] writes, the helper
    returns [(out, k + 1)], where [out] is what [with_page_number u (k + 1)]
    writes, and the reader finds [k + 1] in [out].  When [k + 1] has more
    digits, which it has for the cursor of 4300 nines only, the helper
    raises [ValueError]. *)
Theorem increment_steps_by_one (u : str) (k : Z) (p : SplitResult) :
  urlsplit ok u = Ok p ->
  no_lone_surrogate (query p) = true ->
  authority_form p = true ->
  get_page_number_from_url ok u = Ok (Some k) ->
  (PyInt.num_digits (k + 1) <= PyInt.MAX_STR_DIGITS ->
   exists out,
     increment_page_query ok u = Ok (out, (k + 1)%Z)
     /\ with_page_number ok u (k + 1) = Ok out
     /\ get_page_number_from_url ok out = Ok (Some (k + 1)%Z))
  /\ (PyInt.MAX_STR_DIGITS < PyInt.num_digits (k + 1) ->
      increment_page_query ok u = Raise ValueError).
Proof.
  intros Hs Hq Ha Hg.
  destruct (get_page_number_some u k Hg) as (p' & v & vs & Hs' & Hd & Hi).
  rewrite Hs in Hs'. apply Ok_inj in Hs'. subst p'.
  assert (Hc : current_page p = Ok k).
  { unfold current_page. rewrite Hd. cbn [rbind]. rewrite Hi. reflexivity. }
  rewrite (increment_unfold ok u p Hs), Hc. cbn [rbind].
  split; intros Hn.
  - destruct (with_page_number_split ok u (k + 1) p Hs Hq Ha Hn) as (out & q' & W & S & Nm).
    exists out. rewrite W. split; [reflexivity|]. split; [reflexivity|].
    rewrite (get_page_number_named ok out _ _ S Nm), (int_of_decimal _ Hn). reflexivity.
  - rewrite (with_page_number_beyond ok u (k + 1) p Hs Hn). reflexivity.
Qed.

(** X4: [get_page_number_from_url] raises exactly when [urlsplit] raises, and
    then the same exception: a missing, empty or non-numeric [page]
    value is never an error of the reader. *)
Theorem reader_raises_with_urlsplit (u : str) (e : exn) :
  get_page_number_from_url ok u = Raise e <-> urlsplit ok u = Raise e.
Proof.
  unfold get_page_number_from_url.
  destruct (urlsplit ok u) as [p|e']; cbn [rbind];
    [|split; intros H; injection H as ->; reflexivity].
  split; [|discriminate].
  destruct (dict_get PAGE (parse_qs (query p))) as [[|v vs]|] eqn:G; try discriminate.
  - exfalso. exact (parse_qs_values _ _ _ G eq_refl).
  - destruct (PyInt.int_of_str v) as [k|e''] eqn:E; [discriminate|].
    rewrite (int_of_str_raises _ _ E). discriminate.
Qed.

End Facts.

End CursorMore.

(** * The modal workflow: what it touches and what it answers *)

Module TraceFacts.
Local Open Scope Z_scope.
Import PyStr Browser Run Driver Cursor.
Import UrlProps RunProps MoreProps DriverFacts.

Section Generic.
Variable World : Type.
Variable page : Page World.
Variable P : Event -> Prop.

Lemma Traced_ret {A} (a : A) : Traced P (@ret World A a).
Proof. intros w r w' tr H. inversion H. constructor. Qed.

Lemma Traced_throw {A} e : Traced P (@throw World A e).
Proof. intros w r w' tr H. inversion H. constructor. Qed.

Lemma Traced_out_of_fuel {A} : Traced P (@out_of_fuel World A).
Proof. intros w r w' tr H. inversion H. constructor. Qed.

Lemma Traced_bind {A B} (m : M World A) (k : A -> M World B) :
  Traced P m -> (forall a, Traced P (k a)) -> Traced P (bind m k).
Proof.
  intros Hm Hk w r w' tr. unfold bind.
  destruct (m w) as [[[a|e|] w1] t1] eqn:E; pose proof (Hm _ _ _ _ E) as Q1.
  - destruct (k a w1) as [[r2 w2] t2] eqn:E2. pose proof (Hk _ _ _ _ _ E2) as Q2.
    intros H. inversion H. subst. apply Forall_app; auto.
  - intros H. inversion H. subst. exact Q1.
  - intros H. inversion H. subst. exact Q1.
Qed.

Lemma Traced_try {A} (m : M World A) handles (h : exn -> M World A) :
  Traced P m -> (forall e, Traced P (h e)) -> Traced P (try_except m handles h).
Proof.
  intros Hm Hh w r w' tr. unfold try_except.
  destruct (m w) as [[[a|e|] w1] t1] eqn:E; pose proof (Hm _ _ _ _ E) as Q1.
  - intros H. inversion H. subst. exact Q1.
  - destruct (handles e).
    + destruct (h e w1) as [[r2 w2] t2] eqn:E2. pose proof (Hh _ _ _ _ _ E2) as Q2.
      intros H. inversion H. subst. apply Forall_app; auto.
    + intros H. inversion H. subst. exact Q1.
  - intros H. inversion H. subst. exact Q1.
Qed.

Lemma Traced_cmd {X} (c : Cmd X) : P (EvCmd c) -> Traced P (cmd page c).
Proof.
  intros Hc w r w' tr. unfold cmd.
  destruct (perform page c w) as [[x|e] w1]; intros H; inversion H; repeat constructor; exact Hc.
Qed.

Lemma Traced_print m : P (EvPrint m) -> Traced P (@print World m).
Proof. intros Hm w r w' tr H. inversion H. repeat constructor. exact Hm. Qed.

Lemma Traced_get_url : Traced P (get_url page).
Proof. intros w r w' tr H. inversion H. constructor. Qed.

Lemma Traced_is_closed : Traced P (is_closed page).
Proof. intros w r w' tr H. inversion H. constructor. Qed.

Lemma Traced_time_time : Traced P (time_time page).
Proof. intros w r w' tr H. inversion H. constructor. Qed.

Lemma Traced_time_sleep ms : P (EvSleep ms) -> Traced P (time_sleep page ms).
Proof. intros Hs w r w' tr H. inversion H. repeat constructor. exact Hs. Qed.

Lemma Traced_lift {A} (x : result A) : Traced P (@lift World A x).
Proof. destruct x; intros w r w' tr H; inversion H; constructor. Qed.

End Generic.

Create HintDb traced.

#[export] Hint Resolve Traced_ret Traced_throw Traced_out_of_fuel Traced_get_url
  Traced_is_closed Traced_time_time Traced_lift : traced.

(** Splits [Traced P m] along the structure of [m]; what is left is [P] of
    the events [m] itself produces. *)
Ltac traced_step :=
  first
    [ assumption
    | apply Traced_bind; [|intros ?]
    | apply Traced_try; [|intros ?]
    | apply Traced_cmd
    | apply Traced_print
    | apply Traced_time_sleep
    | solve [auto with traced]
    | progress cbv zeta
    | match goal with
      | |- Traced _ (match ?x with _ => _ end) => destruct x
      | |- Traced _ (if ?x then _ else _) => destruct x
      end ].

Ltac traced := repeat traced_step.

(** The same, trying [known] on every piece first. *)
Ltac traced_with known := repeat first [known | traced_step].

Section Driver.
Variable World : Type.
Variable page : Page World.
Variable P : Event -> Prop.
Hypothesis P_count : forall l, P (EvCmd (Count l)).

Lemma Traced_scan_error_patterns dialog patterns :
  Traced P (scan_error_patterns page dialog patterns).
Proof.
  induction patterns as [|p ps IH]; cbn [scan_error_patterns]; traced; apply P_count.
Qed.

Lemma Traced_has_modal_error : Traced P (has_modal_error page).
Proof.
  unfold has_modal_error. traced; apply P_count.
Qed.

Lemma Traced_is_dialog_open : Traced P (is_dialog_open page).
Proof. unfold is_dialog_open. traced; apply P_count. Qed.

Hypothesis P_cancel : P (EvCmd (Click cancel_button 5000)).
Hypothesis P_close : P (EvCmd (Click close_button 5000)).

Lemma Traced_close_modal_if_open : Traced P (close_modal_if_open page).
Proof.
  unfold close_modal_if_open. traced; first [apply P_count|exact P_cancel|exact P_close].
Qed.

Hypothesis P_pause : forall ms, P (EvCmd (WaitForTimeout ms)).

Lemma Traced_poll_invite_modal fuel deadline :
  Traced P (poll_invite_modal page fuel deadline).
Proof.
  induction fuel as [|fuel IH]; cbn [poll_invite_modal]; [apply Traced_out_of_fuel|].
  traced_with ltac:(first [apply Traced_has_modal_error|apply Traced_close_modal_if_open
                           |apply Traced_is_dialog_open|apply P_pause]).
Qed.

Hypothesis P_visible : forall l t, P (EvCmd (WaitForVisible l t)).
Variable label : str.
Hypothesis P_submit : P (EvCmd (Click (submit_button label) 10000)).

Lemma Traced_process_invite_modal fuel timeout :
  Traced P (process_invite_modal page fuel label timeout).
Proof.
  unfold process_invite_modal.
  traced_with ltac:(first [apply Traced_has_modal_error|apply Traced_close_modal_if_open
                           |apply Traced_poll_invite_modal|apply P_visible|apply P_submit]).
Qed.

Lemma Traced_resolve_any_open_modal fuel timeout :
  Traced P (resolve_any_open_modal page fuel label timeout).
Proof.
  unfold resolve_any_open_modal.
  traced_with ltac:(first [apply Traced_is_dialog_open|apply Traced_close_modal_if_open
                           |apply Traced_process_invite_modal]).
Qed.

End Driver.

(** Case analysis on the innermost scrutinee of the goal. *)
Ltac break_goal :=
  match goal with
  | |- context [match ?x with _ => _ end] =>
      lazymatch x with
      | context [match _ with _ => _ end] => fail
      | _ => destruct x eqn:?
      end
  end.

Section Modal.
Variable World : Type.
Variable page : Page World.

(** X5: Whatever the page answers, [resolve_any_open_modal] and
    [process_invite_modal] only count locators, wait, and click one of
    three things: the submit button with the given label, the dialog's
    Cancel button, or its close button.  They never navigate, scroll,
    read or write an attribute, sleep or print. *)
Theorem modal_workflow_stays_in_dialog (fuel : nat) (label : str) (timeout : Z) :
  Traced (modal_event label) (resolve_any_open_modal page fuel label timeout)
  /\ Traced (modal_event label) (process_invite_modal page fuel label timeout).
Proof.
  split; [apply Traced_resolve_any_open_modal|apply Traced_process_invite_modal];
    cbn; auto.
Qed.

Lemma filter_none {A} (f : A -> bool) l :
  Forall (fun x => f x = false) l -> filter f l = [].
Proof.
  induction 1 as [|x l H _ IH]; cbn [filter]; [reflexivity|]. rewrite H. exact IH.
Qed.

Lemma submit_clicks_app label t1 t2 :
  submit_clicks label (t1 ++ t2) = (submit_clicks label t1 + submit_clicks label t2)%nat.
Proof. unfold submit_clicks. rewrite filter_app, length_app. reflexivity. Qed.

Lemma submit_clicks_none label tr :
  Forall (fun e => submit_click label e = false) tr -> submit_clicks label tr = O.
Proof. intros H. unfold submit_clicks. rewrite filter_none by exact H. reflexivity. Qed.

Lemma submit_clicks_submit label t :
  submit_clicks label [EvCmd (Click (submit_button label) t)] = 1%nat.
Proof.
  unfold submit_clicks. cbn [filter submit_click submit_button].
  rewrite !DictFacts.eqb_refl. reflexivity.
Qed.

Lemma quiet_has_modal_error label w r w' tr :
  has_modal_error page w = (r, w', tr) -> submit_clicks label tr = O.
Proof.
  intros H. apply submit_clicks_none.
  refine (Traced_has_modal_error World page _ _ _ _ _ _ H). reflexivity.
Qed.

Lemma quiet_close_modal_if_open label w r w' tr :
  close_modal_if_open page w = (r, w', tr) -> submit_clicks label tr = O.
Proof.
  intros H. apply submit_clicks_none.
  refine (Traced_close_modal_if_open World page _ _ _ _ _ _ _ _ H); reflexivity.
Qed.

Lemma quiet_poll_invite_modal label fuel deadline w r w' tr :
  poll_invite_modal page fuel deadline w = (r, w', tr) -> submit_clicks label tr = O.
Proof.
  intros H. apply submit_clicks_none.
  refine (Traced_poll_invite_modal World page _ _ _ _ _ _ _ _ _ _ _ H); reflexivity.
Qed.

Lemma submit_clicks_cons label e t :
  submit_clicks label (e :: t)
  = (Nat.b2n (submit_click label e) + submit_clicks label t)%nat.
Proof. unfold submit_clicks. cbn [filter]. destruct (submit_click label e); reflexivity. Qed.

Lemma submit_click_submit label t :
  submit_click label (EvCmd (Click (submit_button label) t)) = true.
Proof. cbn. rewrite !DictFacts.eqb_refl. reflexivity. Qed.

Lemma poll_invite_modal_range fuel : forall deadline w s w' tr,
  poll_invite_modal page fuel deadline w = (Return (Some s), w', tr) ->
  s = Blocked \/ s = Sent.
Proof.
  induction fuel as [|fuel IH]; intros deadline w s w' tr; cbn [poll_invite_modal];
    [discriminate|].
  unfold bind, time_time, ret, cmd.
  repeat (break_goal; cbv beta iota); intros H; inversion H; subst; auto.
  eapply IH; eassumption.
Qed.

Ltac count_submits label :=
  repeat first [rewrite submit_clicks_app | rewrite submit_clicks_cons];
  repeat match goal with
    | E : has_modal_error _ _ = _ |- _ =>
        rewrite ?(quiet_has_modal_error label _ _ _ _ E); clear E
    | E : close_modal_if_open _ _ = _ |- _ =>
        rewrite ?(quiet_close_modal_if_open label _ _ _ _ E); clear E
    | E : poll_invite_modal _ _ _ _ = _ |- _ =>
        rewrite ?(quiet_poll_invite_modal label _ _ _ _ _ _ E); clear E
    end;
  rewrite ?submit_click_submit; cbn; lia.

Lemma invite_modal_spec (fuel : nat) (label : str) (timeout : Z)
    (w w' : World) (s : Status) (tr : list Event) :
  process_invite_modal page fuel label timeout w = (Return s, w', tr) ->
  match s with
  | NoModal => tr = [EvCmd (WaitForVisible (submit_button label) timeout)]
  | Sent | SendTimeout | SendError | StalledModal => submit_clicks label tr = 1%nat
  | Blocked => (submit_clicks label tr <= 1)%nat
  | _ => False
  end.
Proof.
  unfold process_invite_modal, try_except, bind, cmd, ret, time_time.
  fold (submit_button label).
  repeat (break_goal; cbv beta iota);
    intros H; inversion H; subst;
    try match goal with
      | E : poll_invite_modal _ _ _ _ = (Return (Some _), _, _) |- _ =>
          destruct (poll_invite_modal_range _ _ _ _ _ _ E); try discriminate
      end;
    try reflexivity; count_submits label.
Qed.

(** X6: When [process_invite_modal] returns a status, it is one of
    no_modal, sent, send_timeout, send_error, stalled_modal and blocked.
    With no_modal the only thing done was the wait for the submit
    button; with sent, send_timeout, send_error and stalled_modal the
    submit button was clicked exactly once; with blocked at most
    once. *)
Theorem invite_modal_outcomes (fuel : nat) (label : str) (timeout : Z)
    (w w' : World) (s : Status) (tr : list Event) :
  process_invite_modal page fuel label timeout w = (Return s, w', tr) ->
  match s with
  | NoModal => tr = [EvCmd (WaitForVisible (submit_button label) timeout)]
  | Sent | SendTimeout | SendError | StalledModal => submit_clicks label tr = 1%nat
  | Blocked => (submit_clicks label tr <= 1)%nat
  | _ => False
  end.
Proof. apply invite_modal_spec. Qed.

(** X7: [close_modal_if_open] answers [True] exactly when it clicked: if it
    returns [True], its last action is a click (timeout 5000) on the
    Cancel or the close button and everything before only counts
    locators; if it returns [False], it did nothing but count: no
    click at all. *)
Theorem close_modal_reports_its_click (w w' : World) (closed : bool) (tr : list Event) :
  close_modal_if_open page w = (Return closed, w', tr) ->
  if closed then
    exists pre l,
      tr = pre ++ [EvCmd (Click l 5000)]
      /\ (l = cancel_button \/ l = close_button)
      /\ Forall is_query pre
  else Forall is_query tr.
Proof.
  unfold close_modal_if_open, bind, cmd, ret.
  repeat (break_goal; cbv beta iota); intros H; inversion H; subst; cbn [app].
  all: try (repeat constructor; fail).
  - eexists [_; _], cancel_button. repeat split; auto; repeat constructor.
  - eexists [_; _; _], close_button. repeat split; auto; repeat constructor.
Qed.

Lemma quiet_is_dialog_open label w r w' tr :
  is_dialog_open page w = (r, w', tr) -> submit_clicks label tr = O.
Proof.
  intros H. apply submit_clicks_none.
  refine (Traced_is_dialog_open World page _ _ _ _ _ _ H). reflexivity.
Qed.

(** X8: [resolve_any_open_modal] never returns no_modal.  It returns clear
    only after the single count of dialogs; with closed_without_send and
    still_open the submit button was never clicked; with sent,
    send_timeout, send_error and stalled_modal it was clicked exactly
    once, with blocked at most once. *)
Theorem resolver_outcomes (fuel : nat) (label : str) (timeout : Z)
    (w w' : World) (s : Status) (tr : list Event) :
  resolve_any_open_modal page fuel label timeout w = (Return s, w', tr) ->
  match s with
  | NoModal => False
  | Clear => tr = [EvCmd (Count (PageRole DIALOG None))]
  | ClosedWithoutSend | StillOpen => submit_clicks label tr = O
  | Sent | SendTimeout | SendError | StalledModal => submit_clicks label tr = 1%nat
  | Blocked => (submit_clicks label tr <= 1)%nat
  end.
Proof.
  unfold resolve_any_open_modal. unfold bind at 1.
  destruct (is_dialog_open page w) as [[[open|e|] w1] t1] eqn:E1; try discriminate.
  destruct open; cbn [negb].
  2:{ unfold ret. intros H. inversion H. subst. rewrite app_nil_r.
      revert E1. unfold is_dialog_open, try_except, bind, cmd, ret.
      repeat (break_goal; cbv beta iota); intros H'; inversion H'; subst;
        try discriminate; reflexivity. }
  unfold bind at 1.
  destruct (process_invite_modal page fuel label timeout w1) as [[[s1|e|] w2] t2] eqn:E2;
    try discriminate.
  pose proof (invite_modal_spec _ _ _ _ _ _ _ E2) as S2.
  pose proof (quiet_is_dialog_open label _ _ _ _ E1) as Q1.
  destruct s1; try contradiction; unfold ret, bind.
  1:{ destruct (close_modal_if_open page w2) as [[[c|e|] w3] t3] eqn:E3; try discriminate.
      pose proof (quiet_close_modal_if_open label _ _ _ _ E3) as Q3.
      destruct c; intros H; inversion H; subst; rewrite !submit_clicks_app, Q1, Q3;
        cbn; reflexivity. }
  all: intros H; inversion H; subst; rewrite ?app_nil_r, !submit_clicks_app, Q1; cbn; lia.
Qed.

End Modal.

End TraceFacts.

(** * Navigation: the attempts and the cursor reached *)

Module NavigationFacts.
Local Open Scope Z_scope.
Import PyStr Browser Run Driver Cursor.
Import UrlProps RunProps MoreProps DriverFacts TraceFacts.

Lemma gotos_app t1 t2 : gotos (t1 ++ t2) = (gotos t1 + gotos t2)%nat.
Proof. unfold gotos. rewrite filter_app, length_app. reflexivity. Qed.

Lemma gotos_cons e t : gotos (e :: t) = (Nat.b2n (goto_event e) + gotos t)%nat.
Proof. unfold gotos. cbn [filter]. destruct (goto_event e); reflexivity. Qed.

Lemma gotos_nil : gotos [] = O.
Proof. reflexivity. Qed.

Ltac count_gotos :=
  repeat first [rewrite gotos_app | rewrite gotos_cons | rewrite gotos_nil]; cbn [goto_event Nat.b2n].

Section Goto.
Variable World : Type.
Variable page : Page World.

Lemma goto_attempts_spec n : forall attempt url timeout retries w r w' tr,
  goto_attempts page n attempt url timeout retries w = (r, w', tr) ->
  (gotos tr <= n)%nat
  /\ (r = Return true ->
      exists pre w0, tr = pre ++ [EvCmd (Goto url timeout)]
                     /\ perform page (Goto url timeout) w0 = (Ok tt, w'))
  /\ (r = Return false -> Z.of_nat n = retries + 1 - attempt -> gotos tr = n).
Proof.
  induction n as [|n IH]; intros attempt url timeout retries w r w' tr.
  - cbn. intros H. inversion H. subst. repeat split; try discriminate; auto.
  - cbn [goto_attempts]. unfold try_except, bind, cmd, ret.
    destruct (perform page (Goto url timeout) w) as [[[]|e] w1] eqn:E1.
    + intros H. inversion H. subst. count_gotos. repeat split; try discriminate; try lia.
      intros _. exists [], w. split; [reflexivity|exact E1].
    + destruct (is_playwright_error e).
      2:{ intros H. inversion H. subst. count_gotos. repeat split; try discriminate; lia. }
      destruct (attempt <? retries) eqn:L.
      2:{ intros H. inversion H. subst. count_gotos. repeat split; try discriminate; lia. }
      destruct (perform page (WaitForTimeout (800 * attempt)) w1) as [[[]|e'] w2].
      2:{ intros H. inversion H. subst. count_gotos. repeat split; try discriminate; lia. }
      destruct (goto_attempts page n (attempt + 1) url timeout retries w2) as [[r2 w3] t2] eqn:E.
      destruct (IH _ _ _ _ _ _ _ _ E) as (B & T & F).
      intros H. inversion H. subst. count_gotos. split; [lia|]. split.
      * intros R. destruct (T R) as (pre & w0 & -> & P0).
        exists (EvCmd (Goto url timeout) :: EvCmd (WaitForTimeout (800 * attempt)) :: pre), w0.
        split; [reflexivity|exact P0].
      * intros R Hn. rewrite (F R) by lia. reflexivity.
Qed.

Lemma goto_with_retries_attempts_aux (url : str) (timeout retries : Z)
    (w w' : World) (r : outcome bool) (tr : list Event) :
  goto_with_retries page url timeout retries w = (r, w', tr) ->
  (gotos tr <= Z.to_nat retries)%nat
  /\ (r = Return true ->
      exists pre w0, tr = pre ++ [EvCmd (Goto url timeout)]
                     /\ perform page (Goto url timeout) w0 = (Ok tt, w'))
  /\ (r = Return false -> gotos tr = Z.to_nat retries).
Proof.
  unfold goto_with_retries. intros H.
  destruct (goto_attempts_spec _ _ _ _ _ _ _ _ _ H) as (B & T & F).
  split; [exact B|]. split; [exact T|].
  intros R. destruct (Z.to_nat retries) as [|n] eqn:N.
  - cbn in H. inversion H. reflexivity.
  - apply F; [exact R|]. lia.
Qed.

(** X9: [goto_with_retries] calls [page.goto] at most [retries] times.  If
    it returns [True], its last action is a [goto] of the URL that
    succeeded; if it returns [False], it has used all [retries]
    attempts (none when [retries] is below one). *)
Theorem goto_with_retries_attempts (url : str) (timeout retries : Z)
    (w w' : World) (r : outcome bool) (tr : list Event) :
  goto_with_retries page url timeout retries w = (r, w', tr) ->
  (gotos tr <= Z.to_nat retries)%nat
  /\ (r = Return true ->
      exists pre w0, tr = pre ++ [EvCmd (Goto url timeout)]
                     /\ perform page (Goto url timeout) w0 = (Ok tt, w'))
  /\ (r = Return false -> gotos tr = Z.to_nat retries).
Proof. apply goto_with_retries_attempts_aux. Qed.

End Goto.

Section Facts.
Variable World : Type.
Variable page : Page World.
Variable ok : str -> bool.

Section Traces.
Variable P : Event -> Prop.
Hypothesis P_goto : forall url t, P (EvCmd (Goto url t)).
Hypothesis P_pause : forall ms, P (EvCmd (WaitForTimeout ms)).
Hypothesis P_load : forall t, P (EvCmd (WaitForLoadState t)).

Lemma Traced_goto_attempts n : forall attempt url timeout retries,
  Traced P (goto_attempts page n attempt url timeout retries).
Proof.
  induction n as [|n IH]; intros attempt url timeout retries; cbn [goto_attempts].
  - apply Traced_ret.
  - traced_with ltac:(first [apply IH|apply P_goto|apply P_pause]).
Qed.

Lemma Traced_goto_with_retries url timeout retries :
  Traced P (goto_with_retries page url timeout retries).
Proof. apply Traced_goto_attempts. Qed.

Lemma Traced_page_number : Traced P (page_number page ok).
Proof. unfold page_number. traced. Qed.

Lemma Traced_next_page_attempts n : forall old expected timeout retries landed,
  Traced P (next_page_attempts page ok n old expected timeout retries landed).
Proof.
  induction n as [|n IH]; intros old expected timeout retries landed;
    cbn [next_page_attempts].
  - apply Traced_ret.
  - traced_with ltac:(first [apply IH|apply Traced_goto_with_retries
                            |apply Traced_page_number|apply P_load]).
Qed.

End Traces.

Lemma no_click_goto url t : ~ is_click (EvCmd (Goto url t)).
Proof. cbn. tauto. Qed.

Lemma no_click_pause ms : ~ is_click (EvCmd (WaitForTimeout ms)).
Proof. cbn. tauto. Qed.

Lemma no_click_load t : ~ is_click (EvCmd (WaitForLoadState t)).
Proof. cbn. tauto. Qed.

Lemma page_number_run w (r : outcome (option Z)) w' tr :
  page_number page ok w = (r, w', tr) ->
  w' = w /\ tr = []
  /\ forall l, r = Return l -> get_page_number_from_url ok (page_url page w) = Ok l.
Proof.
  unfold page_number, bind, get_url, lift.
  destruct (get_page_number_from_url ok (page_url page w)) as [l|e]; cbn;
    intros H; inversion H; subst; repeat split; try discriminate.
  intros l' E. inversion E. reflexivity.
Qed.

Lemma next_page_attempts_spec n : forall old expected timeout retries landed0 w r w' tr,
  next_page_attempts page ok n old expected timeout retries landed0 w = (r, w', tr) ->
  (gotos tr <= n * Z.to_nat retries)%nat
  /\ forall landed, r = Return (true, landed) ->
       landed = Some expected
       /\ get_page_number_from_url ok (page_url page w') = Ok (Some expected).
Proof.
  induction n as [|n IH]; intros old expected timeout retries landed0 w r w' tr;
    cbn [next_page_attempts].
  - intros H. inversion H. subst. split; [cbn; lia|discriminate].
  - unfold bind at 1. unfold lift at 1.
    destruct (with_page_number ok old expected) as [url|e];
      [|intros H; inversion H; subst; split; [cbn; lia|discriminate]].
    cbn [ret]. unfold bind at 1.
    destruct (goto_with_retries page url timeout retries w) as [[[b|e|] w1] t1] eqn:E1;
      pose proof (proj1 (goto_with_retries_attempts_aux _ _ _ _ _ _ _ _ _ E1)) as B1.
    2,3: intros H; inversion H; subst; rewrite ?app_nil_r; split; [lia|discriminate].
    destruct b; cbn [negb].
    2:{ destruct (next_page_attempts page ok n old expected timeout retries landed0 w1)
          as [[r2 w2] t2] eqn:E2.
        destruct (IH _ _ _ _ _ _ _ _ _ E2) as (B2 & S2).
        intros H. inversion H. subst. cbn [app]. rewrite gotos_app. split; [lia|exact S2]. }
    unfold bind at 1.
    destruct (try_except (cmd page (WaitForLoadState timeout)) is_playwright_timeout
                (fun _ => ret tt) w1) as [[[[]|e|] w2] t2] eqn:E2.
    2,3: intros H; inversion H; subst; cbn [app]; rewrite gotos_app;
         assert (gotos t2 = O) by
           (revert E2; unfold try_except, cmd, ret;
            repeat (break_goal; cbv beta iota); intros E2; inversion E2; reflexivity);
         split; [lia|discriminate].
    assert (G2 : gotos t2 = O).
    { revert E2. unfold try_except, cmd, ret.
      repeat (break_goal; cbv beta iota); intros E2; inversion E2; reflexivity. }
    unfold bind at 1.
    destruct (page_number page ok w2) as [[[l|e|] w3] t3] eqn:E3;
      destruct (page_number_run _ _ _ _ E3) as (-> & -> & L3).
    2,3: intros H; inversion H; subst; cbn [app]; rewrite !gotos_app, G2;
         split; [cbn; lia|discriminate].
    specialize (L3 l eq_refl).
    assert (R : forall landed1 r2 w4 t4,
              next_page_attempts page ok n old expected timeout retries landed1 w2
              = (r2, w4, t4) ->
              (r, w', tr) = (r2, w4, t1 ++ t2 ++ [] ++ t4) ->
              (gotos tr <= S n * Z.to_nat retries)%nat
              /\ forall landed, r = Return (true, landed) ->
                   landed = Some expected
                   /\ get_page_number_from_url ok (page_url page w') = Ok (Some expected)).
    { intros landed1 r2 w4 t4 E4 H. destruct (IH _ _ _ _ _ _ _ _ _ E4) as (B4 & S4).
      inversion H. subst. rewrite !gotos_app, G2. split; [cbn; lia|exact S4]. }
    destruct l as [l|].
    + destruct (l =? expected) eqn:Q.
      * unfold ret. intros H. inversion H. subst. rewrite !gotos_app, G2.
        split; [cbn; lia|]. intros landed E. inversion E. subst.
        apply Z.eqb_eq in Q. subst l. split; [reflexivity|exact L3].
      * destruct (next_page_attempts page ok n old expected timeout retries (Some l) w2)
          as [[r2 w4] t4] eqn:E4.
        intros H. apply (R _ _ _ _ E4). symmetry. exact H.
    + destruct (next_page_attempts page ok n old expected timeout retries None w2)
        as [[r2 w4] t4] eqn:E4.
      intros H. apply (R _ _ _ _ E4). symmetry. exact H.
Qed.

(** X10: When a target cursor exists (the expected page, or else the cursor of
    the current URL plus one), [go_to_next_page] never clicks, calls
    [page.goto] at most [attempts * retries] times, and answers [True]
    only with the target as the page it landed on, the URL of the page
    then carrying that cursor. *)
Theorem next_page_by_cursor (timeout : Z) (expected : option Z) (attempts : nat)
    (retries : Z) (w w' : World) (cursor : option Z) (target : Z)
    (r : outcome (bool * option Z)) (tr : list Event) :
  get_page_number_from_url ok (page_url page w) = Ok cursor ->
  target_cursor expected cursor = Some target ->
  go_to_next_page page ok timeout expected attempts retries w = (r, w', tr) ->
  Forall (fun e => ~ is_click e) tr
  /\ (gotos tr <= attempts * Z.to_nat retries)%nat
  /\ forall landed, r = Return (true, landed) ->
       landed = Some target
       /\ get_page_number_from_url ok (page_url page w') = Ok (Some target).
Proof.
  intros Hc Ht. unfold go_to_next_page.
  rewrite (bind_silent _ _ _ w (page_url page w)) by reflexivity.
  rewrite (bind_silent _ _ _ w cursor) by (rewrite Hc; reflexivity).
  cbv zeta.
  replace (match expected with
           | Some _ => expected
           | None => match cursor with Some o => Some (o + 1) | None => expected end
           end) with (Some target).
  2:{ revert Ht. unfold target_cursor. destruct expected, cursor; congruence. }
  intros H. split.
  - refine (Traced_next_page_attempts _ no_click_goto no_click_pause no_click_load
              _ _ _ _ _ _ _ _ _ _ H).
  - exact (next_page_attempts_spec _ _ _ _ _ _ _ _ _ _ H).
Qed.

End Facts.
End NavigationFacts.

(** * Button identifiers and the skip registry *)

Module ButtonFacts.
Local Open Scope Z_scope.
Import PyStr Browser Run Driver Cursor.
Import UrlProps RunProps MoreProps DriverFacts TraceFacts.

Lemma split_at_first {A} (x : A) : forall l1 l2 r1 r2,
  ~ In x l1 -> ~ In x l2 -> l1 ++ x :: r1 = l2 ++ x :: r2 -> l1 = l2 /\ r1 = r2.
Proof.
  induction l1 as [|a l1 IH]; intros [|b l2] r1 r2 H1 H2 E; cbn in *.
  - injection E as ->. auto.
  - injection E as -> _. tauto.
  - injection E as -> _. tauto.
  - injection E as -> E. destruct (IH l2 r1 r2) as [-> ->]; auto.
Qed.

Lemma split_at_last {A} (x : A) l1 l2 r1 r2 :
  ~ In x r1 -> ~ In x r2 -> l1 ++ x :: r1 = l2 ++ x :: r2 -> l1 = l2 /\ r1 = r2.
Proof.
  intros H1 H2 E. apply (f_equal (@rev A)) in E.
  rewrite !rev_app_distr in E. cbn [rev] in E. rewrite <- !app_assoc in E. cbn [app] in E.
  destruct (split_at_first x (rev r1) (rev r2) (rev l1) (rev l2)) as [E1 E2];
    try (rewrite <- in_rev; assumption); [exact E|].
  split; [apply rev_inj in E2|apply rev_inj in E1]; assumption.
Qed.

Lemma decimal_nonneg_digits n :
  0 <= n -> Forall (fun c => PyStr.is_digit c = true) (PyInt.decimal n).
Proof.
  destruct n as [|p|p]; intros H; [| |lia]; cbn [PyInt.decimal].
  - repeat constructor.
  - apply IntFacts.digits_fuel_digits. constructor.
Qed.

Lemma decimal_nonneg_no_dash n : 0 <= n -> ~ In Ch.MINUS (PyInt.decimal n).
Proof.
  intros H I. pose proof (decimal_nonneg_digits n H) as D.
  rewrite Forall_forall in D. specialize (D _ I). revert D. vm_compute. discriminate.
Qed.

Lemma decimal_inj a b :
  (PyInt.num_digits a <= PyInt.MAX_STR_DIGITS)%N ->
  (PyInt.num_digits b <= PyInt.MAX_STR_DIGITS)%N ->
  PyInt.decimal a = PyInt.decimal b -> a = b.
Proof.
  intros La Lb E. pose proof (IntFacts.int_of_decimal a La) as Ha.
  rewrite E, (IntFacts.int_of_decimal b Lb) in Ha. injection Ha as ->. reflexivity.
Qed.

Section Facts.
Variable World : Type.
Variable page : Page World.

Lemma assigned_id b s w id w' tr :
  get_or_assign_button_id page b s w = (Return (id, s + 1), w', tr) ->
  exists now,
    id = (lit "pmi-helper-" ++ PyInt.decimal now ++ lit "-" ++ PyInt.decimal s)%list
    /\ (PyInt.num_digits s <= PyInt.MAX_STR_DIGITS)%N.
Proof.
  unfold get_or_assign_button_id, bind, cmd, ret, time_time, lift, throw.
  destruct (perform page (GetAttribute b HELPER_ID) w) as [[[[|c r]|]|e] w1];
    cbv beta iota; try (intros H; inversion H; lia).
  - destruct (PyInt.str_of_int (time_ms page w1)) as [now_text|] eqn:T1;
      unfold ret, throw; cbv beta iota; [|discriminate].
    destruct (PyInt.str_of_int s) as [seq_text|] eqn:T2;
      unfold ret, throw; cbv beta iota; [|discriminate].
    destruct (IntFacts.str_of_int_ok _ _ T1) as [-> _].
    destruct (IntFacts.str_of_int_ok _ _ T2) as [-> L2].
    match goal with
    | |- context [perform page ?c w1] => destruct (perform page c w1) as [[[]|e] w2]
    end; cbv beta iota; intros H; inversion H; subst.
    exists (time_ms page w1). split; [reflexivity|exact L2].
  - destruct (PyInt.str_of_int (time_ms page w1)) as [now_text|] eqn:T1;
      unfold ret, throw; cbv beta iota; [|discriminate].
    destruct (PyInt.str_of_int s) as [seq_text|] eqn:T2;
      unfold ret, throw; cbv beta iota; [|discriminate].
    destruct (IntFacts.str_of_int_ok _ _ T1) as [-> _].
    destruct (IntFacts.str_of_int_ok _ _ T2) as [-> L2].
    match goal with
    | |- context [perform page ?c w1] => destruct (perform page c w1) as [[[]|e] w2]
    end; cbv beta iota; intros H; inversion H; subst.
    exists (time_ms page w1). split; [reflexivity|exact L2].
Qed.

(** X11: Two identifiers that [get_or_assign_button_id] newly assigned (the
    sequence number went up by one) under different, non-negative
    sequence numbers are different strings, whatever the clock showed at
    either call. *)
Theorem assigned_ids_differ (b1 b2 : Locator) (s1 s2 : Z) (w1 w2 w1' w2' : World)
    (id1 id2 : str) (t1 t2 : list Event) :
  get_or_assign_button_id page b1 s1 w1 = (Return (id1, s1 + 1), w1', t1) ->
  get_or_assign_button_id page b2 s2 w2 = (Return (id2, s2 + 1), w2', t2) ->
  0 <= s1 -> 0 <= s2 -> s1 <> s2 -> id1 <> id2.
Proof.
  intros H1 H2 P1 P2 Ne E.
  destruct (assigned_id _ _ _ _ _ _ H1) as (n1 & -> & L1).
  destruct (assigned_id _ _ _ _ _ _ H2) as (n2 & -> & L2).
  apply app_inv_head in E.
  change (lit "-") with [Ch.MINUS] in E. cbn [app] in E.
  destruct (split_at_last Ch.MINUS _ _ _ _ (decimal_nonneg_no_dash _ P1)
              (decimal_nonneg_no_dash _ P2) E) as [_ E'].
  apply Ne, (decimal_inj _ _ L1 L2), E'.
Qed.

Lemma get_or_assign_seq b s w id s' w' tr :
  get_or_assign_button_id page b s w = (Return (id, s'), w', tr) -> s <= s'.
Proof.
  unfold get_or_assign_button_id, bind, cmd, ret, time_time.
  repeat (break_goal; cbv beta iota); intros H; inversion H; subst; lia.
Qed.

Lemma selected_button_aux (n idx : nat) (buttons : Locator) (seq : Z)
    (skipped : list str) (w w' : World) (selected : option (Locator * str))
    (seq' : Z) (tr : list Event) :
  select_button page n idx buttons seq skipped w = (Return (selected, seq'), w', tr) ->
  seq <= seq'
  /\ match selected with
     | Some (candidate, id) =>
         id_in id skipped = false
         /\ exists i, (idx <= i < idx + n)%nat /\ candidate = Nth buttons i
     | None => True
     end.
Proof.
  revert idx seq w tr. induction n as [|n IH]; intros idx seq w tr; cbn [select_button].
  - intros H. inversion H. subst. split; [lia|exact I].
  - unfold bind at 1.
    destruct (get_or_assign_button_id page (Nth buttons idx) seq w)
      as [[[[id s1]|e|] w1] t1] eqn:E1; try discriminate.
    pose proof (get_or_assign_seq _ _ _ _ _ _ _ E1) as L1.
    destruct (id_in id skipped) eqn:S.
    + destruct (select_button page n (Datatypes.S idx) buttons s1 skipped w1)
        as [[r2 w2] t2] eqn:E2.
      intros H. inversion H. subst.
      destruct (IH _ _ _ _ E2) as (L2 & Q). split; [lia|].
      destruct selected as [[c i]|]; [|exact I].
      destruct Q as (Q1 & k & Q2 & Q3). split; [exact Q1|]. exists k. split; [lia|exact Q3].
    + unfold ret. intros H. inversion H. subst. split; [lia|].
      split; [exact S|]. exists idx. split; [lia|reflexivity].
Qed.

(** X12: The scan of [main] for the next button to click never selects a
    skipped button: if it selects one, its identifier is not in the
    skip registry and the locator is one of the buttons scanned, by
    index; and the sequence number never decreases. *)
Theorem selected_button_is_not_skipped (n idx : nat) (buttons : Locator) (seq : Z)
    (skipped : list str) (w w' : World) (selected : option (Locator * str))
    (seq' : Z) (tr : list Event) :
  select_button page n idx buttons seq skipped w = (Return (selected, seq'), w', tr) ->
  seq <= seq'
  /\ match selected with
     | Some (candidate, id) =>
         id_in id skipped = false
         /\ exists i, (idx <= i < idx + n)%nat /\ candidate = Nth buttons i
     | None => True
     end.
Proof. apply selected_button_aux. Qed.

End Facts.
End ButtonFacts.

(** * The polling loops: their answers and their end *)

Module PollFacts.
Local Open Scope Z_scope.
Import PyStr Browser Run Driver Cursor.
Import UrlProps RunProps MoreProps DriverFacts TraceFacts.

Ltac Zify.zify_post_hook ::= Z.to_euclidean_division_equations.

Section Facts.
Variable World : Type.
Variable page : Page World.

Lemma poll_connect_change_answers fuel : forall label prev deadline w r w' tr,
  poll_connect_change page fuel label prev deadline w = (r, w', tr) ->
  Forall is_query tr
  /\ (r = Return true ->
      exists w0 n, perform page (Count (PageRole BUTTON (Some label))) w0 = (Ok n, w')
                   /\ (n < prev)%nat)
  /\ (r = Return false -> deadline <= time_ms page w').
Proof.
  induction fuel as [|fuel IH]; intros label prev deadline w r w' tr;
    cbn [poll_connect_change].
  - intros H. inversion H. subst. repeat split; try discriminate. constructor.
  - unfold bind, time_time, ret, cmd.
    destruct (time_ms page w <? deadline) eqn:L.
    2:{ intros H. inversion H. subst. repeat split; try discriminate; [constructor|].
        intros _. lia. }
    destruct (perform page (Count (PageRole BUTTON (Some label))) w) as [[n|e] w1] eqn:E1.
    2:{ intros H. inversion H. subst. repeat split; try discriminate. repeat constructor. }
    destruct (n <? prev)%nat eqn:D.
    { intros H. inversion H. subst. repeat split; try discriminate; [repeat constructor|].
      intros _. exists w, n. split; [exact E1|]. apply Nat.ltb_lt. exact D. }
    destruct (perform page (WaitForTimeout 400) w1) as [[[]|e] w2].
    2:{ intros H. inversion H. subst. repeat split; try discriminate. repeat constructor. }
    destruct (poll_connect_change page fuel label prev deadline w2) as [[r2 w3] t2] eqn:E2.
    destruct (IH _ _ _ _ _ _ _ E2) as (Q & T & F).
    intros H. inversion H. subst. cbn [app]. split; [|split; assumption].
    repeat constructor. exact Q.
Qed.

(** X13: [wait_for_connect_change] only counts and pauses.  It answers [True]
    only right after a count of the buttons below the previous count,
    and [False] only when at least [timeout] milliseconds have passed
    on the clock since the call. *)
Theorem confirmation_poll_answers (fuel : nat) (label : str) (previous : nat)
    (timeout : Z) (w w' : World) (r : outcome bool) (tr : list Event) :
  wait_for_connect_change page fuel label previous timeout w = (r, w', tr) ->
  Forall is_query tr
  /\ (r = Return true ->
      exists w0 n, perform page (Count (PageRole BUTTON (Some label))) w0 = (Ok n, w')
                   /\ (n < previous)%nat)
  /\ (r = Return false -> time_ms page w + timeout <= time_ms page w').
Proof.
  unfold wait_for_connect_change. rewrite (bind_silent _ _ _ w (time_ms page w)) by reflexivity.
  apply poll_connect_change_answers.
Qed.

(** *** The clock during a computation *)

Hypothesis clock : clock_monotone page.

Lemma Advancing_ret {A} (a : A) : Advancing page (@ret World A a).
Proof. intros w r w' tr H. inversion H. lia. Qed.

Lemma Advancing_throw {A} e : Advancing page (@throw World A e).
Proof. intros w r w' tr H. inversion H. lia. Qed.

Lemma Advancing_out_of_fuel {A} : Advancing page (@out_of_fuel World A).
Proof. intros w r w' tr H. inversion H. lia. Qed.

Lemma Advancing_bind {A B} (m : M World A) (k : A -> M World B) :
  Advancing page m -> (forall a, Advancing page (k a)) -> Advancing page (bind m k).
Proof.
  intros Hm Hk w r w' tr. unfold bind.
  destruct (m w) as [[[a|e|] w1] t1] eqn:E; pose proof (Hm _ _ _ _ E) as Q1.
  - destruct (k a w1) as [[r2 w2] t2] eqn:E2. pose proof (Hk _ _ _ _ _ E2) as Q2.
    intros H. inversion H. subst. lia.
  - intros H. inversion H. subst. exact Q1.
  - intros H. inversion H. subst. exact Q1.
Qed.

Lemma Advancing_try {A} (m : M World A) handles (h : exn -> M World A) :
  Advancing page m -> (forall e, Advancing page (h e)) ->
  Advancing page (try_except m handles h).
Proof.
  intros Hm Hh w r w' tr. unfold try_except.
  destruct (m w) as [[[a|e|] w1] t1] eqn:E; pose proof (Hm _ _ _ _ E) as Q1.
  - intros H. inversion H. subst. exact Q1.
  - destruct (handles e).
    + destruct (h e w1) as [[r2 w2] t2] eqn:E2. pose proof (Hh _ _ _ _ _ E2) as Q2.
      intros H. inversion H. subst. lia.
    + intros H. inversion H. subst. exact Q1.
  - intros H. inversion H. subst. exact Q1.
Qed.

Lemma Advancing_cmd {X} (c : Cmd X) : Advancing page (cmd page c).
Proof.
  intros w r w' tr. unfold cmd. pose proof (clock X c w) as C.
  destruct (perform page c w) as [[x|e] w1]; intros H; inversion H; subst; exact C.
Qed.

Lemma Advancing_time_time : Advancing page (time_time page).
Proof. intros w r w' tr H. inversion H. lia. Qed.

Lemma Advancing_has_modal_error : Advancing page (has_modal_error page).
Proof.
  unfold has_modal_error.
  repeat first [apply Advancing_bind; [|intros ?] | apply Advancing_try; [|intros ?]
               | apply Advancing_cmd | apply Advancing_ret
               | match goal with |- Advancing _ (if ?x then _ else _) => destruct x end].
Qed.

Lemma Advancing_is_dialog_open : Advancing page (is_dialog_open page).
Proof.
  unfold is_dialog_open.
  repeat first [apply Advancing_bind; [|intros ?] | apply Advancing_try; [|intros ?]
               | apply Advancing_cmd | apply Advancing_ret].
Qed.

(** *** Computations that end *)

Lemma Ends_ret {A} (a : A) : Ends (@ret World A a).
Proof. intros w. discriminate. Qed.

Lemma Ends_throw {A} e : Ends (@throw World A e).
Proof. intros w. discriminate. Qed.

Lemma Ends_cmd {X} (c : Cmd X) : Ends (cmd page c).
Proof. intros w. unfold cmd. destruct (perform page c w) as [[x|e] w1]; discriminate. Qed.

Lemma Ends_print m : Ends (@print World m).
Proof. intros w. discriminate. Qed.

Lemma Ends_get_url : Ends (get_url page).
Proof. intros w. discriminate. Qed.

Lemma Ends_time_time : Ends (time_time page).
Proof. intros w. discriminate. Qed.

Lemma Ends_time_sleep ms : Ends (time_sleep page ms).
Proof. intros w. discriminate. Qed.

Lemma Ends_lift {A} (x : result A) : Ends (@lift World A x).
Proof. intros w. destruct x; discriminate. Qed.

(** A bind ends at [w] when its first part returns and the rest ends from
    there, or when the first part raises. *)
Lemma ends_bind {A B} (m : M World A) (k : A -> M World B) w :
  match m w with
  | (Return a, w1, _) => fst (fst (k a w1)) <> OutOfFuel
  | (Throw _, _, _) => True
  | (OutOfFuel, _, _) => False
  end ->
  fst (fst (bind m k w)) <> OutOfFuel.
Proof.
  unfold bind. destruct (m w) as [[[a|e|] w1] t1]; [|discriminate|tauto].
  destruct (k a w1) as [[r2 w2] t2]. exact (fun H => H).
Qed.

Lemma Ends_bind {A B} (m : M World A) (k : A -> M World B) :
  Ends m -> (forall a, Ends (k a)) -> Ends (bind m k).
Proof.
  intros Hm Hk w. apply ends_bind. specialize (Hm w).
  destruct (m w) as [[[a|e|] w1] t1]; [apply Hk|exact I|apply Hm; reflexivity].
Qed.

Lemma Ends_time_bind {B} (k : Z -> M World B) :
  (forall w, fst (fst (k (time_ms page w) w)) <> OutOfFuel) -> Ends (bind (time_time page) k).
Proof. intros H w. apply ends_bind. cbn [time_time]. apply H. Qed.

Lemma Ends_try {A} (m : M World A) handles (h : exn -> M World A) :
  Ends m -> (forall e, Ends (h e)) -> Ends (try_except m handles h).
Proof.
  intros Hm Hh w. unfold try_except. specialize (Hm w).
  destruct (m w) as [[[a|e|] w1] t1]; [discriminate| |exact Hm].
  destruct (handles e); [|discriminate].
  specialize (Hh e w1). destruct (h e w1) as [[r2 w2] t2]. exact Hh.
Qed.

End Facts.

Create HintDb ends.

#[export] Hint Resolve Ends_ret Ends_throw Ends_cmd Ends_print Ends_get_url Ends_time_time
  Ends_time_sleep Ends_lift : ends.

Ltac ends_step known :=
  first
    [ assumption
    | known
    | apply Ends_bind; [|intros ?]
    | apply Ends_try; [|intros ?]
    | solve [auto with ends]
    | progress cbv zeta
    | match goal with
      | |- Ends (match ?x with _ => _ end) => destruct x
      end ].

Ltac ends_with known := repeat ends_step known.

Ltac ends := ends_with fail.

Section Loops.
Variable World : Type.
Variable page : Page World.
Hypothesis clock : clock_monotone page.

Lemma Ends_has_modal_error : Ends (has_modal_error page).
Proof.
  unfold has_modal_error. ends.
Qed.

Lemma Ends_is_dialog_open : Ends (is_dialog_open page).
Proof. unfold is_dialog_open. ends. Qed.

Lemma Ends_close_modal_if_open : Ends (close_modal_if_open page).
Proof. unfold close_modal_if_open. ends. Qed.

Lemma pause_advances ms w (r : result unit) w1 :
  pause_takes page ms -> perform page (WaitForTimeout ms) w = (r, w1) ->
  time_ms page w + ms <= time_ms page w1.
Proof. intros P E. specialize (P w). rewrite E in P. exact P. Qed.

Lemma poll_connect_change_ends fuel : forall label prev deadline w,
  pause_takes page 400 ->
  (Z.to_nat ((deadline - time_ms page w + 399) / 400) < fuel)%nat ->
  fst (fst (poll_connect_change page fuel label prev deadline w)) <> OutOfFuel.
Proof.
  induction fuel as [|fuel IH]; intros label prev deadline w P F; [lia|].
  cbn [poll_connect_change]. unfold bind, time_time, ret, cmd.
  destruct (time_ms page w <? deadline) eqn:L; [|discriminate].
  pose proof (clock _ (Count (PageRole BUTTON (Some label))) w) as C1.
  destruct (perform page (Count (PageRole BUTTON (Some label))) w) as [[n|e] w1];
    [|discriminate]. cbn [snd] in C1.
  destruct (n <? prev)%nat; [discriminate|].
  destruct (perform page (WaitForTimeout 400) w1) as [[[]|e] w2] eqn:E2; [|discriminate].
  pose proof (pause_advances _ _ _ _ P E2) as C2.
  specialize (IH label prev deadline w2 P).
  destruct (poll_connect_change page fuel label prev deadline w2) as [[r3 w3] t3].
  cbn [fst] in *. apply IH. lia.
Qed.

(** X14: [wait_for_connect_change] ends: on a page whose clock never runs
    backwards and whose pause of 400 ms takes at least 400 ms, the poll
    returns or raises within [timeout / 400 + 2] rounds, whatever the
    page answers. *)
Theorem confirmation_poll_ends (fuel : nat) (label : str) (previous : nat)
    (timeout : Z) (w : World) :
  pause_takes page 400 ->
  (rounds timeout 400 <= fuel)%nat ->
  fst (fst (wait_for_connect_change page fuel label previous timeout w)) <> OutOfFuel.
Proof.
  intros P F. unfold wait_for_connect_change.
  rewrite (bind_silent _ _ _ w (time_ms page w)) by reflexivity.
  apply poll_connect_change_ends; [exact P|]. unfold rounds in F. lia.
Qed.

Lemma poll_invite_modal_ends fuel : forall deadline w,
  pause_takes page 300 ->
  (Z.to_nat ((deadline - time_ms page w + 299) / 300) < fuel)%nat ->
  fst (fst (poll_invite_modal page fuel deadline w)) <> OutOfFuel.
Proof.
  induction fuel as [|fuel IH]; intros deadline w P F; [lia|].
  cbn [poll_invite_modal]. apply ends_bind. cbn [time_time].
  destruct (time_ms page w <? deadline) eqn:L; [|discriminate].
  apply ends_bind. pose proof (Ends_has_modal_error w) as N1.
  destruct (has_modal_error page w) as [[[err|e|] w1] t1] eqn:E1;
    [|exact I|apply N1; reflexivity].
  pose proof (Advancing_has_modal_error _ page clock _ _ _ _ E1) as C1.
  destruct err.
  { apply ends_bind. pose proof (Ends_close_modal_if_open w1) as N2.
    destruct (close_modal_if_open page w1) as [[[c|e|] w2] t2];
      [discriminate|exact I|apply N2; reflexivity]. }
  apply ends_bind. pose proof (Ends_is_dialog_open w1) as N2.
  destruct (is_dialog_open page w1) as [[[open|e|] w2] t2] eqn:E2;
    [|exact I|apply N2; reflexivity].
  pose proof (Advancing_is_dialog_open _ page clock _ _ _ _ E2) as C2.
  destruct open; cbn [negb]; [|discriminate].
  apply ends_bind. unfold cmd.
  destruct (perform page (WaitForTimeout 300) w2) as [[[]|e] w3] eqn:E3; [|exact I].
  pose proof (pause_advances _ _ _ _ P E3) as C3.
  apply IH; [exact P|lia].
Qed.

Lemma Ends_process_invite_modal fuel label timeout :
  pause_takes page 300 -> (rounds timeout 300 <= fuel)%nat ->
  Ends (process_invite_modal page fuel label timeout).
Proof.
  intros P F. unfold process_invite_modal.
  ends_with ltac:(first [apply Ends_has_modal_error|apply Ends_close_modal_if_open
                        |apply Ends_time_bind; intros w; apply ends_bind]).
  pose proof (poll_invite_modal_ends fuel (time_ms page w + timeout) w P) as N.
  destruct (poll_invite_modal page fuel (time_ms page w + timeout) w)
    as [[[polled|e|] w1] t1]; [|exact I|apply N; [unfold rounds in F; lia|reflexivity]].
  clear N. revert w1.
  match goal with |- forall w1, fst (fst (?m w1)) <> _ => change (Ends m) end.
  ends_with ltac:(first [apply Ends_has_modal_error|apply Ends_close_modal_if_open]).
Qed.

Lemma Ends_resolve_any_open_modal fuel label timeout :
  pause_takes page 300 -> (rounds timeout 300 <= fuel)%nat ->
  Ends (resolve_any_open_modal page fuel label timeout).
Proof.
  intros P F. unfold resolve_any_open_modal.
  ends_with ltac:(first [apply Ends_is_dialog_open|apply Ends_close_modal_if_open
                        |apply Ends_process_invite_modal; assumption]).
Qed.

Lemma probe_connect_buttons_ends fuel : forall label deadline max_count w,
  pause_takes page 400 ->
  (Z.to_nat ((deadline - time_ms page w + 399) / 400) < fuel)%nat ->
  fst (fst (probe_connect_buttons page fuel label deadline max_count w)) <> OutOfFuel.
Proof.
  induction fuel as [|fuel IH]; intros label deadline max_count w P F; [lia|].
  cbn [probe_connect_buttons]. apply ends_bind. cbn [time_time].
  destruct (time_ms page w <? deadline) eqn:L; [|discriminate].
  apply ends_bind.
  set (count := try_except (cmd page (Count (PageRole BUTTON (Some label))))
                           is_playwright_error (fun _ => ret O)).
  assert (N1 : Ends count) by (unfold count; ends).
  assert (A1 : Advancing page count).
  { unfold count. apply Advancing_try; [apply Advancing_cmd; exact clock|].
    intros e. apply Advancing_ret. }
  specialize (N1 w).
  destruct (count w) as [[[n|e|] w1] t1] eqn:E1; [|exact I|apply N1; reflexivity].
  pose proof (A1 _ _ _ _ E1) as C1. cbv zeta.
  destruct (0 <? (if (max_count <? n)%nat then n else max_count))%nat; [discriminate|].
  apply ends_bind.
  set (wheel := try_except _ is_playwright_error (fun _ => ret tt)).
  assert (N2 : Ends wheel) by (unfold wheel; ends).
  assert (A2 : Advancing page wheel).
  { unfold wheel. apply Advancing_try; [|intros e; apply Advancing_ret].
    repeat (apply Advancing_bind; [|intros ?]); apply Advancing_cmd; exact clock. }
  specialize (N2 w1).
  destruct (wheel w1) as [[[[]|e|] w2] t2] eqn:E2; [|exact I|apply N2; reflexivity].
  pose proof (A2 _ _ _ _ E2) as C2.
  apply ends_bind. unfold cmd.
  destruct (perform page (WaitForTimeout 400) w2) as [[[]|e] w3] eqn:E3; [|exact I].
  pose proof (pause_advances _ _ _ _ P E3) as C3.
  apply IH; [exact P|lia].
Qed.

Lemma Ends_discover_connect_buttons fuel label timeout :
  pause_takes page 400 -> (rounds timeout 400 <= fuel)%nat ->
  Ends (discover_connect_buttons page fuel label timeout).
Proof.
  intros P F w. unfold discover_connect_buttons. apply ends_bind. cbn [time_time].
  apply probe_connect_buttons_ends; [exact P|]. unfold rounds in F. lia.
Qed.

Lemma Ends_wait_for_connect_change fuel label previous timeout :
  pause_takes page 400 -> (rounds timeout 400 <= fuel)%nat ->
  Ends (wait_for_connect_change page fuel label previous timeout).
Proof.
  intros P F w. unfold wait_for_connect_change. apply ends_bind. cbn [time_time].
  apply poll_connect_change_ends; [exact P|]. unfold rounds in F. lia.
Qed.

Lemma Ends_get_or_assign_button_id b s : Ends (get_or_assign_button_id page b s).
Proof. unfold get_or_assign_button_id. ends. Qed.

Lemma Ends_select_button n : forall idx buttons s skipped,
  Ends (select_button page n idx buttons s skipped).
Proof.
  induction n as [|n IH]; intros idx buttons s skipped; cbn [select_button]; [ends|].
  ends_with ltac:(first [apply IH|apply Ends_get_or_assign_button_id]).
Qed.

Variable args : Args.

Lemma Ends_delay : Ends (delay page args).
Proof. unfold delay. destruct (0 <? delay_ms args); ends. Qed.

(** X15: One pass through the click loop of [main] (resolve the dialog,
    discover, select, click, the modal workflow, the confirmation poll)
    ends: on such a page, with pauses of 300 and 400 ms taking their
    time, it returns or raises once the fuel covers the rounds of the
    three polling loops. *)
Theorem loop_body_ends (fuel : nat) (st : State) (w : World) :
  pause_takes page 300 ->
  pause_takes page 400 ->
  (rounds (modal_timeout_ms args) 300 <= fuel)%nat ->
  (rounds (page_settle_ms args) 400 <= fuel)%nat ->
  (rounds 6000 400 <= fuel)%nat ->
  fst (fst (inner_body page args fuel st w)) <> OutOfFuel.
Proof.
  intros P3 P4 F1 F2 F3. revert w. change (Ends (inner_body page args fuel st)).
  unfold inner_body, record_modal_status, click_raised.
  ends_with ltac:(first [ apply Ends_resolve_any_open_modal; assumption
                        | apply Ends_process_invite_modal; assumption
                        | apply Ends_discover_connect_buttons; assumption
                        | apply Ends_wait_for_connect_change; assumption
                        | apply Ends_select_button
                        | apply Ends_is_dialog_open
                        | apply Ends_close_modal_if_open
                        | apply Ends_delay ]).
Qed.

End Loops.
End PollFacts.

(** * The totals of a run *)

Module TallyFacts.
Local Open Scope Z_scope.
Import PyStr Browser Run Driver Cursor.
Import UrlProps RunProps MoreProps DriverFacts TraceFacts NavigationFacts MaxClicks.

Section Silent.
Variable World : Type.
Variable page : Page World.
Variable ok : str -> bool.

Local Notation "'Silent'" := (Traced silent_event) (only parsing).

Ltac silent_with known :=
  traced_with ltac:(first [known | exact I]).

Lemma Silent_has_modal_error : Silent (has_modal_error page).
Proof. apply Traced_has_modal_error. intros l. exact I. Qed.

Lemma Silent_is_dialog_open : Silent (is_dialog_open page).
Proof. apply Traced_is_dialog_open. intros l. exact I. Qed.

Lemma Silent_close_modal_if_open : Silent (close_modal_if_open page).
Proof. apply Traced_close_modal_if_open; try exact I. intros l. exact I. Qed.

Lemma Silent_process_invite_modal fuel label timeout :
  Silent (process_invite_modal page fuel label timeout).
Proof. apply Traced_process_invite_modal; try exact I; intros; exact I. Qed.

Lemma Silent_resolve_any_open_modal fuel label timeout :
  Silent (resolve_any_open_modal page fuel label timeout).
Proof. apply Traced_resolve_any_open_modal; try exact I; intros; exact I. Qed.

Lemma Silent_poll_connect_change fuel : forall label prev deadline,
  Silent (poll_connect_change page fuel label prev deadline).
Proof.
  induction fuel as [|fuel IH]; intros label prev deadline; cbn [poll_connect_change];
    silent_with ltac:(apply IH).
Qed.

Lemma Silent_wait_for_connect_change fuel label prev timeout :
  Silent (wait_for_connect_change page fuel label prev timeout).
Proof. unfold wait_for_connect_change. silent_with ltac:(apply Silent_poll_connect_change). Qed.

Lemma Silent_probe_connect_buttons fuel : forall label deadline max_count,
  Silent (probe_connect_buttons page fuel label deadline max_count).
Proof.
  induction fuel as [|fuel IH]; intros label deadline max_count; cbn [probe_connect_buttons];
    silent_with ltac:(apply IH).
Qed.

Lemma Silent_discover_connect_buttons fuel label timeout :
  Silent (discover_connect_buttons page fuel label timeout).
Proof.
  unfold discover_connect_buttons. silent_with ltac:(apply Silent_probe_connect_buttons).
Qed.

Lemma Silent_get_or_assign_button_id b s : Silent (get_or_assign_button_id page b s).
Proof. unfold get_or_assign_button_id. silent_with fail. Qed.

Lemma Silent_select_button n : forall idx buttons s skipped,
  Silent (select_button page n idx buttons s skipped).
Proof.
  induction n as [|n IH]; intros idx buttons s skipped; cbn [select_button];
    silent_with ltac:(first [apply IH|apply Silent_get_or_assign_button_id]).
Qed.

Lemma Silent_goto_with_retries url timeout retries :
  Silent (goto_with_retries page url timeout retries).
Proof. apply Traced_goto_with_retries; intros; exact I. Qed.

Lemma Silent_page_number : Silent (page_number page ok).
Proof. apply Traced_page_number. Qed.

Lemma Silent_go_to_next_page timeout expected attempts retries :
  Silent (go_to_next_page page ok timeout expected attempts retries).
Proof.
  unfold go_to_next_page.
  silent_with ltac:(first [apply Traced_next_page_attempts; intros; exact I
                          |apply Silent_page_number]).
Qed.

Variable args : Args.

Lemma Silent_delay : Silent (delay page args).
Proof. unfold delay. silent_with fail. Qed.

End Silent.

Section Tally.
Variable World : Type.
Variable page : Page World.
Variable ok : str -> bool.
Variable args : Args.

Lemma reports_app c t1 t2 : reports c (t1 ++ t2) = reports c t1 + reports c t2.
Proof. unfold reports. rewrite filter_app, length_app. lia. Qed.

Lemma reports_silent c tr : Forall silent_event tr -> reports c tr = 0.
Proof.
  intros H. unfold reports. rewrite filter_none; [reflexivity|].
  revert H. apply Forall_impl. intros [X x|ms|m]; cbn; tauto.
Qed.

Lemma Tallies_ret {A} c (f : A -> Z) base (a : A) :
  f a = base -> Tallies c f base (@ret World A a).
Proof. intros H w a' w' tr E. inversion E. subst. cbn. lia. Qed.

Lemma Tallies_bind {A B} c (g : A -> Z) (f : B -> Z) base (m : M World A)
    (k : A -> M World B) :
  Tallies c g base m -> (forall a, Tallies c f (g a) (k a)) -> Tallies c f base (bind m k).
Proof.
  intros Hm Hk w b w' tr. unfold bind.
  destruct (m w) as [[[a|e|] w1] t1] eqn:E1; try discriminate.
  destruct (k a w1) as [[r2 w2] t2] eqn:E2. intros H. inversion H. subst.
  rewrite reports_app, (Hk _ _ _ _ _ E2), (Hm _ _ _ _ E1). lia.
Qed.

Lemma Tallies_silent {A} c base (m : M World A) :
  Traced silent_event m -> Tallies c (fun _ => base) base m.
Proof. intros Hm w a w' tr E. rewrite (reports_silent c tr (Hm _ _ _ _ E)). lia. Qed.

Lemma Tallies_bind_silent {A B} c (f : B -> Z) base (m : M World A) (k : A -> M World B) :
  Traced silent_event m -> (forall a, Tallies c f base (k a)) -> Tallies c f base (bind m k).
Proof.
  intros Hm Hk. apply (Tallies_bind c (fun _ => base)); [apply Tallies_silent; exact Hm|exact Hk].
Qed.

Lemma Tallies_print {B} c (f : B -> Z) base msg (k : M World B) :
  Tallies c f (base + (if reported c msg then 1 else 0)) k ->
  Tallies c f base (bind (print msg) (fun _ => k)).
Proof.
  intros Hk w b w' tr. unfold bind, print.
  destruct (k w) as [[r2 w2] t2] eqn:E2. intros H. inversion H. subst.
  rewrite (Hk _ _ _ _ E2). unfold reports. cbn [app filter].
  destruct (reported c msg); cbn [List.length]; lia.
Qed.

Ltac silent :=
  traced_with ltac:(first
    [ apply Silent_resolve_any_open_modal | apply Silent_process_invite_modal
    | apply Silent_discover_connect_buttons | apply Silent_wait_for_connect_change
    | apply Silent_select_button | apply Silent_is_dialog_open
    | apply Silent_close_modal_if_open | apply Silent_delay
    | apply Silent_go_to_next_page | apply Silent_goto_with_retries
    | apply Silent_page_number | exact I ]).

Ltac tally c :=
  repeat first
    [ apply Tallies_ret; destruct c; cbn; lia
    | apply Tallies_print
    | apply Tallies_bind_silent; [solve [silent]|intros ?]
    | progress cbv zeta
    | match goal with
      | |- Tallies _ _ _ (match ?x with _ => _ end) => destruct x
      end ].

Local Notation "'Step_tally' c st" :=
  (Tallies c (fun step => count_of c (state_of step)) (count_of c st))
  (at level 10, c at level 9, st at level 9, only parsing).

Lemma Tallies_record_modal_status c fuel st id count status :
  Step_tally c st (record_modal_status page args fuel st id count status).
Proof. unfold record_modal_status. destruct status; cbn [failure_status]; tally c. Qed.

Lemma Tallies_click_raised c st id e :
  Step_tally c st (click_raised page args st id e).
Proof. unfold click_raised. tally c. Qed.

Lemma Tallies_inner_body c fuel st :
  Step_tally c st (inner_body page args fuel st).
Proof.
  unfold inner_body.
  apply Tallies_bind_silent; [silent|intros status].
  destruct status; cbn [failure_status];
    tally c; destruct c;
    match goal with
    | |- Tallies ?c _ _ (click_raised _ _ ?s ?id ?e) =>
        exact (Tallies_click_raised c s id e)
    | |- Tallies ?c _ _ (record_modal_status _ _ ?f ?s ?id ?n ?status) =>
        exact (Tallies_record_modal_status c f s id n status)
    end.
Qed.

Lemma Tallies_inner_loop c fuel : forall st,
  Tallies c (count_of c) (count_of c st) (inner_loop page args fuel st).
Proof.
  induction fuel as [|fuel IH]; intros st; cbn [inner_loop].
  - intros w a w' tr E. discriminate.
  - eapply Tallies_bind; [apply Tallies_inner_body|].
    intros [st'|st']; cbn [state_of]; [apply IH|apply Tallies_ret; reflexivity].
Qed.

Lemma Tallies_process_page c fuel st :
  Tallies c (count_of c) (count_of c st) (process_page page args fuel st).
Proof.
  unfold process_page. cbv zeta.
  apply Tallies_bind_silent; [silent|intros url]. apply Tallies_print.
  replace (count_of c st + (if reported c (MsgProcessing _ _ url) then 1 else 0))
    with (count_of c (start_page st)) by (destruct c; cbn; lia).
  apply Tallies_inner_loop.
Qed.

Lemma Tallies_advance c st : Step_tally c st (advance page ok args st).
Proof. unfold advance. destruct (current_page_num st); tally c. Qed.

Lemma Tallies_check_rollback c base last :
  Tallies c (fun _ => base) base (check_rollback page ok args last).
Proof. unfold check_rollback. tally c. Qed.

Lemma Tallies_outer_body c fuel st :
  Step_tally c st (outer_body page ok args fuel st).
Proof.
  unfold outer_body.
  apply Tallies_bind_silent; [silent|intros closed].
  destruct closed; [tally c|].
  eapply Tallies_bind; [apply Tallies_check_rollback|]. intros [break cur]. cbv zeta.
  destruct break; [apply Tallies_ret; destruct c; reflexivity|].
  apply (Tallies_bind c (count_of c)).
  - destruct c; exact (Tallies_process_page _ fuel (set_current_page_num st cur)).
  - intros st'. apply Tallies_advance.
Qed.

Lemma Tallies_outer_loop c fuel : forall st,
  Tallies c (count_of c) (count_of c st) (outer_loop page ok args fuel st).
Proof.
  induction fuel as [|fuel IH]; intros st; cbn [outer_loop].
  - intros w a w' tr E. discriminate.
  - eapply Tallies_bind; [apply Tallies_outer_body|].
    intros [st'|st']; cbn [state_of]; [apply IH|apply Tallies_ret; reflexivity].
Qed.

(** X16: When [main] returns, its last line is the summary of its three
    totals, and each total is the number of lines printed before for
    it: [total_clicked] the click reports, [total_skipped] the five
    kinds of skip report, [pages_processed] the page headers. *)
Theorem summary_adds_up_the_reports (fuel : nat) (w w' : World) (st : State)
    (tr : list Event) :
  main page ok args fuel w = (Return st, w', tr) ->
  exists tr0,
    tr = tr0 ++ [EvPrint (MsgDone (total_clicked st) (pages_processed st) (total_skipped st))]
    /\ total_clicked st = reports Clicks tr0
    /\ total_skipped st = reports Skips tr0
    /\ pages_processed st = reports Pages tr0.
Proof.
  unfold main, bind.
  destruct (outer_loop page ok args fuel initial_state w) as [[[st1|e|] w1] t1] eqn:E;
    try discriminate.
  cbn [print ret]. intros H. inversion H. subst. exists t1. split; [reflexivity|].
  pose proof (fun c => Tallies_outer_loop c fuel initial_state _ _ _ _ E) as T.
  pose proof (T Clicks) as T1. pose proof (T Skips) as T2. pose proof (T Pages) as T3.
  cbn in T1, T2, T3. repeat split; assumption.
Qed.

End Tally.

End TallyFacts.

(** * The click loop stays on its page; the limits of a run *)

Module LoopMore.
Local Open Scope Z_scope.
Import PyStr Browser Run Driver Cursor.
Import UrlProps RunProps MoreProps DriverFacts TraceFacts NavigationFacts ButtonFacts MaxClicks.

Section Post.
Variable World : Type.
Variable page : Page World.

Lemma Post_ret {A} (Q : A -> Prop) (a : A) : Q a -> Post Q (@ret World A a).
Proof. intros H w a' w' tr E. inversion E. subst. exact H. Qed.

Lemma Post_out_of_fuel {A} (Q : A -> Prop) : Post Q (@out_of_fuel World A).
Proof. intros w a w' tr E. discriminate. Qed.

Lemma Post_bind {A B} (Q1 : A -> Prop) (Q : B -> Prop) (m : M World A)
    (k : A -> M World B) :
  Post Q1 m -> (forall a, Q1 a -> Post Q (k a)) -> Post Q (bind m k).
Proof.
  intros Hm Hk w b w' tr. unfold bind.
  destruct (m w) as [[[a|e|] w1] t1] eqn:E1; try discriminate.
  destruct (k a w1) as [[r2 w2] t2] eqn:E2. intros H. inversion H. subst.
  exact (Hk a (Hm _ _ _ _ E1) _ _ _ _ E2).
Qed.

Lemma Post_bind_any {A B} (Q : B -> Prop) (m : M World A) (k : A -> M World B) :
  (forall a, Post Q (k a)) -> Post Q (bind m k).
Proof.
  intros Hk. apply (Post_bind (fun _ => True)); [intros w a w' tr E; exact I|].
  intros a _. apply Hk.
Qed.

Lemma Traced_bind_post {A B} (P : Event -> Prop) (Q : A -> Prop) (m : M World A)
    (k : A -> M World B) :
  Post Q m -> Traced P m -> (forall a, Q a -> Traced P (k a)) -> Traced P (bind m k).
Proof.
  intros Hq Hm Hk w r w' tr. unfold bind.
  destruct (m w) as [[[a|e|] w1] t1] eqn:E; pose proof (Hm _ _ _ _ E) as Q1.
  - destruct (k a w1) as [[r2 w2] t2] eqn:E2.
    pose proof (Hk a (Hq _ _ _ _ E) _ _ _ _ E2) as Q2.
    intros H. inversion H. subst. apply Forall_app; auto.
  - intros H. inversion H. subst. exact Q1.
  - intros H. inversion H. subst. exact Q1.
Qed.

End Post.

Ltac post_step known :=
  first
    [ assumption
    | known
    | apply Post_ret
    | apply Post_out_of_fuel
    | apply Post_bind_any; intros ?
    | progress cbv zeta
    | match goal with
      | |- Post _ (match ?x with _ => _ end) => destruct x
      end ].

Ltac post_with known := repeat post_step known.

Section Loop.
Variable World : Type.
Variable page : Page World.
Variable ok : str -> bool.
Variable args : Args.

(** *** What the click loop asks of the page *)

Local Notation "'Loop'" := (Traced (loop_event args)) (only parsing).

Lemma Loop_resolve_any_open_modal fuel :
  Loop (resolve_any_open_modal page fuel (send_request_label args) (modal_timeout_ms args)).
Proof. apply Traced_resolve_any_open_modal; cbn; auto. Qed.

Lemma Loop_process_invite_modal fuel :
  Loop (process_invite_modal page fuel (send_request_label args) (modal_timeout_ms args)).
Proof. apply Traced_process_invite_modal; cbn; auto. Qed.

Lemma Loop_is_dialog_open : Loop (is_dialog_open page).
Proof. apply Traced_is_dialog_open; cbn; auto. Qed.

Lemma Loop_close_modal_if_open : Loop (close_modal_if_open page).
Proof. apply Traced_close_modal_if_open; cbn; auto. Qed.

Lemma Loop_probe_connect_buttons fuel : forall label deadline max_count,
  Loop (probe_connect_buttons page fuel label deadline max_count).
Proof.
  induction fuel as [|fuel IH]; intros label deadline max_count; cbn [probe_connect_buttons];
    traced_with ltac:(first [apply IH|exact I]).
Qed.

Lemma Loop_discover_connect_buttons fuel label timeout :
  Loop (discover_connect_buttons page fuel label timeout).
Proof.
  unfold discover_connect_buttons. traced_with ltac:(apply Loop_probe_connect_buttons).
Qed.

Lemma Loop_poll_connect_change fuel : forall label prev deadline,
  Loop (poll_connect_change page fuel label prev deadline).
Proof.
  induction fuel as [|fuel IH]; intros label prev deadline; cbn [poll_connect_change];
    traced_with ltac:(first [apply IH|exact I]).
Qed.

Lemma Loop_wait_for_connect_change fuel label prev timeout :
  Loop (wait_for_connect_change page fuel label prev timeout).
Proof.
  unfold wait_for_connect_change. traced_with ltac:(apply Loop_poll_connect_change).
Qed.

Lemma Loop_get_or_assign_button_id i s :
  Loop (get_or_assign_button_id page (Nth (connect_buttons args) i) s).
Proof.
  unfold get_or_assign_button_id. traced; cbn; eauto.
Qed.

Lemma Loop_select_button n : forall idx s skipped,
  Loop (select_button page n idx (connect_buttons args) s skipped).
Proof.
  induction n as [|n IH]; intros idx s skipped; cbn [select_button];
    traced_with ltac:(first [apply IH|apply Loop_get_or_assign_button_id]).
Qed.

Lemma Loop_delay : Loop (delay page args).
Proof. unfold delay. traced; exact I. Qed.

Lemma select_button_post n idx s skipped :
  Post (fun r : option (Locator * str) * Z =>
          match fst r with
          | Some (candidate, _) => exists i, candidate = Nth (connect_buttons args) i
          | None => True
          end)
       (select_button page n idx (connect_buttons args) s skipped).
Proof.
  intros w [sel s'] w' tr E.
  destruct (selected_button_aux _ page _ _ _ _ _ _ _ _ _ _ E) as (_ & Q).
  cbn [fst]. destruct sel as [[c id]|]; [|exact I].
  destruct Q as (_ & i & _ & ->). eauto.
Qed.

Ltac loop :=
  traced_with ltac:(first
    [ apply Loop_resolve_any_open_modal | apply Loop_process_invite_modal
    | apply Loop_discover_connect_buttons | apply Loop_wait_for_connect_change
    | apply Loop_is_dialog_open | apply Loop_close_modal_if_open | apply Loop_delay
    | exact I ]).

Lemma Loop_inner_body fuel st : Loop (inner_body page args fuel st).
Proof.
  unfold inner_body. fold (connect_buttons args).
  apply Traced_bind; [apply Loop_resolve_any_open_modal|intros status].
  destruct status; try (loop; fail).
  apply Traced_bind; [loop|intros count].
  apply Traced_bind; [loop|intros found].
  destruct found as [n|]; [|loop].
  eapply Traced_bind_post; [apply select_button_post|apply Loop_select_button|].
  intros [[[candidate id]|] s'] Q; cbn [fst] in Q; cbv zeta; [|loop].
  destruct Q as [i ->].
  unfold record_modal_status, click_raised.
  loop; cbn; eauto.
Qed.

Lemma Loop_inner_loop fuel : forall st, Loop (inner_loop page args fuel st).
Proof.
  induction fuel as [|fuel IH]; intros st; cbn [inner_loop];
    traced_with ltac:(first [apply IH|apply Loop_inner_body]).
Qed.

Lemma Loop_process_page fuel st : Loop (process_page page args fuel st).
Proof.
  unfold process_page. traced_with ltac:(first [apply Loop_inner_loop|exact I]).
Qed.

(** X17: While [main] works through one page, it never navigates: no
    [page.goto], no wait for a load state.  Attributes are read and
    written only under the helper's own name and only on Connect
    buttons; scrolls go to Connect buttons; clicks go to a Connect
    button, the submit button, or the dialog's Cancel or close
    button. *)
Theorem page_cycle_stays_on_the_page (fuel : nat) (st : State) :
  Traced (loop_event args) (process_page page args fuel st).
Proof. apply Loop_process_page. Qed.

(** *** The click limit as a bound *)

Lemma below_at_most N tr : Forall (below N) tr -> Forall (at_most N) tr.
Proof.
  apply Forall_impl. intros [X c|ms|m]; cbn; auto. destruct m; cbn; auto. lia.
Qed.

(** X18: With a positive [--max-clicks], no click report of a run shows a
    total above the limit, and a run that returns has
    [total_clicked <= max_clicks].  The bound on the reports holds
    for what a run printed before it raised, too. *)
Theorem click_limit_is_a_bound (fuel : nat) (w w' : World) (r : outcome State)
    (tr : list Event) :
  0 < max_clicks args ->
  main page ok args fuel w = (r, w', tr) ->
  Forall (at_most (max_clicks args)) tr
  /\ forall st, r = Return st -> total_clicked st <= max_clicks args.
Proof.
  intros Hp. unfold main, bind.
  destruct (outer_loop page ok args fuel initial_state w) as [[r1 w1] t1] eqn:E1.
  assert (H0 : total_clicked initial_state < max_clicks args) by (cbn; lia).
  destruct (Sat_outer_loop _ page ok args Hp fuel initial_state H0 _ _ _ _ E1)
    as [[B1 S1]|(tr0 & pc & cnt & st & -> & B0 & -> & _ & St & Tc)].
  - destruct r1 as [st|e|]; cbn [print ret]; intros H; inversion H; subst;
      rewrite ?app_nil_r.
    + split.
      * apply Forall_app. split; [apply below_at_most; exact B1|repeat constructor].
      * intros st' E. inversion E. subst. specialize (S1 _ eq_refl). lia.
    + split; [apply below_at_most; exact B1|discriminate].
    + split; [apply below_at_most; exact B1|discriminate].
  - cbn [print ret]. intros H. inversion H. subst. split.
    + repeat (apply Forall_app; split); try (apply below_at_most; exact B0).
      * repeat constructor. cbn. lia.
      * repeat constructor.
    + intros st' E. inversion E. subst. lia.
Qed.

(** *** The page bookkeeping *)

Lemma same_page_refl st : same_page st st.
Proof. repeat split. Qed.

Lemma Post_inner_body fuel st :
  Post (fun step => same_page st (state_of step)) (inner_body page args fuel st).
Proof.
  unfold inner_body, record_modal_status, click_raised.
  post_with fail; repeat split.
Qed.

Lemma Post_inner_loop fuel : forall st,
  Post (same_page st) (inner_loop page args fuel st).
Proof.
  induction fuel as [|fuel IH]; intros st; cbn [inner_loop]; [apply Post_out_of_fuel|].
  eapply Post_bind; [apply Post_inner_body|].
  intros [st'|st'] (Q1 & Q2 & Q3); cbn [state_of] in *.
  - intros w0 x w1 tr E. destruct (IH st' _ _ _ _ E) as (R1 & R2 & R3).
    repeat split; congruence.
  - apply Post_ret. repeat split; assumption.
Qed.

Lemma Post_process_page fuel st :
  Post (fun st' => pages_processed st' = pages_processed st + 1
                   /\ last_completed_page st' = last_completed_page st)
       (process_page page args fuel st).
Proof.
  unfold process_page. cbv zeta. apply Post_bind_any; intros url.
  apply Post_bind_any; intros _.
  intros w0 x w1 tr E. destruct (Post_inner_loop _ _ _ _ _ _ E) as (R1 & R2 & _).
  split; [rewrite R1|rewrite R2]; reflexivity.
Qed.

Lemma Post_advance st :
  0 < max_pages args ->
  Post (fun step =>
          pages_processed (state_of step) = pages_processed st
          /\ (is_break step = false ->
              pages_processed st < max_pages args /\ no_auto_next_page args = false))
       (advance page ok args st).
Proof.
  intros Hp. unfold advance.
  destruct (stop st); [apply Post_ret; split; [reflexivity|discriminate]|].
  cbv zeta.
  set (st1 := match current_page_num st with
              | Some _ => set_last_completed_page st (current_page_num st)
              | None => st
              end).
  assert (P1 : pages_processed st1 = pages_processed st)
    by (unfold st1; destruct (current_page_num st); reflexivity).
  destruct (negb (max_pages args =? 0) && (max_pages args <=? pages_processed st1)) eqn:L.
  { post_with fail. split; [exact P1|discriminate]. }
  destruct (no_auto_next_page args) eqn:Na.
  { post_with fail. split; [exact P1|discriminate]. }
  post_with fail; (split; [exact P1|]); try discriminate.
  intros _. split; [|reflexivity].
  apply andb_false_iff in L. destruct L as [L|L]; [|lia].
  apply negb_false_iff in L. lia.
Qed.

Lemma Post_outer_body fuel st :
  0 < max_pages args -> pages_processed st < max_pages args ->
  Post (fun step =>
          pages_processed (state_of step) <= pages_processed st + 1
          /\ pages_processed (state_of step) <= max_pages args
          /\ (is_break step = false ->
              pages_processed (state_of step) < max_pages args
              /\ no_auto_next_page args = false))
       (outer_body page ok args fuel st).
Proof.
  intros Hp Hl. unfold outer_body.
  apply Post_bind_any. intros closed.
  destruct closed; [post_with fail; cbn; repeat split; try lia; discriminate|].
  apply Post_bind_any. intros [break cur]. cbv zeta.
  destruct break; [apply Post_ret; cbn; repeat split; try lia; discriminate|].
  eapply Post_bind; [apply Post_process_page|].
  intros st1 [Q1 _]. cbn [pages_processed set_current_page_num] in Q1.
  intros w a w' tr E. destruct (Post_advance st1 Hp _ _ _ _ E) as (R1 & R2).
  rewrite R1, Q1. split; [lia|]. split; [lia|].
  intros B. destruct (R2 B). split; [lia|assumption].
Qed.

Lemma Post_outer_loop fuel : forall st,
  0 < max_pages args -> pages_processed st < max_pages args ->
  Post (fun st' => pages_processed st' <= max_pages args)
       (outer_loop page ok args fuel st).
Proof.
  induction fuel as [|fuel IH]; intros st Hp Hl; cbn [outer_loop];
    [apply Post_out_of_fuel|].
  eapply Post_bind; [apply (Post_outer_body fuel st Hp Hl)|].
  intros [st'|st'] (_ & Q2 & Q3); cbn [state_of is_break] in *.
  - apply IH; [exact Hp|]. apply Q3. reflexivity.
  - apply Post_ret. exact Q2.
Qed.

(** X19: With a positive [--max-pages], a run of [main] that returns has
    worked through at most that many pages. *)
Theorem page_limit_is_a_bound (fuel : nat) (w w' : World) (st : State)
    (tr : list Event) :
  0 < max_pages args ->
  main page ok args fuel w = (Return st, w', tr) ->
  pages_processed st <= max_pages args.
Proof.
  intros Hp. unfold main, bind.
  destruct (outer_loop page ok args fuel initial_state w) as [[[st1|e|] w1] t1] eqn:E1;
    try discriminate.
  cbn [print ret]. intros H. inversion H. subst.
  apply (Post_outer_loop fuel initial_state Hp) in E1; [exact E1|cbn; lia].
Qed.

(** *** Without automatic pagination *)

Section Manual.
Hypothesis manual : no_auto_next_page args = true.

Lemma Loop_outer_body fuel st :
  last_completed_page st = None -> Loop (outer_body page ok args fuel st).
Proof.
  intros Hl. unfold outer_body, check_rollback, advance. rewrite Hl, manual.
  traced_with ltac:(first [apply Loop_process_page|apply Traced_page_number|exact I]).
Qed.

Lemma Post_manual_outer_body fuel st :
  Post (fun step => is_break step = true
                    /\ pages_processed (state_of step) <= pages_processed st + 1)
       (outer_body page ok args fuel st).
Proof.
  unfold outer_body.
  apply Post_bind_any. intros closed.
  destruct closed; [post_with fail; cbn; split; [reflexivity|lia]|].
  apply Post_bind_any. intros [break cur]. cbv zeta.
  destruct break; [apply Post_ret; cbn; split; [reflexivity|lia]|].
  eapply Post_bind; [apply Post_process_page|].
  intros st1 [Q1 _]. cbn [pages_processed set_current_page_num] in Q1.
  unfold advance. rewrite manual.
  post_with fail; cbn [is_break state_of]; (split; [reflexivity|]);
    destruct (current_page_num st1); cbn; lia.
Qed.

(** X20: With [--no-auto-next-page], [main] never navigates (every action
    is one of X17's) and a run that returns has worked through at most
    one page. *)
Theorem manual_run_stays_on_its_page (fuel : nat) (w w' : World) (r : outcome State)
    (tr : list Event) :
  main page ok args fuel w = (r, w', tr) ->
  Forall (loop_event args) tr
  /\ forall st, r = Return st -> pages_processed st <= 1.
Proof.
  unfold main. destruct fuel as [|fuel]; cbn [outer_loop].
  { intros H. inversion H. split; [constructor|discriminate]. }
  unfold bind at 1. unfold bind at 1.
  destruct (outer_body page ok args fuel initial_state w) as [[[step|e|] w1] t1] eqn:E1;
    pose proof (Loop_outer_body fuel initial_state eq_refl _ _ _ _ E1) as L1.
  2,3: intros H; inversion H; subst; split; [exact L1|discriminate].
  destruct (Post_manual_outer_body fuel initial_state _ _ _ _ E1) as (B & Pp).
  destruct step as [st'|st']; [discriminate|]. cbn [ret print bind state_of] in *.
  intros H. inversion H. subst. split.
  - repeat (apply Forall_app; split); try exact L1; repeat constructor.
  - intros st E. inversion E. subst. exact Pp.
Qed.

End Manual.

End Loop.
End LoopMore.

(** * The choice of the tab *)

Module TabFacts.
Import PyStr Tabs.

Lemma find_first {A} (f : A -> bool) l x :
  find f l = Some x ->
  exists before after,
    l = before ++ x :: after /\ f x = true /\ Forall (fun y => f y = false) before.
Proof.
  induction l as [|a l IH]; cbn [find]; [discriminate|].
  destruct (f a) eqn:E.
  - intros H. injection H as ->. exists [], l. repeat split; [exact E|constructor].
  - intros H. destruct (IH H) as (b & c & -> & Fx & Fb).
    exists (a :: b), c. repeat split; [exact Fx|constructor; assumption].
Qed.

Lemma find_nowhere {A} (f : A -> bool) l :
  find f l = None -> Forall (fun y => f y = false) l.
Proof.
  intros H. apply Forall_forall. intros y I. exact (find_none f l H y I).
Qed.

Lemma open_pages_open browser p : In p (open_pages browser) -> tab_closed p = false.
Proof.
  unfold open_pages. rewrite in_flat_map. intros (c & _ & I).
  apply filter_In in I. destruct I as [_ I]. apply negb_true_iff. exact I.
Qed.

Lemma open_pages_nil browser :
  open_pages browser = [] <-> forall c p, In c browser -> In p c -> tab_closed p = true.
Proof.
  split.
  - intros E c p Ic Ip. destruct (tab_closed p) eqn:C; [reflexivity|]. exfalso.
    assert (I : In p (open_pages browser)).
    { unfold open_pages. rewrite in_flat_map. exists c. split; [exact Ic|].
      apply filter_In. split; [exact Ip|]. rewrite C. reflexivity. }
    rewrite E in I. exact I.
  - intros H. destruct (open_pages browser) as [|p l] eqn:E; [reflexivity|]. exfalso.
    assert (I : In p (open_pages browser)) by (rewrite E; left; reflexivity).
    pose proof (open_pages_open _ _ I) as C.
    unfold open_pages in I. rewrite in_flat_map in I. destruct I as (c & Ic & I).
    apply filter_In in I. destruct I as [Ip _]. rewrite (H c p Ic Ip) in C. discriminate.
Qed.

Section Facts.
Variable py_lower : str -> str.

(** X21: [pick_page] returns a tab that is open and belongs to a context of
    the browser; it returns [None] only when every tab of every context
    is closed. *)
Theorem pick_page_gives_an_open_tab (browser : Browser) (url_contains : str) :
  match pick_page py_lower browser url_contains with
  | None => forall c p, In c browser -> In p c -> tab_closed p = true
  | Some p => tab_closed p = false /\ exists c, In c browser /\ In p c
  end.
Proof.
  unfold pick_page. cbv zeta.
  destruct (open_pages browser) as [|first rest] eqn:E.
  - apply open_pages_nil. exact E.
  - assert (G : forall p, In p (first :: rest) ->
                          tab_closed p = false /\ exists c, In c browser /\ In p c).
    { intros p I. rewrite <- E in I. split; [eapply open_pages_open; exact I|].
      unfold open_pages in I. rewrite in_flat_map in I. destruct I as (c & Ic & I).
      apply filter_In in I. exists c. tauto. }
    destruct (match url_contains with
              | [] => None
              | _ => find (url_matches py_lower url_contains) (first :: rest)
              end) as [p|] eqn:F.
    + apply G. destruct url_contains; [discriminate|]. eapply find_some. exact F.
    + destruct (find has_real_url (first :: rest)) as [p|] eqn:R.
      * apply G. eapply find_some. exact R.
      * apply G. left. reflexivity.
Qed.

(** X22: The order of preference of [pick_page]: with a non-empty filter,
    the first open tab whose URL contains it, in any letter case;
    without a filter or without a match, the first open tab with a URL
    other than empty and about:blank; failing that, the first open
    tab. *)
Theorem pick_page_preference (browser : Browser) (url_contains : str) (p : Tab) :
  pick_page py_lower browser url_contains = Some p ->
  exists before after,
    open_pages browser = before ++ p :: after
    /\ ((url_contains <> [] /\ url_matches py_lower url_contains p = true
         /\ Forall (fun q => url_matches py_lower url_contains q = false) before)
        \/ ((url_contains = []
             \/ Forall (fun q => url_matches py_lower url_contains q = false)
                       (open_pages browser))
            /\ ((has_real_url p = true /\ Forall (fun q => has_real_url q = false) before)
                \/ (before = []
                    /\ Forall (fun q => has_real_url q = false) (open_pages browser))))).
Proof.
  unfold pick_page. cbv zeta.
  destruct (open_pages browser) as [|first rest] eqn:E; [discriminate|].
  destruct (match url_contains with
            | [] => None
            | _ => find (url_matches py_lower url_contains) (first :: rest)
            end) as [q|] eqn:F.
  - intros H. injection H as ->.
    destruct url_contains as [|c u]; [discriminate|].
    destruct (find_first _ _ _ F) as (b & a & Eq & M & B).
    exists b, a. split; [exact Eq|]. left. repeat split; [discriminate|exact M|exact B].
  - assert (N : url_contains = []
                \/ Forall (fun q => url_matches py_lower url_contains q = false)
                          (first :: rest)).
    { destruct url_contains as [|c u]; [left; reflexivity|right].
      apply find_nowhere. exact F. }
    destruct (find has_real_url (first :: rest)) as [q|] eqn:R.
    + intros H. injection H as ->. destruct (find_first _ _ _ R) as (b & a & Eq & M & B).
      exists b, a. split; [exact Eq|]. right. split; [exact N|]. left. split; assumption.
    + intros H. injection H as ->. exists [], rest. split; [reflexivity|].
      right. split; [exact N|]. right. split; [reflexivity|]. apply find_nowhere. exact R.
Qed.

End Facts.
End TabFacts.

(** * The dialog probes and the discovery *)

Module ProbeFacts.
Local Open Scope Z_scope.
Import PyStr Browser Run Driver Cursor.
Import UrlProps RunProps MoreProps DriverFacts TraceFacts.

Section Facts.
Variable World : Type.
Variable page : Page World.

Lemma scan_error_patterns_raises dialog patterns : forall w e w' tr,
  scan_error_patterns page dialog patterns w = (Throw e, w', tr) ->
  is_playwright_error e = false.
Proof.
  induction patterns as [|p ps IH]; intros w e w' tr; cbn [scan_error_patterns].
  - discriminate.
  - unfold bind, try_except, cmd, ret.
    repeat (break_goal; cbv beta iota); intros H; inversion H; subst;
      try congruence; eapply IH; eassumption.
Qed.

(** X23: [is_dialog_open] never raises a Playwright error (it answers
    [False] instead).  [has_modal_error] raises one only from its first
    command, the count of dialogs: errors while it looks for the error
    texts are swallowed. *)
Theorem dialog_probes_and_errors (w w' : World) (e : exn) (tr : list Event) :
  (is_dialog_open page w = (Throw e, w', tr) -> is_playwright_error e = false)
  /\ (has_modal_error page w = (Throw e, w', tr) ->
      is_playwright_error e = true ->
      perform page (Count (First (PageRole DIALOG None))) w = (Raise e, w')
      /\ tr = [EvCmd (Count (First (PageRole DIALOG None)))]).
Proof.
  split.
  - unfold is_dialog_open, try_except, bind, cmd, ret.
    repeat (break_goal; cbv beta iota); intros H; inversion H; subst; congruence.
  - unfold has_modal_error. cbv zeta. unfold bind at 1. unfold cmd.
    destruct (perform page (Count (First (PageRole DIALOG None))) w) as [[n|e1] w1].
    + destruct (n =? 0)%nat; [discriminate|].
      destruct (scan_error_patterns page _ error_patterns w1) as [[r2 w2] t2] eqn:E2.
      intros H. inversion H. subst. intros P.
      rewrite (scan_error_patterns_raises _ _ _ _ _ _ E2) in P. discriminate.
    + intros H. inversion H. subst. intros _. split; reflexivity.
Qed.

Lemma probe_connect_buttons_answers fuel : forall label deadline w n w' tr,
  probe_connect_buttons page fuel label deadline O w = (Return n, w', tr) ->
  (n = O -> deadline <= time_ms page w')
  /\ ((0 < n)%nat ->
      exists w0, perform page (Count (PageRole BUTTON (Some label))) w0 = (Ok n, w')).
Proof.
  induction fuel as [|fuel IH]; intros label deadline w n w' tr; cbn [probe_connect_buttons].
  - discriminate.
  - unfold bind, try_except, cmd, ret, time_time.
    repeat (break_goal; cbv beta iota); intros H; inversion H; subst;
      try (split; [intros; lia|intros; lia]).
    all: try (eapply IH; eassumption).
    all: try match goal with H : (0 <? 0)%nat = true |- _ => discriminate H end.
    all: try match goal with H : (0 <? 0)%nat = true |- _ => discriminate H end.
    all: split; [intros; subst; discriminate|intros _; eauto].
Qed.

(** X24: When [discover_connect_buttons] returns a positive number, it is
    what the last count of the buttons gave; when it returns 0, at
    least [timeout] milliseconds have passed on the clock since the
    call. *)
Theorem discovery_answers (fuel : nat) (label : str) (timeout : Z) (w w' : World)
    (n : nat) (tr : list Event) :
  discover_connect_buttons page fuel label timeout w = (Return n, w', tr) ->
  (n = O -> time_ms page w + timeout <= time_ms page w')
  /\ ((0 < n)%nat ->
      exists w0, perform page (Count (PageRole BUTTON (Some label))) w0 = (Ok n, w')).
Proof.
  unfold discover_connect_buttons.
  rewrite (bind_silent _ _ _ w (time_ms page w)) by reflexivity.
  apply probe_connect_buttons_answers.
Qed.

End Facts.
End ProbeFacts.

(** * More runs on the scripted page *)

Module MoreExamples.
Local Open Scope Z_scope.
Import PyStr UrlParse Browser Run Driver Cursor.
Import UrlProps RunProps MoreProps Scripted Scenario Cases Tabs.
Import CursorMore TraceFacts NavigationFacts ButtonFacts PollFacts TallyFacts LoopMore TabFacts ProbeFacts.

Lemma scripted_clock : clock_monotone Scripted.page.
Proof.
  intros X c w. cbn [time_ms Scripted.page perform]. unfold answer.
  destruct c; destruct (hd ADone (answers w)); cbn; lia.
Qed.

Lemma scripted_pause ms : ms <= 1000 -> pause_takes Scripted.page ms.
Proof.
  intros H w. cbn [time_ms Scripted.page perform]. unfold answer.
  destruct (hd ADone (answers w)); cbn; lia.
Qed.

(** A search URL with three parameters: [q] and [sort] keep their values. *)
Lemma rewrite_keeps_other_parameters_witness :
  exists out q',
    with_page_number any_netloc search 7 = Ok out
    /\ urlsplit any_netloc out
       = Ok (with_query (mkSplit (lit "https") (lit "example.com") (lit "/people")
                                 (lit "q=a+b&page=3&sort=asc") (lit "top")) q')
    /\ parse_qs q' = dict_set PAGE [PyInt.decimal 7] (parse_qs (lit "q=a+b&page=3&sort=asc"))
    /\ forall k, k <> PAGE ->
         dict_get k (parse_qs q') = dict_get k (parse_qs (lit "q=a+b&page=3&sort=asc")).
Proof.
  apply (rewrite_keeps_other_parameters any_netloc search 7
           (mkSplit (lit "https") (lit "example.com") (lit "/people")
                    (lit "q=a+b&page=3&sort=asc") (lit "top")));
    try reflexivity.
  apply N.leb_le. reflexivity.
Defined.

(** Rewriting to 7 and then to 9 is rewriting to 9. *)
Lemma rewrite_overwrites_witness :
  with_page_number any_netloc search7 9 = with_page_number any_netloc search 9
  /\ exists out', with_page_number any_netloc search 9 = Ok out'.
Proof.
  destruct (rewrite_overwrites any_netloc search 7 9
              (mkSplit (lit "https") (lit "example.com") (lit "/people")
                       (lit "q=a+b&page=3&sort=asc") (lit "top")) search7
              eq_refl eq_refl eq_refl eq_refl) as (E & W & _).
  split; [exact E|]. apply W. apply N.leb_le. reflexivity.
Defined.

(** From page 3 the helper goes to page 4. *)
Lemma increment_steps_by_one_witness :
  exists out,
    increment_page_query any_netloc search = Ok (out, 3 + 1)
    /\ with_page_number any_netloc search (3 + 1) = Ok out
    /\ get_page_number_from_url any_netloc out = Ok (Some (3 + 1)).
Proof.
  apply (increment_steps_by_one any_netloc search 3
           (mkSplit (lit "https") (lit "example.com") (lit "/people")
                    (lit "q=a+b&page=3&sort=asc") (lit "top")));
    try reflexivity.
  apply N.leb_le. reflexivity.
Defined.

(** An invite that is sent takes one click on the submit button. *)
Lemma invite_modal_outcomes_witness :
  let run := process_invite_modal Scripted.page 30 send 8000 sent_world in
  fst (fst run) = Return Sent /\ submit_clicks send (snd run) = 1%nat.
Proof.
  intros run. split; [vm_compute; reflexivity|].
  apply (invite_modal_outcomes World Scripted.page 30 send 8000 sent_world
           (snd (fst run)) Sent (snd run)).
  vm_compute. reflexivity.
Defined.

(** The events of that run are all of the dialog. *)
Lemma modal_workflow_stays_in_dialog_witness :
  Forall (modal_event send) (snd (process_invite_modal Scripted.page 30 send 8000 sent_world)).
Proof.
  apply (proj2 (modal_workflow_stays_in_dialog World Scripted.page 30 send 8000) sent_world
           (fst (fst (process_invite_modal Scripted.page 30 send 8000 sent_world)))
           (snd (fst (process_invite_modal Scripted.page 30 send 8000 sent_world)))).
  vm_compute. reflexivity.
Defined.

(** A dialog with a Cancel button is closed by one click on it. *)
Lemma close_modal_reports_its_click_witness :
  exists pre l,
    snd (close_modal_if_open Scripted.page cancel_world) = pre ++ [EvCmd (Click l 5000)]
    /\ (l = cancel_button \/ l = close_button)
    /\ Forall is_query pre.
Proof.
  apply (close_modal_reports_its_click World Scripted.page cancel_world
           (snd (fst (close_modal_if_open Scripted.page cancel_world))) true).
  vm_compute. reflexivity.
Defined.

(** A lingering dialog without a submit button is closed and nothing is
    sent. *)
Lemma resolver_outcomes_witness :
  let run := resolve_any_open_modal Scripted.page 30 send 8000 lingering_world in
  fst (fst run) = Return ClosedWithoutSend /\ submit_clicks send (snd run) = O.
Proof.
  intros run. split; [vm_compute; reflexivity|].
  apply (resolver_outcomes World Scripted.page 30 send 8000 lingering_world
           (snd (fst run)) ClosedWithoutSend (snd run)).
  vm_compute. reflexivity.
Defined.

(** Three attempts time out: three calls of [goto], then [False]. *)
Lemma goto_with_retries_attempts_witness :
  let run := goto_with_retries Scripted.page people6 15000 3 rolled_world in
  (gotos (snd run) <= Z.to_nat 3)%nat
  /\ (fst (fst run) = Return true ->
      exists pre w0, snd run = pre ++ [EvCmd (Goto people6 15000)]
                     /\ perform Scripted.page (Goto people6 15000) w0 = (Ok tt, snd (fst run)))
  /\ (fst (fst run) = Return false -> gotos (snd run) = Z.to_nat 3).
Proof.
  intros run.
  apply (goto_with_retries_attempts World Scripted.page people6 15000 3 rolled_world).
  vm_compute. reflexivity.
Defined.

(** From page 2 the driver goes to page 3 by URL and lands there. *)
Lemma next_page_by_cursor_witness :
  let run := go_to_next_page Scripted.page any_netloc 15000 None 3 3 forward_world in
  Forall (fun e => ~ is_click e) (snd run)
  /\ (gotos (snd run) <= 3 * Z.to_nat 3)%nat
  /\ forall landed, fst (fst run) = Return (true, landed) ->
       landed = Some 3
       /\ get_page_number_from_url any_netloc (page_url Scripted.page (snd (fst run)))
          = Ok (Some 3).
Proof.
  intros run.
  apply (next_page_by_cursor World Scripted.page any_netloc 15000 None 3 3 forward_world
           (snd (fst run)) (Some 2) 3 (fst (fst run)) (snd run)).
  - reflexivity.
  - reflexivity.
  - vm_compute. reflexivity.
Defined.

(** Two buttons tagged in the same millisecond get different identifiers. *)
Lemma assigned_ids_differ_witness :
  lit "pmi-helper-1000-1" <> lit "pmi-helper-1000-2".
Proof.
  apply (assigned_ids_differ World Scripted.page
           (Nth (connect_buttons (defaults 0)) 0) (Nth (connect_buttons (defaults 0)) 1)
           1 2 untagged_world untagged_world
           (mkWorld people false 2000 []) (mkWorld people false 2000 [])
           (lit "pmi-helper-1000-1") (lit "pmi-helper-1000-2")
           [EvCmd (GetAttribute (Nth (connect_buttons (defaults 0)) 0) HELPER_ID);
            EvCmd (SetAttribute (Nth (connect_buttons (defaults 0)) 0) HELPER_ID
                                (lit "pmi-helper-1000-1"))]
           [EvCmd (GetAttribute (Nth (connect_buttons (defaults 0)) 1) HELPER_ID);
            EvCmd (SetAttribute (Nth (connect_buttons (defaults 0)) 1) HELPER_ID
                                (lit "pmi-helper-1000-2"))]).
  - reflexivity.
  - reflexivity.
  - lia.
  - lia.
  - lia.
Defined.

(** The first button is skipped, the second is selected. *)
Lemma selected_button_is_not_skipped_witness :
  let buttons := connect_buttons (defaults 0) in
  1 <= 1
  /\ id_in (lit "b2") [lit "b1"] = false
     /\ exists i, (0 <= i < 0 + 2)%nat /\ Nth buttons 1 = Nth buttons i.
Proof.
  intros buttons.
  apply (selected_button_is_not_skipped World Scripted.page 2 0 buttons 1 [lit "b1"]
           two_buttons_world (mkWorld people false 2000 [])
           (Some (Nth buttons 1, lit "b2")) 1
           [EvCmd (GetAttribute (Nth buttons 0) HELPER_ID);
            EvCmd (GetAttribute (Nth buttons 1) HELPER_ID)]).
  reflexivity.
Defined.

(** The count never drops: the poll answers [False] once six seconds have
    passed. *)
Lemma confirmation_poll_answers_witness :
  let run := wait_for_connect_change Scripted.page 20 (lit "Connect") 1 6000 stale_world in
  Forall is_query (snd run)
  /\ (fst (fst run) = Return true ->
      exists w0 n, perform Scripted.page (Count (PageRole BUTTON (Some (lit "Connect")))) w0
                   = (Ok n, snd (fst run))
                   /\ (n < 1)%nat)
  /\ (fst (fst run) = Return false ->
      time_ms Scripted.page stale_world + 6000 <= time_ms Scripted.page (snd (fst run))).
Proof.
  intros run.
  apply (confirmation_poll_answers World Scripted.page 20 (lit "Connect") 1 6000 stale_world).
  vm_compute. reflexivity.
Defined.

(** On the scripted page, where every command takes a second, seventeen
    rounds are enough for a poll of six seconds. *)
Lemma confirmation_poll_ends_witness :
  fst (fst (wait_for_connect_change Scripted.page 17 (lit "Connect") 1 6000 stale_world))
  <> OutOfFuel.
Proof.
  apply (confirmation_poll_ends World Scripted.page scripted_clock 17 (lit "Connect") 1 6000
           stale_world).
  - apply scripted_pause. lia.
  - vm_compute. lia.
Defined.

(** With the default timeouts thirty rounds are enough for a pass through
    the click loop. *)
Lemma loop_body_ends_witness :
  fst (fst (inner_body Scripted.page (defaults 0) 30 initial_state one_click_world))
  <> OutOfFuel.
Proof.
  apply (loop_body_ends World Scripted.page scripted_clock (defaults 0) 30 initial_state
           one_click_world).
  - apply scripted_pause. lia.
  - apply scripted_pause. lia.
  - vm_compute. lia.
  - vm_compute. lia.
  - vm_compute. lia.
Defined.

(** The run with one click: one click report, one page header, no skip. *)
Lemma summary_adds_up_the_reports_witness :
  let run := main Scripted.page any_netloc (defaults 1) 30 one_click_world in
  exists tr0,
    snd run = tr0 ++ [EvPrint (MsgDone 1 1 0)]
    /\ 1 = reports Clicks tr0 /\ 0 = reports Skips tr0 /\ 1 = reports Pages tr0.
Proof.
  intros run.
  apply (summary_adds_up_the_reports World Scripted.page any_netloc (defaults 1) 30
           one_click_world (snd (fst run))
           (mkState 1 1 true 1 [] 0 None (Some 2) 1 0) (snd run)).
  vm_compute. reflexivity.
Defined.

(** What that run asks of the page while it works through it. *)
Lemma page_cycle_stays_on_the_page_witness :
  Forall (loop_event (defaults 0))
         (snd (process_page Scripted.page (defaults 0) 30 initial_state one_click_world)).
Proof.
  apply (page_cycle_stays_on_the_page World Scripted.page (defaults 0) 30 initial_state
           one_click_world
           (fst (fst (process_page Scripted.page (defaults 0) 30 initial_state one_click_world)))
           (snd (fst (process_page Scripted.page (defaults 0) 30 initial_state one_click_world)))).
  vm_compute. reflexivity.
Defined.

(** With a limit of one click the run ends with one click. *)
Lemma click_limit_is_a_bound_witness :
  let run := main Scripted.page any_netloc (defaults 1) 30 one_click_world in
  Forall (at_most 1) (snd run)
  /\ forall st, fst (fst run) = Return st -> total_clicked st <= 1.
Proof.
  intros run.
  apply (click_limit_is_a_bound World Scripted.page any_netloc (defaults 1) 30
           one_click_world (snd (fst run))).
  - reflexivity.
  - vm_compute. reflexivity.
Defined.

(** With a limit of one page an empty page ends the run. *)
Lemma page_limit_is_a_bound_witness :
  pages_processed (mkState 0 1 false 1 [] 0 (Some 2) (Some 2) 0 0) <= 1.
Proof.
  apply (page_limit_is_a_bound World Scripted.page any_netloc one_page 30 empty_world
           (snd (fst (main Scripted.page any_netloc one_page 30 empty_world)))
           (mkState 0 1 false 1 [] 0 (Some 2) (Some 2) 0 0)
           (snd (main Scripted.page any_netloc one_page 30 empty_world))).
  - reflexivity.
  - vm_compute. reflexivity.
Defined.

(** With pagination off the run ends after its page, without a [goto]. *)
Lemma manual_run_stays_on_its_page_witness :
  let run := main Scripted.page any_netloc manual_args 30 empty_world in
  Forall (loop_event manual_args) (snd run)
  /\ forall st, fst (fst run) = Return st -> pages_processed st <= 1.
Proof.
  intros run.
  apply (manual_run_stays_on_its_page World Scripted.page any_netloc manual_args eq_refl 30
           empty_world (snd (fst run))).
  vm_compute. reflexivity.
Defined.

(** Two buttons at the first count: the discovery answers 2. *)
Lemma discovery_answers_witness :
  (2%nat = O -> time_ms Scripted.page found_world + 6000 <= 1000)
  /\ ((0 < 2)%nat ->
      exists w0, perform Scripted.page (Count (PageRole BUTTON (Some (lit "Connect")))) w0
                 = (Ok 2%nat, mkWorld people false 1000 [])).
Proof.
  apply (discovery_answers World Scripted.page 30 (lit "Connect") 6000 found_world
           (mkWorld people false 1000 []) 2
           [EvCmd (Count (PageRole BUTTON (Some (lit "Connect"))))]).
  vm_compute. reflexivity.
Defined.

(** The filter, in any case, finds the search tab behind the blank one. *)
Lemma pick_page_preference_witness :
  let p := mkTab 3 (lit "https://Example.com/People?page=2") false in
  exists before after,
    open_pages tabs = before ++ p :: after
    /\ ((lit "PEOPLE" <> [] /\ url_matches lower (lit "PEOPLE") p = true
         /\ Forall (fun q => url_matches lower (lit "PEOPLE") q = false) before)
        \/ ((lit "PEOPLE" = []
             \/ Forall (fun q => url_matches lower (lit "PEOPLE") q = false) (open_pages tabs))
            /\ ((has_real_url p = true /\ Forall (fun q => has_real_url q = false) before)
                \/ (before = []
                    /\ Forall (fun q => has_real_url q = false) (open_pages tabs))))).
Proof.
  intros p. apply (pick_page_preference lower tabs (lit "PEOPLE") p). reflexivity.
Defined.

End MoreExamples.

(** * The helper: what each function asks of the desk *)

Module HelperFacts.
Import PyStr Console Helper HelperProps.
Local Open Scope Z_scope.

Section Generic.
Variable rt : Runtime.
Variable World : Type.
Variable desk : Desk rt World.
Variable P : Ev rt -> Prop.

Lemma Within_ret {A} (a : A) : Within P (@ret rt World A a).
Proof. intros w r w' tr H. inversion H. constructor. Qed.

Lemma Within_raise {A} e : Within P (@raise rt World A e).
Proof. intros w r w' tr H. inversion H. constructor. Qed.

Lemma Within_cut {A} : Within P (@cut rt World A).
Proof. intros w r w' tr H. inversion H. constructor. Qed.

Lemma Within_gets {A} (f : World -> A) : Within P (@gets rt World A f).
Proof. intros w r w' tr H. inversion H. constructor. Qed.

Lemma Within_lift {A} (x : result A) : Within P (@lift rt World A x).
Proof. destruct x; intros w r w' tr H; inversion H; constructor. Qed.

Lemma Within_lift_reply {A} (x : reply A) : Within P (@lift_reply rt World A x).
Proof. destruct x; intros w r w' tr H; inversion H; constructor. Qed.

Lemma Within_bind {A B} (m : H rt World A) (k : A -> H rt World B) :
  Within P m -> (forall a, Within P (k a)) -> Within P (bind m k).
Proof.
  intros Hm Hk w r w' tr. unfold bind.
  destruct (m w) as [[[a|e|] w1] t1] eqn:E; pose proof (Hm _ _ _ _ E) as Q1.
  - destruct (k a w1) as [[r2 w2] t2] eqn:E2. pose proof (Hk _ _ _ _ _ E2) as Q2.
    intros H. inversion H. subst. apply Forall_app; auto.
  - intros H. inversion H. subst. exact Q1.
  - intros H. inversion H. subst. exact Q1.
Qed.

Lemma Within_try {A} (m : H rt World A) handles (h : Exc -> H rt World A) :
  Within P m -> (forall e, Within P (h e)) -> Within P (try_except m handles h).
Proof.
  intros Hm Hh w r w' tr. unfold try_except.
  destruct (m w) as [[[a|e|] w1] t1] eqn:E; pose proof (Hm _ _ _ _ E) as Q1.
  - intros H. inversion H. subst. exact Q1.
  - destruct (handles e).
    + destruct (h e w1) as [[r2 w2] t2] eqn:E2. pose proof (Hh _ _ _ _ _ E2) as Q2.
      intros H. inversion H. subst. apply Forall_app; auto.
    + intros H. inversion H. subst. exact Q1.
  - intros H. inversion H. subst. exact Q1.
Qed.

Lemma Within_finally {A} (m : H rt World A) (c : H rt World unit) :
  Within P m -> Within P c -> Within P (finally m c).
Proof.
  intros Hm Hc w r w' tr. unfold finally.
  destruct (m w) as [[r1 w1] t1] eqn:E; pose proof (Hm _ _ _ _ E) as Q1.
  destruct (c w1) as [[r2 w2] t2] eqn:E2; pose proof (Hc _ _ _ _ E2) as Q2.
  destruct r1; destruct r2; intros H; inversion H; subst;
    first [exact Q1 | apply Forall_app; auto].
Qed.

Lemma Within_act {X} (a : Act rt X) : (forall r, P (EvAct a r)) -> Within P (act desk a).
Proof.
  intros Ha w r w' tr. unfold act.
  destruct (answer desk a w) as [[x|e] w1]; intros H; inversion H; repeat constructor;
    apply Ha.
Qed.

Lemma Within_print l : P (EvPrint l) -> Within P (@print rt World l).
Proof. intros Hl w r w' tr H. inversion H. repeat constructor. exact Hl. Qed.

Lemma Within_log level n : P (EvLog level n) -> Within P (@log rt World level n).
Proof. intros Hl w r w' tr H. inversion H. repeat constructor. exact Hl. Qed.

Lemma Within_sub {A} (Q : Ev rt -> Prop) (m : H rt World A) :
  (forall e, Q e -> P e) -> Within Q m -> Within P m.
Proof.
  intros HQ Hm w r w' tr E. eapply Forall_impl; [exact HQ|]. exact (Hm _ _ _ _ E).
Qed.

End Generic.

Lemma Within_kinds {rt World A} (ks ks' : list Kind) (m : H rt World A) :
  incl ks ks' -> Within (of_kinds ks) m -> Within (of_kinds ks') m.
Proof. intros Hi. apply Within_sub. intros e. apply Hi. Qed.

Create HintDb within.

#[export] Hint Resolve Within_ret Within_raise Within_cut Within_gets Within_lift
  Within_lift_reply : within.

(** An event of a listed kind. *)
Ltac listed :=
  solve [ intros; unfold of_kinds; cbn [kind act_kind In];
          repeat first [left; reflexivity | right] ].

(** One list of kinds within another. *)
Ltac kinds_incl :=
  solve [ let k := fresh "k" in
          let Hk := fresh "Hk" in
          intros k Hk; cbn [In] in Hk |- *; tauto ].

(** Splits [Within P m] along the structure of [m]; what is left is [P] of
    the events [m] itself produces. *)
Ltac within_step :=
  first
    [ assumption
    | apply Within_bind; [|intros ?]
    | apply Within_try; [|intros ?]
    | apply Within_finally
    | apply Within_act
    | apply Within_print
    | apply Within_log
    | solve [auto with within]
    | progress cbv zeta
    | match goal with
      | |- Within _ (match ?x with _ => _ end) => destruct x
      | |- Within _ (if ?x then _ else _) => destruct x
      | |- Within _ (let '(_, _) := ?x in _) => destruct x
      end ].

Ltac within := repeat within_step.

(** The same, trying [known] on every piece first. *)
Ltac within_with known := repeat first [known | within_step].

(** Uses the list of kinds proved for a function. *)
Ltac by_kinds lem := eapply Within_kinds; [|eapply lem]; [kinds_incl].

Section Footprints.
Variable rt : Runtime.
Variable World : Type.
Variable desk : Desk rt World.

Lemma ask_user_kinds prompt :
  Within (of_kinds [KInput prompt]) (ask_user desk prompt).
Proof. unfold ask_user. within; listed. Qed.

Lemma recovery_kinds page :
  Within (of_kinds [KCount; KLog; KInput PromptSiteError])
         (wait_for_manual_recovery_if_site_error desk page).
Proof.
  unfold wait_for_manual_recovery_if_site_error.
  within_with ltac:(by_kinds ask_user_kinds); listed.
Qed.

Lemma scan_captcha_kinds page selectors :
  Within (of_kinds [KCount]) (scan_captcha desk page selectors).
Proof.
  induction selectors as [|s rest IH]; cbn [scan_captcha]; within; listed.
Qed.

Lemma verification_kinds page :
  Within (of_kinds [KCount; KLog; KInput PromptVerification])
         (wait_for_manual_verification_if_needed desk page).
Proof.
  unfold wait_for_manual_verification_if_needed.
  within_with ltac:(first [by_kinds ask_user_kinds
                          |by_kinds scan_captcha_kinds]); listed.
Qed.

Lemma count_kinds page label :
  Within (of_kinds [KCount]) (get_connect_button_count desk page label).
Proof. unfold get_connect_button_count. within; listed. Qed.

Lemma save_screenshot_kinds page dir :
  Within (of_kinds [KMkdir; KNow; KScreenshot]) (save_screenshot desk page dir).
Proof. unfold save_screenshot. within; listed. Qed.

Lemma poll_ui_change_kinds fuel page label deadline before connected :
  Within (of_kinds [KCount; KWaitForTimeout])
         (poll_ui_change desk fuel page label deadline before connected).
Proof.
  induction fuel as [|fuel IH]; cbn [poll_ui_change]; [apply Within_cut|].
  within_with ltac:(by_kinds count_kinds); listed.
Qed.

Lemma wait_for_ui_change_kinds fuel page label timeout before connected :
  Within (of_kinds [KCount; KWaitForTimeout])
         (wait_for_ui_change desk fuel page label timeout before connected).
Proof.
  unfold wait_for_ui_change.
  within_with ltac:(apply poll_ui_change_kinds).
Qed.

Lemma click_one_connect_kinds fuel page cfg :
  Within (of_kinds click_kinds) (click_one_connect desk fuel page cfg).
Proof.
  unfold click_one_connect, click_kinds, after_click_kinds.
  within_with ltac:(first [by_kinds save_screenshot_kinds
                          |by_kinds wait_for_ui_change_kinds]); listed.
Qed.

End Footprints.
End HelperFacts.

(** * The helper: what its loops ask of the desk *)

Module HelperLoops.
Import PyStr Console Helper HelperProps HelperFacts.
Local Open Scope Z_scope.

Section Loops.
Variable rt : Runtime.
Variable World : Type.
Variable desk : Desk rt World.

Lemma click_is_connect_click fuel page cfg :
  Within (connect_click (button_label cfg)) (click_one_connect desk fuel page cfg).
Proof.
  unfold click_one_connect.
  within_with ltac:(first
    [ apply (Within_sub _ _ _ (of_kinds [KMkdir; KNow; KScreenshot]));
      [|apply save_screenshot_kinds]
    | apply (Within_sub _ _ _ (of_kinds [KCount; KWaitForTimeout]));
      [|apply wait_for_ui_change_kinds] ]);
    try (intros; cbn; auto; fail).
  - intros [X c r| |]; [destruct c|..]; unfold of_kinds; cbn; intuition discriminate.
  - intros [X c r| |]; [destruct c|..]; unfold of_kinds; cbn; intuition discriminate.
Qed.

(** Of a listed kind, and if a click then a click on the Connect button. *)
Local Notation "'Loop' ks label" :=
  (Within (fun e => of_kinds ks e /\ connect_click label e))
  (at level 10, ks at level 9, label at level 9, only parsing).

Lemma piece_events {A} ks0 ks label (m : H rt World A) :
  ~ In KClick ks0 -> incl ks0 ks -> Within (of_kinds ks0) m -> Loop ks label m.
Proof.
  intros Hn Hi. apply Within_sub. intros e He. split; [exact (Hi _ He)|].
  destruct e as [X c r| |]; cbn; auto. destruct c; cbn; auto.
  exfalso. apply Hn. exact He.
Qed.

(** A piece of a loop with a known list of kinds, none of them a click. *)
Ltac piece lem :=
  eapply piece_events; [| |eapply lem];
  [ unfold select_kinds; cbn [In]; intuition discriminate
  | unfold select_kinds, body_kinds, loop_kinds, click_kinds, after_click_kinds;
    kinds_incl ].

Ltac event :=
  solve [ intros; split;
          [ unfold body_kinds, loop_kinds, click_kinds, after_click_kinds; listed
          | cbn; auto ] ].

Lemma click_loop_events fuel page cfg : forall n,
  Loop (loop_kinds (button_label cfg)) (button_label cfg)
       (click_loop desk fuel page cfg n).
Proof.
  induction fuel as [|fuel IH]; intros n; cbn [click_loop]; [apply Within_cut|].
  within_with ltac:(first
    [ apply IH
    | piece ask_user_kinds
    | piece recovery_kinds
    | piece verification_kinds
    | piece count_kinds
    | apply Within_sub with (Q := fun e => of_kinds click_kinds e
                                          /\ connect_click (button_label cfg) e);
      [ intros e [H1 H2]; split; [|exact H2]; revert H1; unfold of_kinds, loop_kinds;
        cbn [In]; tauto
      | intros w r w' tr E; apply Forall_and;
        [ exact (click_one_connect_kinds _ _ desk _ _ _ _ _ _ _ E)
        | exact (click_is_connect_click _ _ _ _ _ _ _ E) ] ] ]);
    event.
Qed.

Lemma print_tabs_events open_pages : forall idx,
  Within (of_kinds [KPrint]) (print_tabs desk idx open_pages).
Proof.
  induction open_pages as [|p rest IH]; intros idx; cbn [print_tabs]; within; listed.
Qed.

Lemma choose_tab_events fuel open_pages :
  Within (of_kinds [KPrint; KInput PromptSelectTab]) (choose_tab desk fuel open_pages).
Proof.
  induction fuel as [|fuel IH]; cbn [choose_tab]; [apply Within_cut|].
  within_with ltac:(by_kinds ask_user_kinds); listed.
Qed.

Lemma select_initial_page_events fuel context cfg :
  Within (of_kinds select_kinds) (select_initial_page desk fuel context cfg).
Proof.
  unfold select_initial_page.
  within_with ltac:(first [ unfold select_kinds; by_kinds print_tabs_events
                          | unfold select_kinds; by_kinds choose_tab_events
                          | unfold select_kinds; by_kinds ask_user_kinds ]);
    unfold select_kinds; listed.
Qed.

Lemma launch_channels_events cfg dir channels : forall attempted,
  Within (of_kinds launch_kinds) (launch_channels desk cfg dir channels attempted).
Proof.
  induction channels as [|c rest IH]; intros attempted; cbn [launch_channels];
    unfold launch_once; within; unfold launch_kinds; listed.
Qed.

Lemma launch_profiles_events cfg dirs channels : forall attempted,
  Within (of_kinds launch_kinds) (launch_profiles desk cfg dirs channels attempted).
Proof.
  induction dirs as [|d rest IH]; intros attempted; cbn [launch_profiles];
    within_with ltac:(apply launch_channels_events); unfold launch_kinds; listed.
Qed.

Lemma launch_events cfg :
  Within (of_kinds launch_kinds) (launch_context_with_fallback desk cfg).
Proof. unfold launch_context_with_fallback. apply launch_profiles_events. Qed.

Lemma close_context_events context :
  Within (of_kinds [KLog; KClose]) (close_context desk context).
Proof. unfold close_context. within; listed. Qed.

Section Sessions.
Variable netloc_ok : str -> bool.

Lemma session_events fuel page cfg :
  Loop (body_kinds (button_label cfg)) (button_label cfg)
       (session desk netloc_ok fuel page cfg).
Proof.
  induction fuel as [|fuel IH]; cbn [session]; [apply Within_cut|].
  within_with ltac:(first
    [ apply IH
    | piece ask_user_kinds
    | piece recovery_kinds
    | piece verification_kinds
    | piece count_kinds
    | apply Within_sub with (Q := fun e => of_kinds (loop_kinds (button_label cfg)) e
                                          /\ connect_click (button_label cfg) e);
      [ intros e [H1 H2]; split; [|exact H2]; revert H1; unfold of_kinds, body_kinds;
        cbn [In]; tauto
      | apply click_loop_events ] ]);
    event.
Qed.

Lemma attended_events fuel context cfg :
  Loop (body_kinds (button_label cfg)) (button_label cfg)
       (attended desk netloc_ok fuel context cfg).
Proof.
  unfold attended.
  within_with ltac:(first
    [ apply session_events
    | piece select_initial_page_events ]);
    event.
Qed.

End Sessions.
End Loops.
End HelperLoops.

(** * The helper acts on the user's word *)

Module ConsentFacts.
Import PyStr Console Helper HelperProps HelperFacts HelperLoops.
Local Open Scope Z_scope.

Section Latch.
Variable rt : Runtime.
Variable World : Type.
Variable desk : Desk rt World.
Variable arms : Ev rt -> option bool.
Variable fires : Ev rt -> bool.

Lemma through_app t1 : forall s t2,
  through arms fires s (t1 ++ t2)
  = match through arms fires s t1 with
    | Some s' => through arms fires s' t2
    | None => None
    end.
Proof.
  induction t1 as [|e t1 IH]; intros s t2; cbn [through app]; [reflexivity|].
  destruct (latch arms fires s e); [apply IH|reflexivity].
Qed.

Lemma through_idle tr : forall s,
  Forall (idle arms fires) tr -> through arms fires s tr = Some s.
Proof.
  induction tr as [|e tr IH]; intros s Hi; cbn [through]; [reflexivity|].
  inversion Hi as [|? ? [Hf Ha] Hr]; subst. unfold latch. rewrite Hf, Ha. auto.
Qed.

Lemma through_latched tr : forall s s',
  through arms fires s tr = Some s' -> Latched arms fires s tr.
Proof.
  induction tr as [|x tr IH]; intros s s' Ht pre e post Hs Hf.
  - destruct pre; discriminate Hs.
  - cbn [through] in Ht. destruct (latch arms fires s x) as [s1|] eqn:Eg; [|discriminate].
    destruct pre as [|y pre]; cbn [app] in Hs; injection Hs as Hx Hs; subst.
    + right. unfold latch in Eg. rewrite Hf in Eg. destruct s; [|discriminate].
      split; [reflexivity|constructor].
    + destruct (IH _ _ Ht _ _ _ eq_refl Hf) as [(pre1 & a & pre2 & -> & Ha & Hi)|[-> Hi]].
      * left. exists (y :: pre1), a, pre2. auto.
      * unfold latch in Eg. destruct (fires y) eqn:Fy.
        -- destruct s; discriminate Eg.
        -- destruct (arms y) as [b|] eqn:Ay.
           ++ injection Eg as ->. left. exists [], y, pre. auto.
           ++ injection Eg as ->. right. split; [reflexivity|].
              constructor; [split; assumption|exact Hi].
Qed.

Lemma Obeys_ret {A} (P : bool -> Prop) (Q : A -> bool -> Prop) (a : A) :
  (forall s, P s -> Q a s) -> Obeys arms fires P Q (@ret rt World A a).
Proof.
  intros HQ w r w' tr s E Hs. inversion E; subst. exists s. split; [reflexivity|].
  intros a' Ha. injection Ha as <-. auto.
Qed.

Lemma Obeys_raise {A} (P : bool -> Prop) (Q : A -> bool -> Prop) e :
  Obeys arms fires P Q (@raise rt World A e).
Proof.
  intros w r w' tr s E Hs. inversion E; subst. exists s. split; [reflexivity|].
  intros a' Ha. discriminate Ha.
Qed.

Lemma Obeys_cut {A} (P : bool -> Prop) (Q : A -> bool -> Prop) :
  Obeys arms fires P Q (@cut rt World A).
Proof.
  intros w r w' tr s E Hs. inversion E; subst. exists s. split; [reflexivity|].
  intros a' Ha. discriminate Ha.
Qed.

Lemma Obeys_bind {A B} (P : bool -> Prop) (Q : A -> bool -> Prop) (R : B -> bool -> Prop)
    (m : H rt World A) (k : A -> H rt World B) :
  Obeys arms fires P Q m -> (forall a, Obeys arms fires (Q a) R (k a)) ->
  Obeys arms fires P R (bind m k).
Proof.
  intros Hm Hk w r w' tr s. unfold bind.
  destruct (m w) as [[[a|e|] w1] t1] eqn:E; intros H Hs;
    destruct (Hm _ _ _ _ _ E Hs) as (s1 & T1 & Q1).
  - destruct (k a w1) as [[r2 w2] t2] eqn:E2. inversion H; subst.
    destruct (Hk a _ _ _ _ _ E2 (Q1 _ eq_refl)) as (s2 & T2 & Q2).
    exists s2. rewrite through_app, T1. auto.
  - inversion H; subst. exists s1. split; [exact T1|discriminate].
  - inversion H; subst. exists s1. split; [exact T1|discriminate].
Qed.

Lemma Obeys_try {A} (P : bool -> Prop) (Q : A -> bool -> Prop)
    (m : H rt World A) handles (h : Exc -> H rt World A) :
  Obeys arms fires P Q m -> (forall e, Obeys arms fires (fun _ => True) Q (h e)) ->
  Obeys arms fires P Q (try_except m handles h).
Proof.
  intros Hm Hh w r w' tr s. unfold try_except.
  destruct (m w) as [[[a|e|] w1] t1] eqn:E; intros H Hs;
    destruct (Hm _ _ _ _ _ E Hs) as (s1 & T1 & Q1).
  - inversion H; subst. exists s1. auto.
  - destruct (handles e).
    + destruct (h e w1) as [[r2 w2] t2] eqn:E2. inversion H; subst.
      destruct (Hh e _ _ _ _ s1 E2 I) as (s2 & T2 & Q2).
      exists s2. rewrite through_app, T1. auto.
    + inversion H; subst. exists s1. split; [exact T1|discriminate].
  - inversion H; subst. exists s1. split; [exact T1|discriminate].
Qed.

Lemma Obeys_finally {A} (P : bool -> Prop) (Q : A -> bool -> Prop)
    (Q' : unit -> bool -> Prop) (m : H rt World A) (c : H rt World unit) :
  Obeys arms fires P Q m -> Obeys arms fires (fun _ => True) Q' c ->
  Obeys arms fires P (fun _ _ => True) (finally m c).
Proof.
  intros Hm Hc w r w' tr s. unfold finally.
  destruct (m w) as [[r1 w1] t1] eqn:E; intros H Hs.
  destruct (Hm _ _ _ _ _ E Hs) as (s1 & T1 & Q1).
  destruct (c w1) as [[r2 w2] t2] eqn:E2.
  destruct (Hc _ _ _ _ s1 E2 I) as (s2 & T2 & Q2).
  destruct r1; destruct r2; inversion H; subst;
    first [ exists s2; rewrite through_app, T1; split; [exact T2|intros; exact I]
          | exists s1; split; [exact T1|intros; exact I] ].
Qed.

Lemma Obeys_idle {A} (P : bool -> Prop) (m : H rt World A) :
  Within (idle arms fires) m -> Obeys arms fires P (fun _ => P) m.
Proof.
  intros Hm w r w' tr s E Hs. exists s. split; [|auto].
  apply through_idle. exact (Hm _ _ _ _ E).
Qed.

Lemma Obeys_conseq {A} (P P' : bool -> Prop) (Q Q' : A -> bool -> Prop)
    (m : H rt World A) :
  Obeys arms fires P Q m -> (forall s, P' s -> P s) -> (forall a s, Q a s -> Q' a s) ->
  Obeys arms fires P' Q' m.
Proof.
  intros Hm HP HQ w r w' tr s E Hs.
  destruct (Hm _ _ _ _ _ E (HP _ Hs)) as (s1 & T1 & Q1). exists s1. split; auto.
Qed.

Lemma Obeys_idle_any {A} (P : bool -> Prop) (m : H rt World A) :
  Within (idle arms fires) m -> Obeys arms fires P (fun _ _ => True) m.
Proof.
  intros Hm. apply Obeys_conseq with (P := P) (Q := fun _ => P); auto.
  apply Obeys_idle. exact Hm.
Qed.

Lemma Obeys_fire {X} (a : Act rt X) :
  (forall r, fires (EvAct a r) = true) ->
  Obeys arms fires (fun s => s = true) (fun _ _ => True) (act desk a).
Proof.
  intros Hf w r w' tr s E ->. unfold act in E.
  destruct (answer desk a w) as [[x|e] w1]; inversion E; subst; cbn [through]; unfold latch;
    rewrite Hf; exists false; auto.
Qed.

Lemma Obeys_latched {A} (m : H rt World A) (P : bool -> Prop) (Q : A -> bool -> Prop)
    s w r w' tr :
  Obeys arms fires P Q m -> P s -> m w = (r, w', tr) -> Latched arms fires s tr.
Proof.
  intros Hm Hs E. destruct (Hm _ _ _ _ _ E Hs) as (s1 & T1 & _).
  exact (through_latched _ _ _ T1).
Qed.

End Latch.

(** An answer to a question of the latch sets it. *)
Lemma ask_answers {rt World} (desk : Desk rt World) asks accept fires prompt
    (P : bool -> Prop) :
  asks prompt = true ->
  (forall r, fires (EvAct (Input prompt) r) = false) ->
  Obeys (answered rt asks accept) fires P (fun a s => s = accept a) (ask_user desk prompt).
Proof.
  intros Ha Hf w r w' tr s E _. unfold ask_user, bind, act in E.
  destruct (answer desk (Input prompt) w) as [[raw|e] w1]; inversion E; subst;
    cbn [through app]; unfold latch; rewrite Hf; cbn [answered]; rewrite Ha.
  - eexists. split; [reflexivity|]. intros a H. inversion H. reflexivity.
  - eexists. split; [reflexivity|]. intros a H. discriminate H.
Qed.

(** The events of the listed kinds are idle for the latch at hand. *)
Ltac kinds_idle :=
  let e := fresh "e" in
  let He := fresh "He" in
  intros e He;
  unfold of_kinds, body_kinds, loop_kinds, click_kinds, after_click_kinds,
    select_kinds, launch_kinds in He;
  destruct e as [? [] ?| |]; cbn [kind act_kind In] in He;
  repeat (destruct He as [He|He]);
  try discriminate He; try contradiction;
  try (injection He as <-);
  split; reflexivity.

(** A piece whose kinds are idle. *)
Ltac idle_by lem := eapply Within_sub; [|eapply lem]; kinds_idle.

Ltac idle_event := solve [ intros; split; reflexivity ].

(** The next piece is idle by [tac]; go on with the rest. *)
Ltac pass tac := eapply Obeys_bind; [apply Obeys_idle; tac|intros ?].

Ltac pass_events := pass ltac:(within; idle_event).

Section Clicks.
Variable rt : Runtime.
Variable World : Type.
Variable desk : Desk rt World.
Variable netloc_ok : str -> bool.

Local Abbreviation Click_latch := (Obeys (click_answer rt) is_click).

Lemma click_one_connect_latch fuel page cfg :
  Click_latch (fun s => s = true) (fun _ _ => True) (click_one_connect desk fuel page cfg).
Proof.
  unfold click_one_connect.
  pass_events. destruct (a =? 0)%nat; [apply Obeys_ret; auto|].
  pass_events. pass_events.
  eapply Obeys_bind; [apply Obeys_fire; reflexivity|intros ?].
  apply Obeys_idle_any.
  within_with ltac:(first [idle_by save_screenshot_kinds|idle_by wait_for_ui_change_kinds]);
    idle_event.
Qed.

Lemma click_loop_latch fuel page cfg : forall n,
  Click_latch (fun _ => True) (fun _ _ => True) (click_loop desk fuel page cfg n).
Proof.
  induction fuel as [|fuel IH]; intros n; cbn [click_loop]; [apply Obeys_cut|].
  destruct (0 <? n)%nat; [|apply Obeys_ret; auto].
  eapply Obeys_bind; [apply ask_answers; reflexivity|intros answer].
  cbv beta. destruct (eqb answer KEY_Q); cbn [negb].
  { apply Obeys_idle_any. within; idle_event. }
  pass_events. destruct a.
  { apply Obeys_idle_any. within; idle_event. }
  pass ltac:(idle_by recovery_kinds). destruct (negb a); [apply Obeys_ret; auto|].
  pass ltac:(idle_by verification_kinds). destruct (negb a0); [apply Obeys_ret; auto|].
  eapply Obeys_bind with (Q := fun _ _ => True).
  - apply Obeys_try.
    + eapply Obeys_bind; [apply click_one_connect_latch|intros ?]. apply Obeys_ret; auto.
    + intros e. apply Obeys_idle_any.
      within_with ltac:(first [idle_by ask_user_kinds|idle_by count_kinds]); idle_event.
  - intros [[|]|n'|].
    + eapply Obeys_bind with (Q := fun _ _ => True);
        [apply Obeys_idle_any; idle_by count_kinds|intros n'].
      eapply Obeys_bind with (Q := fun _ _ => True);
        [apply Obeys_idle_any; within; idle_event|intros _]. apply IH.
    + apply Obeys_idle_any. within; idle_event.
    + apply IH.
    + apply Obeys_ret; auto.
Qed.

Lemma session_click_latch fuel page cfg :
  Click_latch (fun _ => True) (fun _ _ => True) (session desk netloc_ok fuel page cfg).
Proof.
  induction fuel as [|fuel IH]; cbn [session]; [apply Obeys_cut|].
  pass_events. destruct a.
  { apply Obeys_idle_any. within; idle_event. }
  pass ltac:(idle_by recovery_kinds). destruct (negb a); [apply Obeys_ret; auto|].
  pass ltac:(idle_by verification_kinds). destruct (negb a0); [apply Obeys_ret; auto|].
  pass ltac:(idle_by count_kinds). pass_events. pass_events.
  eapply Obeys_bind; [apply click_loop_latch|intros flow].
  destruct flow; [apply Obeys_ret; auto|].
  pass ltac:(idle_by ask_user_kinds).
  destruct (negb (eqb a4 KEY_Y)).
  { apply Obeys_idle_any. within; idle_event. }
  pass_events. pass_events. destruct a6 as [next_url next_page_number].
  pass_events. pass_events. pass_events. apply IH.
Qed.

Lemma attended_click_latch fuel context cfg :
  Click_latch (fun _ => True) (fun _ _ => True) (attended desk netloc_ok fuel context cfg).
Proof.
  unfold attended.
  pass ltac:(idle_by select_initial_page_events).
  pass ltac:(within; idle_event). apply session_click_latch.
Qed.

Lemma run_click_latch fuel cfg :
  Click_latch (fun _ => True) (fun _ _ => True) (run desk netloc_ok fuel cfg).
Proof.
  unfold run.
  pass_events. pass_events. pass_events. pass_events.
  eapply Obeys_finally with (Q := fun _ _ => True) (Q' := fun _ _ => True).
  - pass ltac:(idle_by launch_events).
    eapply Obeys_finally with (Q := fun _ _ => True) (Q' := fun _ _ => True).
    + apply Obeys_try; [apply attended_click_latch|].
      intros e. apply Obeys_idle_any. within; idle_event.
    + apply Obeys_idle_any. idle_by close_context_events.
  - apply Obeys_idle_any. within; idle_event.
Qed.

Lemma run_clicks fuel cfg :
  Within (connect_click (button_label cfg)) (run desk netloc_ok fuel cfg).
Proof.
  unfold run.
  within_with ltac:(first
    [ apply Within_sub with (Q := fun e => of_kinds (body_kinds (button_label cfg)) e
                                          /\ connect_click (button_label cfg) e);
      [intros e [_ He]; exact He|apply attended_events]
    | apply Within_sub with (Q := of_kinds launch_kinds);
      [|apply launch_events]
    | apply Within_sub with (Q := of_kinds [KLog; KClose]);
      [|apply close_context_events] ]);
    try (intros; exact I).
  - intros [X c r| |]; [destruct c|..]; unfold of_kinds; cbn; intuition discriminate.
  - intros [X c r| |]; [destruct c|..]; unfold of_kinds; cbn; intuition discriminate.
Qed.

(** X25: the helper clicks on the user's word only.  In every run, whatever
    the desk answers and however the run ends, each click comes after a
    click question that the user answered with something other than
    [q]: the last answer to that question before the click is such a
    yes, and no other click lies in between.  And every click is a
    click on the first button with the configured label, with a timeout
    of ten seconds. *)
Theorem clicks_need_consent fuel cfg w r w' tr :
  run desk netloc_ok fuel cfg w = (r, w', tr) ->
  Latched (click_answer rt) is_click false tr
  /\ Forall (connect_click (button_label cfg)) tr.
Proof.
  intros E. split.
  - eapply Obeys_latched; [apply run_click_latch|exact I|exact E].
  - exact (run_clicks fuel cfg _ _ _ _ E).
Qed.

End Clicks.

Section Navigation.
Variable rt : Runtime.
Variable World : Type.
Variable desk : Desk rt World.
Variable netloc_ok : str -> bool.

Local Abbreviation Nav_latch := (Obeys (next_answer rt) is_goto).

Lemma session_nav_latch fuel page cfg :
  Nav_latch (fun _ => True) (fun _ _ => True) (session desk netloc_ok fuel page cfg).
Proof.
  induction fuel as [|fuel IH]; cbn [session]; [apply Obeys_cut|].
  pass_events. destruct a.
  { apply Obeys_idle_any. within; idle_event. }
  pass ltac:(idle_by recovery_kinds). destruct (negb a); [apply Obeys_ret; auto|].
  pass ltac:(idle_by verification_kinds). destruct (negb a0); [apply Obeys_ret; auto|].
  pass ltac:(idle_by count_kinds). pass_events. pass_events.
  pass ltac:(eapply Within_sub; [|eapply click_loop_events];
             intros e [He _]; revert e He; kinds_idle).
  destruct a4; [apply Obeys_ret; auto|].
  eapply Obeys_bind; [apply ask_answers; reflexivity|intros answer].
  cbv beta. destruct (eqb answer KEY_Y); cbn [negb].
  2:{ apply Obeys_idle_any. within; idle_event. }
  pass_events. pass_events. destruct a5 as [next_url next_page_number].
  pass_events.
  eapply Obeys_bind; [apply Obeys_fire; reflexivity|intros ?].
  pass_events. apply IH.
Qed.

Lemma attended_nav_latch fuel context cfg :
  Nav_latch (fun s => s = negb (use_open_page cfg)) (fun _ _ => True)
           (attended desk netloc_ok fuel context cfg).
Proof.
  unfold attended.
  pass ltac:(idle_by select_initial_page_events).
  eapply Obeys_bind with (Q := fun _ _ => True); [|intros _; apply session_nav_latch].
  destruct (use_open_page cfg); cbn [negb].
  - apply Obeys_idle_any. within; idle_event.
  - pass_events.
    eapply Obeys_bind; [apply Obeys_fire; reflexivity|intros ?].
    apply Obeys_idle_any. within; idle_event.
Qed.

Lemma run_nav_latch fuel cfg :
  Nav_latch (fun s => s = negb (use_open_page cfg)) (fun _ _ => True)
           (run desk netloc_ok fuel cfg).
Proof.
  unfold run.
  pass_events. pass_events. pass_events. pass_events.
  eapply Obeys_finally with (Q := fun _ _ => True) (Q' := fun _ _ => True).
  - pass ltac:(idle_by launch_events).
    eapply Obeys_finally with (Q := fun _ _ => True) (Q' := fun _ _ => True).
    + apply Obeys_try; [apply attended_nav_latch|].
      intros e. apply Obeys_idle_any. within; idle_event.
    + apply Obeys_idle_any. idle_by close_context_events.
  - apply Obeys_idle_any. within; idle_event.
Qed.

(** X26: the helper navigates on the user's word only.  In every run each
    [page.goto] comes after a next-page question answered [y], with no
    other [goto] and no later answer to that question in between; or,
    when [use_open_page] is off and only then, it is the first [goto]
    of the run and no next-page question was answered before it (the
    start URL). *)
Theorem navigation_needs_consent fuel cfg w r w' tr :
  run desk netloc_ok fuel cfg w = (r, w', tr) ->
  Latched (next_answer rt) is_goto (negb (use_open_page cfg)) tr.
Proof.
  intros E.
  eapply Obeys_latched; [apply run_nav_latch|reflexivity|exact E].
Qed.

End Navigation.
End ConsentFacts.

(** * The helper: the browser it launches and the tab it works on *)

Module HelperSpecs.
Import PyStr Console Helper HelperProps HelperFacts HelperLoops.
Local Open Scope Z_scope.

Section Cases.
Variable rt : Runtime.
Variable World : Type.
Variable desk : Desk rt World.

Lemma bind_cases {A B} (m : H rt World A) (k : A -> H rt World B) w r w' tr :
  bind m k w = (r, w', tr) ->
  (exists a w1 t1 t2, m w = (Done a, w1, t1) /\ k a w1 = (r, w', t2) /\ tr = t1 ++ t2)
  \/ (exists e, m w = (Raised e, w', tr) /\ r = Raised e)
  \/ (m w = (Cut, w', tr) /\ r = Cut).
Proof.
  unfold bind. destruct (m w) as [[[a|e|] w1] t1].
  - destruct (k a w1) as [[r2 w2] t2] eqn:E2. intros H. inversion H; subst.
    left. exists a, w1, t1, t2. auto.
  - intros H. inversion H; subst. right. left. exists e. auto.
  - intros H. inversion H; subst. right. right. auto.
Qed.

Lemma act_cases {X} (a : Act rt X) w r w' tr :
  act desk a w = (r, w', tr) ->
  exists x, tr = [EvAct a x]
            /\ r = match x with
                   | Fine v => Done v
                   | Fails e => Raised e
                   end.
Proof.
  unfold act. destruct (answer desk a w) as [[v|e] w1]; intros H; inversion H; subst.
  - exists (Fine v). auto.
  - exists (Fails e). auto.
Qed.

Lemma log_cases level n w (r : Outcome unit) w' tr :
  @log rt World level n w = (r, w', tr) -> tr = [EvLog level n] /\ r = Done tt /\ w' = w.
Proof. intros H. inversion H. auto. Qed.

Lemma ret_cases {A} (a : A) w (r : Outcome A) w' tr :
  @ret rt World A a w = (r, w', tr) -> tr = [] /\ r = Done a /\ w' = w.
Proof. intros H. inversion H. auto. Qed.

Lemma launches_app (t1 t2 : list (Ev rt)) :
  launches (t1 ++ t2) = (launches t1 + launches t2)%nat.
Proof. unfold launches. rewrite filter_app, length_app. reflexivity. Qed.

Lemma clicks_app (t1 t2 : list (Ev rt)) : clicks (t1 ++ t2) = (clicks t1 + clicks t2)%nat.
Proof. unfold clicks. rewrite filter_app, length_app. reflexivity. Qed.

Lemma clicks_none ks (tr : list (Ev rt)) :
  ~ In KClick ks -> Forall (of_kinds ks) tr -> clicks tr = O.
Proof.
  intros Hn Hf. unfold clicks. induction Hf as [|e tr He Hf IH]; [reflexivity|].
  cbn [filter]. destruct (is_click e) eqn:Ec; [|exact IH]. exfalso. apply Hn.
  destruct e as [X [] r| |]; try discriminate Ec. exact He.
Qed.

End Cases.

(** Case analysis on a [bind] that ran: [E1] is the run of its first part,
    with the events [t1], and [E] becomes the run of the rest, with the
    events [t2]. *)
Tactic Notation "split_bind" hyp(E) "as" ident(E1) ident(t1) ident(t2) :=
  let a := fresh "a" in
  let w1 := fresh "w" in
  let e := fresh "e" in
  apply bind_cases in E;
  destruct E as [(a & w1 & t1 & t2 & E1 & E & ->)|[(e & E & ->)|[E ->]]].

Section Launch.
Variable rt : Runtime.
Variable World : Type.
Variable desk : Desk rt World.

Lemma launch_once_spec cfg dir channel attempted w r w' tr :
  launch_once desk cfg dir channel attempted w = (r, w', tr) ->
  launches tr = 1%nat
  /\ match r with
     | Done (Some c, _) =>
         exists d ch post,
           tr = EvAct (Launch d ch) (Fine c) :: post /\ Forall (of_kinds [KLog]) post
     | Done (None, attempted') =>
         Forall failed_launch tr
         /\ List.length attempted' = S (List.length attempted)
     | Raised e => exists d ch, tr = [EvAct (Launch d ch) (Fails e)]
     | Cut => False
     end.
Proof.
  unfold launch_once, try_except, bind, act, log, ret.
  destruct (answer desk _ w) as [[c|e] w1].
  - destruct (negb (path_eqb rt dir (user_data_dir cfg)));
      destruct (negb (eqb channel (browser_channel cfg)));
      cbn; intros H; inversion H; subst; (split; [reflexivity|]);
      do 2 eexists; eexists; (split; [reflexivity|]);
      repeat constructor.
  - destruct (is_playwright e) eqn:Ep; cbn; intros H; inversion H; subst;
      (split; [reflexivity|]).
    + split; [|rewrite length_app; cbn; lia].
      repeat constructor. exact Ep.
    + eauto.
Qed.

Lemma launch_channels_spec cfg dir channels : forall attempted w r w' tr,
  launch_channels desk cfg dir channels attempted w = (r, w', tr) ->
  (launches tr <= List.length channels)%nat
  /\ match r with
     | Done (Some c, _) =>
         exists pre d ch post,
           tr = pre ++ EvAct (Launch d ch) (Fine c) :: post
           /\ Forall failed_launch pre /\ Forall (of_kinds [KLog]) post
     | Done (None, attempted') =>
         launches tr = List.length channels
         /\ Forall failed_launch tr
         /\ List.length attempted' = (List.length attempted + List.length channels)%nat
     | Raised e =>
         exists pre X (a : Act rt X),
           tr = pre ++ [EvAct a (Fails e)] /\ Forall failed_launch pre
     | Cut => False
     end.
Proof.
  induction channels as [|channel rest IH]; intros attempted w r w' tr E;
    cbn [launch_channels] in E.
  - inversion E; subst. cbn. repeat split; auto.
  - split_bind E as E0 t1 t2.
    + destruct (launch_once_spec _ _ _ _ _ _ _ _ E0) as [L1 S1].
      destruct a as [[c|] attempted']; cbn [List.length].
      * inversion E; subst. rewrite app_nil_r, L1. split; [lia|].
        destruct S1 as (d & ch & post & -> & Hp). exists [], d, ch, post. auto.
      * destruct S1 as [F1 A1]. destruct (IH _ _ _ _ _ E) as [L2 S2].
        rewrite launches_app, L1. split; [lia|].
        destruct r as [[[c|] att]|e|].
        -- destruct S2 as (pre & d & ch & post & -> & Fp & Hp).
           exists (t1 ++ pre), d, ch, post. rewrite app_assoc.
           repeat split; auto. apply Forall_app; auto.
        -- destruct S2 as (L3 & F3 & A3). repeat split; [lia| |lia].
           apply Forall_app; auto.
        -- destruct S2 as (pre & X & a & -> & Fp).
           exists (t1 ++ pre), X, a. rewrite app_assoc. split; [reflexivity|].
           apply Forall_app; auto.
        -- exact S2.
    + destruct (launch_once_spec _ _ _ _ _ _ _ _ E) as [L1 (d & ch & ->)].
      cbn [List.length]. split; [cbn; lia|]. exists [], _, (Launch d ch). auto.
    + destruct (launch_once_spec _ _ _ _ _ _ _ _ E) as [_ []].
Qed.

Lemma launches_mkdir (dir : Path rt) x (tr : list (Ev rt)) :
  launches (EvAct (Mkdir dir) x :: tr) = launches tr.
Proof. reflexivity. Qed.

Lemma launch_profiles_spec cfg dirs channels : forall attempted w r w' tr,
  launch_profiles desk cfg dirs channels attempted w = (r, w', tr) ->
  (launches tr <= List.length dirs * List.length channels)%nat
  /\ match r with
     | Done c =>
         exists pre d ch post,
           tr = pre ++ EvAct (Launch d ch) (Fine c) :: post
           /\ Forall failed_launch pre /\ Forall (of_kinds [KLog]) post
     | Raised e =>
         (exists attempted',
            e = launch_failure attempted'
            /\ List.length attempted'
               = (List.length attempted + List.length dirs * List.length channels)%nat
            /\ launches tr = (List.length dirs * List.length channels)%nat
            /\ Forall failed_launch tr)
         \/ (exists pre X (a : Act rt X),
               tr = pre ++ [EvAct a (Fails e)] /\ Forall failed_launch pre)
     | Cut => False
     end.
Proof.
  induction dirs as [|dir rest IH]; intros attempted w r w' tr E;
    cbn [launch_profiles] in E.
  - inversion E; subst. cbn. split; [lia|]. left. exists attempted.
    repeat split; auto.
  - cbn [List.length]. split_bind E as E0 t1 t2.
    + apply act_cases in E0. destruct E0 as (x & -> & Hx).
      destruct x as [[]|e]; [|discriminate Hx]. clear Hx.
      cbn [app]. rewrite launches_mkdir.
      split_bind E as E1 t3 t4.
      * destruct (launch_channels_spec _ _ _ _ _ _ _ _ E1) as [L1 S1].
        destruct a0 as [[c|] attempted'].
        -- inversion E; subst. rewrite app_nil_r.
           split; [lia|].
           destruct S1 as (pre & d & ch & post & -> & Fp & Hp).
           exists (EvAct (Mkdir dir) (Fine tt) :: pre), d, ch, post.
           repeat split; auto. constructor; [exact I|exact Fp].
        -- destruct S1 as (L2 & F2 & A2). destruct (IH _ _ _ _ _ E) as [L3 S3].
           rewrite launches_app. split; [lia|].
           destruct r as [c|e|].
           ++ destruct S3 as (pre & d & ch & post & -> & Fp & Hp).
              exists (EvAct (Mkdir dir) (Fine tt) :: t3 ++ pre), d, ch, post.
              cbn [app]. rewrite <- app_assoc. repeat split; auto.
              constructor; [exact I|]. apply Forall_app; auto.
           ++ destruct S3 as [(att & -> & A3 & L4 & F4)|(pre & X & c & -> & Fp)].
              ** left. exists att. repeat split; [lia|lia|].
                 constructor; [exact I|]. apply Forall_app; auto.
              ** right. exists (EvAct (Mkdir dir) (Fine tt) :: t3 ++ pre), X, c.
                 cbn [app]. rewrite <- app_assoc. split; [reflexivity|].
                 constructor; [exact I|]. apply Forall_app; auto.
           ++ exact S3.
      * destruct (launch_channels_spec _ _ _ _ _ _ _ _ E) as [L1 S1].
        split; [lia|].
        right. destruct S1 as (pre & X & c & -> & Fp).
        exists (EvAct (Mkdir dir) (Fine tt) :: pre), X, c. split; [reflexivity|].
        constructor; [exact I|exact Fp].
      * destruct (launch_channels_spec _ _ _ _ _ _ _ _ E) as [_ []].
    + apply act_cases in E. destruct E as (x & -> & Hx).
      destruct x as [[]|e']; inversion Hx; subst.
      split; [cbn; lia|]. right. exists [], _, (Mkdir dir). auto.
    + apply act_cases in E. destruct E as (x & _ & Hx). destruct x; discriminate Hx.
Qed.

(** X30: [launch_context_with_fallback] always ends, and launches at most
    twice per channel (the configured channel, and Chromium if that is
    another).  When it returns a context, the context is the answer of
    its last launch, every launch before failed with a Playwright
    error, and only log records follow.  When it raises, either every
    one of the [2 * n] launches failed with a Playwright error and the
    exception is the [RuntimeError] that lists [2 * n] attempts, or the
    exception is the one its last call raised. *)
Theorem launch_falls_back cfg w r w' tr :
  launch_context_with_fallback desk cfg w = (r, w', tr) ->
  let n := if eqb (browser_channel cfg) CHROMIUM then 1%nat else 2%nat in
  (launches tr <= 2 * n)%nat
  /\ match r with
     | Done c =>
         exists pre d ch post,
           tr = pre ++ EvAct (Launch d ch) (Fine c) :: post
           /\ Forall failed_launch pre /\ Forall (of_kinds [KLog]) post
     | Raised e =>
         (exists attempted,
            e = launch_failure attempted
            /\ List.length attempted = (2 * n)%nat
            /\ launches tr = (2 * n)%nat
            /\ Forall failed_launch tr)
         \/ (exists pre X (a : Act rt X),
               tr = pre ++ [EvAct a (Fails e)] /\ Forall failed_launch pre)
     | Cut => False
     end.
Proof.
  intros E n. unfold launch_context_with_fallback in E.
  apply launch_profiles_spec in E. subst n.
  destruct (eqb (browser_channel cfg) CHROMIUM); cbn [negb List.length] in E;
    exact E.
Qed.

End Launch.
End HelperSpecs.

(** * The helper: one click, one tab, one context *)

Module HelperRun.
Import PyStr Console Helper HelperProps HelperFacts HelperLoops HelperSpecs.
Local Open Scope Z_scope.

Section Run.
Variable rt : Runtime.
Variable World : Type.
Variable desk : Desk rt World.

Lemma bind_done {A B} (m : H rt World A) (k : A -> H rt World B) w b w' tr :
  bind m k w = (Done b, w', tr) ->
  exists a w1 t1 t2, m w = (Done a, w1, t1) /\ k a w1 = (Done b, w', t2) /\ tr = t1 ++ t2.
Proof.
  intros E. apply bind_cases in E.
  destruct E as [(a & w1 & t1 & t2 & E1 & E & ->)|[(e & E & H)|[E H]]];
    [|discriminate H|discriminate H].
  exists a, w1, t1, t2. auto.
Qed.

Lemma item_in {A} (l : list A) i x : item l i = Ok x -> In x l.
Proof.
  unfold item. destruct (nth_error l i) eqn:E; intros H; inversion H; subst.
  eapply nth_error_In. exact E.
Qed.

Lemma lift_done {A} (x : result A) w a w' tr :
  @lift rt World A x w = (Done a, w', tr) -> x = Ok a /\ tr = [] /\ w' = w.
Proof. destruct x; intros H; inversion H; auto. Qed.

(** X28: [click_one_connect] clicks at most once, however it ends.  It
    returns [False] only when its first count found no button, and then
    it did nothing else.  It returns [True] only after these four
    calls, all successful, in this order: the count of the buttons (at
    least one), the count of the Connected buttons, the scroll to the
    first button and the click on it; what follows is the screenshot,
    the polls, the log records and the pause. *)
Theorem one_click_at_most fuel page cfg w r w' tr :
  click_one_connect desk fuel page cfg w = (r, w', tr) ->
  let buttons := ByRole BUTTON (button_label cfg) in
  (clicks tr <= 1)%nat
  /\ (r = Done false -> tr = [EvAct (Count page buttons) (Fine O)])
  /\ (r = Done true ->
      exists n c post,
        tr = EvAct (Count page buttons) (Fine (S n))
             :: EvAct (Count page (ByRole BUTTON (lit "Connected"))) (Fine c)
             :: EvAct (ScrollIntoView page (FirstOf buttons) 5000) (Fine tt)
             :: EvAct (Click page (FirstOf buttons) 10000) (Fine tt)
             :: post
        /\ Forall (of_kinds after_click_kinds) post).
Proof.
  intros E buttons. unfold click_one_connect in E. fold buttons in E.
  split_bind E as E0 t1 t2.
  2,3: apply act_cases in E; destruct E as (x & -> & Hx); destruct x; inversion Hx;
       (split; [cbn; lia|split; discriminate]).
  apply act_cases in E0. destruct E0 as (x & -> & Hx).
  destruct x as [n|]; inversion Hx; subst. clear Hx.
  destruct n as [|n]; cbn [Nat.eqb] in E.
  { inversion E; subst. split; [cbn; lia|]. split; [reflexivity|discriminate]. }
  split_bind E as E1 t3 t4.
  2,3: apply act_cases in E; destruct E as (x & -> & Hx); destruct x; inversion Hx;
       (split; [cbn; lia|split; discriminate]).
  apply act_cases in E1. destruct E1 as (x & -> & Hx).
  destruct x as [c|]; inversion Hx; subst. clear Hx.
  split_bind E as E2 t5 t6.
  2,3: apply act_cases in E; destruct E as (x & -> & Hx); destruct x; inversion Hx;
       (split; [cbn; lia|split; discriminate]).
  apply act_cases in E2. destruct E2 as (x & -> & Hx).
  destruct x as [[]|]; inversion Hx; subst. clear Hx.
  split_bind E as E3 t7 t8.
  2,3: apply act_cases in E; destruct E as (x & -> & Hx); destruct x; inversion Hx;
       (split; [cbn; lia|split; discriminate]).
  apply act_cases in E3. destruct E3 as (x & -> & Hx).
  destruct x as [[]|]; inversion Hx; subst. clear Hx.
  match type of E with
  | ?m _ = _ => assert (Hk : Within (of_kinds after_click_kinds) m)
  end.
  { unfold after_click_kinds.
    within_with ltac:(first [by_kinds save_screenshot_kinds
                            |by_kinds wait_for_ui_change_kinds]); listed. }
  pose proof (Hk _ _ _ _ E) as Hpost.
  split; [|split].
  - cbn [app]. change (clicks (?a :: ?b :: ?c :: ?d :: t8)) with (S (clicks t8)).
    rewrite (clicks_none _ after_click_kinds t8); [lia| |exact Hpost].
    unfold after_click_kinds. cbn [In]. intuition discriminate.
  - intros ->. exfalso.
    repeat (apply bind_done in E; destruct E as (? & ? & ? & ? & _ & E & _)).
    discriminate E.
  - intros ->. exists n, c, t8. auto.
Qed.

Lemma choose_tab_in fuel open_pages : forall w p w' tr,
  choose_tab desk fuel open_pages w = (Done p, w', tr) -> In p open_pages.
Proof.
  induction fuel as [|fuel IH]; intros w p w' tr E; cbn [choose_tab] in E;
    [discriminate E|].
  apply bind_done in E. destruct E as (choice & w1 & t1 & t2 & _ & E & _).
  destruct (eqb choice KEY_Q); [discriminate E|].
  destruct (eqb choice []).
  { apply lift_done in E. destruct E as [E _]. exact (item_in _ _ _ E). }
  destruct (py_isdigit rt choice).
  - apply bind_done in E. destruct E as (idx & w2 & t3 & t4 & _ & E & _).
    destruct ((1 <=? idx) && (idx <=? Z.of_nat (List.length open_pages))).
    + apply lift_done in E. destruct E as [E _]. exact (item_in _ _ _ E).
    + apply bind_done in E. destruct E as (? & ? & ? & ? & _ & E & _).
      exact (IH _ _ _ _ E).
  - apply bind_done in E. destruct E as (? & ? & ? & ? & _ & E & _).
    exact (IH _ _ _ _ E).
Qed.

Lemma no_new_page ks (tr : list (Ev rt)) :
  ~ In KNewPage ks -> Forall (of_kinds ks) tr -> Forall (fun e => kind e <> KNewPage) tr.
Proof.
  intros Hn. apply Forall_impl. intros e He Hk. apply Hn. rewrite <- Hk. exact He.
Qed.

(** X29: the tab [select_initial_page] returns.  If the context has open
    tabs at the call, the tab is one of them and no new page is opened;
    without [use_open_page] it is the first, and nothing is asked or
    printed.  If the context has none, the tab is the one
    [context.new_page()] gave, and that call came first. *)
Theorem initial_page_is_an_open_tab fuel context cfg w p w' tr :
  select_initial_page desk fuel context cfg w = (Done p, w', tr) ->
  match filter (fun q => negb (tab_closed desk w q)) (context_pages desk w context) with
  | [] => exists post, tr = EvAct (NewPage context) (Fine p) :: post
  | first :: rest =>
      In p (first :: rest)
      /\ Forall (fun e => kind e <> KNewPage) tr
      /\ (use_open_page cfg = false -> p = first /\ tr = [])
  end.
Proof.
  intros E. unfold select_initial_page in E.
  apply bind_done in E. destruct E as (open_pages & w1 & t1 & t2 & E1 & E & ->).
  inversion E1; subst. clear E1. cbn [app].
  destruct (filter _ _) as [|first rest] eqn:Ef.
  - destruct (use_open_page cfg).
    + apply bind_done in E. destruct E as (q & w2 & t3 & t4 & E1 & E & ->).
      apply act_cases in E1. destruct E1 as (x & -> & Hx).
      destruct x as [v|]; inversion Hx; subst.
      apply bind_done in E. destruct E as (answer & w3 & t5 & t6 & _ & E & ->).
      destruct (eqb answer KEY_Q); inversion E; subst. eexists. reflexivity.
    + apply act_cases in E. destruct E as (x & -> & Hx).
      destruct x as [v|]; inversion Hx; subst. eexists. reflexivity.
  - destruct (use_open_page cfg).
    + split; [|split; [|discriminate]].
      * apply bind_done in E. destruct E as (? & ? & ? & ? & _ & E & _).
        apply bind_done in E. destruct E as (? & ? & ? & ? & _ & E & _).
        exact (choose_tab_in _ _ _ _ _ _ E).
      * assert (Hk : Within (of_kinds [KPrint; KInput PromptSelectTab])
                       (print LineOpenTabs ;;; print_tabs desk 1 (first :: rest) ;;;
                        choose_tab desk fuel (first :: rest))%desk).
        { within_with ltac:(first [by_kinds choose_tab_events
                                  |by_kinds print_tabs_events]); listed. }
        eapply no_new_page; [|exact (Hk _ _ _ _ E)]. cbn [In]. intuition discriminate.
    + inversion E; subst. split; [left; reflexivity|]. split; [constructor|auto].
Qed.

Lemma finally_cases {A} (m : H rt World A) (c : H rt World unit) w r w' tr :
  finally m c w = (r, w', tr) -> r <> Cut ->
  exists r1 w1 t1 r2 t2,
    m w = (r1, w1, t1) /\ r1 <> Cut /\ c w1 = (r2, w', t2) /\ r2 <> Cut
    /\ tr = t1 ++ t2.
Proof.
  unfold finally. destruct (m w) as [[r1 w1] t1] eqn:Em.
  destruct (c w1) as [[r2 w2] t2] eqn:Ec. intros H Hr. exists r1, w1, t1, r2, t2.
  destruct r1; destruct r2; inversion H; subst;
    try (exfalso; apply Hr; reflexivity);
    repeat split; auto; discriminate.
Qed.

Lemma kinds_no_context ks (tr : list (Ev rt)) :
  ~ In KLaunch ks -> ~ In KClose ks -> Forall (of_kinds ks) tr -> Forall no_context tr.
Proof.
  intros Hl Hc. apply Forall_impl. intros e He. split.
  - intros Hk. apply Hc. rewrite <- Hk. exact He.
  - intros c (d & ch & ->). apply Hl. exact He.
Qed.

Lemma failed_no_context (tr : list (Ev rt)) :
  Forall (of_kinds launch_kinds) tr -> Forall failed_launch tr -> Forall no_context tr.
Proof.
  intros Hk Hf. induction Hk as [|e tr He Hk IH]; [constructor|].
  inversion Hf as [|? ? Fe Ft]; subst. constructor; [|exact (IH Ft)]. split.
  - intros Hc. unfold of_kinds, launch_kinds in He. rewrite Hc in He. cbn [In] in He.
    intuition discriminate.
  - intros c (d & ch & ->). exact Fe.
Qed.

Lemma lifecycle_prefix (t1 t2 : list (Ev rt)) :
  Forall no_context t1 -> Lifecycle t2 -> Lifecycle (t1 ++ t2).
Proof.
  intros H1 [H2|(pre & d & ch & c & mid & x & post & -> & Hp & Hm & Ho)].
  - left. apply Forall_app; auto.
  - right. exists (t1 ++ pre), d, ch, c, mid, x, post. rewrite app_assoc.
    repeat split; auto. apply Forall_app; auto.
Qed.

Lemma lifecycle_bind {A B} (m : H rt World A) (k : A -> H rt World B) w r w' tr :
  Within no_context m ->
  (forall a w1 t2, k a w1 = (r, w', t2) -> Lifecycle t2) ->
  bind m k w = (r, w', tr) -> Lifecycle tr.
Proof.
  intros Hm Hk E. split_bind E as E1 t1 t2.
  - apply lifecycle_prefix; [exact (Hm _ _ _ _ E1)|exact (Hk _ _ _ E)].
  - left. exact (Hm _ _ _ _ E).
  - left. exact (Hm _ _ _ _ E).
Qed.

Lemma close_context_spec c w r w' tr :
  close_context desk c w = (r, w', tr) ->
  exists x post,
    tr = EvLog INFO (NoteClosing rt) :: EvAct (Close c) x :: post
    /\ Forall (of_kinds [KLog; KPwStop]) post.
Proof.
  unfold close_context, bind, log, try_except, act.
  destruct (answer desk (Close c) w) as [[[]|e] w1]; cbn.
  - intros H. inversion H; subst. do 2 eexists. split; [reflexivity|constructor].
  - destruct (is_playwright e); cbn.
    + destruct (has_sub _ _); cbn; intros H; inversion H; subst;
        do 2 eexists; (split; [reflexivity|]); repeat constructor.
    + intros H. inversion H; subst. do 2 eexists. split; [reflexivity|constructor].
Qed.

Section Body.
Variable netloc_ok : str -> bool.

Lemma body_no_context fuel context cfg :
  Within no_context
    (try_except (attended desk netloc_ok fuel context cfg) is_keyboard_interrupt
                (fun _ => log INFO (NoteQuitBeforeLoop rt))).
Proof.
  intros w r w' tr E.
  apply (kinds_no_context (KLog :: body_kinds (button_label cfg)));
    [unfold body_kinds, loop_kinds, click_kinds, after_click_kinds; cbn [In];
     intuition discriminate..|].
  revert w r w' tr E.
  change (Within (of_kinds (KLog :: body_kinds (button_label cfg)))
            (try_except (attended desk netloc_ok fuel context cfg) is_keyboard_interrupt
                        (fun _ => log INFO (NoteQuitBeforeLoop rt)))).
  within_with ltac:(eapply Within_sub; [|apply attended_events];
                    intros e [He _]; right; exact He).
  listed.
Qed.

Lemma attended_closed fuel context cfg w r w' tr :
  finally (try_except (attended desk netloc_ok fuel context cfg) is_keyboard_interrupt
                      (fun _ => log INFO (NoteQuitBeforeLoop rt)))
          (close_context desk context) w = (r, w', tr) ->
  r <> Cut ->
  exists mid x post,
    tr = mid ++ EvAct (Close context) x :: post
    /\ Forall no_context mid /\ Forall (of_kinds [KLog; KPwStop]) post.
Proof.
  intros E Hr. apply finally_cases in E; [|exact Hr].
  destruct E as (r1 & w1 & t1 & r2 & t2 & E1 & _ & E2 & _ & ->).
  apply close_context_spec in E2. destruct E2 as (x & post & -> & Hp).
  exists (t1 ++ [EvLog INFO (NoteClosing rt)]), x, post.
  rewrite <- app_assoc. split; [reflexivity|]. split; [|exact Hp].
  apply Forall_app. split; [exact (body_no_context _ _ _ _ _ _ _ E1)|].
  repeat constructor; [discriminate|]. intros c (d & ch & H). discriminate H.
Qed.

(** X27: the context that was launched is closed.  In a run that ends, by a
    return or by an exception, either no launch succeeded and nothing
    is closed, or exactly one launch succeeded and [context.close()] is
    called on the context it gave, once, later; after that call the run
    only logs and leaves Playwright. *)
Theorem context_is_closed fuel cfg w r w' tr :
  run desk netloc_ok fuel cfg w = (r, w', tr) -> r <> Cut -> Lifecycle tr.
Proof.
  intros E Hr. unfold run in E.
  assert (Hact : forall X (a : Act rt X),
             act_kind a <> KLaunch -> act_kind a <> KClose -> Within no_context (act desk a)).
  { intros X a Hl Hc. apply Within_act. intros x. split; [exact Hc|].
    intros c (d & ch & H). apply Hl. change (kind (EvAct a x) = KLaunch).
    rewrite H. reflexivity. }
  assert (Hlog : forall level n, Within no_context (@log rt World level n)).
  { intros level n. apply Within_log. split; [discriminate|].
    intros c (d & ch & H). discriminate H. }
  eapply lifecycle_bind; [| |exact E]; [apply Hact; cbn; discriminate|]. clear E. intros [] w1 t1 E.
  eapply lifecycle_bind; [| |exact E]; [apply Hact; cbn; discriminate|]. clear E. intros [] w2 t2 E.
  eapply lifecycle_bind; [| |exact E];
    [destruct (is_onedrive_path rt (user_data_dir cfg)); [apply Hlog|apply Within_ret]|].
  clear E. intros [] w3 t3 E.
  eapply lifecycle_bind; [| |exact E]; [apply Hact; cbn; discriminate|]. clear E. intros [] w4 t4 E.
  apply finally_cases in E; [|exact Hr].
  destruct E as (r1 & w5 & t5 & r2 & t6 & E1 & Hr1 & E2 & _ & ->).
  apply act_cases in E2. destruct E2 as (x & -> & _).
  split_bind E1 as E0 t7 t8.
  - pose proof (launch_events _ _ _ _ _ _ _ _ E0) as Kl.
    unfold launch_context_with_fallback in E0. apply launch_profiles_spec in E0.
    destruct E0 as [_ (pre & d & ch & post & -> & Fp & Hp)].
    apply attended_closed in E1; [|exact Hr1].
    destruct E1 as (mid & y & post' & -> & Hm & Hp').
    right. exists pre, d, ch, a, (post ++ mid), y, (post' ++ [EvAct PwStop x]).
    split; [rewrite <- !app_assoc; cbn [app]; rewrite <- ?app_assoc; reflexivity|].
    split; [|split].
    + apply Forall_app in Kl. destruct Kl as [Kl _]. exact (failed_no_context _ Kl Fp).
    + apply Forall_app. split; [|exact Hm].
      eapply kinds_no_context; [| |exact Hp]; cbn [In]; intuition discriminate.
    + apply Forall_app. split; [exact Hp'|].
      constructor; [right; left; reflexivity|constructor].
  - left. pose proof (launch_events _ _ _ _ _ _ _ _ E1) as Kl.
    unfold launch_context_with_fallback in E1. apply launch_profiles_spec in E1. destruct E1 as [_ S1].
    apply Forall_app. split.
    + destruct S1 as [(att & _ & _ & _ & Hf)|(pre & X & a & -> & Hf)].
      * exact (failed_no_context _ Kl Hf).
      * apply Forall_app in Kl. destruct Kl as [Kl Ka].
        apply Forall_app. split; [exact (failed_no_context _ Kl Hf)|].
        repeat constructor.
        -- inversion Ka as [|? ? Ha _]; subst. intros Hc.
           unfold of_kinds, launch_kinds in Ha. rewrite Hc in Ha. cbn [In] in Ha.
           intuition discriminate.
        -- intros c (d & ch & H).
           apply (f_equal (fun e : Ev rt =>
                             match e with
                             | EvAct _ (Fine _) => true
                             | _ => false
                             end)) in H.
           discriminate H.
    + repeat constructor; [discriminate|]. intros c (d & ch & H). discriminate H.
  - exfalso. apply Hr1. reflexivity.
Qed.

End Body.
End Run.
End HelperRun.

(** * Runs of the helper on the scripted desk *)

Module HelperExamples.
Import PyStr Console Helper HelperProps HelperCases UrlProps.
Import ConsentFacts HelperSpecs HelperRun.
Local Open Scope Z_scope.

(** The user presses Enter once and the helper clicks once. *)
Lemma clicks_need_consent_witness :
  let ran := run desk any_netloc 5 (settings false) one_click in
  Latched (click_answer plain_runtime) is_click false (snd ran)
  /\ Forall (connect_click (button_label (settings false))) (snd ran).
Proof.
  intros ran.
  apply (clicks_need_consent plain_runtime World desk any_netloc 5 (settings false)
           one_click (fst (fst ran)) (snd (fst ran)) (snd ran)).
  vm_compute. reflexivity.
Defined.

(** The start URL is opened unasked; the next page only after the Y. *)
Lemma navigation_needs_consent_witness :
  let ran := run desk any_netloc 5 (settings false) next_page in
  Latched (next_answer plain_runtime) is_goto (negb (use_open_page (settings false)))
        (snd ran).
Proof.
  intros ran.
  apply (navigation_needs_consent plain_runtime World desk any_netloc 5 (settings false)
           next_page (fst (fst ran)) (snd (fst ran)) (snd ran)).
  vm_compute. reflexivity.
Defined.

(** Chrome fails, Chromium launches, and that context is closed. *)
Lemma context_is_closed_witness :
  Lifecycle (snd (run desk any_netloc 5 (settings false) one_click)).
Proof.
  apply (context_is_closed plain_runtime World desk any_netloc 5 (settings false)
           one_click (fst (fst (run desk any_netloc 5 (settings false) one_click)))
           (snd (fst (run desk any_netloc 5 (settings false) one_click)))).
  - vm_compute. reflexivity.
  - vm_compute. discriminate.
Defined.

(** One button: one click on it, and [True]. *)
Lemma one_click_at_most_witness :
  let ran := click_one_connect desk 5 7%nat (settings false) one_button in
  let buttons := ByRole BUTTON (button_label (settings false)) in
  (clicks (snd ran) <= 1)%nat
  /\ (fst (fst ran) = Done false -> snd ran = [EvAct (Count 7%nat buttons) (Fine O)])
  /\ (fst (fst ran) = Done true ->
      exists n c post,
        snd ran
        = EvAct (Count 7%nat buttons) (Fine (S n))
          :: EvAct (Count 7%nat (ByRole BUTTON (lit "Connected"))) (Fine c)
          :: EvAct (ScrollIntoView 7%nat (FirstOf buttons) 5000) (Fine tt)
          :: EvAct (Click 7%nat (FirstOf buttons) 10000) (Fine tt)
          :: post
        /\ Forall (of_kinds after_click_kinds) post).
Proof.
  intros ran.
  apply (one_click_at_most plain_runtime World desk 5 7%nat (settings false) one_button
           (fst (fst ran)) (snd (fst ran)) (snd ran)).
  vm_compute. reflexivity.
Defined.

(** The user types 2 and gets the second of the two open tabs. *)
Lemma initial_page_is_an_open_tab_witness :
  let ran := select_initial_page desk 5 0%nat (settings true) two_tabs in
  In 8%nat [7%nat; 8%nat]
  /\ Forall (fun e => kind e <> KNewPage) (snd ran)
  /\ (use_open_page (settings true) = false -> 8%nat = 7%nat /\ snd ran = []).
Proof.
  intros ran.
  apply (initial_page_is_an_open_tab plain_runtime World desk 5 0%nat (settings true)
           two_tabs 8%nat (snd (fst ran)) (snd ran)).
  vm_compute. reflexivity.
Defined.

(** Chrome fails with a Playwright error, Chromium gives the context. *)
Lemma launch_falls_back_witness :
  let ran := launch_context_with_fallback desk (settings false) one_click in
  (launches (snd ran) <= 2 * 2)%nat
  /\ exists pre d ch post,
       snd ran = pre ++ EvAct (Launch d ch) (Fine 3%nat) :: post
       /\ Forall failed_launch pre /\ Forall (of_kinds [KLog]) post.
Proof.
  intros ran.
  apply (launch_falls_back plain_runtime World desk (settings false) one_click
           (Done 3%nat) (snd (fst ran)) (snd ran)).
  vm_compute. reflexivity.
Defined.

End HelperExamples.
